(* ===== verification/_CoqProject ===== *)
-Q . S2P
Prelude.v
Numeric.v
Leb.v
Opcode.v
BlockAddr.v
Float.v
Instance.v
Machine.v
Interp.v
MachineFacts.v
OpSpec.v
Sandbox.v
Traps.v
Compile.v
Conditional.v
Aerogel.v
AerogelFacts.v
Calls.v
Validator.v
Walk.v
LoaderTotal.v
ValidatorGaps.v
Ems.v
EmsHeader.v
EmsTree.v
EmsFree.v
EmsChunks.v
EmsHeap.v
EmsAlloc.v
EmsRelease.v
EmsInit.v
