(* ===== verification/Prelude.v ===== *)
(** * WebAssembly Micro Runtime with Aerogel access control: verification library

    The repository is a WebAssembly runtime for small devices (wasm-micro-
    runtime) extended with Aerogel, an access control for the sensors and
    actuators of the device.  A module file is loaded and validated once
    ([core/iwasm/interpreter/wasm_loader.c]); instantiating it allocates its
    memory, tables and globals ([wasm_runtime.c]); an interpreter executes
    the byte code in place ([wasm_interp_classic.c]), calling native
    functions for what the sandbox imports; Aerogel meters the processor
    time and the memory of a module and stands between applications and
    peripherals ([wasm_runtime.c], [core/iwasm/common/wasm_runtime_common.c]).

    This library models the path of a function body through that system -
    validator, block address scanner, interpreter - and Aerogel, in the
    build for the classic interpreter with [WASM_ENABLE_LABELS_AS_VALUES].

    ** Files

    - [Prelude]: C integers as [Z] with their wrap-around ([uwrap], [swrap]),
      the result type [res] ([Ok], an error, undefined behaviour of C), the
      state monad [M] of the interpreter, tactics and list lemmas.
    - [Numeric]: the integer helpers and macros of the interpreter
      ([clz32] ... [popcount64], [rotl], [rotr], [DEF_OP_*], divisions).
    - [Leb]: the LEB128 readers of the loader (bounds-checked) and of the
      interpreter (unchecked).
    - [Opcode]: [wasm_opcode.h], the enumeration and the dispatch table.
    - [BlockAddr]: [wasm_loader_find_block_addr] and its cache.
    - [Float]: the floating point opcodes over the Standard Library's
      executable IEEE-754.
    - [Instance]: the records of [wasm_runtime.h], [wasm_enlarge_memory], and
      Aerogel's budget checks [check_cpu_consumption], [check_memory_usage]
      and [check_illegal_memory_boundary].
    - [Machine]: the local variables of the interpreter loop, the WASM stack
      and its frames ([wasm_exec_env.h], [wasm_interp.h]), the macros.
    - [Interp]: one definition per opcode handler; the dispatch loop [run];
      calls, returns, traps; [wasm_interp_call_wasm].
    - [MachineFacts], [OpSpec], [Sandbox], [Traps], [Compile], [Conditional],
      [Calls]: theorems on the interpreter.
    - [Aerogel], [AerogelFacts]: specification sheets and their parser, the
      checks, the natives; theorems on them.
    - [Validator]: [wasm_loader_prepare_bytecode] with its two stacks.
    - [Walk], [LoaderTotal], [ValidatorGaps]: instruction boundaries; the
      validator's termination; what it lets through.

    Definitions keep the names of the C functions, macros and fields where
    they are not taken; an opcode handler is [op_<opcode>] in [Interp] and
    [op_<opcode>_checked] in [Validator].

    ** How the code is rendered

    C integers are [Z], wrapped where the code's type wraps.  Pointers into
    the WASM stack, the byte code and the memory block are [Z] addresses.
    The stack of the interpreter is a map from cell addresses to 32-bit
    cells, with the frame headers beside it; a frame's block stack is a
    list.  [goto got_exception], [goto out_of_bounds], [return_func] and the
    other labels of the interpreter loop are constructors of a label type,
    and a handler returns where it jumps.  What C leaves undefined is
    [None] in [M] and [Undef] in [res], distinct from every trap.

    Three classes are parameters of the definitions that use them:
    [Platform] (the clock, the system allocator, offsets of C structures,
    the build flags, the bits of a computed NaN), [Natives] (native
    functions, which may change everything they are handed), [LoaderHeap]
    (which allocations of the validator succeed, structure sizes).  No law
    is assumed of them beyond the hypotheses a theorem names.

    ** What is shown

    - The composition.  [Conditional.compile_correct]: the interpreter
      running the translation of an expression - constants, locals, all
      numeric opcodes, loads, nested conditionals - pushes its value or stops
      with its trap.  Conditionals exercise the block stack, the scanner
      and the cache, with metering on.
    - Opcodes.  [OpSpec] gives a table of operands, result and function for
      every numeric opcode and proves the handlers implement it; [Numeric]
      and [Float] hold what the helpers compute: bit counting, rotation,
      division traps, shifts off and on x86, exact truncations.
    - Memory.  [Sandbox]: which accesses the bounds check lets through with
      up to 2 GiB of linear memory, that it is not a sandbox beyond, what
      loads read and stores write.
      [Instance]: [wasm_enlarge_memory] keeps instances well-formed.
    - Control.  [Calls]: what a call builds and a return restores; how a
      branch unwinds.  [Traps]: why an activation ends, what
      [wasm_interp_call_wasm] leaves behind, what the energy meter bounds.
      [BlockAddr.find_block_addr_correct]: the scanner on structured code.
    - Encodings.  [Leb]: exactness, agreement of both readers, round trip.
    - Loading.  [LoaderTotal.loader_terminates]: validation terminates on
      every byte string, although it jumps and rewrites.
      [ValidatorGaps]: it does not confine operand and block stacks - two
      accepted bodies, one of which reads its caller's operands.
    - Aerogel.  [AerogelFacts.accesses_authorised]: every access to a
      peripheral passed the checks of its row, and the accounts stay well-
      formed; what denials and counters do to later accesses; the natives'
      undefined behaviour; the parser's round trip and its overflow.

    ** Fuel and bounds

    Loops that consume input take the length of that input as fuel and the
    theorems on them show it is never exhausted: [scan] and [skip_leb_n]
    (the bytes of the buffer), the bit loops of [Numeric] (the width, with
    [Numeric.bit_counts_correct]), [check_loop] (the bytes of the body,
    with [loader_terminates]), [check_labels] (one byte a label at least),
    the parsers of [Aerogel] (the characters of the sheet).  [run] and
    [wasm_interp_call_wasm] count opcodes, since byte code may loop for
    ever: theorems about them hold for every fuel, and [compile_correct]
    gives the number of steps that is enough.

    ** Not modelled

    The fast interpreter, the ahead-of-time runtime, loader and compiler are
    other builds over generated code or LLVM; [libc-wasi], the mathematics
    library, cJSON and CoAP are vendored; the platform layer, the application
    manager and framework, samples and tools are system calls, threads and
    glue.  Still to be modelled: the sections of a module file
    ([load_from_sections]), instantiation of globals, tables and segments,
    the allocator of linear memory heaps ([core/shared/mem-alloc/ems]), the
    containers of [core/shared/utils], the attribute containers and RESTful
    packing of the application framework, and the marshalling of native
    calls.  The freeing of the validator's context and its error text
    buffer are left out of [Validator]. *)

From stdpp Require Export base numbers list gmap strings.
From Stdlib Require Export ZArith Lia.

#[global] Open Scope Z_scope.

(** ** Machine words

    A [w]-bit C integer is a [Z]; [uwrap] and [swrap] are the conversions to
    the unsigned and the two's complement signed type of width [w]. *)

Definition uwrap (w z : Z) : Z := z mod 2 ^ w.
Definition swrap (w z : Z) : Z := (z + 2 ^ (w - 1)) mod 2 ^ w - 2 ^ (w - 1).

Declare Scope cint_scope.
Delimit Scope cint_scope with cint.
Abbreviation u8 := (uwrap 8).
Abbreviation u16 := (uwrap 16).
Abbreviation u32 := (uwrap 32).
Abbreviation u64 := (uwrap 64).
Abbreviation s8 := (swrap 8).
Abbreviation s16 := (swrap 16).
Abbreviation s32 := (swrap 32).
Abbreviation s64 := (swrap 64).
Abbreviation UINT32_MAX := 4294967295 (only parsing).

Definition in_u (w z : Z) : Prop := 0 <= z < 2 ^ w.
Definition in_s (w z : Z) : Prop := - 2 ^ (w - 1) <= z < 2 ^ (w - 1).

Create HintDb cint.
Create Rewrite HintDb cint.

Lemma pow2_pos w : 0 <= w -> 0 < 2 ^ w.
Proof. intros. apply Z.pow_pos_nonneg; lia. Qed.

Lemma pow2_split w : 0 < w -> 2 ^ w = 2 * 2 ^ (w - 1).
Proof. intros. rewrite <- Z.pow_succ_r by lia. f_equal. lia. Qed.

Lemma uwrap_range w z : 0 <= w -> in_u w (uwrap w z).
Proof. intros. apply Z.mod_pos_bound, pow2_pos. done. Qed.

Lemma uwrap_id w z : in_u w z -> uwrap w z = z.
Proof. intros. by apply Z.mod_small. Qed.

Lemma uwrap_idemp w z : 0 <= w -> uwrap w (uwrap w z) = uwrap w z.
Proof. intros. apply uwrap_id, uwrap_range. done. Qed.

Lemma swrap_range w z : 0 < w -> in_s w (swrap w z).
Proof.
  intros Hw. unfold swrap, in_s.
  pose proof (Z.mod_pos_bound (z + 2 ^ (w - 1)) (2 ^ w) (pow2_pos w ltac:(lia))).
  pose proof (pow2_split w Hw). lia.
Qed.

Lemma swrap_id w z : 0 < w -> in_s w z -> swrap w z = z.
Proof.
  intros Hw [H1 H2]. unfold swrap. pose proof (pow2_split w Hw).
  rewrite Z.mod_small by lia. lia.
Qed.

Lemma swrap_idemp w z : 0 < w -> swrap w (swrap w z) = swrap w z.
Proof. intros. apply swrap_id; [done|]. by apply swrap_range. Qed.

Lemma swrap_case w z :
  0 < w -> in_u w z ->
  swrap w z = if z <? 2 ^ (w - 1) then z else z - 2 ^ w.
Proof.
  intros Hw [H1 H2]. unfold swrap. pose proof (pow2_split w Hw).
  destruct (Z.ltb_spec z (2 ^ (w - 1))).
  - rewrite Z.mod_small by lia. lia.
  - replace (z + 2 ^ (w - 1)) with (z - 2 ^ (w - 1) + 1 * 2 ^ w) by lia.
    rewrite Z.mod_add by lia. rewrite Z.mod_small by lia. lia.
Qed.

Lemma uwrap_swrap w z : 0 < w -> uwrap w (swrap w z) = uwrap w z.
Proof.
  intros Hw. unfold uwrap, swrap.
  rewrite Zminus_mod, Z.mod_mod by (apply Z.pow_nonzero; lia).
  rewrite <- Zminus_mod. f_equal. lia.
Qed.

Lemma swrap_uwrap w z : 0 < w -> swrap w (uwrap w z) = swrap w z.
Proof.
  intros Hw. unfold uwrap, swrap. f_equal.
  rewrite <- Zplus_mod_idemp_l, Z.mod_mod, Zplus_mod_idemp_l;
    [done | apply Z.pow_nonzero; lia].
Qed.

Lemma swrap_inj w a b :
  0 < w -> in_u w a -> in_u w b -> swrap w a = swrap w b -> a = b.
Proof.
  intros Hw Ha Hb E. rewrite <- (uwrap_id w a Ha), <- (uwrap_id w b Hb).
  rewrite <- (uwrap_swrap w a Hw), <- (uwrap_swrap w b Hw). by rewrite E.
Qed.

Lemma uwrap_add_l w a b : uwrap w (uwrap w a + b) = uwrap w (a + b).
Proof. apply Zplus_mod_idemp_l. Qed.
Lemma uwrap_add_r w a b : uwrap w (a + uwrap w b) = uwrap w (a + b).
Proof. apply Zplus_mod_idemp_r. Qed.
Lemma uwrap_sub_l w a b : uwrap w (uwrap w a - b) = uwrap w (a - b).
Proof. apply Zminus_mod_idemp_l. Qed.
Lemma uwrap_sub_r w a b : uwrap w (a - uwrap w b) = uwrap w (a - b).
Proof. apply Zminus_mod_idemp_r. Qed.
Lemma uwrap_mul_l w a b : uwrap w (uwrap w a * b) = uwrap w (a * b).
Proof. apply Zmult_mod_idemp_l. Qed.
Lemma uwrap_mul_r w a b : uwrap w (a * uwrap w b) = uwrap w (a * b).
Proof. apply Zmult_mod_idemp_r. Qed.

#[export] Hint Rewrite uwrap_add_l uwrap_add_r uwrap_sub_l uwrap_sub_r
  uwrap_mul_l uwrap_mul_r : cint.

Lemma uwrap_testbit w z i :
  0 <= w -> 0 <= i -> Z.testbit (uwrap w z) i = (i <? w) && Z.testbit z i.
Proof.
  intros Hw Hi. unfold uwrap. destruct (Z.ltb_spec i w).
  - rewrite Z.mod_pow2_bits_low by lia. done.
  - rewrite Z.mod_pow2_bits_high by lia. done.
Qed.

Lemma in_u_testbit w z i : in_u w z -> 0 <= w <= i -> Z.testbit z i = false.
Proof.
  intros Hz Hi. rewrite <- (uwrap_id w z Hz), uwrap_testbit by lia.
  destruct (Z.ltb_spec i w); [lia | done].
Qed.

Lemma in_u_of_testbit w z :
  0 <= w -> 0 <= z -> (forall i, w <= i -> Z.testbit z i = false) -> in_u w z.
Proof.
  intros Hw Hz H. split; [done|].
  destruct (Z.eq_dec z 0) as [->|Hn]; [by apply pow2_pos|].
  apply Z.log2_lt_pow2; [lia|]. apply Z.nle_gt. intros Hc.
  specialize (H _ Hc). rewrite Z.bit_log2 in H by lia. done.
Qed.

Lemma in_u_weaken w w' z : in_u w z -> 0 <= w <= w' -> in_u w' z.
Proof.
  intros [? ?] ?. split; [done|].
  pose proof (Z.pow_le_mono_r 2 w w'). lia.
Qed.

(** The two facts a bit-level proof needs: equality bit by bit, and the
    sum of two words with no common bit. *)

Lemma Z_bits_eq a b : (forall i, 0 <= i -> Z.testbit a i = Z.testbit b i) -> a = b.
Proof. intros H. apply Z.bits_inj'. done. Qed.

Lemma lor_add_disjoint a b n :
  0 <= n -> in_u n a -> Z.lor a (Z.shiftl b n) = a + b * 2 ^ n.
Proof.
  intros Hn Ha. rewrite <- Z.shiftl_mul_pow2 by lia.
  assert (Z.land a (Z.shiftl b n) = 0) as E.
  { apply Z_bits_eq. intros i Hi. rewrite Z.land_spec, Z.bits_0.
    destruct (Z.ltb_spec i n).
    - rewrite Z.shiftl_spec_low by lia. apply andb_false_r.
    - by rewrite (in_u_testbit n a) by (auto; lia). }
  by rewrite Z.add_nocarry_lxor, Z.lxor_lor.
Qed.

(** ** Little-endian byte strings

    Bytes are [Z] values below 256; [le_bytes] and [le_val] are what a
    multi-byte load or store does on the little-endian targets. *)

Definition is_byte (b : Z) : Prop := in_u 8 b.

Fixpoint le_bytes (n : nat) (z : Z) : list Z :=
  match n with
  | O => []
  | S n' => u8 z :: le_bytes n' (Z.shiftr z 8)
  end.

Fixpoint le_val (l : list Z) : Z :=
  match l with
  | [] => 0
  | b :: l' => b + 256 * le_val l'
  end.

Lemma length_le_bytes n z : length (le_bytes n z) = n.
Proof. revert z. induction n; intros; simpl; [done|]. by rewrite IHn. Qed.

Lemma le_bytes_byte n z : Forall is_byte (le_bytes n z).
Proof.
  revert z. induction n; intros z; simpl; [by constructor|].
  constructor; [by apply uwrap_range|]. apply IHn.
Qed.

Lemma le_val_bytes n z : le_val (le_bytes n z) = uwrap (8 * Z.of_nat n) z.
Proof.
  revert z. induction n as [|n IH]; intros z.
  - simpl. unfold uwrap. by rewrite Z.mod_1_r.
  - cbn [le_bytes le_val]. rewrite IH. unfold uwrap.
    rewrite Z.shiftr_div_pow2 by lia.
    replace (8 * Z.of_nat (S n)) with (8 + 8 * Z.of_nat n) by lia.
    rewrite Z.pow_add_r by lia. change (2 ^ 8) with 256.
    rewrite Z.rem_mul_r by (try lia; apply pow2_pos; lia). done.
Qed.

Lemma le_val_range l :
  Forall is_byte l -> in_u (8 * Z.of_nat (length l)) (le_val l).
Proof.
  induction 1 as [|b l Hb _ IH]; [by split|].
  cbn [length le_val]. unfold is_byte, in_u in *.
  replace (8 * Z.of_nat (S (length l))) with (8 + 8 * Z.of_nat (length l)) by lia.
  rewrite Z.pow_add_r by lia. change (2 ^ 8) with 256 in *. lia.
Qed.

Lemma le_bytes_val l :
  Forall is_byte l -> le_bytes (length l) (le_val l) = l.
Proof.
  induction 1 as [|b l Hb Hl IH]; [done|].
  cbn [length le_val le_bytes]. unfold is_byte, in_u in Hb.
  change (2 ^ 8) with 256 in Hb. f_equal.
  - unfold uwrap. change (2 ^ 8) with 256.
    rewrite (Z.mul_comm 256), Z.mod_add by lia. apply Z.mod_small. lia.
  - rewrite Z.shiftr_div_pow2 by lia. change (2 ^ 8) with 256.
    rewrite (Z.mul_comm 256), Z.div_add, Z.div_small by lia. apply IH.
Qed.

Lemma le_bytes_wrap n z : le_bytes n (uwrap (8 * Z.of_nat n) z) = le_bytes n z.
Proof.
  rewrite <- le_val_bytes, <- (length_le_bytes n z) at 1. apply le_bytes_val, le_bytes_byte.
Qed.

Lemma le_bytes_app a b z :
  le_bytes (a + b) z = le_bytes a z ++ le_bytes b (Z.shiftr z (8 * Z.of_nat a)).
Proof.
  revert z. induction a as [|a IH]; intros z; cbn [le_bytes Nat.add app].
  - by rewrite Z.shiftr_0_r.
  - rewrite IH, Z.shiftr_shiftr by lia. do 4 f_equal. lia.
Qed.

#[export] Hint Rewrite length_le_bytes le_val_bytes : cint.

(** ** Results

    [Err] is an error the C code reports (an exception text, an error
    buffer, an error code); [Undef] is behaviour C leaves undefined. *)

Inductive res (A : Type) : Type :=
| Ok (a : A)
| Err (e : string)
| Undef.
Arguments Ok {A} a.
Arguments Err {A} e.
Arguments Undef {A}.

Definition res_bind {A B} (r : res A) (k : A -> res B) : res B :=
  match r with Ok a => k a | Err e => Err e | Undef => Undef end.

Declare Scope res_scope.
Delimit Scope res_scope with res.
Notation "'rlet' x ':=' r 'in' k" := (res_bind r (fun x => k))
  (at level 10, x name, r at level 100, k at level 200) : res_scope.
Notation "'rlet' ' p ':=' r 'in' k" := (res_bind r (fun x => match x with p => k end))
  (at level 10, p strict pattern, r at level 100, k at level 200) : res_scope.
#[global] Open Scope res_scope.

Lemma res_bind_ok {A B} (r : res A) (k : A -> res B) b :
  res_bind r k = Ok b <-> exists a, r = Ok a /\ k a = Ok b.
Proof.
  split; [destruct r; simpl; intros; simplify_eq; eauto|].
  by intros (a & -> & H).
Qed.

(** ** Tactics of the development *)

(** Case analysis on every test of a boolean comparison in goal or context. *)
Ltac zcmp :=
  repeat match goal with
  | H : context [?a <? ?b] |- _ => destruct (Z.ltb_spec a b)
  | H : context [?a <=? ?b] |- _ => destruct (Z.leb_spec a b)
  | H : context [?a =? ?b] |- _ => destruct (Z.eqb_spec a b)
  | |- context [?a <? ?b] => destruct (Z.ltb_spec a b)
  | |- context [?a <=? ?b] => destruct (Z.leb_spec a b)
  | |- context [?a =? ?b] => destruct (Z.eqb_spec a b)
  end.

(** Invert a chain of [res_bind]s that produced a value. *)
Ltac rinv H :=
  repeat match type of H with
  | res_bind _ _ = Ok _ =>
      let a := fresh "v" in let E := fresh "E" in
      apply res_bind_ok in H; destruct H as (a & E & H)
  end.
