(* ===== verification/Numeric.v ===== *)
(** * Integer helpers of the classic interpreter

    The static helpers and the integer macros of
    [core/iwasm/interpreter/wasm_interp_classic.c]: rotation, bit counting,
    sign extension, division, shifts.  Operands are the raw (unsigned)
    contents of one or two 32-bit stack cells; [w] is 32 or 64. *)

From S2P Require Import Prelude.
#[local] Open Scope Z_scope.

(** ** Definitions *)

(** [rotl32]/[rotl64]: [c % w], [c & mask], then two shifts. *)
Definition rotl (w n c : Z) : Z :=
  let mask := w - 1 in
  let c := Z.land (c mod w) mask in
  Z.lor (uwrap w (Z.shiftl n c)) (Z.shiftr n (Z.land (uwrap w (- c)) mask)).

Definition rotr (w n c : Z) : Z :=
  let mask := w - 1 in
  let c := Z.land (c mod w) mask in
  Z.lor (Z.shiftr n c) (uwrap w (Z.shiftl n (Z.land (uwrap w (- c)) mask))).

Definition rotl32 := rotl 32.
Definition rotr32 := rotr 32.
Definition rotl64 := rotl 64.
Definition rotr64 := rotr 64.

(** The [while] loops of [clz32] ... [ctz64]; [None] is fuel exhaustion. *)
Fixpoint clz_loop (fuel : nat) (w num type : Z) : option Z :=
  match fuel with
  | O => None
  | S f => if Z.land type (2 ^ (w - 1)) =? 0
           then clz_loop f w (num + 1) (uwrap w (Z.shiftl type 1))
           else Some num
  end.

Fixpoint ctz_loop (fuel : nat) (num type : Z) : option Z :=
  match fuel with
  | O => None
  | S f => if Z.land type 1 =? 0
           then ctz_loop f (num + 1) (Z.shiftr type 1)
           else Some num
  end.

Definition clz (w type : Z) : option Z :=
  if type =? 0 then Some w else clz_loop (Z.to_nat w) w 0 type.
Definition ctz (w type : Z) : option Z :=
  if type =? 0 then Some w else ctz_loop (Z.to_nat w) 0 type.

Definition clz32 (t : Z) : Z := default 0 (clz 32 t).
Definition clz64 (t : Z) : Z := default 0 (clz 64 t).
Definition ctz32 (t : Z) : Z := default 0 (ctz 32 t).
Definition ctz64 (t : Z) : Z := default 0 (ctz 64 t).

(** [popcount32]/[popcount64]: clear the lowest set bit until zero. *)
Fixpoint popcount_loop (fuel : nat) (ret u : Z) : option Z :=
  if u =? 0 then Some ret else
  match fuel with
  | O => None
  | S f => popcount_loop f (ret + 1) (Z.land u (u - 1))
  end.

Definition popcount32 (u : Z) : Z := default 0 (popcount_loop 32 0 u).
Definition popcount64 (u : Z) : Z := default 0 (popcount_loop 64 0 u).

(** [sign_ext_8_32] ... [sign_ext_32_64]: the argument is already of a
    signed narrow type [from]; the constant is the sign mask of width [to]. *)
Definition sign_ext (from to val : Z) : Z :=
  if Z.land val (2 ^ (from - 1)) =? 0 then val
  else swrap to (Z.lor val (swrap to (2 ^ to - 2 ^ from))).

Definition sign_ext_8_32 := sign_ext 8 32.
Definition sign_ext_16_32 := sign_ext 16 32.
Definition sign_ext_8_64 := sign_ext 8 64.
Definition sign_ext_16_64 := sign_ext 16 64.
Definition sign_ext_32_64 := sign_ext 32 64.

(** The [DEF_OP_*] macros on integer types, as functions of the operands. *)
Definition DEF_OP_EQZ (v : Z) : Z := Z.b2z (v =? 0).
Definition DEF_OP_CMP (conv : Z -> Z) (cond : Z -> Z -> bool) (v1 v2 : Z) : Z :=
  Z.b2z (cond (conv v1) (conv v2)).
Definition DEF_OP_NUMERIC (w : Z) (op : Z -> Z -> Z) (v1 v2 : Z) : Z :=
  uwrap w (op v1 v2).

(** [DEF_OP_NUMERIC] with [<<] or [>>]: a shift count of [w] or more is
    undefined; [DEF_OP_NUMERIC2] reduces the count first.  The x86 builds
    use the former. *)
Definition DEF_OP_SHIFT (w : Z) (op : Z -> Z -> Z) (conv : Z -> Z)
    (v1 v2 : Z) : res Z :=
  if v2 <? w then Ok (uwrap w (op (conv v1) v2)) else Undef.
Definition DEF_OP_NUMERIC2 (w : Z) (op : Z -> Z -> Z) (conv : Z -> Z)
    (v1 v2 : Z) : res Z :=
  DEF_OP_SHIFT w op conv v1 (v2 mod w).
Definition op_shift (x86 : bool) (w : Z) (op : Z -> Z -> Z) (conv : Z -> Z)
    (v1 v2 : Z) : res Z :=
  if x86 then DEF_OP_SHIFT w op conv v1 v2 else DEF_OP_NUMERIC2 w op conv v1 v2.

(** C integer division: the quotient is undefined for a zero divisor and
    when it does not fit the type. *)
Definition c_div (lo hi a b : Z) (op : Z -> Z -> Z) : res Z :=
  if b =? 0 then Undef
  else if (Z.quot a b <? lo) || (hi <? Z.quot a b) then Undef
  else Ok (op a b).
Definition c_sdiv (w a b : Z) (op : Z -> Z -> Z) : res Z :=
  c_div (- 2 ^ (w - 1)) (2 ^ (w - 1) - 1) a b op.
Definition c_udiv (w a b : Z) (op : Z -> Z -> Z) : res Z :=
  c_div 0 (2 ^ w - 1) a b op.

(** The [WASM_OP_I32_DIV_S] ... [WASM_OP_I64_REM_U] handlers. *)
Definition op_div_s (w v1 v2 : Z) : res Z :=
  let b := swrap w v2 in
  let a := swrap w v1 in
  if (a =? - 2 ^ (w - 1)) && (b =? -1) then Err "integer overflow"
  else if b =? 0 then Err "integer divide by zero"
  else rlet q := c_sdiv w a b Z.quot in Ok (uwrap w q).

Definition op_div_u (w v1 v2 : Z) : res Z :=
  if v2 =? 0 then Err "integer divide by zero"
  else rlet q := c_udiv w v1 v2 Z.quot in Ok (uwrap w q).

Definition op_rem_s (w v1 v2 : Z) : res Z :=
  let b := swrap w v2 in
  let a := swrap w v1 in
  if (a =? - 2 ^ (w - 1)) && (b =? -1) then Ok (uwrap w 0)
  else if b =? 0 then Err "integer divide by zero"
  else rlet r := c_sdiv w a b Z.rem in Ok (uwrap w r).

Definition op_rem_u (w v1 v2 : Z) : res Z :=
  if v2 =? 0 then Err "integer divide by zero"
  else rlet r := c_udiv w v1 v2 Z.rem in Ok (uwrap w r).

(** ** Properties *)

Definition is_width (w : Z) : Prop := w = 32 \/ w = 64.

Lemma land_mask w c : is_width w -> Z.land c (w - 1) = c mod w.
Proof.
  intros [-> | ->].
  - change (32 - 1) with (Z.ones 5). rewrite Z.land_ones by lia. done.
  - change (64 - 1) with (Z.ones 6). rewrite Z.land_ones by lia. done.
Qed.

Lemma uwrap_mod_width w c : is_width w -> uwrap w c mod w = c mod w.
Proof.
  intros Hw. unfold uwrap. apply Z.mod_mod_divide.
  destruct Hw as [-> | ->]; [by exists (2 ^ 27) | by exists (2 ^ 58)].
Qed.

(** Bit [i] of a left rotation is bit [i - c] modulo the width. *)
Lemma rotl_testbit w n c i :
  is_width w -> in_u w n -> 0 <= i < w ->
  Z.testbit (rotl w n c) i = Z.testbit n ((i - c) mod w).
Proof.
  intros Hw Hn Hi. assert (0 < w) as Hp by (destruct Hw; lia).
  unfold rotl. cbv zeta. rewrite !land_mask, Z.mod_mod, uwrap_mod_width by (auto; lia).
  rewrite Z.lor_spec, uwrap_testbit, Z.shiftl_spec, Z.shiftr_spec by lia.
  replace (i <? w) with true by (symmetry; apply Z.ltb_lt; lia). rewrite andb_true_l.
  rewrite (Zminus_mod i c), (Z.mod_small i) by lia.
  replace ((- (c mod w)) mod w) with ((0 - c mod w) mod w) by (f_equal; lia).
  pose proof (Z.mod_pos_bound c w Hp) as Hc. set (d := c mod w) in *. clearbody d.
  destruct (Z.eq_dec d 0) as [->|].
  - rewrite Z.mod_0_l by lia. rewrite !Z.sub_0_r, Z.add_0_r, Z.mod_small by lia.
    apply orb_diag.
  - replace ((0 - d) mod w) with (w - d).
    2:{ rewrite <- (Z.mod_small (w - d) w) by lia.
        replace (w - d) with (0 - d + 1 * w) by lia. by rewrite Z.mod_add by lia. }
    destruct (Z.ltb_spec i d).
    + rewrite Z.testbit_neg_r by lia. simpl. f_equal.
      rewrite <- (Z.mod_small (i + (w - d)) w) by lia.
      replace (i + (w - d)) with (i - d + 1 * w) by lia. by rewrite Z.mod_add by lia.
    + rewrite (in_u_testbit w n (i + _)) by (auto; lia).
      by rewrite orb_false_r, Z.mod_small by lia.
Qed.

(** A right rotation is the left rotation by the opposite count. *)
Lemma rotr_rotl w n c : is_width w -> rotr w n c = rotl w n (- c).
Proof.
  intros Hw. assert (0 < w) as Hp by (destruct Hw; lia).
  unfold rotr, rotl. cbv zeta.
  rewrite !land_mask, !Z.mod_mod, !uwrap_mod_width by (auto; lia).
  replace ((- (c mod w)) mod w) with ((- c) mod w)
    by (rewrite <- (Z.sub_0_l (c mod w)), Zminus_mod_idemp_r; f_equal; lia).
  replace ((- ((- c) mod w)) mod w) with (c mod w)
    by (rewrite <- (Z.sub_0_l ((- c) mod w)), Zminus_mod_idemp_r; f_equal; lia).
  apply Z.lor_comm.
Qed.

Lemma rotl_range w n c : is_width w -> in_u w n -> in_u w (rotl w n c).
Proof.
  intros Hw Hn. assert (0 < w) as Hp by (destruct Hw; lia).
  assert (0 <= n) by apply Hn.
  apply in_u_of_testbit; [lia| |].
  - unfold rotl. cbv zeta. apply Z.lor_nonneg. split.
    + apply uwrap_range. lia.
    + apply Z.shiftr_nonneg. lia.
  - intros i Hi. unfold rotl. cbv zeta.
    rewrite Z.lor_spec, (in_u_testbit w (uwrap w _)) by (try apply uwrap_range; lia).
    rewrite orb_false_l, Z.shiftr_spec by lia. apply (in_u_testbit w); [done|].
    pose proof (Z.land_nonneg (uwrap w (- Z.land (c mod w) (w - 1))) (w - 1)) as [_ Hl].
    destruct Hw; lia.
Qed.

Lemma land_pow2_zero t k : 0 <= k -> (Z.land t (2 ^ k) =? 0) = negb (Z.testbit t k).
Proof.
  intros Hk. destruct (Z.testbit t k) eqn:E; simpl.
  - apply Z.eqb_neq. intros Hz. apply (f_equal (fun z => Z.testbit z k)) in Hz.
    rewrite Z.land_spec, E, Z.pow2_bits_true, Z.bits_0 in Hz by lia. done.
  - apply Z.eqb_eq, Z_bits_eq. intros i Hi. rewrite Z.land_spec, Z.bits_0.
    destruct (Z.eq_dec i k) as [->|]; [by rewrite E|].
    rewrite Z.pow2_bits_false by lia. apply andb_false_r.
Qed.

(** The loop of [clz] counts down from the width to the leading bit. *)
Lemma clz_loop_log2 (fuel : nat) w num t :
  0 < w -> 0 < t < 2 ^ w -> w - 1 - Z.log2 t < Z.of_nat fuel ->
  clz_loop fuel w num t = Some (num + (w - 1 - Z.log2 t)).
Proof.
  revert num t. induction fuel as [|f IH]; intros num t Hw Ht Hf.
  { assert (Z.log2 t < w) by (apply Z.log2_lt_pow2; lia). lia. }
  assert (Hl : Z.log2 t < w) by (apply Z.log2_lt_pow2; lia).
  cbn [clz_loop]. rewrite land_pow2_zero by lia.
  destruct (Z.eq_dec (Z.log2 t) (w - 1)) as [E|E].
  - rewrite <- E, Z.bit_log2 by lia. simpl. f_equal. lia.
  - rewrite Z.bits_above_log2 by lia. cbn [negb].
    pose proof (Z.log2_nonneg t).
    assert (Hs : Z.shiftl t 1 = 2 * t) by (rewrite Z.shiftl_mul_pow2 by lia; lia).
    assert (Hb : 2 * t < 2 ^ w).
    { apply Z.log2_lt_pow2; [lia|]. rewrite Z.log2_double by lia. lia. }
    rewrite Hs, uwrap_id by (unfold in_u; lia).
    rewrite IH; rewrite ?Z.log2_double by lia; try lia. f_equal. lia.
Qed.

Lemma ctz_loop_lowbit (fuel : nat) num t :
  0 < t < 2 ^ Z.of_nat fuel ->
  exists k, ctz_loop fuel num t = Some (num + k) /\ 0 <= k < Z.of_nat fuel /\
    Z.testbit t k = true /\ (forall j, 0 <= j < k -> Z.testbit t j = false).
Proof.
  revert num t. induction fuel as [|f IH]; intros num t Ht; [simpl in Ht; lia|].
  cbn [ctz_loop]. change 1 with (2 ^ 0) at 1. rewrite land_pow2_zero by lia.
  destruct (Z.testbit t 0) eqn:E; cbn [negb].
  { exists 0. rewrite Z.add_0_r. repeat split; try done; lia. }
  assert (Hs : Z.shiftr t 1 = t / 2) by (rewrite Z.shiftr_div_pow2 by lia; done).
  assert (t = 2 * (t / 2)) as Hd.
  { rewrite Z.bit0_odd in E. pose proof (Zodd_mod t) as Ho. rewrite E in Ho.
    pose proof (Z.div_mod t 2). pose proof (Z.mod_pos_bound t 2).
    destruct (Zeq_bool (t mod 2) 1) eqn:Eb; [done|].
    apply Zeq_bool_neq in Eb. lia. }
  rewrite Hs. destruct (IH (num + 1) (t / 2)) as (k & E1 & Hk & Hb & Hj).
  { rewrite Nat2Z.inj_succ, Z.pow_succ_r in Ht by lia. lia. }
  exists (k + 1). rewrite E1. split; [f_equal; lia|]. split; [lia|].
  rewrite <- Hs, Z.shiftr_spec in Hb by lia. split; [done|].
  intros j Hj'. destruct (Z.eq_dec j 0) as [->|]; [done|].
  specialize (Hj (j - 1)). rewrite <- Hs, Z.shiftr_spec in Hj by lia.
  replace (j - 1 + 1) with j in Hj by lia. apply Hj. lia.
Qed.

(** Number of ones of the binary representation. *)
Fixpoint ones_pos (p : positive) : nat :=
  match p with xH => 1 | xO q => ones_pos q | xI q => S (ones_pos q) end.
Definition ones (z : Z) : nat := match z with Zpos p => ones_pos p | _ => 0 end.

Lemma ones_double z : ones (2 * z) = ones z.
Proof. by destruct z. Qed.

Lemma ones_clear p :
  S (ones (Z.land (Zpos p) (Zpos p - 1))) = ones_pos p /\
  0 <= Z.land (Zpos p) (Zpos p - 1).
Proof.
  split; [|apply Z.land_nonneg; lia].
  induction p as [p IH|p IH|]; [| |done].
  - replace (Z.pos p~1 - 1) with (Z.pos p~0) by lia.
    replace (Z.land (Z.pos p~1) (Z.pos p~0)) with (Z.pos p~0); [done|].
    apply Z_bits_eq. intros i Hi.
    replace (Z.pos p~0) with (2 * Z.pos p) by lia.
    replace (Z.pos p~1) with (2 * Z.pos p + 1) by lia.
    rewrite Z.land_spec. destruct (Z.eq_dec i 0) as [->|].
    + by rewrite Z.testbit_even_0, andb_false_r.
    + replace i with (Z.succ (i - 1)) by lia.
      rewrite Z.testbit_odd_succ, Z.testbit_even_succ by lia. by rewrite andb_diag.
  - replace (Z.land (Z.pos p~0) (Z.pos p~0 - 1))
      with (2 * Z.land (Z.pos p) (Z.pos p - 1)); [by rewrite ones_double|].
    apply Z_bits_eq. intros i Hi.
    replace (Z.pos p~0) with (2 * Z.pos p) by lia.
    replace (2 * Z.pos p - 1) with (2 * (Z.pos p - 1) + 1) by lia.
    destruct (Z.eq_dec i 0) as [->|].
    + by rewrite Z.land_spec, !Z.testbit_even_0.
    + replace i with (Z.succ (i - 1)) by lia.
      rewrite Z.land_spec, Z.testbit_odd_succ, !Z.testbit_even_succ, Z.land_spec by lia.
      done.
Qed.

Lemma popcount_loop_ones (fuel : nat) ret u :
  0 <= u -> (ones u <= fuel)%nat ->
  popcount_loop fuel ret u = Some (ret + Z.of_nat (ones u)).
Proof.
  revert ret u. induction fuel as [|f IH]; intros ret u Hu Hf; cbn [popcount_loop].
  - destruct u as [|p|p]; [simpl; f_equal; lia| |lia].
    pose proof (ones_clear p) as [E _]. simpl in Hf. lia.
  - destruct u as [|p|p]; [simpl; f_equal; lia| |lia].
    replace (Z.pos p =? 0) with false by done.
    pose proof (ones_clear p) as [E H0]. simpl in Hf.
    rewrite IH by lia. f_equal. simpl ones at 2. lia.
Qed.

Lemma ones_bound w z : 0 <= w -> in_u w z -> (Z.of_nat (ones z) <= w).
Proof.
  intros Hw [H0 H1]. destruct z as [|p|p]; simpl; [lia| |lia].
  revert w Hw H1. induction p as [p IH|p IH|]; intros w Hw H1; simpl.
  - destruct (Z.eq_dec w 0) as [->|]; [simpl in H1; lia|].
    rewrite (pow2_split w) in H1 by lia. specialize (IH ltac:(lia) (w - 1)). lia.
  - destruct (Z.eq_dec w 0) as [->|]; [simpl in H1; lia|].
    rewrite (pow2_split w) in H1 by lia. specialize (IH ltac:(lia) (w - 1)). lia.
  - destruct (Z.eq_dec w 0) as [->|]; [simpl in H1; lia|]. lia.
Qed.

Lemma sign_ext_id from to val :
  0 < from <= to -> in_s from val -> sign_ext from to val = val.
Proof.
  intros Hf Hv. unfold sign_ext. rewrite land_pow2_zero by lia.
  destruct (Z.testbit val (from - 1)) eqn:E; [|done]. cbn [negb].
  assert (Hto : 0 < to) by lia.
  assert (Hr : in_s to val).
  { unfold in_s in *. pose proof (Z.pow_le_mono_r 2 (from - 1) (to - 1)). lia. }
  (* the constant is the negative number [- 2 ^ from] *)
  assert (Hc : swrap to (2 ^ to - 2 ^ from) = swrap to (- 2 ^ from)).
  { rewrite <- (swrap_uwrap to (2 ^ to - _)), <- (swrap_uwrap to (- _)) by lia.
    f_equal. unfold uwrap. replace (2 ^ to - 2 ^ from) with (- 2 ^ from + 1 * 2 ^ to) by lia.
    apply Z.mod_add. apply Z.pow_nonzero; lia. }
  assert (Hneg : val < 0).
  { destruct (Z.ltb_spec val 0); [done|]. exfalso.
    destruct (Z.eq_dec val 0) as [->|]; [by rewrite Z.bits_0 in E|].
    unfold in_s in Hv. rewrite Z.bits_above_log2 in E; [done|lia|].
    apply Z.log2_lt_pow2; lia. }
  rewrite <- (swrap_id to val) at 2 by done.
  rewrite <- (swrap_uwrap to (Z.lor _ _)), <- (swrap_uwrap to val) by lia. f_equal.
  apply Z_bits_eq. intros i Hi. rewrite !uwrap_testbit by lia.
  destruct (Z.ltb_spec i to) as [Hit|]; [simpl|done].
  rewrite Z.lor_spec, Hc.
  replace (Z.testbit (swrap to (- 2 ^ from)) i) with (Z.testbit (- 2 ^ from) i).
  2:{ pose proof (uwrap_testbit to (- 2 ^ from) i) as H1.
      rewrite <- (uwrap_swrap to), uwrap_testbit in H1 by lia.
      replace (i <? to) with true in H1 by (symmetry; apply Z.ltb_lt; lia).
      symmetry. apply H1; lia. }
  destruct (Z.ltb_spec i from) as [Hif|Hif].
  - replace (- 2 ^ from) with (Z.shiftl (-1) from) by (rewrite Z.shiftl_mul_pow2; lia).
    rewrite Z.shiftl_spec_low by lia. apply orb_false_r.
  - rewrite orb_true_intro; [|right].
    + symmetry. apply Z.bits_above_log2_neg; [done|].
      unfold in_s in Hv. destruct (Z.eq_dec val (-1)) as [->|]; [simpl; lia|].
      apply Z.log2_lt_pow2; [lia|].
      pose proof (Z.pow_le_mono_r 2 (from - 1) i). lia.
    + replace (- 2 ^ from) with (Z.shiftl (-1) from) by (rewrite Z.shiftl_mul_pow2; lia).
      rewrite Z.shiftl_spec_high by lia. apply Z.bits_m1. lia.
Qed.

(** Quotients of [w]-bit operands fit, the one signed exception apart. *)
Lemma quot_signed_range w a b :
  0 < w -> in_s w a -> b <> 0 -> ~ (a = - 2 ^ (w - 1) /\ b = -1) ->
  in_s w (Z.quot a b).
Proof.
  intros Hw Ha Hb Hn. unfold in_s in *. pose proof (pow2_pos (w - 1) ltac:(lia)).
  assert (Habs : Z.abs (Z.quot a b) <= Z.abs a).
  { rewrite <- Z.quot_abs by done. rewrite Z.quot_div_nonneg by lia.
    apply Z.div_le_upper_bound; nia. }
  destruct (Z.eq_dec a (- 2 ^ (w - 1))) as [->|]; [|lia].
  assert (b <> -1) by tauto. destruct (Z.eq_dec b 1) as [->|]; [rewrite Z.quot_1_r; lia|].
  assert (Z.abs (Z.quot (- 2 ^ (w - 1)) b) < 2 ^ (w - 1)); [|lia].
  rewrite <- Z.quot_abs by done. rewrite Z.quot_div_nonneg by lia.
  replace (Z.abs (- 2 ^ (w - 1))) with (2 ^ (w - 1)) by lia.
  apply Z.div_lt; lia.
Qed.

Lemma c_sdiv_ok w a b op :
  0 < w -> in_s w a -> b <> 0 -> ~ (a = - 2 ^ (w - 1) /\ b = -1) ->
  c_sdiv w a b op = Ok (op a b).
Proof.
  intros Hw Ha Hb Hn. pose proof (quot_signed_range w a b Hw Ha Hb Hn) as [H1 H2].
  unfold c_sdiv, c_div. rewrite (proj2 (Z.eqb_neq b 0)) by done.
  rewrite (proj2 (Z.ltb_ge _ _)) by lia. rewrite (proj2 (Z.ltb_ge _ _)) by lia. done.
Qed.

Lemma c_udiv_ok w a b op :
  0 <= w -> in_u w a -> 0 < b -> c_udiv w a b op = Ok (op a b).
Proof.
  intros Hw [Ha1 Ha2] Hb. unfold c_udiv, c_div.
  rewrite (proj2 (Z.eqb_neq b 0)) by lia.
  assert (0 <= Z.quot a b <= a).
  { rewrite Z.quot_div_nonneg by lia. split; [apply Z.div_pos; lia|].
    apply Z.div_le_upper_bound; nia. }
  rewrite (proj2 (Z.ltb_ge _ _)) by lia. rewrite (proj2 (Z.ltb_ge _ _)) by lia. done.
Qed.

Lemma swrap_zero w z : 0 < w -> in_u w z -> (swrap w z =? 0) = (z =? 0).
Proof.
  intros Hw Hz. apply eq_true_iff_eq. rewrite !Z.eqb_eq. split; [|intros ->].
  - intros E. apply (swrap_inj w); [lia|done|split; [lia|by apply pow2_pos; lia]|].
    rewrite E. symmetry. apply swrap_id; [lia|].
    unfold in_s. pose proof (pow2_pos (w - 1)). lia.
  - apply swrap_id; [lia|]. unfold in_s. pose proof (pow2_pos (w - 1)). lia.
Qed.

(** C26: the bit counting loops terminate within the word width and count
    what WebAssembly asks for: [clz] the zeros above the leading one, [ctz]
    the zeros below the lowest one, [popcount] the ones. *)
Theorem bit_counts_correct (w t : Z) :
  is_width w -> in_u w t ->
  clz w t = Some (if t =? 0 then w else w - 1 - Z.log2 t) /\
  (exists k, ctz w t = Some k /\ 0 <= k <= w /\ (k < w -> Z.testbit t k = true) /\
     forall j, 0 <= j < k -> Z.testbit t j = false) /\
  popcount_loop (Z.to_nat w) 0 t = Some (Z.of_nat (ones t)).
Proof.
  intros Hw Ht. assert (0 < w) by (destruct Hw; lia). pose proof Ht as [H0 H1].
  split; [|split].
  - unfold clz. destruct (Z.eqb_spec t 0); [done|].
    assert (Z.log2 t < w) by (apply Z.log2_lt_pow2; lia). pose proof (Z.log2_nonneg t).
    rewrite clz_loop_log2 by lia. f_equal; lia.
  - unfold ctz. destruct (Z.eqb_spec t 0) as [->|].
    { exists w. repeat split; try lia. intros; apply Z.bits_0. }
    destruct (ctz_loop_lowbit (Z.to_nat w) 0 t) as (k & E & Hk & Hb & Hj).
    { rewrite Z2Nat.id by lia. lia. }
    exists k. rewrite Z.add_0_l in E. repeat split; auto; lia.
  - rewrite popcount_loop_ones; [done|lia|].
    pose proof (ones_bound w t ltac:(lia) Ht). lia.
Qed.

Lemma bit_counts_correct_witness :
  clz 32 4096 = Some 19 /\ popcount_loop 32 0 4096 = Some 1.
Proof.
  destruct (bit_counts_correct 32 4096) as (H1 & _ & H3);
    [by left | by vm_compute | by split].
Defined.

(** C27: [rotl] and [rotr] rotate: bit [i] of the result is bit [i - c]
    (respectively [i + c]) of the operand, indices modulo the width, for
    every count, and the result is again a word. *)
Theorem rotations_correct (w n c i : Z) :
  is_width w -> in_u w n -> 0 <= i < w ->
  Z.testbit (rotl w n c) i = Z.testbit n ((i - c) mod w) /\
  Z.testbit (rotr w n c) i = Z.testbit n ((i + c) mod w) /\
  in_u w (rotl w n c) /\ in_u w (rotr w n c).
Proof.
  intros Hw Hn Hi. rewrite rotr_rotl by done.
  rewrite !rotl_testbit by done. replace (i - - c) with (i + c) by lia.
  auto using rotl_range.
Qed.

Lemma rotations_correct_witness :
  Z.testbit (rotl 32 1 5) 5 = true /\ in_u 32 (rotl 32 1 5).
Proof.
  destruct (rotations_correct 32 1 5 5) as (H1 & _ & H3 & _);
    [by left | by vm_compute | lia | split; [by rewrite H1 | done]].
Defined.

(** C24: the division handlers never reach undefined C division.  The signed
    ones trap exactly on a zero divisor and (quotient only) on
    [INT_MIN / -1], else return the truncated quotient or remainder; the
    unsigned ones trap exactly on zero. *)
Theorem division_traps_exactly (w a b : Z) :
  is_width w -> in_u w a -> in_u w b ->
  let sa := swrap w a in let sb := swrap w b in
  op_div_s w a b =
    (if (sa =? - 2 ^ (w - 1)) && (sb =? -1) then Err "integer overflow"
     else if b =? 0 then Err "integer divide by zero"
     else Ok (uwrap w (Z.quot sa sb))) /\
  op_rem_s w a b =
    (if b =? 0 then Err "integer divide by zero" else Ok (uwrap w (Z.rem sa sb))) /\
  op_div_u w a b = (if b =? 0 then Err "integer divide by zero" else Ok (a / b)) /\
  op_rem_u w a b = (if b =? 0 then Err "integer divide by zero" else Ok (a mod b)).
Proof.
  intros Hw Ha Hb sa sb. assert (0 < w) by (destruct Hw; lia).
  pose proof (swrap_range w a ltac:(lia)) as Hsa. fold sa in Hsa.
  pose proof (swrap_zero w b ltac:(lia) Hb) as Hz. fold sb in Hz.
  destruct Ha as [Ha1 Ha2]. destruct Hb as [Hb1 Hb2].
  unfold op_div_s, op_rem_s, op_div_u, op_rem_u. fold sa sb. rewrite Hz.
  repeat split.
  - destruct (_ && _) eqn:E; [done|]. destruct (Z.eqb_spec b 0); [done|].
    rewrite c_sdiv_ok; try done.
    + intros Hc. rewrite Hc in Hz. by destruct (Z.eqb_spec b 0).
    + intros [-> Hm]. rewrite Z.eqb_refl, Hm in E. done.
  - destruct (_ && _) eqn:E.
    + apply andb_true_iff in E as [E1 E2]. apply Z.eqb_eq in E1, E2.
      destruct (Z.eqb_spec b 0) as [|]; [rewrite E2 in Hz; done|].
      rewrite E2. change (-1) with (- (1)). rewrite Z.rem_opp_r by lia. by rewrite Z.rem_1_r.
    + destruct (Z.eqb_spec b 0); [done|]. rewrite c_sdiv_ok; try done.
      * intros Hc. rewrite Hc in Hz. by destruct (Z.eqb_spec b 0).
      * intros [-> Hm]. rewrite Z.eqb_refl, Hm in E. done.
  - destruct (Z.eqb_spec b 0); [done|]. rewrite c_udiv_ok by (unfold in_u; lia).
    simpl. rewrite Z.quot_div_nonneg by lia. rewrite uwrap_id; [done|].
    split; [apply Z.div_pos; lia|]. pose proof (Z.div_le_upper_bound a b a). nia.
  - destruct (Z.eqb_spec b 0); [done|]. rewrite c_udiv_ok by (unfold in_u; lia).
    simpl. rewrite Z.rem_mod_nonneg by lia. rewrite uwrap_id; [done|].
    pose proof (Z.mod_pos_bound a b). unfold in_u. lia.
Qed.

Lemma division_traps_exactly_witness :
  op_div_s 32 2147483648 4294967295 = Err "integer overflow" /\
  op_rem_s 32 2147483648 4294967295 = Ok 0.
Proof.
  destruct (division_traps_exactly 32 2147483648 4294967295) as (H1 & H2 & _);
    [by left | by vm_compute | by vm_compute | split; [exact H1 | exact H2]].
Defined.

(** C28: shifts.  Built for a non-x86 target the shift handlers are total and
    shift by the count modulo the width; built for x86 they are the C shift,
    whose result is undefined exactly when the count reaches the width. *)
Theorem shift_counts (w a b : Z) (op : Z -> Z -> Z) (conv : Z -> Z) :
  is_width w -> in_u w b ->
  op_shift false w op conv a b = Ok (uwrap w (op (conv a) (b mod w))) /\
  (op_shift true w op conv a b = Undef <-> w <= b) /\
  (b < w -> op_shift true w op conv a b = op_shift false w op conv a b).
Proof.
  intros Hw [Hb _]. assert (0 < w) by (destruct Hw; lia).
  unfold op_shift, DEF_OP_NUMERIC2, DEF_OP_SHIFT.
  pose proof (Z.mod_pos_bound b w ltac:(lia)).
  replace (b mod w <? w) with true by (symmetry; apply Z.ltb_lt; lia).
  split; [done|]. split.
  - destruct (Z.ltb_spec b w); split; intros; try done; lia.
  - intros. rewrite (proj2 (Z.ltb_lt b w)) by done. by rewrite Z.mod_small by lia.
Qed.

Lemma shift_counts_witness :
  op_shift false 32 Z.shiftl (fun z => z) 1 33 = Ok 2 /\
  op_shift true 32 Z.shiftl (fun z => z) 1 33 = Undef.
Proof.
  destruct (shift_counts 32 1 33 Z.shiftl (fun z => z)) as (H1 & [_ H2] & _);
    [by left | by vm_compute | split; [exact H1 | apply H2; lia]].
Defined.
