(* ===== verification/Leb.v ===== *)
(** * LEB128 integers

    The bounds-checked reader of the loader ([read_leb], [skip_leb] and the
    [read_leb_int64]/[read_leb_uint32]/[read_leb_int32] macros of
    [core/iwasm/interpreter/wasm_loader.c]) and the unchecked reader of the
    classic interpreter ([wasm_interp_classic.c]).  A buffer is the list of
    the bytes from [buf] on; a reader returns the value and the number of
    bytes it moved the pointer by. *)

From S2P Require Import Prelude.
#[local] Open Scope Z_scope.

(** ** Definitions *)

(** What happens when the list is exhausted: the loader compares with
    [buf_end]; the interpreter passes [(uint8* )-1] and runs off the buffer. *)
Definition buf_end_reached {A} (checked : bool) : res A :=
  if checked
  then Err "WASM module load failed: unexpected end of section or function"
  else Undef.

Definition max_leb_bytes (maxbits : Z) : Z := (maxbits + 6) / 7.

(** [skip_leb]: the number of bytes skipped. *)
Fixpoint skip_leb (checked : bool) (buf : list Z) (maxbits bcnt : Z) : res Z :=
  if max_leb_bytes maxbits <? bcnt + 1
  then Err "WASM module load failed: integer representation too long"
  else match buf with
  | [] => buf_end_reached checked
  | byte :: buf' =>
      if Z.land byte 0x80 =? 0 then Ok (bcnt + 1)
      else skip_leb checked buf' maxbits (bcnt + 1)
  end.

Definition skip_leb_uint32 (checked : bool) (p : list Z) : res Z := skip_leb checked p 32 0.
Definition skip_leb_int32 (checked : bool) (p : list Z) : res Z := skip_leb checked p 32 0.
Definition skip_leb_int64 (checked : bool) (p : list Z) : res Z := skip_leb checked p 64 0.

(** [result |= ((byte & 0x7f) << shift)] on [uint64]. *)
Definition leb_accum (result byte shift : Z) : Z :=
  Z.lor result (u64 (Z.shiftl (Z.land byte 0x7f) shift)).

(** The loop of the loader's [read_leb]: last byte, result, shift, count. *)
Fixpoint leb_loop (checked : bool) (buf : list Z) (maxbits result shift bcnt : Z)
    : res (Z * Z * Z * Z) :=
  if max_leb_bytes maxbits <? bcnt + 1
  then Err "WASM module load failed: integer representation too long"
  else match buf with
  | [] => buf_end_reached checked
  | byte :: buf' =>
      let result := leb_accum result byte shift in
      if Z.land byte 0x80 =? 0 then Ok (byte, result, shift + 7, bcnt + 1)
      else leb_loop checked buf' maxbits result (shift + 7) (bcnt + 1)
  end.

Definition integer_too_large {A} : res A := Err "WASM module load failed: integer too large".

(** [(((intN)result) << (maxbits - shift)) >> (maxbits - shift)] *)
Definition sign_extend_shift (maxbits shift result : Z) : Z :=
  u64 (Z.shiftr (swrap maxbits (Z.shiftl (swrap maxbits result) (maxbits - shift)))
         (maxbits - shift)).

Definition read_leb (checked : bool) (buf : list Z) (maxbits : Z) (sign : bool)
    : res (Z * Z) :=
  rlet '(byte, result, shift, off) := leb_loop checked buf maxbits 0 0 0 in
  if negb sign && (maxbits =? 32) && (maxbits <=? shift) then
    if Z.land byte 0xf0 =? 0 then Ok (result, off) else integer_too_large
  else if sign && (maxbits =? 32) then
    if shift <? maxbits then Ok (sign_extend_shift 32 shift result, off)
    else
      let sign_bit_set := negb (Z.land byte 0x8 =? 0) in
      let top_bits := Z.land byte 0xf0 in
      if (sign_bit_set && negb (top_bits =? 0x70))
         || (negb sign_bit_set && negb (top_bits =? 0))
      then integer_too_large else Ok (result, off)
  else if sign && (maxbits =? 64) then
    if shift <? maxbits then Ok (sign_extend_shift 64 shift result, off)
    else
      let sign_bit_set := negb (Z.land byte 0x1 =? 0) in
      let top_bits := Z.land byte 0xfe in
      if (sign_bit_set && negb (top_bits =? 0x7e))
         || (negb sign_bit_set && negb (top_bits =? 0))
      then integer_too_large else Ok (result, off)
  else Ok (result, off).

(** The macros: a one-byte fast path, then [read_leb] and a conversion.
    [fast] is the value of the fast path, [conv] the final cast. *)
Definition read_leb_fast (fast : Z -> Z) (conv : Z -> Z)
    (slow : list Z -> res (Z * Z)) (p : list Z) : res (Z * Z) :=
  match p with
  | _val :: _ =>
      if Z.land _val 0x80 =? 0 then Ok (fast _val, 1)
      else rlet '(r, off) := slow p in Ok (conv r, off)
  | [] => rlet '(r, off) := slow p in Ok (conv r, off)
  end.

(** [res = (intN)_val; if (_val & 0x40) res |= mask] *)
Definition fast_signed (w mask _val : Z) : Z :=
  if Z.land _val 0x40 =? 0 then _val else swrap w (Z.lor _val mask).

Definition read_leb_int64 (checked : bool) (p : list Z) : res (Z * Z) :=
  read_leb_fast (fast_signed 64 0xFFFFFFFFFFFFFF80) s64
    (fun p => read_leb checked p 64 true) p.
Definition read_leb_uint32 (checked : bool) (p : list Z) : res (Z * Z) :=
  read_leb_fast (fun v => v) u32 (fun p => read_leb checked p 32 false) p.
Definition read_leb_int32 (checked : bool) (p : list Z) : res (Z * Z) :=
  read_leb_fast (fast_signed 32 0xFFFFFF80) s32
    (fun p => read_leb checked p 32 true) p.

(** The interpreter's reader: no length check, no range check; a shift of
    64 or more and a read past the buffer are undefined. *)
Module Interp.

Fixpoint leb_loop (buf : list Z) (result shift off : Z) : res (Z * Z * Z * Z) :=
  match buf with
  | [] => Undef
  | byte :: buf' =>
      if 64 <=? shift then Undef else
      let result := leb_accum result byte shift in
      if Z.land byte 0x80 =? 0 then Ok (byte, result, shift + 7, off + 1)
      else leb_loop buf' result (shift + 7) (off + 1)
  end.

Definition read_leb (buf : list Z) (maxbits : Z) (sign : bool) : res (Z * Z) :=
  rlet '(byte, result, shift, off) := leb_loop buf 0 0 0 in
  if sign && (shift <? maxbits) && negb (Z.land byte 0x40 =? 0)
  then Ok (Z.lor result (u64 (- u64 (Z.shiftl 1 shift))), off)
  else Ok (result, off).

Definition read_leb_int64 (p : list Z) : res (Z * Z) :=
  read_leb_fast (fast_signed 64 0xFFFFFFFFFFFFFF80) s64
    (fun p => read_leb p 64 true) p.
Definition read_leb_uint32 (p : list Z) : res (Z * Z) :=
  read_leb_fast (fun v => v) u32 (fun p => read_leb p 32 false) p.
Definition read_leb_int32 (p : list Z) : res (Z * Z) :=
  read_leb_fast (fast_signed 32 0xFFFFFF80) s32 (fun p => read_leb p 32 true) p.

End Interp.

(** ** The format, as WebAssembly defines it *)

(** A group: bytes with the continuation bit, then one without. *)
Fixpoint is_leb (bs : list Z) : Prop :=
  match bs with
  | [] => False
  | [b] => 0 <= b < 128
  | b :: bs' => 128 <= b < 256 /\ is_leb bs'
  end.

(** Its payload, least significant group first. *)
Fixpoint leb_val (bs : list Z) : Z :=
  match bs with
  | [] => 0
  | b :: bs' => b mod 128 + 128 * leb_val bs'
  end.

Definition leb_width (bs : list Z) : Z := 7 * Z.of_nat (length bs).

(** Signed payload: two's complement in the bits of the group. *)
Definition sleb_val (bs : list Z) : Z := swrap (leb_width bs) (leb_val bs).

(** Encoders, used to state round trips. *)
Fixpoint encode_uleb (fuel : nat) (v : Z) : list Z :=
  match fuel with
  | O => []
  | S f => if v <? 128 then [v] else (v mod 128 + 128) :: encode_uleb f (v / 128)
  end.

Fixpoint encode_sleb (fuel : nat) (v : Z) : list Z :=
  match fuel with
  | O => []
  | S f => if (-64 <=? v) && (v <? 64) then [v mod 128]
           else (v mod 128 + 128) :: encode_sleb f (v / 128)
  end.

(** ** Lemmas *)

(** A fact about all bytes is checked on the 256 of them. *)
Lemma byte_forall (P : Z -> bool) :
  forallb (fun n => P (Z.of_nat n)) (seq 0 256) = true ->
  forall b, is_byte b -> P b = true.
Proof.
  intros H b [Hb1 Hb2]. rewrite forallb_forall in H.
  specialize (H (Z.to_nat b)). rewrite Z2Nat.id in H by lia. apply H.
  apply in_seq. change (2 ^ 8) with 256 in Hb2. lia.
Qed.

Lemma leb_stop b : is_byte b -> (Z.land b 0x80 =? 0) = (b <? 128).
Proof.
  intros Hb. apply eqb_prop. revert b Hb.
  apply (byte_forall (fun b => Bool.eqb (Z.land b 0x80 =? 0) (b <? 128))). done.
Qed.

Lemma leb_sign6 b : 0 <= b < 128 -> (Z.land b 0x40 =? 0) = (b <? 64).
Proof.
  intros Hb. apply eqb_prop.
  cut ((128 <=? b) || Bool.eqb (Z.land b 0x40 =? 0) (b <? 64) = true);
    [destruct (Z.leb_spec 128 b); [lia|done]|].
  apply (byte_forall (fun b => (128 <=? b) || Bool.eqb (Z.land b 0x40 =? 0) (b <? 64)));
    [done | unfold is_byte, in_u; change (2 ^ 8) with 256; lia].
Qed.

Lemma leb_payload b : is_byte b -> Z.land b 0x7f = b mod 128.
Proof. intros _. change 0x7f with (Z.ones 7). by rewrite Z.land_ones. Qed.

Lemma leb_accum_add r b s :
  0 <= s -> in_u s r -> is_byte b -> s <= 64 ->
  leb_accum r b s = u64 (r + b mod 128 * 2 ^ s).
Proof.
  intros Hs Hr Hb Hle. unfold leb_accum. rewrite leb_payload by done.
  rewrite <- (lor_add_disjoint r (b mod 128) s) by (auto; lia).
  apply Z_bits_eq. intros i Hi. rewrite Z.lor_spec, !uwrap_testbit, Z.lor_spec by lia.
  destruct (Z.ltb_spec i 64); [done|]. simpl.
  by rewrite (in_u_testbit s r) by (auto; lia).
Qed.

Lemma is_leb_cons b bs :
  is_leb (b :: bs) <-> (bs = [] /\ 0 <= b < 128) \/ (128 <= b < 256 /\ is_leb bs).
Proof.
  destruct bs as [|b' bs]; simpl.
  - split; [by left|]. intros [[_ H]|[_ []]]. done.
  - split; [by right|]. by intros [[? ?]|?].
Qed.

Lemma is_leb_bytes bs : is_leb bs -> Forall is_byte bs.
Proof.
  induction bs as [|b bs IH]; [done|]. rewrite is_leb_cons.
  unfold is_byte, in_u. change (2 ^ 8) with 256.
  intros [[-> H]|[H1 H2]]; constructor; try lia; auto.
Qed.

Lemma pow2_7_S n : 2 ^ (7 * Z.of_nat (S n)) = 128 * 2 ^ (7 * Z.of_nat n).
Proof.
  replace (7 * Z.of_nat (S n)) with (7 + 7 * Z.of_nat n) by lia.
  by rewrite Z.pow_add_r by lia.
Qed.

Lemma leb_val_range bs : in_u (leb_width bs) (leb_val bs).
Proof.
  unfold leb_width. induction bs as [|b bs [IH1 IH2]]; [by split|].
  cbn [length leb_val]. unfold in_u. rewrite pow2_7_S.
  pose proof (Z.mod_pos_bound b 128). lia.
Qed.

Lemma leb_group_acc b bs c :
  leb_val (b :: bs) * 2 ^ (7 * c) = b mod 128 * 2 ^ (7 * c) + leb_val bs * 2 ^ (7 * (c + 1)) \/ c < 0.
Proof.
  destruct (Z.ltb_spec c 0); [by right|left]. cbn [leb_val].
  replace (7 * (c + 1)) with (7 + 7 * c) by lia. rewrite Z.pow_add_r by lia.
  change (2 ^ 7) with 128. ring.
Qed.

(** One accumulation step keeps the partial value in [7 * (c + 1)] bits. *)
Lemma leb_step_range r b c :
  0 <= c -> in_u (7 * c) r -> in_u (7 * (c + 1)) (r + b mod 128 * 2 ^ (7 * c)).
Proof.
  intros Hc [H1 H2]. unfold in_u.
  replace (7 * (c + 1)) with (7 + 7 * c) by lia. rewrite Z.pow_add_r by lia.
  change (2 ^ 7) with 128.
  pose proof (Z.mod_pos_bound b 128). pose proof (pow2_pos (7 * c)). nia.
Qed.

Lemma leb_loop_group chk mb bs rest r c :
  is_leb bs -> 0 <= c -> max_leb_bytes mb <= 10 ->
  c + Z.of_nat (length bs) <= max_leb_bytes mb -> in_u (7 * c) r ->
  leb_loop chk (bs ++ rest) mb r (7 * c) c =
    Ok (List.last bs 0, u64 (r + leb_val bs * 2 ^ (7 * c)),
        7 * (c + Z.of_nat (length bs)), c + Z.of_nat (length bs)).
Proof.
  revert r c. induction bs as [|b bs IH]; intros r c Hl Hc Hmax Hlen Hr; [done|].
  pose proof (is_leb_bytes _ Hl) as Hb. apply Forall_cons_1 in Hb as [Hb Hbs].
  cbn [length] in Hlen.
  assert (Hstep := leb_accum_add r b (7 * c) ltac:(lia) Hr Hb ltac:(lia)).
  apply is_leb_cons in Hl. cbn [app leb_loop].
  rewrite (proj2 (Z.ltb_ge _ _)) by lia. rewrite leb_stop by done.
  destruct Hl as [[-> Hb']|[Hb' Hl]].
  - rewrite (proj2 (Z.ltb_lt b 128)) by lia. rewrite Hstep.
    cbn [List.last length leb_val app]. repeat (f_equal; try lia).
  - rewrite (proj2 (Z.ltb_ge b 128)) by lia.
    assert (bs <> []) by (by intros ->). rewrite Hstep.
    rewrite (uwrap_id 64) by
      (apply (in_u_weaken (7 * (c + 1))); [by apply leb_step_range|];
       destruct bs; [done|]; cbn [length] in *; lia).
    replace (7 * c + 7) with (7 * (c + 1)) by lia.
    rewrite IH; try done; try lia; [|by apply leb_step_range].
    destruct (leb_group_acc b bs c) as [E|]; [|lia]. rewrite E.
    replace (List.last (b :: bs) 0) with (List.last bs 0) by (by destruct bs).
    cbn [length]. repeat (f_equal; try lia).
Qed.

Lemma leb_loop_inv chk mb l r s c b r' s' c' :
  Forall is_byte l ->
  leb_loop chk l mb r s c = Ok (b, r', s', c') ->
  exists bs rest, l = bs ++ rest /\ is_leb bs /\
    c + Z.of_nat (length bs) <= max_leb_bytes mb.
Proof.
  revert r s c. induction l as [|x l IH]; intros r s c Hl H; cbn [leb_loop] in H.
  - destruct (_ <? _); [done|]. by destruct chk.
  - apply Forall_cons_1 in Hl as [Hx Hl].
    destruct (Z.ltb_spec (max_leb_bytes mb) (c + 1)); [done|].
    rewrite leb_stop in H by done. unfold is_byte, in_u in Hx. change (2 ^ 8) with 256 in Hx.
    destruct (Z.ltb_spec x 128).
    + exists [x], l. split; [done|]. split; [simpl; lia|]. simpl. lia.
    + apply IH in H as (bs & rest & -> & Hg & Hn); [|done].
      exists (x :: bs), rest. split; [done|]. split.
      * apply is_leb_cons. right. split; [lia|done].
      * cbn [length]. lia.
Qed.

Lemma interp_loop_group bs rest r c :
  is_leb bs -> 0 <= c -> c + Z.of_nat (length bs) <= 10 -> in_u (7 * c) r ->
  Interp.leb_loop (bs ++ rest) r (7 * c) c =
    Ok (List.last bs 0, u64 (r + leb_val bs * 2 ^ (7 * c)),
        7 * (c + Z.of_nat (length bs)), c + Z.of_nat (length bs)).
Proof.
  revert r c. induction bs as [|b bs IH]; intros r c Hl Hc Hlen Hr; [done|].
  pose proof (is_leb_bytes _ Hl) as Hb. apply Forall_cons_1 in Hb as [Hb Hbs].
  cbn [length] in Hlen.
  assert (Hstep := leb_accum_add r b (7 * c) ltac:(lia) Hr Hb ltac:(lia)).
  apply is_leb_cons in Hl. cbn [app Interp.leb_loop].
  rewrite (proj2 (Z.leb_gt _ _)) by lia. rewrite leb_stop by done.
  destruct Hl as [[-> Hb']|[Hb' Hl]].
  - rewrite (proj2 (Z.ltb_lt b 128)) by lia. rewrite Hstep.
    cbn [List.last length leb_val app]. repeat (f_equal; try lia).
  - rewrite (proj2 (Z.ltb_ge b 128)) by lia.
    assert (bs <> []) by (by intros ->). rewrite Hstep.
    rewrite (uwrap_id 64) by
      (apply (in_u_weaken (7 * (c + 1))); [by apply leb_step_range|];
       destruct bs; [done|]; cbn [length] in *; lia).
    replace (7 * c + 7) with (7 * (c + 1)) by lia.
    rewrite IH; try done; try lia; [|by apply leb_step_range].
    destruct (leb_group_acc b bs c) as [E|]; [|lia]. rewrite E.
    replace (List.last (b :: bs) 0) with (List.last bs 0) by (by destruct bs).
    cbn [length]. repeat (f_equal; try lia).
Qed.

(** The last byte holds the top seven bits of the payload. *)
Lemma leb_val_last bs :
  is_leb bs ->
  0 <= List.last bs 0 < 128 /\
  exists lo, in_u (leb_width bs - 7) lo /\
    leb_val bs = lo + List.last bs 0 * 2 ^ (leb_width bs - 7).
Proof.
  unfold leb_width. induction bs as [|b bs IH]; [done|].
  rewrite is_leb_cons. intros [[-> Hb]|[Hb Hl]].
  - split; [done|]. exists 0. cbn [length leb_val List.last].
    replace (7 * Z.of_nat 1 - 7) with 0 by lia. split; [by split|].
    rewrite Z.mod_small by lia. lia.
  - destruct (IH Hl) as (H1 & lo & [H2 H3] & E).
    assert (bs <> []) by (by intros ->).
    replace (List.last (b :: bs) 0) with (List.last bs 0) by (by destruct bs).
    split; [done|]. exists (b mod 128 + 128 * lo).
    assert (2 ^ (7 * Z.of_nat (length (b :: bs)) - 7) = 128 * 2 ^ (7 * Z.of_nat (length bs) - 7)) as Ep.
    { cbn [length]. replace (7 * Z.of_nat (S (length bs)) - 7)
        with (7 + (7 * Z.of_nat (length bs) - 7)) by lia.
      rewrite Z.pow_add_r; [done|lia|]. destruct bs; [done|]. cbn [length]. lia. }
    unfold in_u. rewrite Ep. cbn [leb_val]. rewrite E.
    pose proof (Z.mod_pos_bound b 128). split; [nia|ring].
Qed.

(** The sign of the payload is bit 6 of the last byte. *)
Lemma leb_val_sign bs :
  is_leb bs ->
  (leb_val bs <? 2 ^ (leb_width bs - 1)) = (List.last bs 0 <? 64).
Proof.
  intros Hl. destruct (leb_val_last bs Hl) as (Hr & lo & [Hlo1 Hlo2] & ->).
  assert (0 <= leb_width bs - 7)
    by (unfold leb_width; destruct bs; [done|]; cbn [length]; lia).
  replace (leb_width bs - 1) with (6 + (leb_width bs - 7)) by lia.
  rewrite Z.pow_add_r by lia. change (2 ^ 6) with 64.
  set (p := 2 ^ (leb_width bs - 7)) in *.
  apply eq_true_iff_eq. rewrite !Z.ltb_lt. nia.
Qed.

Lemma sleb_case bs :
  is_leb bs ->
  sleb_val bs = if List.last bs 0 <? 64 then leb_val bs
                else leb_val bs - 2 ^ leb_width bs.
Proof.
  intros Hl. unfold sleb_val. rewrite swrap_case, leb_val_sign; try done;
    [unfold leb_width; destruct bs; [done|]; cbn [length]; lia | apply leb_val_range].
Qed.

Lemma sext_lor v s :
  0 <= s < 64 -> in_u s v ->
  Z.lor v (u64 (- u64 (Z.shiftl 1 s))) = u64 (v - 2 ^ s).
Proof.
  intros Hs Hv. rewrite Z.shiftl_mul_pow2, Z.mul_1_l by lia.
  pose proof (Z.pow_lt_mono_r 2 s 64 ltac:(lia) ltac:(lia) ltac:(lia)) as Hlt.
  pose proof (pow2_pos s ltac:(lia)).
  assert (u64 (- u64 (2 ^ s)) = 2 ^ 64 - 2 ^ s) as ->.
  { rewrite (uwrap_id 64 (2 ^ s)) by (unfold in_u; lia). unfold uwrap.
    replace (- 2 ^ s) with (2 ^ 64 - 2 ^ s + (-1) * 2 ^ 64) by lia.
    rewrite Z.mod_add by lia. apply Z.mod_small. lia. }
  assert (2 ^ 64 - 2 ^ s = Z.shiftl (2 ^ (64 - s) - 1) s) as ->.
  { rewrite Z.shiftl_mul_pow2, Z.mul_sub_distr_r, <- Z.pow_add_r by lia.
    replace (64 - s + s) with 64 by lia. lia. }
  rewrite lor_add_disjoint by (auto; lia).
  rewrite Z.mul_sub_distr_r, <- Z.pow_add_r by lia.
  replace (64 - s + s) with 64 by lia. destruct Hv as [Hv1 Hv2].
  unfold uwrap. replace (v - 2 ^ s) with (v + (2 ^ 64 - 1 * 2 ^ s) + (-1) * 2 ^ 64) by lia.
  rewrite Z.mod_add by lia. symmetry. apply Z.mod_small. lia.
Qed.

Lemma sign_extend_shift_spec w s v :
  0 < s < w -> w <= 64 -> in_u s v -> sign_extend_shift w s v = u64 (swrap s v).
Proof.
  intros Hs Hw Hv. unfold sign_extend_shift. f_equal.
  assert (Hv' : in_u (w - 1) v) by (apply (in_u_weaken s); [done|lia]).
  pose proof (pow2_pos s ltac:(lia)). pose proof (pow2_pos (s - 1) ltac:(lia)).
  pose proof (pow2_pos (w - s) ltac:(lia)) as Hk.
  assert (Ew : 2 ^ w = 2 ^ s * 2 ^ (w - s)) by (rewrite <- Z.pow_add_r by lia; f_equal; lia).
  assert (Ew1 : 2 ^ (w - 1) = 2 ^ (s - 1) * 2 ^ (w - s))
    by (rewrite <- Z.pow_add_r by lia; f_equal; lia).
  rewrite (swrap_id w v) by (unfold in_s, in_u in *; lia).
  rewrite Z.shiftl_mul_pow2, Z.shiftr_div_pow2 by lia. destruct Hv as [Hv1 Hv2].
  rewrite (swrap_case w) by (unfold in_u; nia). rewrite (swrap_case s) by (unfold in_u; lia).
  rewrite Ew, Ew1.
  destruct (Z.ltb_spec v (2 ^ (s - 1))); destruct (Z.ltb_spec (v * 2 ^ (w - s)) (2 ^ (s - 1) * 2 ^ (w - s)));
    try nia; [by rewrite Z.div_mul by lia|].
  rewrite <- Z.mul_sub_distr_r. by rewrite Z.div_mul by lia.
Qed.

(** The two range checks on the last byte of a maximal group. *)
Lemma top_bits_32u b : 0 <= b < 128 -> (Z.land b 0xf0 =? 0) = (b <? 16).
Proof.
  intros Hb. apply eqb_prop.
  cut ((128 <=? b) || Bool.eqb (Z.land b 0xf0 =? 0) (b <? 16) = true);
    [destruct (Z.leb_spec 128 b); [lia|done]|].
  apply (byte_forall (fun b => (128 <=? b) || Bool.eqb (Z.land b 0xf0 =? 0) (b <? 16)));
    [done | unfold is_byte, in_u; change (2 ^ 8) with 256; lia].
Qed.

Definition bad_top (sb full b : Z) : bool :=
  let sign_bit_set := negb (Z.land b sb =? 0) in
  let top_bits := Z.land b (255 - 2 * sb + 1) in
  (sign_bit_set && negb (top_bits =? full)) || (negb sign_bit_set && negb (top_bits =? 0)).

Lemma bad_top_32 b :
  0 <= b < 128 -> bad_top 8 0x70 b = negb ((b <? 8) || (120 <=? b)).
Proof.
  intros Hb. apply eqb_prop.
  cut ((128 <=? b) || Bool.eqb (bad_top 8 0x70 b) (negb ((b <? 8) || (120 <=? b))) = true);
    [destruct (Z.leb_spec 128 b); [lia|done]|].
  apply (byte_forall (fun b => (128 <=? b) || Bool.eqb (bad_top 8 0x70 b) (negb ((b <? 8) || (120 <=? b)))));
    [done | unfold is_byte, in_u; change (2 ^ 8) with 256; lia].
Qed.

Lemma bad_top_64 b :
  0 <= b < 128 -> bad_top 1 0x7e b = negb ((b <? 1) || (127 <=? b)).
Proof.
  intros Hb. apply eqb_prop.
  cut ((128 <=? b) || Bool.eqb (bad_top 1 0x7e b) (negb ((b <? 1) || (127 <=? b))) = true);
    [destruct (Z.leb_spec 128 b); [lia|done]|].
  apply (byte_forall (fun b => (128 <=? b) || Bool.eqb (bad_top 1 0x7e b) (negb ((b <? 1) || (127 <=? b)))));
    [done | unfold is_byte, in_u; change (2 ^ 8) with 256; lia].
Qed.

(** Reading a group that is short enough: the value if it is in range. *)
Definition in_u_b (w v : Z) : bool := (0 <=? v) && (v <? 2 ^ w).
Definition in_s_b (w v : Z) : bool := (- 2 ^ (w - 1) <=? v) && (v <? 2 ^ (w - 1)).

Lemma in_s_bP w v : in_s_b w v = true <-> in_s w v.
Proof. unfold in_s_b, in_s. rewrite andb_true_iff, Z.leb_le, Z.ltb_lt. done. Qed.
Lemma in_u_bP w v : in_u_b w v = true <-> in_u w v.
Proof. unfold in_u_b, in_u. rewrite andb_true_iff, Z.leb_le, Z.ltb_lt. done. Qed.

Lemma leb_len_cases (bs : list Z) (n : Z) :
  bs <> [] -> Z.of_nat (length bs) <= n ->
  0 < Z.of_nat (length bs) < n \/ Z.of_nat (length bs) = n.
Proof. destruct bs; [done|]. cbn [length]. lia. Qed.

Lemma leb_read_unfold chk mb sign bs rest :
  is_leb bs -> max_leb_bytes mb <= 10 -> Z.of_nat (length bs) <= max_leb_bytes mb ->
  leb_loop chk (bs ++ rest) mb 0 0 0 =
  Ok (List.last bs 0, u64 (leb_val bs), leb_width bs, Z.of_nat (length bs)) /\
  (sign = true \/ sign = false).
Proof.
  intros Hl Hm Hn. split; [|by destruct sign; auto].
  pose proof (leb_loop_group chk mb bs rest 0 0 Hl ltac:(lia) Hm ltac:(lia)) as E.
  change (7 * 0) with 0 in E. rewrite E by (split; [done|reflexivity]).
  unfold leb_width. repeat (f_equal; try lia).
Qed.

Lemma read_leb_u32_group chk bs rest :
  is_leb bs -> Z.of_nat (length bs) <= 5 ->
  read_leb chk (bs ++ rest) 32 false =
    if in_u_b 32 (leb_val bs) then Ok (leb_val bs, Z.of_nat (length bs))
    else integer_too_large.
Proof.
  intros Hl Hn. unfold read_leb.
  rewrite (proj1 (leb_read_unfold chk 32 false bs rest Hl ltac:(done) Hn)).
  cbn [res_bind negb andb]. change (32 =? 32) with true. cbn [andb].
  pose proof (leb_val_range bs) as [Hv1 Hv2].
  destruct (leb_len_cases bs 5) as [Hlen|Hlen]; [by intros ->|done| |].
  - assert (leb_width bs <= 28) by (unfold leb_width; lia).
    rewrite (proj2 (Z.leb_gt 32 _)) by lia.
    pose proof (Z.pow_le_mono_r 2 (leb_width bs) 28 ltac:(lia) ltac:(lia)).
    replace (in_u_b 32 (leb_val bs)) with true by (symmetry; apply in_u_bP; unfold in_u; lia).
    by rewrite uwrap_id by (unfold in_u; lia).
  - destruct (leb_val_last bs Hl) as (Hr & lo & [Hlo1 Hlo2] & E).
    unfold leb_width in *. rewrite Hlen in *. change (32 <=? 7 * 5) with true. cbn [andb].
    change (7 * 5 - 7) with 28 in *.
    rewrite top_bits_32u by done. unfold in_u_b.
    rewrite uwrap_id by (unfold in_u; lia). rewrite (proj2 (Z.leb_le 0 _)) by lia. cbn [andb].
    replace (leb_val bs <? 2 ^ 32) with (List.last bs 0 <? 16); [done|].
    apply eq_true_iff_eq. rewrite !Z.ltb_lt. rewrite E. change (2 ^ 32) with (16 * 2 ^ 28). nia.
Qed.

(** The signed readers; [w] is 32 or 64, [sb] the sign bit in the last byte. *)
Lemma read_leb_signed_short w bs :
  is_leb bs -> 0 < w <= 64 -> leb_width bs < w ->
  sign_extend_shift w (leb_width bs) (u64 (leb_val bs)) = u64 (sleb_val bs) /\
  in_s w (sleb_val bs).
Proof.
  intros Hl Hw Hs. assert (0 < leb_width bs) by (unfold leb_width; destruct bs; [done|]; cbn [length]; lia).
  pose proof (leb_val_range bs) as Hv.
  rewrite (uwrap_id 64) by (apply (in_u_weaken (leb_width bs)); [done|lia]).
  rewrite sign_extend_shift_spec by (auto; lia). split; [done|].
  pose proof (swrap_range (leb_width bs) (leb_val bs) ltac:(lia)) as Hr.
  fold (sleb_val bs) in Hr. unfold in_s in *.
  pose proof (Z.pow_le_mono_r 2 (leb_width bs - 1) (w - 1)). lia.
Qed.

Lemma sleb_full_in_range w bs lim :
  is_leb bs -> leb_width bs - 7 < w -> w = leb_width bs - 7 + lim -> 1 <= lim <= 6 ->
  in_s_b w (sleb_val bs) =
    (List.last bs 0 <? 2 ^ (lim - 1)) || (128 - 2 ^ (lim - 1) <=? List.last bs 0).
Proof.
  intros Hl _ -> Hlim. rewrite sleb_case by done.
  destruct (leb_val_last bs Hl) as (Hr & lo & [Hlo1 Hlo2] & E). rewrite E.
  assert (0 <= leb_width bs - 7)
    by (unfold leb_width; destruct bs; [done|]; cbn [length]; lia).
  replace (2 ^ leb_width bs) with (128 * 2 ^ (leb_width bs - 7))
    by (change 128 with (2 ^ 7); rewrite <- Z.pow_add_r by lia; f_equal; lia).
  set (b := List.last bs 0) in *. clearbody b.
  unfold in_s_b. replace (leb_width bs - 7 + lim - 1) with (lim - 1 + (leb_width bs - 7)) by lia.
  rewrite Z.pow_add_r by lia.
  set (p := 2 ^ (leb_width bs - 7)) in *. clearbody p.
  assert (1 <= 2 ^ (lim - 1) <= 32).
  { split; [pose proof (pow2_pos (lim - 1)); lia|].
    change 32 with (2 ^ 5). apply Z.pow_le_mono_r; lia. }
  set (q := 2 ^ (lim - 1)) in *. clearbody q.
  apply eq_true_iff_eq. rewrite orb_true_iff, andb_true_iff, !Z.leb_le, !Z.ltb_lt.
  destruct (Z.ltb_spec b 64); nia.
Qed.

Lemma read_leb_s32_group chk bs rest :
  is_leb bs -> Z.of_nat (length bs) <= 5 ->
  read_leb chk (bs ++ rest) 32 true =
    if in_s_b 32 (sleb_val bs)
    then Ok (u64 (if leb_width bs <? 32 then sleb_val bs else leb_val bs), Z.of_nat (length bs))
    else integer_too_large.
Proof.
  intros Hl Hn. unfold read_leb.
  rewrite (proj1 (leb_read_unfold chk 32 true bs rest Hl ltac:(done) Hn)).
  cbn [res_bind negb andb]. change (32 =? 32) with true. cbn [andb].
  destruct (leb_len_cases bs 5) as [Hlen|Hlen]; [by intros ->|done| |].
  - assert (leb_width bs <= 28) by (unfold leb_width; lia).
    rewrite (proj2 (Z.ltb_lt _ 32)) by lia.
    destruct (read_leb_signed_short 32 bs Hl ltac:(lia) ltac:(lia)) as [-> Hr].
    by rewrite (proj2 (in_s_bP _ _) Hr).
  - assert (Hw : leb_width bs = 35) by (unfold leb_width; lia).
    rewrite Hw. change (35 <? 32) with false. cbv iota.
    destruct (leb_val_last bs Hl) as (Hr & _).
    rewrite (sleb_full_in_range 32 bs 4) by (auto; lia).
    pose proof (bad_top_32 (List.last bs 0) Hr) as Eb. unfold bad_top in Eb.
    change (255 - 2 * 8 + 1) with 0xf0 in Eb. cbv zeta in *. rewrite Eb.
    change (2 ^ (4 - 1)) with 8. change (128 - 8) with 120.
    by destruct (List.last bs 0 <? 8), (120 <=? List.last bs 0).
Qed.

Lemma read_leb_s64_group chk bs rest :
  is_leb bs -> Z.of_nat (length bs) <= 10 ->
  read_leb chk (bs ++ rest) 64 true =
    if in_s_b 64 (sleb_val bs)
    then Ok (u64 (if leb_width bs <? 64 then sleb_val bs else leb_val bs), Z.of_nat (length bs))
    else integer_too_large.
Proof.
  intros Hl Hn. unfold read_leb.
  rewrite (proj1 (leb_read_unfold chk 64 true bs rest Hl ltac:(done) Hn)).
  cbn [res_bind negb andb]. change (64 =? 32) with false. cbn [andb].
  destruct (leb_len_cases bs 10) as [Hlen|Hlen]; [by intros ->|done| |].
  - assert (leb_width bs <= 63) by (unfold leb_width; lia).
    change (64 =? 64) with true. cbv iota.
    rewrite (proj2 (Z.ltb_lt _ 64)) by lia.
    destruct (read_leb_signed_short 64 bs Hl ltac:(lia) ltac:(lia)) as [-> Hr].
    by rewrite (proj2 (in_s_bP _ _) Hr).
  - assert (Hw : leb_width bs = 70) by (unfold leb_width; lia).
    rewrite Hw. change (64 =? 64) with true. change (70 <? 64) with false. cbv iota.
    destruct (leb_val_last bs Hl) as (Hr & _).
    rewrite (sleb_full_in_range 64 bs 1) by (auto; lia).
    pose proof (bad_top_64 (List.last bs 0) Hr) as Eb. unfold bad_top in Eb.
    change (255 - 2 * 1 + 1) with 0xfe in Eb. cbv zeta in *. rewrite Eb.
    change (2 ^ (1 - 1)) with 1. change (128 - 1) with 127.
    by destruct (List.last bs 0 <? 1), (127 <=? List.last bs 0).
Qed.

(** The signed value and the payload agree modulo the group's width, hence
    after conversion to any narrower type. *)
Lemma swrap_cong w a b k : 0 < w -> a = b + k * 2 ^ w -> swrap w a = swrap w b.
Proof.
  intros Hw ->. unfold swrap. f_equal.
  replace (b + k * 2 ^ w + 2 ^ (w - 1)) with (b + 2 ^ (w - 1) + k * 2 ^ w) by lia.
  apply Z.mod_add. apply Z.pow_nonzero; lia.
Qed.

Lemma swrap_sleb w bs :
  is_leb bs -> 0 < w <= leb_width bs -> swrap w (leb_val bs) = swrap w (sleb_val bs).
Proof.
  intros Hl Hw. rewrite sleb_case by done.
  destruct (_ <? _); [done|]. apply (swrap_cong w _ _ (2 ^ (leb_width bs - w))); [lia|].
  rewrite <- Z.pow_add_r by lia. replace (leb_width bs - w + w) with (leb_width bs) by lia. lia.
Qed.

Lemma swrap_u64 w z : 0 < w <= 64 -> swrap w (u64 z) = swrap w z.
Proof.
  intros Hw. rewrite <- (swrap_uwrap w (u64 z)), <- (swrap_uwrap w z) by lia. f_equal.
  unfold uwrap. apply Z.mod_mod_divide. exists (2 ^ (64 - w)).
  rewrite <- Z.pow_add_r by lia. f_equal. lia.
Qed.

Lemma fast_signed_spec w mask b :
  (w = 32 /\ mask = 0xFFFFFF80) \/ (w = 64 /\ mask = 0xFFFFFFFFFFFFFF80) ->
  0 <= b < 128 -> fast_signed w mask b = sleb_val [b].
Proof.
  intros Hw Hb. apply Z.eqb_eq.
  cut ((128 <=? b) || (fast_signed w mask b =? sleb_val [b]) = true);
    [destruct (Z.leb_spec 128 b); [lia|done]|].
  assert (is_byte b) by (unfold is_byte, in_u; change (2 ^ 8) with 256; lia).
  destruct Hw as [[-> ->]|[-> ->]]; revert b H Hb;
    [pose proof (byte_forall (fun b => (128 <=? b) || (fast_signed 32 0xFFFFFF80 b =? sleb_val [b])))
    |pose proof (byte_forall (fun b => (128 <=? b) || (fast_signed 64 0xFFFFFFFFFFFFFF80 b =? sleb_val [b])))];
    intros b H1 _; apply H; done.
Qed.

(** A fast-path macro on a group: the fast path is the one-byte group. *)
Lemma read_leb_fast_group fast conv slow bs rest v :
  is_leb bs ->
  (forall b, bs = [b] -> fast b = v) ->
  (2 <= Z.of_nat (length bs) -> exists r, slow (bs ++ rest) = Ok (r, Z.of_nat (length bs)) /\ conv r = v) ->
  read_leb_fast fast conv slow (bs ++ rest) = Ok (v, Z.of_nat (length bs)).
Proof.
  intros Hl Hf Hs. destruct bs as [|b bs]; [done|].
  pose proof (is_leb_bytes _ Hl) as Hb. apply Forall_cons_1 in Hb as [Hb _].
  apply is_leb_cons in Hl. cbn [app read_leb_fast]. rewrite leb_stop by done.
  destruct Hl as [[-> H]|[H Hl]].
  - rewrite (proj2 (Z.ltb_lt _ _)) by lia. by rewrite (Hf b).
  - rewrite (proj2 (Z.ltb_ge _ _)) by lia.
    destruct Hs as (r & Hr & <-); [destruct bs; [done|]; cbn [length]; lia|].
    cbn [app] in Hr. by rewrite Hr.
Qed.

Lemma read_leb_fast_err fast conv slow bs rest e :
  is_leb bs -> 2 <= Z.of_nat (length bs) -> slow (bs ++ rest) = Err e ->
  read_leb_fast fast conv slow (bs ++ rest) = Err e.
Proof.
  intros Hl Hn Hs. destruct bs as [|b bs]; [done|].
  pose proof (is_leb_bytes _ Hl) as Hb. apply Forall_cons_1 in Hb as [Hb _].
  apply is_leb_cons in Hl. cbn [app read_leb_fast]. rewrite leb_stop by done.
  destruct Hl as [[-> H]|[H Hl]]; [simpl in Hn; lia|].
  rewrite (proj2 (Z.ltb_ge _ _)) by lia. cbn [app] in Hs. by rewrite Hs.
Qed.

(** Three readers, one shape: [wd] bytes at most, value [val], range [ok]. *)
Definition leb_outcome (ok : Z -> bool) (val : list Z -> Z) (bs : list Z) : res (Z * Z) :=
  if ok (val bs) then Ok (val bs, Z.of_nat (length bs)) else integer_too_large.

Lemma sleb_single_range w b : 0 <= b < 128 -> 32 <= w -> in_s w (sleb_val [b]).
Proof.
  intros Hb Hw. unfold sleb_val. pose proof (swrap_range 7 (leb_val [b]) ltac:(lia)) as H.
  change (leb_width [b]) with 7. unfold in_s in *.
  pose proof (Z.pow_le_mono_r 2 (7 - 1) (w - 1)). lia.
Qed.

Lemma read_leb_signed_macro w mask n chk bs rest :
  (w = 32 /\ mask = 0xFFFFFF80 /\ n = 5) \/ (w = 64 /\ mask = 0xFFFFFFFFFFFFFF80 /\ n = 10) ->
  is_leb bs -> Z.of_nat (length bs) <= n ->
  read_leb_fast (fast_signed w mask) (swrap w) (fun p => read_leb chk p w true) (bs ++ rest)
    = leb_outcome (in_s_b w) sleb_val bs.
Proof.
  intros Hw Hl Hn. unfold leb_outcome.
  assert (Hslow : read_leb chk (bs ++ rest) w true = if in_s_b w (sleb_val bs)
    then Ok (u64 (if leb_width bs <? w then sleb_val bs else leb_val bs), Z.of_nat (length bs))
    else integer_too_large).
  { destruct Hw as [(-> & _ & ->)|(-> & _ & ->)];
      [by apply read_leb_s32_group | by apply read_leb_s64_group]. }
  assert (0 < w <= 64) by (destruct Hw as [(-> & _)|(-> & _)]; lia).
  destruct (in_s_b w (sleb_val bs)) eqn:E.
  - apply read_leb_fast_group; [done| |].
    + intros b ->. apply fast_signed_spec; [tauto|]. simpl in Hl. lia.
    + intros _. rewrite Hslow. eexists. split; [done|].
      apply in_s_bP in E. rewrite swrap_u64 by done.
      destruct (Z.ltb_spec (leb_width bs) w); [|rewrite swrap_sleb by (auto; lia)];
        by apply swrap_id; [lia|].
  - destruct (decide (2 <= Z.of_nat (length bs))).
    + by apply read_leb_fast_err.
    + destruct bs as [|b [|]]; [done| |cbn [length] in *; lia].
      assert (in_s w (sleb_val [b])) as Hr.
      { apply sleb_single_range; [by simpl in Hl|]. destruct Hw as [(-> & _)|(-> & _)]; lia. }
      apply in_s_bP in Hr. congruence.
Qed.

Lemma read_leb_u32_macro chk bs rest :
  is_leb bs -> Z.of_nat (length bs) <= 5 ->
  read_leb_uint32 chk (bs ++ rest) = leb_outcome (in_u_b 32) leb_val bs.
Proof.
  intros Hl Hn. unfold leb_outcome, read_leb_uint32.
  pose proof (read_leb_u32_group chk bs rest Hl Hn) as Hslow.
  destruct (in_u_b 32 (leb_val bs)) eqn:E.
  - apply read_leb_fast_group; [done| |].
    + intros b ->. simpl in *. rewrite Z.mod_small by lia. lia.
    + intros _. rewrite Hslow. eexists. split; [done|].
      apply in_u_bP in E. by apply uwrap_id.
  - destruct (decide (2 <= Z.of_nat (length bs))).
    + by apply read_leb_fast_err.
    + destruct bs as [|b [|]]; [done| |cbn [length] in *; lia].
      simpl in Hl. assert (in_u 32 (leb_val [b])) as Hr.
      { cbn [leb_val]. rewrite Z.mod_small by lia. unfold in_u. lia. }
      apply in_u_bP in Hr. congruence.
Qed.

(** The interpreter's readers compute the converted value of any group that
    fits ten bytes. *)
Lemma interp_read_unfold w sign bs rest :
  is_leb bs -> Z.of_nat (length bs) <= 10 ->
  Interp.read_leb (bs ++ rest) w sign =
    Ok (if sign && (leb_width bs <? w) && negb (List.last bs 0 <? 64)
        then Z.lor (u64 (leb_val bs)) (u64 (- u64 (Z.shiftl 1 (leb_width bs))))
        else u64 (leb_val bs), Z.of_nat (length bs)).
Proof.
  intros Hl Hn. unfold Interp.read_leb.
  pose proof (interp_loop_group bs rest 0 0 Hl ltac:(lia) ltac:(lia)) as E.
  change (7 * 0) with 0 in E. rewrite E by (split; [done|reflexivity]).
  rewrite !Z.add_0_l. fold (leb_width bs). cbn [res_bind].
  change (2 ^ 0) with 1. rewrite Z.mul_1_r.
  destruct (leb_val_last bs Hl) as [Hr _]. rewrite leb_sign6 by done.
  by destruct (sign && _ && _).
Qed.

Lemma interp_signed_macro w mask bs rest :
  (w = 32 /\ mask = 0xFFFFFF80) \/ (w = 64 /\ mask = 0xFFFFFFFFFFFFFF80) ->
  is_leb bs -> Z.of_nat (length bs) <= 10 ->
  read_leb_fast (fast_signed w mask) (swrap w) (fun p => Interp.read_leb p w true) (bs ++ rest)
    = Ok (swrap w (sleb_val bs), Z.of_nat (length bs)).
Proof.
  intros Hw Hl Hn. assert (32 <= w <= 64) by (destruct Hw as [(-> & _)|(-> & _)]; lia).
  apply read_leb_fast_group; [done| |].
  - intros b ->. cbn [is_leb] in Hl. rewrite fast_signed_spec by auto.
    symmetry. apply swrap_id; [lia|]. apply sleb_single_range; [done|lia].
  - intros _. rewrite interp_read_unfold by done. eexists. split; [done|]. cbn [andb].
    pose proof (leb_val_range bs) as Hv.
    destruct (Z.ltb_spec (leb_width bs) w) as [Hlt|Hge]; cbn [andb].
    + assert (0 <= leb_width bs) by (unfold leb_width; lia).
      rewrite (uwrap_id 64 (leb_val bs)) by (apply (in_u_weaken (leb_width bs)); [done|lia]).
      rewrite sleb_case by done. destruct (List.last bs 0 <? 64); cbn [negb]; [done|].
      rewrite sext_lor by (auto; lia). by apply swrap_u64; lia.
    + rewrite swrap_u64 by lia. apply swrap_sleb; [done|lia].
Qed.

Lemma interp_u32_macro bs rest :
  is_leb bs -> Z.of_nat (length bs) <= 10 ->
  Interp.read_leb_uint32 (bs ++ rest) = Ok (u32 (leb_val bs), Z.of_nat (length bs)).
Proof.
  intros Hl Hn. apply read_leb_fast_group; [done| |].
  - intros b ->. simpl in *. rewrite Z.mod_small by lia.
    rewrite uwrap_id; unfold in_u; lia.
  - intros _. rewrite interp_read_unfold by done. cbn [andb]. eexists. split; [done|].
    unfold uwrap. apply Z.mod_mod_divide. by exists (2 ^ 32).
Qed.

(** Whatever a loader reader accepts starts with a group that is not too long. *)
Lemma read_leb_ok_group fast conv chk mb sign l v :
  Forall is_byte l -> 1 <= max_leb_bytes mb ->
  read_leb_fast fast conv (fun p => read_leb chk p mb sign) l = Ok v ->
  exists bs rest, l = bs ++ rest /\ is_leb bs /\ Z.of_nat (length bs) <= max_leb_bytes mb.
Proof.
  intros Hl Hm. destruct l as [|b l].
  { cbn [read_leb_fast]. unfold read_leb. cbn [leb_loop].
    rewrite (proj2 (Z.ltb_ge _ _)) by lia. by destruct chk. }
  pose proof Hl as Hl'. apply Forall_cons_1 in Hl' as [Hb _]. cbn [read_leb_fast].
  rewrite leb_stop by done. unfold is_byte, in_u in Hb. change (2 ^ 8) with 256 in Hb.
  destruct (Z.ltb_spec b 128).
  - intros _. exists [b], l. split; [done|]. simpl. lia.
  - intros E. apply res_bind_ok in E as ([r off] & E & _).
    unfold read_leb in E. apply res_bind_ok in E as ([[[b' r'] s'] c'] & E & _).
    apply leb_loop_inv in E as (bs & rest & E1 & E2 & E3); [|done].
    exists bs, rest. rewrite Z.add_0_l in E3. done.
Qed.

Lemma sleb_cons b bs :
  is_leb bs -> 128 <= b < 256 -> sleb_val (b :: bs) = b mod 128 + 128 * sleb_val bs.
Proof.
  intros Hl Hb. assert (bs <> []) by (by intros ->).
  rewrite !sleb_case by (try apply is_leb_cons; auto).
  replace (List.last (b :: bs) 0) with (List.last bs 0) by (by destruct bs).
  cbn [leb_val]. replace (leb_width (b :: bs)) with (7 + leb_width bs)
    by (unfold leb_width; cbn [length]; lia).
  rewrite Z.pow_add_r by (unfold leb_width; lia). change (2 ^ 7) with 128.
  destruct (List.last bs 0 <? 64); lia.
Qed.

Lemma encode_sleb_spec (fuel : nat) v :
  - 2 ^ (7 * Z.of_nat fuel - 1) <= v < 2 ^ (7 * Z.of_nat fuel - 1) -> (fuel <> 0)%nat ->
  is_leb (encode_sleb fuel v) /\ sleb_val (encode_sleb fuel v) = v /\
  (length (encode_sleb fuel v) <= fuel)%nat.
Proof.
  revert v. induction fuel as [|f IH]; intros v Hv Hf; [done|]. cbn [encode_sleb].
  pose proof (Z.mod_pos_bound v 128 ltac:(lia)) as Hm.
  pose proof (Z.div_mod v 128 ltac:(lia)) as Hd.
  destruct (_ && _) eqn:E.
  - apply andb_true_iff in E as [E1 E2]. apply Z.leb_le in E1. apply Z.ltb_lt in E2.
    split; [simpl; lia|]. split; [|simpl; lia].
    rewrite sleb_case by (simpl; lia). cbn [List.last leb_val].
    change (2 ^ leb_width [v mod 128]) with 128. rewrite Z.mod_mod by lia.
    destruct (Z.ltb_spec (v mod 128) 64); lia.
  - assert (f <> 0)%nat as Hf'.
    { intros ->. change (7 * Z.of_nat 1 - 1) with 6 in Hv. change (2 ^ 6) with 64 in Hv.
      rewrite (proj2 (Z.leb_le _ _)), (proj2 (Z.ltb_lt _ _)) in E by lia. done. }
    destruct (IH (v / 128)) as (H1 & H2 & H3); [|done|].
    { replace (7 * Z.of_nat (S f) - 1) with (7 + (7 * Z.of_nat f - 1)) in Hv by lia.
      rewrite Z.pow_add_r in Hv by lia. change (2 ^ 7) with 128 in Hv. lia. }
    split; [apply is_leb_cons; right; split; [lia|done]|]. split; [|cbn [length]; lia].
    rewrite sleb_cons by (done || lia). rewrite H2.
    replace ((v mod 128 + 128) mod 128) with (v mod 128); [lia|].
    replace (v mod 128 + 128) with (v mod 128 + 1 * 128) by lia.
    rewrite Z.mod_add by lia. by rewrite Z.mod_mod by lia.
Qed.

Lemma encode_uleb_spec (fuel : nat) v :
  0 <= v < 2 ^ (7 * Z.of_nat fuel) -> (fuel <> 0)%nat ->
  is_leb (encode_uleb fuel v) /\ leb_val (encode_uleb fuel v) = v /\
  (length (encode_uleb fuel v) <= fuel)%nat.
Proof.
  revert v. induction fuel as [|f IH]; intros v Hv Hf; [done|]. cbn [encode_uleb].
  pose proof (Z.mod_pos_bound v 128 ltac:(lia)) as Hm.
  pose proof (Z.div_mod v 128 ltac:(lia)) as Hd.
  destruct (Z.ltb_spec v 128).
  - cbn [is_leb leb_val length]. rewrite Z.mod_small by lia. lia.
  - assert (f <> 0)%nat as Hf' by (by intros ->; change (2 ^ (7 * Z.of_nat 1)) with 128 in Hv; lia).
    destruct (IH (v / 128)) as (H1 & H2 & H3); [|done|].
    { rewrite pow2_7_S in Hv. split; [apply Z.div_pos; lia|].
      apply Z.div_lt_upper_bound; lia. }
    split; [apply is_leb_cons; right; split; [lia|done]|]. split; [|cbn [length]; lia].
    cbn [leb_val]. rewrite H2.
    replace ((v mod 128 + 128) mod 128) with (v mod 128); [lia|].
    replace (v mod 128 + 128) with (v mod 128 + 1 * 128) by lia.
    rewrite Z.mod_add by lia. by rewrite Z.mod_mod by lia.
Qed.

(** ** Properties *)

(** What the WebAssembly binary format says a reader must accept: the buffer
    starts with a group of at most [n] bytes whose value is in range. *)
Definition leb_reads (n : Z) (ok : Z -> Prop) (val : list Z -> Z) (l : list Z) (v k : Z) : Prop :=
  exists bs rest, l = bs ++ rest /\ is_leb bs /\ k = Z.of_nat (length bs) /\
    k <= n /\ v = val bs /\ ok v.

(** C19: the loader's LEB128 readers accept exactly the encodings the binary
    format allows - at most ceil(N/7) bytes inside the buffer, value in
    range - and return the denoted value and length. *)
Theorem loader_leb_exact (l : list Z) (v k : Z) :
  Forall is_byte l ->
  (read_leb_uint32 true l = Ok (v, k) <-> leb_reads 5 (in_u 32) leb_val l v k) /\
  (read_leb_int32 true l = Ok (v, k) <-> leb_reads 5 (in_s 32) sleb_val l v k) /\
  (read_leb_int64 true l = Ok (v, k) <-> leb_reads 10 (in_s 64) sleb_val l v k).
Proof.
  intros Hl. unfold leb_reads. repeat split.
  all: intros H.
  1,3,5: pose proof H as H'; apply read_leb_ok_group in H' as (bs & rest & -> & Hg & Hn);
    [|done|done]; exists bs, rest.
  - rewrite read_leb_u32_macro in H by done. unfold leb_outcome in H.
    destruct (in_u_b _ _) eqn:E; [|done]. simplify_eq. apply in_u_bP in E. done.
  - unfold read_leb_int32 in H. rewrite (read_leb_signed_macro 32 _ 5) in H by auto.
    unfold leb_outcome in H. destruct (in_s_b _ _) eqn:E; [|done]. simplify_eq.
    apply in_s_bP in E. done.
  - unfold read_leb_int64 in H. rewrite (read_leb_signed_macro 64 _ 10) in H by auto.
    unfold leb_outcome in H. destruct (in_s_b _ _) eqn:E; [|done]. simplify_eq.
    apply in_s_bP in E. done.
  - destruct H as (bs & rest & -> & Hg & -> & Hn & -> & Hr).
    rewrite read_leb_u32_macro by done. unfold leb_outcome.
    by rewrite (proj2 (in_u_bP _ _) Hr).
  - destruct H as (bs & rest & -> & Hg & -> & Hn & -> & Hr). unfold read_leb_int32.
    rewrite (read_leb_signed_macro 32 _ 5) by auto. unfold leb_outcome.
    by rewrite (proj2 (in_s_bP _ _) Hr).
  - destruct H as (bs & rest & -> & Hg & -> & Hn & -> & Hr). unfold read_leb_int64.
    rewrite (read_leb_signed_macro 64 _ 10) by auto. unfold leb_outcome.
    by rewrite (proj2 (in_s_bP _ _) Hr).
Qed.

Lemma loader_leb_exact_witness :
  leb_reads 5 (in_s 32) sleb_val [0x9b; 0xf1; 0x59] (-624485) 3.
Proof.
  apply (proj1 (proj1 (proj2 (loader_leb_exact [0x9b; 0xf1; 0x59] (-624485) 3
    ltac:(repeat constructor; done))))).
  vm_compute. reflexivity.
Defined.

(** C20: the interpreter's unchecked readers return, on every encoding the
    loader accepted, the same value and the same length: execution decodes
    the immediates validation decoded. *)
Theorem interp_leb_agrees (l : list Z) (v k : Z) :
  Forall is_byte l ->
  (read_leb_uint32 true l = Ok (v, k) -> Interp.read_leb_uint32 l = Ok (v, k)) /\
  (read_leb_int32 true l = Ok (v, k) -> Interp.read_leb_int32 l = Ok (v, k)) /\
  (read_leb_int64 true l = Ok (v, k) -> Interp.read_leb_int64 l = Ok (v, k)).
Proof.
  intros Hl. repeat split; intros H;
    pose proof H as H'; apply read_leb_ok_group in H' as (bs & rest & -> & Hg & Hn);
    try done; [change (max_leb_bytes 32) with 5 in Hn..|change (max_leb_bytes 64) with 10 in Hn].
  - rewrite read_leb_u32_macro in H by done. unfold leb_outcome in H.
    destruct (in_u_b _ _) eqn:E; [|done]. simplify_eq. apply in_u_bP in E.
    rewrite interp_u32_macro by (auto; lia). by rewrite uwrap_id.
  - unfold read_leb_int32 in H. rewrite (read_leb_signed_macro 32 _ 5) in H by auto.
    unfold leb_outcome in H. destruct (in_s_b _ _) eqn:E; [|done]. simplify_eq.
    apply in_s_bP in E. unfold Interp.read_leb_int32.
    rewrite interp_signed_macro by (auto; lia). by rewrite swrap_id.
  - unfold read_leb_int64 in H. rewrite (read_leb_signed_macro 64 _ 10) in H by auto.
    unfold leb_outcome in H. destruct (in_s_b _ _) eqn:E; [|done]. simplify_eq.
    apply in_s_bP in E. unfold Interp.read_leb_int64.
    rewrite interp_signed_macro by (auto; lia). by rewrite swrap_id.
Qed.

Lemma interp_leb_agrees_witness : Interp.read_leb_int32 [0x80; 0x7f; 0x0b] = Ok (-128, 2).
Proof.
  apply (proj1 (proj2 (interp_leb_agrees [0x80; 0x7f; 0x0b] (-128) 2
    ltac:(repeat constructor; done)))).
  vm_compute. reflexivity.
Defined.

(** C21: round trip: a value written in LEB128 and followed by anything is
    read back by both readers, at every width. *)
Theorem leb_roundtrip (v : Z) (rest : list Z) :
  (in_u 32 v ->
     read_leb_uint32 true (encode_uleb 5 v ++ rest) = Ok (v, Z.of_nat (length (encode_uleb 5 v))) /\
     Interp.read_leb_uint32 (encode_uleb 5 v ++ rest) = Ok (v, Z.of_nat (length (encode_uleb 5 v)))) /\
  (in_s 32 v ->
     read_leb_int32 true (encode_sleb 5 v ++ rest) = Ok (v, Z.of_nat (length (encode_sleb 5 v))) /\
     Interp.read_leb_int32 (encode_sleb 5 v ++ rest) = Ok (v, Z.of_nat (length (encode_sleb 5 v)))) /\
  (in_s 64 v ->
     read_leb_int64 true (encode_sleb 10 v ++ rest) = Ok (v, Z.of_nat (length (encode_sleb 10 v))) /\
     Interp.read_leb_int64 (encode_sleb 10 v ++ rest) = Ok (v, Z.of_nat (length (encode_sleb 10 v)))).
Proof.
  split; [|split]; intros Hr.
  - destruct (encode_uleb_spec 5 v) as (H1 & H2 & H3); [|done|].
    { destruct Hr. pose proof (Z.pow_le_mono_r 2 32 (7 * Z.of_nat 5)). lia. }
    rewrite read_leb_u32_macro, interp_u32_macro by (auto; lia). unfold leb_outcome.
    rewrite H2, (proj2 (in_u_bP _ _) Hr), uwrap_id by done. done.
  - destruct (encode_sleb_spec 5 v) as (H1 & H2 & H3); [|done|].
    { destruct Hr. pose proof (Z.pow_le_mono_r 2 (32 - 1) (7 * Z.of_nat 5 - 1)). lia. }
    unfold read_leb_int32, Interp.read_leb_int32.
    rewrite (read_leb_signed_macro 32 _ 5), interp_signed_macro by (auto; lia). unfold leb_outcome.
    rewrite H2, (proj2 (in_s_bP _ _) Hr), swrap_id by (auto; lia). done.
  - destruct (encode_sleb_spec 10 v) as (H1 & H2 & H3); [|done|].
    { destruct Hr. pose proof (Z.pow_le_mono_r 2 (64 - 1) (7 * Z.of_nat 10 - 1)). lia. }
    unfold read_leb_int64, Interp.read_leb_int64.
    rewrite (read_leb_signed_macro 64 _ 10), interp_signed_macro by (auto; lia). unfold leb_outcome.
    rewrite H2, (proj2 (in_s_bP _ _) Hr), swrap_id by (auto; lia). done.
Qed.

Lemma leb_roundtrip_witness :
  read_leb_int32 true (encode_sleb 5 (-624485) ++ [0]) = Ok (-624485, 3).
Proof.
  destruct (leb_roundtrip (-624485) [0]) as (_ & H & _).
  destruct H as [H _]; [unfold in_s; lia|]. exact H.
Defined.
