(* ===== verification/Opcode.v ===== *)
(** * Opcodes

    The opcode enumeration and the dispatch table of
    [core/iwasm/interpreter/wasm_opcode.h], and the shape of the immediates
    that follow an opcode byte, as [wasm_loader_find_block_addr] skips them. *)

From S2P Require Import Prelude.
#[local] Open Scope Z_scope.

(** The enumerators of [WASMOpcode], in order. *)
Inductive WASMOpcode : Set :=
| WASM_OP_UNREACHABLE | WASM_OP_NOP | WASM_OP_BLOCK | WASM_OP_LOOP | WASM_OP_IF
| WASM_OP_ELSE | WASM_OP_UNUSED_0x06 | WASM_OP_UNUSED_0x07 | WASM_OP_UNUSED_0x08
| WASM_OP_UNUSED_0x09 | WASM_OP_UNUSED_0x0a | WASM_OP_END | WASM_OP_BR
| WASM_OP_BR_IF | WASM_OP_BR_TABLE | WASM_OP_RETURN | WASM_OP_CALL
| WASM_OP_CALL_INDIRECT | WASM_OP_UNUSED_0x12 | WASM_OP_UNUSED_0x13
| WASM_OP_UNUSED_0x14 | WASM_OP_UNUSED_0x15 | WASM_OP_UNUSED_0x16
| WASM_OP_UNUSED_0x17 | WASM_OP_UNUSED_0x18 | WASM_OP_UNUSED_0x19 | WASM_OP_DROP
| WASM_OP_SELECT | WASM_OP_UNUSED_0x1c | WASM_OP_UNUSED_0x1d | WASM_OP_UNUSED_0x1e
| WASM_OP_UNUSED_0x1f | WASM_OP_GET_LOCAL | WASM_OP_SET_LOCAL | WASM_OP_TEE_LOCAL
| WASM_OP_GET_GLOBAL | WASM_OP_SET_GLOBAL | WASM_OP_UNUSED_0x25 | WASM_OP_UNUSED_0x26
| WASM_OP_UNUSED_0x27 | WASM_OP_I32_LOAD | WASM_OP_I64_LOAD | WASM_OP_F32_LOAD
| WASM_OP_F64_LOAD | WASM_OP_I32_LOAD8_S | WASM_OP_I32_LOAD8_U | WASM_OP_I32_LOAD16_S
| WASM_OP_I32_LOAD16_U | WASM_OP_I64_LOAD8_S | WASM_OP_I64_LOAD8_U
| WASM_OP_I64_LOAD16_S | WASM_OP_I64_LOAD16_U | WASM_OP_I64_LOAD32_S
| WASM_OP_I64_LOAD32_U | WASM_OP_I32_STORE | WASM_OP_I64_STORE | WASM_OP_F32_STORE
| WASM_OP_F64_STORE | WASM_OP_I32_STORE8 | WASM_OP_I32_STORE16 | WASM_OP_I64_STORE8
| WASM_OP_I64_STORE16 | WASM_OP_I64_STORE32 | WASM_OP_MEMORY_SIZE
| WASM_OP_MEMORY_GROW | WASM_OP_I32_CONST | WASM_OP_I64_CONST | WASM_OP_F32_CONST
| WASM_OP_F64_CONST | WASM_OP_I32_EQZ | WASM_OP_I32_EQ | WASM_OP_I32_NE
| WASM_OP_I32_LT_S | WASM_OP_I32_LT_U | WASM_OP_I32_GT_S | WASM_OP_I32_GT_U
| WASM_OP_I32_LE_S | WASM_OP_I32_LE_U | WASM_OP_I32_GE_S | WASM_OP_I32_GE_U
| WASM_OP_I64_EQZ | WASM_OP_I64_EQ | WASM_OP_I64_NE | WASM_OP_I64_LT_S
| WASM_OP_I64_LT_U | WASM_OP_I64_GT_S | WASM_OP_I64_GT_U | WASM_OP_I64_LE_S
| WASM_OP_I64_LE_U | WASM_OP_I64_GE_S | WASM_OP_I64_GE_U | WASM_OP_F32_EQ
| WASM_OP_F32_NE | WASM_OP_F32_LT | WASM_OP_F32_GT | WASM_OP_F32_LE | WASM_OP_F32_GE
| WASM_OP_F64_EQ | WASM_OP_F64_NE | WASM_OP_F64_LT | WASM_OP_F64_GT | WASM_OP_F64_LE
| WASM_OP_F64_GE | WASM_OP_I32_CLZ | WASM_OP_I32_CTZ | WASM_OP_I32_POPCNT
| WASM_OP_I32_ADD | WASM_OP_I32_SUB | WASM_OP_I32_MUL | WASM_OP_I32_DIV_S
| WASM_OP_I32_DIV_U | WASM_OP_I32_REM_S | WASM_OP_I32_REM_U | WASM_OP_I32_AND
| WASM_OP_I32_OR | WASM_OP_I32_XOR | WASM_OP_I32_SHL | WASM_OP_I32_SHR_S
| WASM_OP_I32_SHR_U | WASM_OP_I32_ROTL | WASM_OP_I32_ROTR | WASM_OP_I64_CLZ
| WASM_OP_I64_CTZ | WASM_OP_I64_POPCNT | WASM_OP_I64_ADD | WASM_OP_I64_SUB
| WASM_OP_I64_MUL | WASM_OP_I64_DIV_S | WASM_OP_I64_DIV_U | WASM_OP_I64_REM_S
| WASM_OP_I64_REM_U | WASM_OP_I64_AND | WASM_OP_I64_OR | WASM_OP_I64_XOR
| WASM_OP_I64_SHL | WASM_OP_I64_SHR_S | WASM_OP_I64_SHR_U | WASM_OP_I64_ROTL
| WASM_OP_I64_ROTR | WASM_OP_F32_ABS | WASM_OP_F32_NEG | WASM_OP_F32_CEIL
| WASM_OP_F32_FLOOR | WASM_OP_F32_TRUNC | WASM_OP_F32_NEAREST | WASM_OP_F32_SQRT
| WASM_OP_F32_ADD | WASM_OP_F32_SUB | WASM_OP_F32_MUL | WASM_OP_F32_DIV
| WASM_OP_F32_MIN | WASM_OP_F32_MAX | WASM_OP_F32_COPYSIGN | WASM_OP_F64_ABS
| WASM_OP_F64_NEG | WASM_OP_F64_CEIL | WASM_OP_F64_FLOOR | WASM_OP_F64_TRUNC
| WASM_OP_F64_NEAREST | WASM_OP_F64_SQRT | WASM_OP_F64_ADD | WASM_OP_F64_SUB
| WASM_OP_F64_MUL | WASM_OP_F64_DIV | WASM_OP_F64_MIN | WASM_OP_F64_MAX
| WASM_OP_F64_COPYSIGN | WASM_OP_I32_WRAP_I64 | WASM_OP_I32_TRUNC_S_F32
| WASM_OP_I32_TRUNC_U_F32 | WASM_OP_I32_TRUNC_S_F64 | WASM_OP_I32_TRUNC_U_F64
| WASM_OP_I64_EXTEND_S_I32 | WASM_OP_I64_EXTEND_U_I32 | WASM_OP_I64_TRUNC_S_F32
| WASM_OP_I64_TRUNC_U_F32 | WASM_OP_I64_TRUNC_S_F64 | WASM_OP_I64_TRUNC_U_F64
| WASM_OP_F32_CONVERT_S_I32 | WASM_OP_F32_CONVERT_U_I32 | WASM_OP_F32_CONVERT_S_I64
| WASM_OP_F32_CONVERT_U_I64 | WASM_OP_F32_DEMOTE_F64 | WASM_OP_F64_CONVERT_S_I32
| WASM_OP_F64_CONVERT_U_I32 | WASM_OP_F64_CONVERT_S_I64 | WASM_OP_F64_CONVERT_U_I64
| WASM_OP_F64_PROMOTE_F32 | WASM_OP_I32_REINTERPRET_F32 | WASM_OP_I64_REINTERPRET_F64
| WASM_OP_F32_REINTERPRET_I32 | WASM_OP_F64_REINTERPRET_I64 | WASM_OP_DROP_64
| WASM_OP_SELECT_64 | EXT_OP_GET_LOCAL_FAST | EXT_OP_SET_LOCAL_FAST_I64
| EXT_OP_SET_LOCAL_FAST | EXT_OP_TEE_LOCAL_FAST | EXT_OP_TEE_LOCAL_FAST_I64
| EXT_OP_COPY_STACK_TOP | EXT_OP_COPY_STACK_TOP_I64 | WASM_OP_IMPDEP.

(** Their values. *)
Definition opcode_val (op : WASMOpcode) : Z :=
  match op with
  | WASM_OP_UNREACHABLE => 0x00 | WASM_OP_NOP => 0x01 | WASM_OP_BLOCK => 0x02
  | WASM_OP_LOOP => 0x03 | WASM_OP_IF => 0x04 | WASM_OP_ELSE => 0x05
  | WASM_OP_UNUSED_0x06 => 0x06 | WASM_OP_UNUSED_0x07 => 0x07
  | WASM_OP_UNUSED_0x08 => 0x08 | WASM_OP_UNUSED_0x09 => 0x09
  | WASM_OP_UNUSED_0x0a => 0x0a | WASM_OP_END => 0x0b | WASM_OP_BR => 0x0c
  | WASM_OP_BR_IF => 0x0d | WASM_OP_BR_TABLE => 0x0e | WASM_OP_RETURN => 0x0f
  | WASM_OP_CALL => 0x10 | WASM_OP_CALL_INDIRECT => 0x11
  | WASM_OP_UNUSED_0x12 => 0x12 | WASM_OP_UNUSED_0x13 => 0x13
  | WASM_OP_UNUSED_0x14 => 0x14 | WASM_OP_UNUSED_0x15 => 0x15
  | WASM_OP_UNUSED_0x16 => 0x16 | WASM_OP_UNUSED_0x17 => 0x17
  | WASM_OP_UNUSED_0x18 => 0x18 | WASM_OP_UNUSED_0x19 => 0x19 | WASM_OP_DROP => 0x1a
  | WASM_OP_SELECT => 0x1b | WASM_OP_UNUSED_0x1c => 0x1c
  | WASM_OP_UNUSED_0x1d => 0x1d | WASM_OP_UNUSED_0x1e => 0x1e
  | WASM_OP_UNUSED_0x1f => 0x1f | WASM_OP_GET_LOCAL => 0x20
  | WASM_OP_SET_LOCAL => 0x21 | WASM_OP_TEE_LOCAL => 0x22
  | WASM_OP_GET_GLOBAL => 0x23 | WASM_OP_SET_GLOBAL => 0x24
  | WASM_OP_UNUSED_0x25 => 0x25 | WASM_OP_UNUSED_0x26 => 0x26
  | WASM_OP_UNUSED_0x27 => 0x27 | WASM_OP_I32_LOAD => 0x28 | WASM_OP_I64_LOAD => 0x29
  | WASM_OP_F32_LOAD => 0x2a | WASM_OP_F64_LOAD => 0x2b | WASM_OP_I32_LOAD8_S => 0x2c
  | WASM_OP_I32_LOAD8_U => 0x2d | WASM_OP_I32_LOAD16_S => 0x2e
  | WASM_OP_I32_LOAD16_U => 0x2f | WASM_OP_I64_LOAD8_S => 0x30
  | WASM_OP_I64_LOAD8_U => 0x31 | WASM_OP_I64_LOAD16_S => 0x32
  | WASM_OP_I64_LOAD16_U => 0x33 | WASM_OP_I64_LOAD32_S => 0x34
  | WASM_OP_I64_LOAD32_U => 0x35 | WASM_OP_I32_STORE => 0x36
  | WASM_OP_I64_STORE => 0x37 | WASM_OP_F32_STORE => 0x38 | WASM_OP_F64_STORE => 0x39
  | WASM_OP_I32_STORE8 => 0x3a | WASM_OP_I32_STORE16 => 0x3b
  | WASM_OP_I64_STORE8 => 0x3c | WASM_OP_I64_STORE16 => 0x3d
  | WASM_OP_I64_STORE32 => 0x3e | WASM_OP_MEMORY_SIZE => 0x3f
  | WASM_OP_MEMORY_GROW => 0x40 | WASM_OP_I32_CONST => 0x41
  | WASM_OP_I64_CONST => 0x42 | WASM_OP_F32_CONST => 0x43 | WASM_OP_F64_CONST => 0x44
  | WASM_OP_I32_EQZ => 0x45 | WASM_OP_I32_EQ => 0x46 | WASM_OP_I32_NE => 0x47
  | WASM_OP_I32_LT_S => 0x48 | WASM_OP_I32_LT_U => 0x49 | WASM_OP_I32_GT_S => 0x4a
  | WASM_OP_I32_GT_U => 0x4b | WASM_OP_I32_LE_S => 0x4c | WASM_OP_I32_LE_U => 0x4d
  | WASM_OP_I32_GE_S => 0x4e | WASM_OP_I32_GE_U => 0x4f | WASM_OP_I64_EQZ => 0x50
  | WASM_OP_I64_EQ => 0x51 | WASM_OP_I64_NE => 0x52 | WASM_OP_I64_LT_S => 0x53
  | WASM_OP_I64_LT_U => 0x54 | WASM_OP_I64_GT_S => 0x55 | WASM_OP_I64_GT_U => 0x56
  | WASM_OP_I64_LE_S => 0x57 | WASM_OP_I64_LE_U => 0x58 | WASM_OP_I64_GE_S => 0x59
  | WASM_OP_I64_GE_U => 0x5a | WASM_OP_F32_EQ => 0x5b | WASM_OP_F32_NE => 0x5c
  | WASM_OP_F32_LT => 0x5d | WASM_OP_F32_GT => 0x5e | WASM_OP_F32_LE => 0x5f
  | WASM_OP_F32_GE => 0x60 | WASM_OP_F64_EQ => 0x61 | WASM_OP_F64_NE => 0x62
  | WASM_OP_F64_LT => 0x63 | WASM_OP_F64_GT => 0x64 | WASM_OP_F64_LE => 0x65
  | WASM_OP_F64_GE => 0x66 | WASM_OP_I32_CLZ => 0x67 | WASM_OP_I32_CTZ => 0x68
  | WASM_OP_I32_POPCNT => 0x69 | WASM_OP_I32_ADD => 0x6a | WASM_OP_I32_SUB => 0x6b
  | WASM_OP_I32_MUL => 0x6c | WASM_OP_I32_DIV_S => 0x6d | WASM_OP_I32_DIV_U => 0x6e
  | WASM_OP_I32_REM_S => 0x6f | WASM_OP_I32_REM_U => 0x70 | WASM_OP_I32_AND => 0x71
  | WASM_OP_I32_OR => 0x72 | WASM_OP_I32_XOR => 0x73 | WASM_OP_I32_SHL => 0x74
  | WASM_OP_I32_SHR_S => 0x75 | WASM_OP_I32_SHR_U => 0x76 | WASM_OP_I32_ROTL => 0x77
  | WASM_OP_I32_ROTR => 0x78 | WASM_OP_I64_CLZ => 0x79 | WASM_OP_I64_CTZ => 0x7a
  | WASM_OP_I64_POPCNT => 0x7b | WASM_OP_I64_ADD => 0x7c | WASM_OP_I64_SUB => 0x7d
  | WASM_OP_I64_MUL => 0x7e | WASM_OP_I64_DIV_S => 0x7f | WASM_OP_I64_DIV_U => 0x80
  | WASM_OP_I64_REM_S => 0x81 | WASM_OP_I64_REM_U => 0x82 | WASM_OP_I64_AND => 0x83
  | WASM_OP_I64_OR => 0x84 | WASM_OP_I64_XOR => 0x85 | WASM_OP_I64_SHL => 0x86
  | WASM_OP_I64_SHR_S => 0x87 | WASM_OP_I64_SHR_U => 0x88 | WASM_OP_I64_ROTL => 0x89
  | WASM_OP_I64_ROTR => 0x8a | WASM_OP_F32_ABS => 0x8b | WASM_OP_F32_NEG => 0x8c
  | WASM_OP_F32_CEIL => 0x8d | WASM_OP_F32_FLOOR => 0x8e | WASM_OP_F32_TRUNC => 0x8f
  | WASM_OP_F32_NEAREST => 0x90 | WASM_OP_F32_SQRT => 0x91 | WASM_OP_F32_ADD => 0x92
  | WASM_OP_F32_SUB => 0x93 | WASM_OP_F32_MUL => 0x94 | WASM_OP_F32_DIV => 0x95
  | WASM_OP_F32_MIN => 0x96 | WASM_OP_F32_MAX => 0x97 | WASM_OP_F32_COPYSIGN => 0x98
  | WASM_OP_F64_ABS => 0x99 | WASM_OP_F64_NEG => 0x9a | WASM_OP_F64_CEIL => 0x9b
  | WASM_OP_F64_FLOOR => 0x9c | WASM_OP_F64_TRUNC => 0x9d
  | WASM_OP_F64_NEAREST => 0x9e | WASM_OP_F64_SQRT => 0x9f | WASM_OP_F64_ADD => 0xa0
  | WASM_OP_F64_SUB => 0xa1 | WASM_OP_F64_MUL => 0xa2 | WASM_OP_F64_DIV => 0xa3
  | WASM_OP_F64_MIN => 0xa4 | WASM_OP_F64_MAX => 0xa5 | WASM_OP_F64_COPYSIGN => 0xa6
  | WASM_OP_I32_WRAP_I64 => 0xa7 | WASM_OP_I32_TRUNC_S_F32 => 0xa8
  | WASM_OP_I32_TRUNC_U_F32 => 0xa9 | WASM_OP_I32_TRUNC_S_F64 => 0xaa
  | WASM_OP_I32_TRUNC_U_F64 => 0xab | WASM_OP_I64_EXTEND_S_I32 => 0xac
  | WASM_OP_I64_EXTEND_U_I32 => 0xad | WASM_OP_I64_TRUNC_S_F32 => 0xae
  | WASM_OP_I64_TRUNC_U_F32 => 0xaf | WASM_OP_I64_TRUNC_S_F64 => 0xb0
  | WASM_OP_I64_TRUNC_U_F64 => 0xb1 | WASM_OP_F32_CONVERT_S_I32 => 0xb2
  | WASM_OP_F32_CONVERT_U_I32 => 0xb3 | WASM_OP_F32_CONVERT_S_I64 => 0xb4
  | WASM_OP_F32_CONVERT_U_I64 => 0xb5 | WASM_OP_F32_DEMOTE_F64 => 0xb6
  | WASM_OP_F64_CONVERT_S_I32 => 0xb7 | WASM_OP_F64_CONVERT_U_I32 => 0xb8
  | WASM_OP_F64_CONVERT_S_I64 => 0xb9 | WASM_OP_F64_CONVERT_U_I64 => 0xba
  | WASM_OP_F64_PROMOTE_F32 => 0xbb | WASM_OP_I32_REINTERPRET_F32 => 0xbc
  | WASM_OP_I64_REINTERPRET_F64 => 0xbd | WASM_OP_F32_REINTERPRET_I32 => 0xbe
  | WASM_OP_F64_REINTERPRET_I64 => 0xbf | WASM_OP_DROP_64 => 0xc0
  | WASM_OP_SELECT_64 => 0xc1 | EXT_OP_GET_LOCAL_FAST => 0xc2
  | EXT_OP_SET_LOCAL_FAST_I64 => 0xc3 | EXT_OP_SET_LOCAL_FAST => 0xc4
  | EXT_OP_TEE_LOCAL_FAST => 0xc5 | EXT_OP_TEE_LOCAL_FAST_I64 => 0xc6
  | EXT_OP_COPY_STACK_TOP => 0xc7 | EXT_OP_COPY_STACK_TOP_I64 => 0xc8
  | WASM_OP_IMPDEP => 0xc9
  end.

(** [DEFINE_GOTO_TABLE]: the handler an opcode byte indexes. *)
Definition handle_table : list WASMOpcode :=
  [WASM_OP_UNREACHABLE; WASM_OP_NOP; WASM_OP_BLOCK; WASM_OP_LOOP; WASM_OP_IF;
   WASM_OP_ELSE; WASM_OP_UNUSED_0x06; WASM_OP_UNUSED_0x07; WASM_OP_UNUSED_0x08;
   WASM_OP_UNUSED_0x09; WASM_OP_UNUSED_0x0a; WASM_OP_END; WASM_OP_BR; WASM_OP_BR_IF;
   WASM_OP_BR_TABLE; WASM_OP_RETURN; WASM_OP_CALL; WASM_OP_CALL_INDIRECT;
   WASM_OP_UNUSED_0x12; WASM_OP_UNUSED_0x13; WASM_OP_UNUSED_0x14;
   WASM_OP_UNUSED_0x15; WASM_OP_UNUSED_0x16; WASM_OP_UNUSED_0x17;
   WASM_OP_UNUSED_0x18; WASM_OP_UNUSED_0x19; WASM_OP_DROP; WASM_OP_SELECT;
   WASM_OP_UNUSED_0x1c; WASM_OP_UNUSED_0x1d; WASM_OP_UNUSED_0x1e;
   WASM_OP_UNUSED_0x1f; WASM_OP_GET_LOCAL; WASM_OP_SET_LOCAL; WASM_OP_TEE_LOCAL;
   WASM_OP_GET_GLOBAL; WASM_OP_SET_GLOBAL; WASM_OP_UNUSED_0x25; WASM_OP_UNUSED_0x26;
   WASM_OP_UNUSED_0x27; WASM_OP_I32_LOAD; WASM_OP_I64_LOAD; WASM_OP_F32_LOAD;
   WASM_OP_F64_LOAD; WASM_OP_I32_LOAD8_S; WASM_OP_I32_LOAD8_U; WASM_OP_I32_LOAD16_S;
   WASM_OP_I32_LOAD16_U; WASM_OP_I64_LOAD8_S; WASM_OP_I64_LOAD8_U;
   WASM_OP_I64_LOAD16_S; WASM_OP_I64_LOAD16_U; WASM_OP_I64_LOAD32_S;
   WASM_OP_I64_LOAD32_U; WASM_OP_I32_STORE; WASM_OP_I64_STORE; WASM_OP_F32_STORE;
   WASM_OP_F64_STORE; WASM_OP_I32_STORE8; WASM_OP_I32_STORE16; WASM_OP_I64_STORE8;
   WASM_OP_I64_STORE16; WASM_OP_I64_STORE32; WASM_OP_MEMORY_SIZE;
   WASM_OP_MEMORY_GROW; WASM_OP_I32_CONST; WASM_OP_I64_CONST; WASM_OP_F32_CONST;
   WASM_OP_F64_CONST; WASM_OP_I32_EQZ; WASM_OP_I32_EQ; WASM_OP_I32_NE;
   WASM_OP_I32_LT_S; WASM_OP_I32_LT_U; WASM_OP_I32_GT_S; WASM_OP_I32_GT_U;
   WASM_OP_I32_LE_S; WASM_OP_I32_LE_U; WASM_OP_I32_GE_S; WASM_OP_I32_GE_U;
   WASM_OP_I64_EQZ; WASM_OP_I64_EQ; WASM_OP_I64_NE; WASM_OP_I64_LT_S;
   WASM_OP_I64_LT_U; WASM_OP_I64_GT_S; WASM_OP_I64_GT_U; WASM_OP_I64_LE_S;
   WASM_OP_I64_LE_U; WASM_OP_I64_GE_S; WASM_OP_I64_GE_U; WASM_OP_F32_EQ;
   WASM_OP_F32_NE; WASM_OP_F32_LT; WASM_OP_F32_GT; WASM_OP_F32_LE; WASM_OP_F32_GE;
   WASM_OP_F64_EQ; WASM_OP_F64_NE; WASM_OP_F64_LT; WASM_OP_F64_GT; WASM_OP_F64_LE;
   WASM_OP_F64_GE; WASM_OP_I32_CLZ; WASM_OP_I32_CTZ; WASM_OP_I32_POPCNT;
   WASM_OP_I32_ADD; WASM_OP_I32_SUB; WASM_OP_I32_MUL; WASM_OP_I32_DIV_S;
   WASM_OP_I32_DIV_U; WASM_OP_I32_REM_S; WASM_OP_I32_REM_U; WASM_OP_I32_AND;
   WASM_OP_I32_OR; WASM_OP_I32_XOR; WASM_OP_I32_SHL; WASM_OP_I32_SHR_S;
   WASM_OP_I32_SHR_U; WASM_OP_I32_ROTL; WASM_OP_I32_ROTR; WASM_OP_I64_CLZ;
   WASM_OP_I64_CTZ; WASM_OP_I64_POPCNT; WASM_OP_I64_ADD; WASM_OP_I64_SUB;
   WASM_OP_I64_MUL; WASM_OP_I64_DIV_S; WASM_OP_I64_DIV_U; WASM_OP_I64_REM_S;
   WASM_OP_I64_REM_U; WASM_OP_I64_AND; WASM_OP_I64_OR; WASM_OP_I64_XOR;
   WASM_OP_I64_SHL; WASM_OP_I64_SHR_S; WASM_OP_I64_SHR_U; WASM_OP_I64_ROTL;
   WASM_OP_I64_ROTR; WASM_OP_F32_ABS; WASM_OP_F32_NEG; WASM_OP_F32_CEIL;
   WASM_OP_F32_FLOOR; WASM_OP_F32_TRUNC; WASM_OP_F32_NEAREST; WASM_OP_F32_SQRT;
   WASM_OP_F32_ADD; WASM_OP_F32_SUB; WASM_OP_F32_MUL; WASM_OP_F32_DIV;
   WASM_OP_F32_MIN; WASM_OP_F32_MAX; WASM_OP_F32_COPYSIGN; WASM_OP_F64_ABS;
   WASM_OP_F64_NEG; WASM_OP_F64_CEIL; WASM_OP_F64_FLOOR; WASM_OP_F64_TRUNC;
   WASM_OP_F64_NEAREST; WASM_OP_F64_SQRT; WASM_OP_F64_ADD; WASM_OP_F64_SUB;
   WASM_OP_F64_MUL; WASM_OP_F64_DIV; WASM_OP_F64_MIN; WASM_OP_F64_MAX;
   WASM_OP_F64_COPYSIGN; WASM_OP_I32_WRAP_I64; WASM_OP_I32_TRUNC_S_F32;
   WASM_OP_I32_TRUNC_U_F32; WASM_OP_I32_TRUNC_S_F64; WASM_OP_I32_TRUNC_U_F64;
   WASM_OP_I64_EXTEND_S_I32; WASM_OP_I64_EXTEND_U_I32; WASM_OP_I64_TRUNC_S_F32;
   WASM_OP_I64_TRUNC_U_F32; WASM_OP_I64_TRUNC_S_F64; WASM_OP_I64_TRUNC_U_F64;
   WASM_OP_F32_CONVERT_S_I32; WASM_OP_F32_CONVERT_U_I32; WASM_OP_F32_CONVERT_S_I64;
   WASM_OP_F32_CONVERT_U_I64; WASM_OP_F32_DEMOTE_F64; WASM_OP_F64_CONVERT_S_I32;
   WASM_OP_F64_CONVERT_U_I32; WASM_OP_F64_CONVERT_S_I64; WASM_OP_F64_CONVERT_U_I64;
   WASM_OP_F64_PROMOTE_F32; WASM_OP_I32_REINTERPRET_F32; WASM_OP_I64_REINTERPRET_F64;
   WASM_OP_F32_REINTERPRET_I32; WASM_OP_F64_REINTERPRET_I64; WASM_OP_DROP_64;
   WASM_OP_SELECT_64; EXT_OP_GET_LOCAL_FAST; EXT_OP_SET_LOCAL_FAST_I64;
   EXT_OP_SET_LOCAL_FAST; EXT_OP_TEE_LOCAL_FAST; EXT_OP_TEE_LOCAL_FAST_I64;
   EXT_OP_COPY_STACK_TOP; EXT_OP_COPY_STACK_TOP_I64; WASM_OP_IMPDEP].

(** [goto *handle_table[opcode]]; the remaining entries of the table's 256
    are null pointers. *)
Definition dispatch (b : Z) : res WASMOpcode :=
  match handle_table !! Z.to_nat b with Some op => Ok op | None => Undef end.

Lemma handle_table_val op : handle_table !! Z.to_nat (opcode_val op) = Some op.
Proof. by destruct op. Qed.

Lemma opcode_val_inj a b : opcode_val a = opcode_val b -> a = b.
Proof.
  intros E. pose proof (handle_table_val a) as H. rewrite E, handle_table_val in H.
  by simplify_eq.
Qed.

#[export] Instance WASMOpcode_eq_dec : EqDecision WASMOpcode := fun a b =>
  match Z.eq_dec (opcode_val a) (opcode_val b) with
  | left E => left (opcode_val_inj a b E)
  | right N => right (fun E => N (f_equal opcode_val E))
  end.

(** Membership in a contiguous range of opcodes. *)
Definition op_between (op lo hi : WASMOpcode) : bool :=
  (opcode_val lo <=? opcode_val op) && (opcode_val op <=? opcode_val hi).

(** C22: the goto table and the enumeration, two separate lists in the
    header, agree: the handler reached from an opcode's value is that
    opcode's handler, and only the bytes above [WASM_OP_IMPDEP] have none. *)
Theorem dispatch_table_consistent (op : WASMOpcode) (b : Z) :
  dispatch (opcode_val op) = Ok op /\
  (0 <= b -> (dispatch b = Undef <-> opcode_val WASM_OP_IMPDEP < b)) /\
  (0 <= b -> dispatch b = Ok op -> b = opcode_val op).
Proof.
  split; [by unfold dispatch; rewrite handle_table_val|].
  assert (Hinj : forall n op', handle_table !! n = Some op' -> Z.of_nat n = opcode_val op').
  { assert (forallb (fun n => match handle_table !! n with
      | Some o => Z.of_nat n =? opcode_val o | None => true end) (seq 0 202) = true) as H by done.
    rewrite forallb_forall in H. intros n op' E.
    specialize (H n). rewrite E in H. apply Z.eqb_eq, H, in_seq.
    apply lookup_lt_Some in E. change (length handle_table) with 202%nat in E. lia. }
  unfold dispatch. split; intros Hb.
  - destruct (handle_table !! Z.to_nat b) as [o|] eqn:E.
    + split; [done|]. apply lookup_lt_Some in E.
      change (length handle_table) with 202%nat in E. change (opcode_val _) with 201. lia.
    + split; [intros _|done]. apply lookup_ge_None_1 in E.
      change (length handle_table) with 202%nat in E. change (opcode_val _) with 201. lia.
  - destruct (handle_table !! Z.to_nat b) as [o|] eqn:E; [|done]. intros H. simplify_eq.
    apply Hinj in E. lia.
Qed.

Lemma dispatch_table_consistent_witness : dispatch 0xca = Undef.
Proof.
  apply (proj1 (proj2 (dispatch_table_consistent WASM_OP_NOP 0xca))); vm_compute; done.
Defined.
