(* ===== verification/BlockAddr.v ===== *)
(** * The block address scanner

    [wasm_loader_find_block_addr] of
    [core/iwasm/interpreter/wasm_loader.c]: from the first byte of a block
    body it skips instructions to the matching [else] and [end], remembers
    up to sixteen nested blocks on the way, and files all of them in the
    execution environment's block address cache. *)

From S2P Require Import Prelude Leb Opcode.
#[local] Open Scope Z_scope.

(** ** Definitions *)

Definition BLOCK_TYPE_BLOCK := 0.
Definition BLOCK_TYPE_LOOP := 1.
Definition BLOCK_TYPE_IF := 2.
Definition BLOCK_TYPE_FUNCTION := 3.
Definition BLOCK_ADDR_CACHE_SIZE := 64.
Definition BLOCK_ADDR_CONFLICT_SIZE : nat := 2.

(** Addresses are [Z], [NULL] is 0. *)
Record BlockAddr := mkBlockAddr { start_addr : Z; else_addr : Z; end_addr : Z }.
Definition null_block_addr : BlockAddr := mkBlockAddr 0 0 0.

(** [CHECK_BUF(buf, buf_end, length)] *)
Definition check_buf (checked : bool) (buf : list Z) (len : nat) : res unit :=
  if bool_decide (len <= length buf)%nat then Ok tt else buf_end_reached checked.

(** The immediates that follow each opcode. *)
Inductive imm_kind :=
  | ImmNone | ImmByte | ImmLeb32 | ImmLeb32x2 | ImmSLeb32 | ImmSLeb64
  | ImmF32 | ImmF64 | ImmBrTable | ImmCallIndirect | ImmStructured | ImmInvalid.

(** The [case] labels of the scanner's [switch]. *)
Definition imm_of (op : WASMOpcode) : imm_kind :=
  match op with
  | WASM_OP_UNREACHABLE | WASM_OP_NOP => ImmNone
  | WASM_OP_BLOCK | WASM_OP_LOOP | WASM_OP_IF | WASM_OP_ELSE | WASM_OP_END => ImmStructured
  | WASM_OP_BR | WASM_OP_BR_IF => ImmLeb32
  | WASM_OP_BR_TABLE => ImmBrTable
  | WASM_OP_RETURN => ImmNone
  | WASM_OP_CALL => ImmLeb32
  | WASM_OP_CALL_INDIRECT => ImmCallIndirect
  | WASM_OP_DROP | WASM_OP_SELECT | WASM_OP_DROP_64 | WASM_OP_SELECT_64 => ImmNone
  | WASM_OP_GET_LOCAL | WASM_OP_SET_LOCAL | WASM_OP_TEE_LOCAL
  | WASM_OP_GET_GLOBAL | WASM_OP_SET_GLOBAL => ImmLeb32
  | EXT_OP_GET_LOCAL_FAST | EXT_OP_SET_LOCAL_FAST | EXT_OP_TEE_LOCAL_FAST => ImmByte
  | WASM_OP_MEMORY_SIZE | WASM_OP_MEMORY_GROW => ImmLeb32
  | WASM_OP_I32_CONST => ImmSLeb32
  | WASM_OP_I64_CONST => ImmSLeb64
  | WASM_OP_F32_CONST => ImmF32
  | WASM_OP_F64_CONST => ImmF64
  | _ =>
      if op_between op WASM_OP_I32_LOAD WASM_OP_I64_STORE32 then ImmLeb32x2
      else if op_between op WASM_OP_I32_EQZ WASM_OP_F64_REINTERPRET_I64 then ImmNone
      else ImmInvalid
  end.

(** [for (i = 0; i <= count; i++) skip_leb_uint32(p, p_end);] - every
    iteration consumes a byte, so the buffer length bounds the fuel. *)
Fixpoint skip_leb_n (fuel : nat) (checked : bool) (buf : list Z) (n acc : Z) : res Z :=
  if n <=? 0 then Ok acc else
  match fuel with
  | O => Undef
  | S f => rlet k := skip_leb_uint32 checked buf in
           skip_leb_n f checked (drop (Z.to_nat k) buf) (n - 1) (acc + k)
  end.

(** Bytes the immediates of one opcode occupy at the head of [buf]. *)
Definition skip_imm (checked : bool) (kind : imm_kind) (buf : list Z) : res Z :=
  match kind with
  | ImmNone => Ok 0
  | ImmByte => rlet _ := check_buf checked buf 1 in Ok 1
  | ImmLeb32 => skip_leb_uint32 checked buf
  | ImmLeb32x2 =>
      rlet k := skip_leb_uint32 checked buf in
      rlet k2 := skip_leb_uint32 checked (drop (Z.to_nat k) buf) in Ok (k + k2)
  | ImmSLeb32 => skip_leb_int32 checked buf
  | ImmSLeb64 => skip_leb_int64 checked buf
  | ImmF32 => Ok 4
  | ImmF64 => Ok 8
  | ImmBrTable =>
      rlet '(count, k) := read_leb_uint32 checked buf in
      skip_leb_n (S (length buf)) checked (drop (Z.to_nat k) buf) (count + 1) k
  | ImmCallIndirect =>
      rlet k := skip_leb_uint32 checked buf in
      rlet _ := check_buf checked (drop (Z.to_nat k) buf) 1 in Ok (k + 1)
  | ImmStructured | ImmInvalid => Ok 0
  end.

(** The scanner's local state: the cursor [p] with the bytes from it to
    [code_end_addr], the [else] of the outermost block, the nesting depth
    and the remembered blocks. *)
Record ScanState := mkScan {
  sc_p : Z; sc_buf : list Z; sc_else : Z; sc_depth : nat; sc_stack : list BlockAddr
}.

Definition BLOCK_STACK_SIZE : nat := 16.

Definition set_stack_start (i : nat) (a : Z) (st : list BlockAddr) : list BlockAddr :=
  alter (fun b => mkBlockAddr a 0 (end_addr b)) i st.
Definition set_stack_else (i : nat) (a : Z) (st : list BlockAddr) : list BlockAddr :=
  alter (fun b => mkBlockAddr (start_addr b) a (end_addr b)) i st.
Definition set_stack_end (i : nat) (a : Z) (st : list BlockAddr) : list BlockAddr :=
  alter (fun b => mkBlockAddr (start_addr b) (else_addr b) a) i st.

(** Move the cursor. *)
Definition advance (k : Z) (s : ScanState) : ScanState :=
  mkScan (sc_p s + k) (drop (Z.to_nat k) (sc_buf s)) (sc_else s) (sc_depth s) (sc_stack s).

(** Filing one block in the cache: a free slot of its line, or else the
    line is shifted by one and slot 0 taken. *)
Definition cache_line (start : Z) : nat := Z.to_nat (start mod BLOCK_ADDR_CACHE_SIZE).

Definition cache_insert (cache : list (BlockAddr * BlockAddr)) (b : BlockAddr)
    : list (BlockAddr * BlockAddr) :=
  alter (fun '(b0, b1) =>
      if start_addr b0 =? 0 then (b, b1)
      else if start_addr b1 =? 0 then (b0, b)
      else (b, b0))
    (cache_line (start_addr b)) cache.

Fixpoint cache_insert_all (cache : list (BlockAddr * BlockAddr)) (st : list BlockAddr)
    : list (BlockAddr * BlockAddr) :=
  match st with
  | [] => cache
  | b :: st' => if start_addr b =? 0 then cache
                else cache_insert_all (cache_insert cache b) st'
  end.

(** One iteration of the [while]: continue, or the outermost [end]. *)
Inductive scan_result := ScanMore (s : ScanState) | ScanEnd (s : ScanState).

Definition scan_step (checked : bool) (block_type : Z) (s : ScanState) : res scan_result :=
  match sc_buf s with
  | [] => Err "end of code reached"
  | opcode :: _ =>
      let s := advance 1 s in
      match handle_table !! Z.to_nat opcode with
      | None => Err "WASM loader find block addr failed: invalid opcode"
      | Some op =>
          match op with
          | WASM_OP_BLOCK | WASM_OP_LOOP | WASM_OP_IF =>
              rlet _ := check_buf checked (sc_buf s) 1 in
              let s := advance 1 s in
              let st := if (sc_depth s <? BLOCK_STACK_SIZE)%nat
                        then set_stack_start (sc_depth s) (sc_p s) (sc_stack s)
                        else sc_stack s in
              Ok (ScanMore (mkScan (sc_p s) (sc_buf s) (sc_else s) (S (sc_depth s)) st))
          | WASM_OP_ELSE =>
              let e := if (block_type =? BLOCK_TYPE_IF) && (sc_depth s =? 1)%nat
                       then sc_p s - 1 else sc_else s in
              let st := if (sc_depth s - 1 <? BLOCK_STACK_SIZE)%nat
                        then set_stack_else (sc_depth s - 1) (sc_p s - 1) (sc_stack s)
                        else sc_stack s in
              Ok (ScanMore (mkScan (sc_p s) (sc_buf s) e (sc_depth s) st))
          | WASM_OP_END =>
              if (sc_depth s =? 1)%nat then
                Ok (ScanEnd (mkScan (sc_p s) (sc_buf s) (sc_else s) (sc_depth s)
                               (set_stack_end 0 (sc_p s - 1) (sc_stack s))))
              else
                let d := (sc_depth s - 1)%nat in
                let st := if (d <? BLOCK_STACK_SIZE)%nat
                          then set_stack_end d (sc_p s - 1) (sc_stack s)
                          else sc_stack s in
                Ok (ScanMore (mkScan (sc_p s) (sc_buf s) (sc_else s) d st))
          | _ =>
              match imm_of op with
              | ImmInvalid => Err "WASM loader find block addr failed: invalid opcode"
              | kind => rlet k := skip_imm checked kind (sc_buf s) in
                        Ok (ScanMore (advance k s))
              end
          end
      end
  end.

Fixpoint scan (fuel : nat) (checked : bool) (block_type : Z) (s : ScanState) : res ScanState :=
  match fuel with
  | O => Undef
  | S f =>
      rlet r := scan_step checked block_type s in
      match r with
      | ScanEnd s' => Ok s'
      | ScanMore s' => scan f checked block_type s'
      end
  end.

(** The whole function: [else_addr] (only stored for an [if]), [end_addr]
    and the updated cache.  The outermost block's [end] is [sc_p - 1]. *)
Definition wasm_loader_find_block_addr (cache : list (BlockAddr * BlockAddr))
    (checked : bool) (start : Z) (buf : list Z) (block_type : Z)
    : res (Z * Z * list (BlockAddr * BlockAddr)) :=
  let stack0 := mkBlockAddr start 0 0 :: replicate (BLOCK_STACK_SIZE - 1) null_block_addr in
  rlet s := scan (S (length buf)) checked block_type (mkScan start buf 0 1 stack0) in
  Ok (sc_else s, sc_p s - 1, cache_insert_all cache (sc_stack s)).

(** ** Structured code

    Byte strings that encode a sequence of instructions, as the binary
    format composes them. *)

Definition short_leb (n : Z) (bs : list Z) : Prop :=
  is_leb bs /\ Z.of_nat (length bs) <= n.

Definition valid_imm (kind : imm_kind) (imm : list Z) : Prop :=
  match kind with
  | ImmNone => imm = []
  | ImmByte => length imm = 1%nat
  | ImmLeb32 | ImmSLeb32 => short_leb 5 imm
  | ImmLeb32x2 => exists a b, imm = a ++ b /\ short_leb 5 a /\ short_leb 5 b
  | ImmSLeb64 => short_leb 10 imm
  | ImmF32 => length imm = 4%nat
  | ImmF64 => length imm = 8%nat
  | ImmBrTable => exists c labels, imm = c ++ concat labels /\ short_leb 5 c /\
      in_u 32 (leb_val c) /\ Forall (short_leb 5) labels /\
      Z.of_nat (length labels) = leb_val c + 1
  | ImmCallIndirect => exists t b, imm = t ++ [b] /\ short_leb 5 t
  | ImmStructured | ImmInvalid => False
  end.

Inductive code_seq : list Z -> Prop :=
| cs_nil : code_seq []
| cs_plain op imm rest :
    valid_imm (imm_of op) imm -> code_seq rest ->
    code_seq (opcode_val op :: imm ++ rest)
| cs_block op ty body rest :
    op = WASM_OP_BLOCK \/ op = WASM_OP_LOOP \/ op = WASM_OP_IF ->
    code_seq body -> code_seq rest ->
    code_seq (opcode_val op :: ty :: body ++ opcode_val WASM_OP_END :: rest)
| cs_if_else ty body els rest :
    code_seq body -> code_seq els -> code_seq rest ->
    code_seq (opcode_val WASM_OP_IF :: ty :: body ++ opcode_val WASM_OP_ELSE
                :: els ++ opcode_val WASM_OP_END :: rest).

(** A block body: one sequence, or two separated by [else]. *)
Definition block_bytes (body : list Z) (els : option (list Z)) : list Z :=
  match els with
  | None => body
  | Some e => body ++ opcode_val WASM_OP_ELSE :: e
  end.
Definition code_seq_opt (els : option (list Z)) : Prop :=
  match els with None => True | Some e => code_seq e end.

(** [b] describes a block of [code], a buffer loaded at address [base]. *)
Definition block_at (base : Z) (code : list Z) (b : BlockAddr) : Prop :=
  base <= start_addr b /\
  exists body els rest,
    drop (Z.to_nat (start_addr b - base)) code =
      block_bytes body els ++ opcode_val WASM_OP_END :: rest /\
    code_seq body /\ code_seq_opt els /\
    else_addr b = (match els with None => 0 | Some _ => start_addr b + Z.of_nat (length body) end) /\
    end_addr b = start_addr b + Z.of_nat (length (block_bytes body els)).

Definition entry_ok (base : Z) (code : list Z) (b : BlockAddr) : Prop :=
  start_addr b = 0 \/ block_at base code b.
Definition cache_ok (base : Z) (code : list Z) (cache : list (BlockAddr * BlockAddr)) : Prop :=
  Forall (fun '(b0, b1) => entry_ok base code b0 /\ entry_ok base code b1) cache.

(** ** Skipping immediates *)

Lemma skip_leb_group chk mb bs rest c :
  is_leb bs -> 0 <= c -> c + Z.of_nat (length bs) <= max_leb_bytes mb ->
  skip_leb chk (bs ++ rest) mb c = Ok (c + Z.of_nat (length bs)).
Proof.
  revert c. induction bs as [|b bs IH]; intros c Hl Hc Hn; [done|].
  pose proof (is_leb_bytes _ Hl) as Hb. apply Forall_cons_1 in Hb as [Hb _].
  cbn [length] in Hn. apply is_leb_cons in Hl. cbn [app skip_leb].
  rewrite (proj2 (Z.ltb_ge _ _)) by lia. rewrite leb_stop by done.
  destruct Hl as [[-> H]|[H Hl]].
  - rewrite (proj2 (Z.ltb_lt _ _)) by lia. f_equal; simpl; lia.
  - rewrite (proj2 (Z.ltb_ge _ _)) by lia. rewrite IH by (auto; lia).
    cbn [length]. f_equal. lia.
Qed.

Lemma skip_leb32_group chk bs rest :
  short_leb 5 bs -> skip_leb_uint32 chk (bs ++ rest) = Ok (Z.of_nat (length bs)).
Proof. intros [H1 H2]. by apply (skip_leb_group chk 32 bs rest 0). Qed.

Lemma drop_len_app {A} (l k : list A) : drop (Z.to_nat (Z.of_nat (length l))) (l ++ k) = k.
Proof. by rewrite Nat2Z.id, drop_app_length. Qed.

Lemma is_leb_length bs : is_leb bs -> (1 <= length bs)%nat.
Proof. destruct bs; [done|simpl; lia]. Qed.

Lemma skip_leb_n_group (fuel : nat) chk labels rest acc :
  Forall (short_leb 5) labels -> (length labels <= fuel)%nat ->
  skip_leb_n fuel chk (concat labels ++ rest) (Z.of_nat (length labels)) acc =
    Ok (acc + Z.of_nat (length (concat labels))).
Proof.
  revert fuel acc. induction labels as [|l ls IH]; intros fuel acc Hl Hf.
  - destruct fuel; simpl; f_equal; lia.
  - apply Forall_cons_1 in Hl as [Hl Hls]. destruct fuel as [|f]; [simpl in Hf; lia|].
    cbn [length concat skip_leb_n] in *. rewrite (proj2 (Z.leb_gt _ _)) by lia.
    rewrite <- app_assoc, skip_leb32_group by done. cbn [res_bind].
    rewrite drop_len_app. replace (Z.of_nat (S (length ls)) - 1) with (Z.of_nat (length ls)) by lia.
    rewrite IH by (auto; lia). f_equal. rewrite length_app. lia.
Qed.

Lemma concat_labels_length labels :
  Forall (short_leb 5) labels -> (length labels <= length (concat labels))%nat.
Proof.
  induction 1 as [|l ls [Hl _] _ IH]; [done|]. simpl. rewrite length_app.
  apply is_leb_length in Hl. lia.
Qed.

Lemma skip_imm_valid chk kind imm rest :
  valid_imm kind imm ->
  skip_imm chk kind (imm ++ rest) = Ok (Z.of_nat (length imm)).
Proof.
  destruct kind; cbn [skip_imm valid_imm]; try done; intros H.
  - subst. done.
  - unfold check_buf. rewrite bool_decide_true by (rewrite length_app; lia). cbn. f_equal. lia.
  - by apply skip_leb32_group.
  - destruct H as (a & b & -> & Ha & Hb). rewrite <- app_assoc, skip_leb32_group by done.
    cbn [res_bind]. rewrite drop_len_app, skip_leb32_group by done. cbn. f_equal.
    rewrite length_app. lia.
  - by apply skip_leb32_group.
  - destruct H as [H1 H2]. by apply (skip_leb_group chk 64 imm rest 0).
  - by rewrite H.
  - by rewrite H.
  - destruct H as (c & labels & -> & [Hc1 Hc2] & Hr & Hls & Hn).
    rewrite <- app_assoc, read_leb_u32_macro by done. unfold leb_outcome.
    rewrite (proj2 (in_u_bP _ _) Hr). cbn [res_bind]. rewrite drop_len_app, <- Hn.
    rewrite skip_leb_n_group; [f_equal; rewrite length_app; lia|done|].
    pose proof (concat_labels_length _ Hls). rewrite !length_app. lia.
  - destruct H as (t & b & -> & Ht). rewrite <- app_assoc, skip_leb32_group by done.
    cbn [res_bind]. rewrite drop_len_app. unfold check_buf.
    rewrite bool_decide_true by (cbn [length app]; lia). cbn [res_bind].
    f_equal. rewrite length_app. cbn [length]. lia.
Qed.

(** ** The scan of a well-formed sequence *)

(** [n] iterations of the scanner take [s] to [s']. *)
Definition scans (chk : bool) (bt : Z) (n : nat) (s s' : ScanState) : Prop :=
  forall f, scan (n + f) chk bt s = scan f chk bt s'.

Lemma scans_refl chk bt s : scans chk bt 0 s s.
Proof. done. Qed.

Lemma scans_trans chk bt n m s1 s2 s3 :
  scans chk bt n s1 s2 -> scans chk bt m s2 s3 -> scans chk bt (n + m) s1 s3.
Proof. intros H1 H2 f. rewrite <- Nat.add_assoc, H1, H2. done. Qed.

Lemma scans_step chk bt s s' :
  scan_step chk bt s = Ok (ScanMore s') -> scans chk bt 1 s s'.
Proof. intros H f. cbn [Nat.add scan]. by rewrite H. Qed.

Definition plain_op (op : WASMOpcode) : Prop :=
  imm_of op <> ImmStructured /\ imm_of op <> ImmInvalid.

Lemma scan_step_plain chk bt p op imm rest e d st :
  valid_imm (imm_of op) imm ->
  scan_step chk bt (mkScan p (opcode_val op :: imm ++ rest) e d st) =
    Ok (ScanMore (mkScan (p + 1 + Z.of_nat (length imm)) rest e d st)).
Proof.
  intros Hv. pose proof (skip_imm_valid chk _ imm rest Hv) as Hs.
  assert (Hd : drop (Z.to_nat (Z.of_nat (length imm))) (imm ++ rest) = rest)
    by apply drop_len_app.
  unfold scan_step. cbn [sc_buf]. rewrite handle_table_val.
  unfold advance. cbn [sc_buf sc_p sc_else sc_depth sc_stack].
  change (drop (Z.to_nat 1) (opcode_val op :: imm ++ rest)) with (imm ++ rest).
  assert (imm_of op <> ImmStructured /\ imm_of op <> ImmInvalid) as [H1 H2]
    by (split; intros E; rewrite E in Hv; done).
  destruct (imm_of op) eqn:Ek; try done;
    destruct op; try discriminate Ek; rewrite ?Hs; cbn [res_bind]; by rewrite Hd.
Qed.

(** What scanning a sequence at depth [d] does to the remembered blocks:
    nothing below [d], and from [d] on only complete entries are left. *)
Section StackRel.
Context (ok : BlockAddr -> Prop).

Definition ok_from (d : nat) (st : list BlockAddr) : Prop :=
  forall i b, (d <= i)%nat -> st !! i = Some b -> ok b.

Record stack_rel (d : nat) (st st' : list BlockAddr) : Prop := {
  sr_length : length st' = length st;
  sr_below : forall i, (i < d)%nat -> st' !! i = st !! i;
  sr_from : ok_from d st -> ok_from d st'
}.

(** The same, up to the entry at [d] itself. *)
Record stack_rel1 (d : nat) (st st' : list BlockAddr) : Prop := {
  sr1_length : length st' = length st;
  sr1_below : forall i, (i < d)%nat -> st' !! i = st !! i;
  sr1_from : ok_from (S d) st -> ok_from (S d) st'
}.

Lemma stack_rel_refl d st : stack_rel d st st.
Proof. by split. Qed.

Lemma stack_rel_trans d s1 s2 s3 :
  stack_rel d s1 s2 -> stack_rel d s2 s3 -> stack_rel d s1 s3.
Proof.
  intros [L1 B1 F1] [L2 B2 F2]. split; [congruence| |auto].
  intros i Hi. rewrite B2, B1 by done. done.
Qed.

Lemma stack_rel1_trans d s1 s2 s3 :
  stack_rel1 d s1 s2 -> stack_rel1 d s2 s3 -> stack_rel1 d s1 s3.
Proof.
  intros [L1 B1 F1] [L2 B2 F2]. split; [congruence| |auto].
  intros i Hi. rewrite B2, B1 by done. done.
Qed.

Lemma stack_rel1_alter d f st : stack_rel1 d st (alter f d st).
Proof.
  split; [by rewrite length_alter| |].
  - intros i Hi. rewrite list_lookup_alter_ne by lia. done.
  - intros H i b Hi. rewrite list_lookup_alter_ne by lia. by apply H.
Qed.

Lemma stack_rel1_inner d st st' : stack_rel (S d) st st' -> stack_rel1 d st st'.
Proof. intros [L B F]. split; [done| |done]. intros i Hi. apply B. lia. Qed.

Lemma stack_rel1_done d st st' :
  stack_rel1 d st st' -> (forall b, st' !! d = Some b -> ok b) -> stack_rel d st st'.
Proof.
  intros [L B F] Hd. split; [done|done|]. intros H i b Hi E.
  destruct (decide (i = d)) as [->|]; [by apply Hd|].
  eapply F; [|by apply (ltac:(lia) : (S d <= i)%nat)|done].
  intros j c Hj. apply H. lia.
Qed.

End StackRel.

Lemma set_stack_guard d f (st : list BlockAddr) :
  length st = BLOCK_STACK_SIZE ->
  (if (d <? BLOCK_STACK_SIZE)%nat then alter f d st else st) = alter f d st.
Proof.
  intros Hl. destruct (Nat.ltb_spec d BLOCK_STACK_SIZE); [done|].
  apply list_eq. intros i. destruct (decide (i = d)) as [->|].
  - rewrite list_lookup_alter_eq. rewrite (lookup_ge_None_2 st d) by lia. done.
  - by rewrite list_lookup_alter_ne.
Qed.

(** Single steps on the structured opcodes. *)
Lemma scan_step_open chk bt p op ty tail e d st :
  op = WASM_OP_BLOCK \/ op = WASM_OP_LOOP \/ op = WASM_OP_IF ->
  length st = BLOCK_STACK_SIZE ->
  scan_step chk bt (mkScan p (opcode_val op :: ty :: tail) e d st) =
    Ok (ScanMore (mkScan (p + 2) tail e (S d) (set_stack_start d (p + 2) st))).
Proof.
  intros Hop Hl. pose proof (set_stack_guard d (fun b => mkBlockAddr (p + 2) 0 (end_addr b)) st Hl) as G.
  unfold scan_step. cbn [sc_buf]. rewrite handle_table_val. unfold advance, set_stack_start.
  cbn [sc_buf sc_p sc_else sc_depth sc_stack].
  change (drop (Z.to_nat 1) (opcode_val op :: ty :: tail)) with (ty :: tail).
  change (drop (Z.to_nat 1) (ty :: tail)) with tail.
  replace (p + 1 + 1) with (p + 2) by lia. rewrite G.
  unfold check_buf. rewrite bool_decide_true by (cbn [length]; lia).
  by destruct Hop as [-> | [-> | ->]].
Qed.

Lemma scan_step_else chk bt p tail e d st :
  length st = BLOCK_STACK_SIZE ->
  scan_step chk bt (mkScan p (opcode_val WASM_OP_ELSE :: tail) e (S d) st) =
    Ok (ScanMore (mkScan (p + 1) tail
      (if (bt =? BLOCK_TYPE_IF) && (d =? 0)%nat then p else e) (S d) (set_stack_else d p st))).
Proof.
  intros Hl. pose proof (set_stack_guard d (fun b => mkBlockAddr (start_addr b) p (end_addr b)) st Hl) as G.
  unfold scan_step. cbn [sc_buf]. rewrite handle_table_val. unfold advance, set_stack_else.
  cbn [sc_buf sc_p sc_else sc_depth sc_stack]. replace (p + 1 - 1) with p by lia.
  replace (S d - 1)%nat with d by lia. rewrite G. done.
Qed.

Lemma scan_step_end_inner chk bt p tail e d st :
  length st = BLOCK_STACK_SIZE -> (1 <= d)%nat ->
  scan_step chk bt (mkScan p (opcode_val WASM_OP_END :: tail) e (S d) st) =
    Ok (ScanMore (mkScan (p + 1) tail e d (set_stack_end d p st))).
Proof.
  intros Hl Hd. pose proof (set_stack_guard d (fun b => mkBlockAddr (start_addr b) (else_addr b) p) st Hl) as G.
  unfold scan_step. cbn [sc_buf]. rewrite handle_table_val. unfold advance, set_stack_end.
  cbn [sc_buf sc_p sc_else sc_depth sc_stack]. replace (p + 1 - 1) with p by lia.
  replace (S d - 1)%nat with d by lia.
  destruct (Nat.eqb_spec (S d) 1); [lia|]. rewrite G. done.
Qed.

Lemma drop_add_app {A} (l c t : list A) (n k : nat) :
  drop n l = c ++ t -> k = (n + length c)%nat -> drop k l = t.
Proof. intros H ->. rewrite <- drop_drop, H. apply drop_app_length. Qed.

Section ScanSeq.
Context (base : Z) (code : list Z) (chk : bool) (bt : Z).

Abbreviation at_code p l := (base <= p /\ drop (Z.to_nat (p - base)) code = l).

Lemma at_code_move p q c t :
  at_code p (c ++ t) -> q = p + Z.of_nat (length c) -> at_code q t.
Proof.
  intros [H1 H2] ->. split; [lia|]. apply (drop_add_app _ _ _ _ _ H2). lia.
Qed.

(** The entry a closed block leaves at its depth. *)
Lemma closed_entry_ok st1 st3 d a f b :
  length st1 = BLOCK_STACK_SIZE ->
  stack_rel (entry_ok base code) (S d) (set_stack_start d a st1) st3 ->
  alter f d st3 !! d = Some b ->
  exists b0, b = f (mkBlockAddr a 0 (end_addr b0)).
Proof.
  intros Hl [L B _] Hb. rewrite list_lookup_alter_eq in Hb.
  rewrite (B d) in Hb by lia. unfold set_stack_start in Hb.
  rewrite list_lookup_alter_eq in Hb.
  destruct (st1 !! d) as [b0|] eqn:E; [|done]. cbn in Hb. simplify_eq. by exists b0.
Qed.

(** Scanning one whole sequence. *)
Definition scan_seq_at (c : list Z) : Prop :=
  forall p tail e d st,
  (1 <= d)%nat -> at_code p (c ++ tail) -> length st = BLOCK_STACK_SIZE ->
  exists (n : nat) st', (n <= length c)%nat /\
    scans chk bt n (mkScan p (c ++ tail) e d st)
      (mkScan (p + Z.of_nat (length c)) tail e d st') /\
    stack_rel (entry_ok base code) d st st'.

Lemma scan_block_case op ty body rest :
  op = WASM_OP_BLOCK \/ op = WASM_OP_LOOP \/ op = WASM_OP_IF ->
  code_seq body -> scan_seq_at body -> scan_seq_at rest ->
  scan_seq_at (opcode_val op :: ty :: body ++ opcode_val WASM_OP_END :: rest).
Proof.
  intros Hop Hcb IHb IHr p tail e d st Hd Hat Hl.
  set (en := opcode_val WASM_OP_END) in *. cbn [app]. rewrite <- app_assoc. cbn [app].
  assert (Hat2 : at_code (p + 2) (body ++ en :: rest ++ tail)).
  { apply (at_code_move p _ [opcode_val op; ty]); [|simpl; lia].
    cbn [app] in *. by rewrite <- app_assoc in Hat. }
  destruct (IHb (p + 2) (en :: rest ++ tail) e (S d) (set_stack_start d (p + 2) st))
    as (n1 & st1 & Hn1 & Hs1 & Hr1); [lia|done|by unfold set_stack_start; rewrite length_alter|].
  assert (Hl1 : length st1 = BLOCK_STACK_SIZE)
    by (rewrite (sr_length _ _ _ _ Hr1); by unfold set_stack_start; rewrite length_alter).
  set (q := p + 2 + Z.of_nat (length body)) in *.
  assert (Hat3 : at_code (q + 1) (rest ++ tail)).
  { apply (at_code_move (p + 2) _ (body ++ [en])); [by rewrite <- app_assoc|].
    rewrite length_app. simpl. lia. }
  destruct (IHr (q + 1) tail e d (set_stack_end d q st1))
    as (n2 & st2 & Hn2 & Hs2 & Hr2); [done|done|by unfold set_stack_end; rewrite length_alter|].
  exists (1 + n1 + (1 + n2))%nat, st2. split; [|split].
  - cbn [length]. rewrite length_app. cbn [length]. lia.
  - eapply scans_trans; [eapply scans_trans; [apply scans_step; by apply scan_step_open|done]|].
    eapply scans_trans; [apply scans_step; by apply scan_step_end_inner|].
    replace (p + Z.of_nat _) with (q + 1 + Z.of_nat (length rest)); [done|].
    cbn [length]. rewrite length_app. cbn [length]. lia.
  - eapply stack_rel_trans; [|done]. apply stack_rel1_done.
    + eapply stack_rel1_trans; [apply (stack_rel1_alter _ d)|].
      eapply stack_rel1_trans; [apply stack_rel1_inner, Hr1|]. apply stack_rel1_alter.
    + intros b Hb. destruct (closed_entry_ok _ _ _ _ _ _ Hl Hr1 Hb) as [b0 ->].
      right. split; cbn [start_addr else_addr end_addr]; [apply Hat2|].
      exists body, None, (rest ++ tail). split; [apply Hat2|]. done.
Qed.

Lemma scan_if_else_case ty body els rest :
  code_seq body -> code_seq els -> scan_seq_at body -> scan_seq_at els -> scan_seq_at rest ->
  scan_seq_at (opcode_val WASM_OP_IF :: ty :: body ++ opcode_val WASM_OP_ELSE
                :: els ++ opcode_val WASM_OP_END :: rest).
Proof.
  intros Hcb Hce IHb IHe IHr p tail e d st Hd Hat Hl.
  set (en := opcode_val WASM_OP_END) in *. set (el := opcode_val WASM_OP_ELSE) in *.
  cbn [app]. rewrite <- app_assoc. cbn [app]. rewrite <- app_assoc. cbn [app].
  assert (Hat2 : at_code (p + 2) (body ++ el :: els ++ en :: rest ++ tail)).
  { apply (at_code_move p _ [opcode_val WASM_OP_IF; ty]); [|simpl; lia].
    cbn [app] in *. rewrite <- app_assoc in Hat. cbn [app] in Hat.
    by rewrite <- app_assoc in Hat. }
  destruct (IHb (p + 2) (el :: els ++ en :: rest ++ tail) e (S d) (set_stack_start d (p + 2) st))
    as (n1 & st1 & Hn1 & Hs1 & Hr1); [lia|done|by unfold set_stack_start; rewrite length_alter|].
  assert (Hl1 : length st1 = BLOCK_STACK_SIZE)
    by (rewrite (sr_length _ _ _ _ Hr1); by unfold set_stack_start; rewrite length_alter).
  set (q := p + 2 + Z.of_nat (length body)) in *.
  assert (Hat3 : at_code (q + 1) (els ++ en :: rest ++ tail)).
  { apply (at_code_move (p + 2) _ (body ++ [el])); [by rewrite <- app_assoc|].
    rewrite length_app. simpl. lia. }
  destruct (IHe (q + 1) (en :: rest ++ tail) e (S d) (set_stack_else d q st1))
    as (n2 & st2 & Hn2 & Hs2 & Hr2); [lia|done|by unfold set_stack_else; rewrite length_alter|].
  assert (Hl2 : length st2 = BLOCK_STACK_SIZE)
    by (rewrite (sr_length _ _ _ _ Hr2); by unfold set_stack_else; rewrite length_alter).
  set (r := q + 1 + Z.of_nat (length els)) in *.
  assert (Hat4 : at_code (r + 1) (rest ++ tail)).
  { apply (at_code_move (q + 1) _ (els ++ [en])); [by rewrite <- app_assoc|].
    rewrite length_app. simpl. lia. }
  destruct (IHr (r + 1) tail e d (set_stack_end d r st2))
    as (n3 & st3 & Hn3 & Hs3 & Hr3); [done|done|by unfold set_stack_end; rewrite length_alter|].
  exists (1 + n1 + (1 + n2) + (1 + n3))%nat, st3. split; [|split].
  - cbn [length]. rewrite length_app. cbn [length]. rewrite length_app. cbn [length]. lia.
  - eapply scans_trans; [eapply scans_trans|].
    + eapply scans_trans; [apply scans_step; apply scan_step_open; tauto|done].
    + eapply scans_trans; [apply scans_step; by apply scan_step_else|].
      replace ((bt =? BLOCK_TYPE_IF) && (d =? 0)%nat) with false; [done|].
      destruct (Nat.eqb_spec d 0); [lia|by rewrite andb_false_r].
    + eapply scans_trans; [apply scans_step; by apply scan_step_end_inner|].
      replace (p + Z.of_nat _) with (r + 1 + Z.of_nat (length rest)); [done|].
      cbn [length]. rewrite length_app. cbn [length]. rewrite length_app. cbn [length]. lia.
  - eapply stack_rel_trans; [|done]. apply stack_rel1_done.
    + eapply stack_rel1_trans; [apply (stack_rel1_alter _ d)|].
      eapply stack_rel1_trans; [apply stack_rel1_inner, Hr1|].
      eapply stack_rel1_trans; [apply (stack_rel1_alter _ d)|].
      eapply stack_rel1_trans; [apply stack_rel1_inner, Hr2|]. apply stack_rel1_alter.
    + intros b Hb. unfold set_stack_end in Hb. rewrite list_lookup_alter_eq in Hb.
      rewrite (sr_below _ _ _ _ Hr2 d) in Hb by lia.
      destruct (set_stack_else d q st1 !! d) as [b1|] eqn:E1; [|done].
      destruct (closed_entry_ok _ _ _ _ _ _ Hl Hr1 E1) as [b0 ->]. cbn in Hb. simplify_eq.
      right. split; cbn [start_addr else_addr end_addr]; [apply Hat2|].
      exists body, (Some els), (rest ++ tail). cbn [block_bytes code_seq_opt].
      rewrite <- app_assoc. cbn [app]. split; [apply Hat2|].
      rewrite length_app. cbn [length]. repeat split; auto; lia.
Qed.

Lemma scan_seq c : code_seq c -> scan_seq_at c.
Proof.
  induction 1 as [|op imm rest Hv Hc IH|op ty body rest Hop Hb IHb Hr IHr
                  |ty body els rest Hb IHb He IHe Hr IHr].
  - intros p tail e d st Hd Hat Hl. exists 0%nat, st. split; [done|].
    cbn [app length]. replace (p + Z.of_nat 0) with p by lia.
    split; [apply scans_refl | apply stack_rel_refl].
  - intros p tail e d st Hd Hat Hl. cbn [app] in *. rewrite <- app_assoc in *.
    destruct (IH (p + 1 + Z.of_nat (length imm)) tail e d st) as (n & st' & Hn & Hs & Hr);
      [done| |done|].
    { apply (at_code_move p _ (opcode_val op :: imm)); [done|]. cbn [length]. lia. }
    exists (1 + n)%nat, st'. cbn [length]. rewrite length_app. split; [lia|].
    split; [|done]. eapply scans_trans; [apply scans_step; by apply scan_step_plain|].
    replace (p + Z.of_nat (S (length imm + length rest)))
      with (p + 1 + Z.of_nat (length imm) + Z.of_nat (length rest)) by lia. done.
  - by apply scan_block_case.
  - by apply scan_if_else_case.
Qed.

End ScanSeq.

Lemma scan_step_end_outer chk bt p tail e st :
  scan_step chk bt (mkScan p (opcode_val WASM_OP_END :: tail) e 1 st) =
    Ok (ScanEnd (mkScan (p + 1) tail e 1 (set_stack_end 0 p st))).
Proof.
  unfold scan_step. cbn [sc_buf]. rewrite handle_table_val. unfold advance.
  cbn [sc_buf sc_p sc_else sc_depth sc_stack]. by replace (p + 1 - 1) with p by lia.
Qed.

Lemma scans_finish chk bt (n m : nat) s p tail e st :
  scans chk bt n s (mkScan p (opcode_val WASM_OP_END :: tail) e 1 st) -> (n < m)%nat ->
  scan m chk bt s = Ok (mkScan (p + 1) tail e 1 (set_stack_end 0 p st)).
Proof.
  intros Hs Hm. replace m with (n + S (m - n - 1))%nat by lia.
  rewrite Hs. cbn [scan]. by rewrite scan_step_end_outer.
Qed.

(** The cache keeps only what it is given. *)
Lemma cache_insert_ok base code cache b :
  cache_ok base code cache -> entry_ok base code b -> cache_ok base code (cache_insert cache b).
Proof.
  intros Hc Hb. unfold cache_ok, cache_insert in *.
  apply Forall_lookup. intros i [b0 b1] Hi.
  destruct (decide (i = cache_line (start_addr b))) as [->|].
  - rewrite list_lookup_alter_eq in Hi.
    destruct (cache !! _) as [[c0 c1]|] eqn:E; [|done]. cbn in Hi.
    pose proof (Forall_lookup_1 _ _ _ _ Hc E) as [H0 H1].
    destruct (start_addr c0 =? 0); [by simplify_eq|].
    destruct (start_addr c1 =? 0); by simplify_eq.
  - rewrite list_lookup_alter_ne in Hi by done. apply (Forall_lookup_1 _ _ _ _ Hc Hi).
Qed.

Lemma cache_insert_all_ok base code st cache :
  cache_ok base code cache -> Forall (entry_ok base code) st ->
  cache_ok base code (cache_insert_all cache st).
Proof.
  intros Hc Hst. revert cache Hc. induction Hst as [|b st Hb _ IH]; intros cache Hc; [done|].
  cbn [cache_insert_all]. destruct (_ =? 0); [done|]. apply IH. by apply cache_insert_ok.
Qed.

Definition initial_stack (start : Z) : list BlockAddr :=
  mkBlockAddr start 0 0 :: replicate (BLOCK_STACK_SIZE - 1) null_block_addr.

Lemma initial_stack_ok base code start : ok_from (entry_ok base code) 1 (initial_stack start).
Proof.
  intros [|i] b Hi E; [lia|]. cbn [initial_stack lookup list_lookup] in E.
  apply lookup_replicate in E as [-> _]. by left.
Qed.

Lemma ok_from_Forall (ok : BlockAddr -> Prop) st :
  ok_from ok 1 st -> (forall b, st !! 0%nat = Some b -> ok b) -> Forall ok st.
Proof.
  intros H1 H0. apply Forall_lookup. intros [|i] b E; [by apply H0|].
  apply (H1 (S i)); [lia|done].
Qed.

Lemma find_block_addr_spec (base start : Z) (code body rest : list Z)
    (els : option (list Z)) (cache : list (BlockAddr * BlockAddr))
    (checked : bool) (block_type : Z) :
  base <= start ->
  drop (Z.to_nat (start - base)) code = block_bytes body els ++ opcode_val WASM_OP_END :: rest ->
  code_seq body -> code_seq_opt els ->
  (els <> None -> block_type = BLOCK_TYPE_IF) ->
  cache_ok base code cache ->
  exists cache',
    wasm_loader_find_block_addr cache checked start (drop (Z.to_nat (start - base)) code) block_type =
      Ok (match els with None => 0 | Some _ => start + Z.of_nat (length body) end,
          start + Z.of_nat (length (block_bytes body els)), cache') /\
    cache_ok base code cache'.
Proof.
  intros Hb Hcode Hbody Hels Hty Hc. unfold wasm_loader_find_block_addr.
  fold (initial_stack start). rewrite Hcode.
  set (en := opcode_val WASM_OP_END) in *.
  assert (Hfull : block_at base code (mkBlockAddr start
      (match els with None => 0 | Some _ => start + Z.of_nat (length body) end)
      (start + Z.of_nat (length (block_bytes body els))))).
  { split; [done|]. by exists body, els, rest. }
  destruct els as [els|]; cbn [block_bytes code_seq_opt] in *.
  - rewrite <- app_assoc in *. cbn [app] in *. set (el := opcode_val WASM_OP_ELSE) in *.
    destruct (scan_seq base code checked block_type body Hbody start (el :: els ++ en :: rest)
      0 1%nat (initial_stack start)) as (n1 & st1 & Hn1 & Hs1 & Hr1); [done|done|done|].
    set (q := start + Z.of_nat (length body)) in *.
    destruct (scan_seq base code checked block_type els Hels (q + 1) (en :: rest) q 1%nat
      (set_stack_else 0 q st1)) as (n2 & st2 & Hn2 & Hs2 & Hr2);
      [done| |by unfold set_stack_else; rewrite length_alter, (sr_length _ _ _ _ Hr1)|].
    { split; [lia|]. apply (drop_add_app _ (body ++ [el]) _ _ _ (eq_trans Hcode
        (app_assoc body [el] (els ++ en :: rest)))). rewrite length_app. simpl. lia. }
    rewrite (scans_finish _ _ (n1 + (1 + n2)) _ _ (q + 1 + Z.of_nat (length els)) rest q st2).
    2:{ eapply scans_trans; [done|]. eapply scans_trans; [|done].
        apply scans_step. rewrite Hty by done.
        rewrite scan_step_else by (by rewrite (sr_length _ _ _ _ Hr1)). done. }
    2:{ rewrite !length_app. cbn [length]. rewrite length_app. simpl. lia. }
    cbn [res_bind sc_else sc_p sc_stack].
    replace (q + 1 + Z.of_nat (length els) + 1 - 1)
      with (start + Z.of_nat (length (body ++ el :: els)))
      by (rewrite length_app; cbn [length]; lia).
    eexists. split; [done|]. apply cache_insert_all_ok; [done|]. apply ok_from_Forall.
    + apply stack_rel1_alter, (sr_from _ _ _ _ Hr2), stack_rel1_alter, (sr_from _ _ _ _ Hr1).
      apply initial_stack_ok.
    + intros b. unfold set_stack_end. rewrite list_lookup_alter_eq.
      rewrite (sr_below _ _ _ _ Hr2 0%nat) by lia. unfold set_stack_else.
      rewrite list_lookup_alter_eq, (sr_below _ _ _ _ Hr1 0%nat) by lia.
      intros E. cbn in E. simplify_eq. right.
      replace (q + 1 + Z.of_nat (length els)) with (start + Z.of_nat (length (body ++ el :: els)));
        [done|]. rewrite length_app. cbn [length]. lia.
  - destruct (scan_seq base code checked block_type body Hbody start (en :: rest)
      0 1%nat (initial_stack start)) as (n1 & st1 & Hn1 & Hs1 & Hr1); [done|done|done|].
    rewrite (scans_finish _ _ n1 _ _ _ _ _ _ Hs1) by (rewrite length_app; simpl; lia).
    cbn [res_bind sc_else sc_p sc_stack].
    replace (start + Z.of_nat (length body) + 1 - 1) with (start + Z.of_nat (length body)) by lia.
    eexists. split; [done|]. apply cache_insert_all_ok; [done|]. apply ok_from_Forall.
    + apply stack_rel1_alter, (sr_from _ _ _ _ Hr1), initial_stack_ok.
    + intros b. unfold set_stack_end. rewrite list_lookup_alter_eq.
      rewrite (sr_below _ _ _ _ Hr1 0%nat) by lia.
      intros E. cbn in E. simplify_eq. by right.
Qed.

(** Two descriptions of the block at one address agree. *)
Lemma block_at_det base code b1 b2 :
  block_at base code b1 -> block_at base code b2 -> start_addr b1 = start_addr b2 ->
  else_addr b1 = else_addr b2 /\ end_addr b1 = end_addr b2.
Proof.
  intros (H1 & body1 & els1 & rest1 & Hc1 & Hb1 & He1 & Hel1 & Hen1)
         (H2 & body2 & els2 & rest2 & Hc2 & Hb2 & He2 & Hel2 & Hen2) Es.
  assert (Hempty : cache_ok base code []) by constructor.
  destruct (find_block_addr_spec base (start_addr b1) code body1 rest1 els1 [] false BLOCK_TYPE_IF)
    as (c1 & E1 & _); try done.
  rewrite Es in E1.
  destruct (find_block_addr_spec base (start_addr b2) code body2 rest2 els2 [] false BLOCK_TYPE_IF)
    as (c2 & E2 & _); try done.
  rewrite E1 in E2. injection E2 as Ea Eb _. rewrite Hel1, Hel2, Hen1, Hen2, Es. by split.
Qed.

Lemma length_cache_insert_all cache st : length (cache_insert_all cache st) = length cache.
Proof.
  revert cache. induction st as [|b st IH]; intros cache; cbn [cache_insert_all]; [done|].
  destruct (_ =? 0); [done|]. rewrite IH. apply length_alter.
Qed.

Lemma find_block_addr_length cache checked start buf ty e n cache' :
  wasm_loader_find_block_addr cache checked start buf ty = Ok (e, n, cache') ->
  length cache' = length cache.
Proof.
  unfold wasm_loader_find_block_addr. destruct (scan _ _ _ _); cbn [res_bind]; intros E; [|done..].
  simplify_eq. apply length_cache_insert_all.
Qed.

(** C11: on structured code the scanner finds the matching [else] and [end]
    of the block whose body starts at [start] - however deeply blocks nest,
    also beyond the sixteen it remembers - and every entry it files in the
    block address cache describes a block of the code: a cache that was
    sound stays sound.  An entry found in a sound cache is the block the
    scanner would find, so hits and misses cannot be told apart. *)
Theorem find_block_addr_correct (base start : Z) (code body rest : list Z)
    (els : option (list Z)) (cache : list (BlockAddr * BlockAddr))
    (checked : bool) (block_type : Z) :
  base <= start ->
  drop (Z.to_nat (start - base)) code = block_bytes body els ++ opcode_val WASM_OP_END :: rest ->
  code_seq body -> code_seq_opt els ->
  (els <> None -> block_type = BLOCK_TYPE_IF) ->
  cache_ok base code cache ->
  exists cache',
    wasm_loader_find_block_addr cache checked start (drop (Z.to_nat (start - base)) code) block_type =
      Ok (match els with None => 0 | Some _ => start + Z.of_nat (length body) end,
          start + Z.of_nat (length (block_bytes body els)), cache') /\
    cache_ok base code cache' /\
    (forall b0 b1 b, cache !! cache_line start = Some (b0, b1) -> b = b0 \/ b = b1 ->
       start_addr b = start -> start <> 0 ->
       else_addr b = (match els with None => 0 | Some _ => start + Z.of_nat (length body) end) /\
       end_addr b = start + Z.of_nat (length (block_bytes body els))).
Proof.
  intros Hb Hcode Hbody Hels Hty Hc.
  destruct (find_block_addr_spec base start code body rest els cache checked block_type)
    as (cache' & E & Hc'); try done.
  exists cache'. split; [done|]. split; [done|]. intros b0 b1 b El Hor Hs Hn.
  assert (entry_ok base code b0 /\ entry_ok base code b1) as [H0 H1]
    by exact (Forall_lookup_1 _ _ _ _ Hc El).
  assert (Hblk : block_at base code b) by (destruct Hor as [-> | ->]; [destruct H0|destruct H1]; first [done|congruence]).
  assert (Hmine : block_at base code (mkBlockAddr start
      (match els with None => 0 | Some _ => start + Z.of_nat (length body) end)
      (start + Z.of_nat (length (block_bytes body els))))).
  { split; [done|]. by exists body, els, rest. }
  by apply (block_at_det base code b _ Hblk Hmine).
Qed.

(** [if i32.const 7 drop else nop end] with a [nop] after it. *)
Definition sample_code : list Z := [0x41; 7; 0x1a; 0x05; 0x01; 0x0b; 0x01].

Lemma find_block_addr_correct_witness :
  exists cache', wasm_loader_find_block_addr (replicate 64 (null_block_addr, null_block_addr))
    true 1000 sample_code BLOCK_TYPE_IF = Ok (1003, 1005, cache') /\
    cache_ok 1000 sample_code cache'.
Proof.
  edestruct (find_block_addr_correct 1000 1000 sample_code [0x41; 7; 0x1a] [0x01] (Some [0x01])
    (replicate 64 (null_block_addr, null_block_addr)) true BLOCK_TYPE_IF) as (c & E & Hc & _).
  - lia.
  - reflexivity.
  - apply (cs_plain WASM_OP_I32_CONST [7] [0x1a]); [by split; vm_compute|].
    apply (cs_plain WASM_OP_DROP [] []); [done|constructor].
  - apply (cs_plain WASM_OP_NOP [] []); [done|constructor].
  - done.
  - apply Forall_replicate. split; by left.
  - exists c. split; [exact E|exact Hc].
Defined.
