(* ===== verification/Float.v ===== *)
(** * IEEE-754 arithmetic of the float handlers

    A [float32]/[float64] stack value is its bit pattern.  The C operators
    and the math functions the interpreter calls are the standard library's
    executable IEEE-754 operations ([SpecFloat]) between a decoder and an
    encoder of bit patterns; the pattern of a NaN result, which neither C nor
    WebAssembly fixes, is a parameter ([nan_result]). *)

From S2P Require Import Prelude.
From Stdlib Require Import Floats.SpecFloat.
#[local] Open Scope Z_scope.

(** ** Formats and bit patterns *)

Record float_fmt := mkFmt { prec : Z; emax : Z; fwidth : Z }.
Definition F32 : float_fmt := mkFmt 24 128 32.
Definition F64 : float_fmt := mkFmt 53 1024 64.

Definition fmin_exp (f : float_fmt) : Z := 3 - emax f - prec f.
Definition mant_bits (f : float_fmt) : Z := prec f - 1.
Definition exp_bits (f : float_fmt) : Z := fwidth f - prec f.

Definition sign_of (f : float_fmt) (b : Z) : bool := Z.testbit b (fwidth f - 1).
Definition exp_of (f : float_fmt) (b : Z) : Z := (b / 2 ^ mant_bits f) mod 2 ^ exp_bits f.
Definition mant_of (f : float_fmt) (b : Z) : Z := b mod 2 ^ mant_bits f.

Definition decode (f : float_fmt) (b : Z) : spec_float :=
  let s := sign_of f b in
  let e := exp_of f b in
  let m := mant_of f b in
  if e =? 0 then
    match m with Zpos p => S754_finite s p (fmin_exp f) | _ => S754_zero s end
  else if e =? 2 ^ exp_bits f - 1 then
    if m =? 0 then S754_infinity s else S754_nan
  else
    match m + 2 ^ mant_bits f with
    | Zpos p => S754_finite s p (e + fmin_exp f - 1)
    | _ => S754_nan
    end.

Definition sign_bit (f : float_fmt) (s : bool) : Z := if s then 2 ^ (fwidth f - 1) else 0.

Definition encode (f : float_fmt) (nan : Z) (x : spec_float) : Z :=
  match x with
  | S754_zero s => sign_bit f s
  | S754_infinity s => sign_bit f s + (2 ^ exp_bits f - 1) * 2 ^ mant_bits f
  | S754_nan => nan
  | S754_finite s m e =>
      if Zpos m <? 2 ^ mant_bits f then sign_bit f s + Zpos m
      else sign_bit f s + (e - fmin_exp f + 1) * 2 ^ mant_bits f + (Zpos m - 2 ^ mant_bits f)
  end.

(** ** Operations on decoded values *)

Definition is_nan (x : spec_float) : bool := match x with S754_nan => true | _ => false end.
Definition signbit (x : spec_float) : bool :=
  match x with
  | S754_zero s | S754_infinity s | S754_finite s _ _ => s
  | S754_nan => false
  end.

(** [(float64)x] and [(float32)x]. *)
Definition fconvert (f : float_fmt) (x : spec_float) : spec_float :=
  match x with
  | S754_finite s m e =>
      binary_normalize (prec f) (emax f) (if s then Zneg m else Zpos m) e s
  | _ => x
  end.

(** [ceil], [floor], [trunc], [rint] (round to nearest even) on a double. *)
Inductive rounding := Ceil | Floor | Trunc | Rint.

Definition round_up (mode : rounding) (s : bool) (q r d : Z) : bool :=
  match mode with
  | Trunc => false
  | Ceil => negb s && negb (r =? 0)
  | Floor => s && negb (r =? 0)
  | Rint => (d <? 2 * r) || ((2 * r =? d) && Z.odd q)
  end.

Definition round_int (mode : rounding) (x : spec_float) : spec_float :=
  match x with
  | S754_finite s m e =>
      if 0 <=? e then x else
      let d := 2 ^ (- e) in
      let q := Zpos m / d in
      let r := Zpos m mod d in
      let q := if round_up mode s q r d then q + 1 else q in
      binary_normalize (prec F64) (emax F64) (if s then - q else q) 0 s
  | _ => x
  end.

(** [fmin]/[fmax] away from NaN, then the zero rule of [wa_fmin]/[wa_fmax]. *)
Definition wa_fmax (a b : spec_float) : spec_float :=
  let c := if SFltb a b then b else a in
  if SFeqb c (S754_zero false) && SFeqb a b
  then (if signbit a then b else a) else c.
Definition wa_fmin (a b : spec_float) : spec_float :=
  let c := if SFltb b a then b else a in
  if SFeqb c (S754_zero false) && SFeqb a b
  then (if signbit a then a else b) else c.

(** ** Handlers, on bit patterns *)

Section Ops.
Context (nan_result : Z -> list Z -> Z).

Definition fencode (f : float_fmt) (args : list Z) (x : spec_float) : Z :=
  encode f (uwrap (fwidth f) (nan_result (fwidth f) args)) x.

Inductive fbinop := FAdd | FSub | FMul | FDiv.
Definition fbin (f : float_fmt) (op : fbinop) (x y : spec_float) : spec_float :=
  match op with
  | FAdd => SFadd (prec f) (emax f) x y
  | FSub => SFsub (prec f) (emax f) x y
  | FMul => SFmul (prec f) (emax f) x y
  | FDiv => SFdiv (prec f) (emax f) x y
  end.

(** [DEF_OP_NUMERIC(float32, float32, F32, op)] *)
Definition f_numeric (f : float_fmt) (op : fbinop) (v1 v2 : Z) : Z :=
  fencode f [v1; v2] (fbin f op (decode f v1) (decode f v2)).

Inductive fcmp := FEq | FNe | FLt | FGt | FLe | FGe.
Definition f_cmp (f : float_fmt) (c : fcmp) (v1 v2 : Z) : Z :=
  let x := decode f v1 in let y := decode f v2 in
  Z.b2z match c with
        | FEq => SFeqb x y | FNe => negb (SFeqb x y)
        | FLt => SFltb x y | FGt => SFltb y x
        | FLe => SFleb x y | FGe => SFleb y x
        end.

(** [DEF_OP_MATH]: the argument is promoted to [double] for the call. *)
Definition f_math (f : float_fmt) (method : spec_float -> spec_float) (v : Z) : Z :=
  fencode f [v] (fconvert f (method (fconvert F64 (decode f v)))).
Definition f_abs (f : float_fmt) := f_math f SFabs.
Definition f_sqrt (f : float_fmt) := f_math f (SFsqrt (prec F64) (emax F64)).
Definition f_round (f : float_fmt) (mode : rounding) := f_math f (round_int mode).

(** [WASM_OP_F32_NEG], [WASM_OP_F64_NEG]: on the bits. *)
Definition f_neg (f : float_fmt) (v : Z) : Z :=
  let sb := Z.land v (2 ^ (fwidth f - 1)) in
  if negb (sb =? 0) then Z.land v (Z.lnot (2 ^ (fwidth f - 1)))
  else Z.lor v (2 ^ (fwidth f - 1)).

Definition f_minmax (f : float_fmt) (op : spec_float -> spec_float -> spec_float)
    (v1 v2 : Z) : Z :=
  let a := decode f v1 in let b := decode f v2 in
  if is_nan a then v1 else if is_nan b then v2
  else fencode f [v1; v2] (fconvert f (op (fconvert F64 a) (fconvert F64 b))).

(** [signbit(b) ? -fabs(a) : fabs(a)], [signbit] reading the bit also of a NaN. *)
Definition f_copysign (f : float_fmt) (v1 v2 : Z) : Z :=
  let a := SFabs (fconvert F64 (decode f v1)) in
  fencode f [v1; v2] (fconvert f (if sign_of f v2 then SFopp a else a)).

(** [DEF_OP_CONVERT] from an integer type, and between the float types. *)
Definition f_of_int (f : float_fmt) (z : Z) : Z :=
  fencode f [] (binary_normalize (prec f) (emax f) z 0 false).
Definition f_of_float (f g : float_fmt) (v : Z) : Z :=
  fencode g [v] (fconvert g (decode f v)).

End Ops.

(** The integer part of a finite value. *)
Definition ftrunc (x : spec_float) : Z :=
  match x with
  | S754_finite s m e =>
      let q := if 0 <=? e then Zpos m * 2 ^ e else Zpos m / 2 ^ (- e) in
      if s then - q else q
  | _ => 0
  end.

(** A cast to an integer type is undefined outside the type's range. *)
Definition c_float_cast (lo hi : Z) (x : spec_float) : res Z :=
  match x with
  | S754_nan | S754_infinity _ => Undef
  | _ => let z := ftrunc x in
         if (lo <=? z) && (z <=? hi) then Ok z else Undef
  end.

(** A floating literal of the source, exactly representable. *)
Definition flit (f : float_fmt) (z : Z) : spec_float :=
  binary_normalize (prec f) (emax f) z 0 false.

(** [DEF_OP_TRUNC(dst, .., src, .., <= min_lit, >= max_lit)] *)
Definition DEF_OP_TRUNC (f : float_fmt) (dst_width lo hi min_lit max_lit v : Z) : res Z :=
  let value := decode f v in
  if is_nan value then Err "invalid conversion to integer"
  else if SFleb value (flit f min_lit) || SFleb (flit f max_lit) value
  then Err "integer overflow"
  else rlet z := c_float_cast lo hi value in Ok (uwrap dst_width z).

(** The eight instances with the literals of the source. *)
Definition i32_trunc_s_f32 := DEF_OP_TRUNC F32 32 (- 2 ^ 31) (2 ^ 31 - 1) (-2147483904) 2147483648.
Definition i32_trunc_u_f32 := DEF_OP_TRUNC F32 32 0 (2 ^ 32 - 1) (-1) 4294967296.
Definition i32_trunc_s_f64 := DEF_OP_TRUNC F64 32 (- 2 ^ 31) (2 ^ 31 - 1) (-2147483649) 2147483648.
Definition i32_trunc_u_f64 := DEF_OP_TRUNC F64 32 0 (2 ^ 32 - 1) (-1) 4294967296.
Definition i64_trunc_s_f32 :=
  DEF_OP_TRUNC F32 64 (- 2 ^ 63) (2 ^ 63 - 1) (-9223373136366403584) 9223372036854775808.
Definition i64_trunc_u_f32 := DEF_OP_TRUNC F32 64 0 (2 ^ 64 - 1) (-1) 18446744073709551616.
Definition i64_trunc_s_f64 :=
  DEF_OP_TRUNC F64 64 (- 2 ^ 63) (2 ^ 63 - 1) (-9223372036854777856) 9223372036854775808.
Definition i64_trunc_u_f64 := DEF_OP_TRUNC F64 64 0 (2 ^ 64 - 1) (-1) 18446744073709551616.

(** ** The truncation guards *)

Definition known_fmt (f : float_fmt) : Prop := f = F32 \/ f = F64.

(** A finite value with a mantissa of the format: normalised, or at the
    smallest exponent. *)
Definition canonical (f : float_fmt) (m : positive) (e : Z) : Prop :=
  Zpos m < 2 ^ prec f /\ fmin_exp f <= e /\ (2 ^ mant_bits f <= Zpos m \/ e = fmin_exp f).

Definition canonical_sf (f : float_fmt) (x : spec_float) : Prop :=
  match x with S754_finite _ m e => canonical f m e | _ => True end.

Lemma known_fmt_facts f :
  known_fmt f -> 0 < prec f /\ 0 < mant_bits f /\ 0 < - fmin_exp f /\ 0 < exp_bits f /\
  mant_bits f + 1 = prec f.
Proof. by intros [-> | ->]. Qed.

Lemma decode_canonical f b : known_fmt f -> canonical_sf f (decode f b).
Proof.
  intros Hf. destruct (known_fmt_facts f Hf) as (H1 & H2 & H3 & H4 & H5).
  assert (Ep : 2 ^ prec f = 2 * 2 ^ mant_bits f)
    by (rewrite <- Z.pow_succ_r by lia; f_equal; lia).
  unfold decode. cbv zeta.
  pose proof (Z.mod_pos_bound b (2 ^ mant_bits f) (pow2_pos (mant_bits f) ltac:(lia))) as Hm.
  fold (mant_of f b) in Hm.
  pose proof (Z.mod_pos_bound (b / 2 ^ mant_bits f) (2 ^ exp_bits f) (pow2_pos (exp_bits f) ltac:(lia))) as He.
  fold (exp_of f b) in He.
  destruct (Z.eqb_spec (exp_of f b) 0) as [E|E].
  - destruct (mant_of f b) eqn:Em; try done. cbn. unfold canonical. lia.
  - destruct (Z.eqb_spec (exp_of f b) (2 ^ exp_bits f - 1)); [by destruct (_ =? 0)|].
    destruct (mant_of f b + 2 ^ mant_bits f) eqn:Em; try done.
    cbn. unfold canonical. lia.
Qed.

(** Finite values as integers: the value times [2 ^ - fmin_exp]. *)
Definition scaled (f : float_fmt) (m : positive) (e : Z) : Z := Zpos m * 2 ^ (e - fmin_exp f).
Definition sval (f : float_fmt) (x : spec_float) : Z :=
  match x with
  | S754_finite s m e => if s then - scaled f m e else scaled f m e
  | _ => 0
  end.

Definition is_finite (x : spec_float) : bool :=
  match x with S754_nan | S754_infinity _ => false | _ => true end.

Lemma scaled_pos f m e : fmin_exp f <= e -> 0 < scaled f m e.
Proof. intros. unfold scaled. pose proof (pow2_pos (e - fmin_exp f)). nia. Qed.

Lemma canonical_pos f m e : canonical f m e -> 0 < scaled f m e.
Proof. intros (_ & H & _). by apply scaled_pos. Qed.

(** A larger exponent of a canonical value wins whatever the mantissas. *)
Lemma canonical_exp_lt f m1 e1 m2 e2 :
  known_fmt f -> canonical f m1 e1 -> canonical f m2 e2 -> e1 < e2 ->
  scaled f m1 e1 < scaled f m2 e2.
Proof.
  intros Hf (H1 & H2 & _) (_ & H4 & H5) Hlt.
  destruct (known_fmt_facts f Hf) as (F1 & F2 & F3 & F4 & F5).
  destruct H5 as [H5|]; [|lia]. unfold scaled.
  replace (e2 - fmin_exp f) with (1 + (e2 - e1 - 1) + (e1 - fmin_exp f)) by lia.
  rewrite !Z.pow_add_r by lia. change (2 ^ 1) with 2.
  pose proof (pow2_pos (e1 - fmin_exp f) ltac:(lia)).
  pose proof (pow2_pos (e2 - e1 - 1) ltac:(lia)).
  assert (2 ^ prec f = 2 * 2 ^ mant_bits f) as Ep
    by (rewrite <- Z.pow_succ_r by lia; f_equal; lia).
  assert (Zpos m1 < Zpos m2 * (2 * 2 ^ (e2 - e1 - 1))) by nia. nia.
Qed.

Lemma scaled_same_exp f m1 m2 e :
  fmin_exp f <= e -> (scaled f m1 e ?= scaled f m2 e) = (Zpos m1 ?= Zpos m2).
Proof.
  intros He. unfold scaled. pose proof (pow2_pos (e - fmin_exp f)).
  symmetry. apply Zmult_compare_compat_r. lia.
Qed.

Lemma canonical_compare f m1 e1 m2 e2 :
  known_fmt f -> canonical f m1 e1 -> canonical f m2 e2 ->
  (scaled f m1 e1 ?= scaled f m2 e2) =
    match Z.compare e1 e2 with Eq => Pos.compare_cont Eq m1 m2 | c => c end.
Proof.
  intros Hf C1 C2. destruct (Z.compare_spec e1 e2) as [->|Hlt|Hlt].
  - rewrite scaled_same_exp by apply C2. done.
  - apply Z.compare_lt_iff. by apply canonical_exp_lt.
  - apply Z.compare_gt_iff. by apply canonical_exp_lt.
Qed.

(** On finite canonical values [SFcompare] compares the values. *)
Lemma SFcompare_sval f x y :
  known_fmt f -> is_finite x = true -> is_finite y = true ->
  canonical_sf f x -> canonical_sf f y ->
  SFcompare x y = Some (sval f x ?= sval f y).
Proof.
  intros Hf Fx Fy Cx Cy.
  destruct x as [sx| | |[] mx ex]; try done; destruct y as [sy| | |[] my ey]; try done;
    cbn [SFcompare sval canonical_sf] in *; f_equal; symmetry.
  1,2,3,5,6,7: try pose proof (canonical_pos f mx ex Cx); try pose proof (canonical_pos f my ey Cy);
    first [apply Z.compare_lt_iff; lia | apply Z.compare_gt_iff; lia].
  - rewrite <- Z.compare_opp, !Z.opp_involutive, Z.compare_antisym, canonical_compare by done.
    destruct (Z.compare_spec ex ey); [|done..].
    by destruct (Pos.compare_cont Eq mx my).
  - by apply canonical_compare.
Qed.

Lemma SFleb_sval f x y :
  known_fmt f -> is_finite x = true -> is_finite y = true ->
  canonical_sf f x -> canonical_sf f y ->
  SFleb x y = (sval f x <=? sval f y).
Proof.
  intros. unfold SFleb. rewrite (SFcompare_sval f) by done. unfold Z.leb.
  by destruct (_ ?= _).
Qed.

(** The integer part is the truncated quotient of the scaled value. *)
Lemma ftrunc_sval f x :
  canonical_sf f x -> known_fmt f ->
  ftrunc x = Z.quot (sval f x) (2 ^ (- fmin_exp f)).
Proof.
  intros C Hf. destruct (known_fmt_facts f Hf) as (_ & _ & F3 & _).
  destruct x as [s|s| |s m e]; try (cbn; by rewrite Z.quot_0_l by (apply Z.pow_nonzero; lia)).
  cbn [canonical_sf] in C. destruct C as (_ & He & _).
  assert (Hq : Z.quot (scaled f m e) (2 ^ (- fmin_exp f)) =
               if 0 <=? e then Zpos m * 2 ^ e else Zpos m / 2 ^ (- e)).
  { pose proof (scaled_pos f m e He). pose proof (pow2_pos (- fmin_exp f)).
    rewrite Z.quot_div_nonneg by lia. unfold scaled. destruct (Z.leb_spec 0 e).
    - replace (e - fmin_exp f) with (e + - fmin_exp f) by lia.
      rewrite Z.pow_add_r, Z.mul_assoc, Z.div_mul by lia. done.
    - replace (- fmin_exp f) with (- e + (e - fmin_exp f)) by lia.
      rewrite Z.pow_add_r by lia. pose proof (pow2_pos (e - fmin_exp f)).
      pose proof (pow2_pos (- e)). rewrite Z.div_mul_cancel_r by lia. done. }
  cbn [ftrunc sval]. rewrite <- Hq. destruct s; [|done].
  rewrite Z.quot_opp_l by (apply Z.pow_nonzero; lia). done.
Qed.

(** No float of the format lies strictly between [2 ^ L] and
    [2 ^ L + 2 ^ (L + 1 - prec)]. *)
Lemma no_float_between f m e L G :
  known_fmt f -> canonical f m e -> G = L + 1 - prec f -> 1 <= G ->
  scaled f m e < (2 ^ L + 2 ^ G) * 2 ^ (- fmin_exp f) ->
  scaled f m e <= 2 ^ L * 2 ^ (- fmin_exp f).
Proof.
  intros Hf (C1 & C2 & _) -> HG. destruct (known_fmt_facts f Hf) as (F1 & F2 & F3 & F4 & F5).
  unfold scaled. set (K := - fmin_exp f) in *. set (G := L + 1 - prec f) in *.
  pose proof (pow2_pos G ltac:(lia)). pose proof (pow2_pos K ltac:(lia)).
  destruct (Z.leb_spec G e).
  - assert (EL : 2 ^ L = 2 ^ (prec f - 1) * 2 ^ G)
      by (rewrite <- Z.pow_add_r by lia; f_equal; unfold G; lia).
    assert (Ee : 2 ^ (e - fmin_exp f) = 2 ^ (e - G) * (2 ^ G * 2 ^ K))
      by (rewrite <- !Z.pow_add_r by lia; f_equal; unfold K; lia).
    rewrite Ee, EL. pose proof (pow2_pos (e - G)).
    set (a := Zpos m * 2 ^ (e - G)). intros Hlt.
    replace (Zpos m * (2 ^ (e - G) * (2 ^ G * 2 ^ K))) with (a * (2 ^ G * 2 ^ K)) in *
      by (unfold a; ring).
    replace ((2 ^ (prec f - 1) * 2 ^ G + 2 ^ G) * 2 ^ K)
      with ((2 ^ (prec f - 1) + 1) * (2 ^ G * 2 ^ K)) in Hlt by ring.
    assert (0 < 2 ^ G * 2 ^ K) by nia.
    apply Z.mul_lt_mono_pos_r in Hlt; [|done]. nia.
  - intros _.
    assert (EL : 2 ^ L = 2 ^ prec f * 2 ^ (G - 1))
      by (rewrite <- Z.pow_add_r by lia; f_equal; unfold G; lia).
    assert (Ee : 2 ^ (G - 1) * 2 ^ K = 2 ^ (G - 1 - e) * 2 ^ (e - fmin_exp f))
      by (rewrite <- !Z.pow_add_r by (unfold K; lia); f_equal; unfold K; lia).
    rewrite EL, <- Z.mul_assoc, Ee.
    pose proof (pow2_pos (e - fmin_exp f) ltac:(lia)).
    pose proof (pow2_pos (G - 1 - e) ltac:(lia)). nia.
Qed.

(** A literal of the source denotes the number it is written as. *)
Definition good_lit (f : float_fmt) (z : Z) : Prop :=
  is_finite (flit f z) = true /\ canonical_sf f (flit f z) /\
  sval f (flit f z) = z * 2 ^ (- fmin_exp f).

(** What the WebAssembly truncation operators return. *)
Definition trunc_spec (dst_width lo hi : Z) (x : spec_float) : res Z :=
  match x with
  | S754_nan => Err "invalid conversion to integer"
  | S754_infinity _ => Err "integer overflow"
  | _ => if (lo <=? ftrunc x) && (ftrunc x <=? hi)
         then Ok (uwrap dst_width (ftrunc x)) else Err "integer overflow"
  end.

Definition good_min (f : float_fmt) (lo minl : Z) : Prop :=
  minl = lo - 1 \/
  exists L, lo = - 2 ^ L /\ minl = - (2 ^ L + 2 ^ (L + 1 - prec f)) /\ 1 <= L + 1 - prec f.

(** The scaled guard and the range test on the integer part agree. *)
Lemma guard_range f lo hi minl x :
  known_fmt f -> canonical_sf f x -> lo <= 0 <= hi -> good_min f lo minl ->
  let D := 2 ^ (- fmin_exp f) in
  (sval f x <=? minl * D) || ((hi + 1) * D <=? sval f x) =
  negb ((lo <=? ftrunc x) && (ftrunc x <=? hi)).
Proof.
  intros Hf Cx Hr Hmin D. assert (HD : 0 < D).
  { apply pow2_pos. destruct (known_fmt_facts f Hf). lia. }
  rewrite (ftrunc_sval f) by done. fold D.
  assert (Hlow : (sval f x <=? minl * D) = (sval f x <=? (lo - 1) * D)).
  { destruct Hmin as [->|(L & -> & -> & HG)]; [done|].
    assert (0 < 2 ^ (L + 1 - prec f)) by (apply pow2_pos; lia).
    assert (0 < 2 ^ L) by (apply pow2_pos; destruct (known_fmt_facts f Hf); lia).
    apply eq_true_iff_eq. rewrite !Z.leb_le. split; [nia|]. intros Hx.
    destruct x as [s|s| |s m e]; cbn [sval canonical_sf] in *; try nia.
    destruct s; [|pose proof (canonical_pos f m e Cx); nia].
    destruct (Z.leb_spec ((2 ^ L + 2 ^ (L + 1 - prec f)) * D) (scaled f m e)); [lia|].
    assert (scaled f m e <= 2 ^ L * D) by (eapply no_float_between; eauto). nia. }
  rewrite Hlow. set (v := sval f x) in *. clearbody v. clear Hlow Hmin.
  pose proof (Z.quot_rem' v D) as Eq. pose proof (Z.rem_bound_abs v D ltac:(lia)).
  apply eq_true_iff_eq.
  rewrite orb_true_iff, negb_true_iff, andb_false_iff, !Z.leb_le, !Z.leb_gt.
  assert (Hsgn : (0 <= v /\ 0 <= Z.rem v D /\ 0 <= Z.quot v D) \/
                 (v < 0 /\ Z.rem v D <= 0 /\ Z.quot v D <= 0)).
  { destruct (Z.leb_spec 0 v); [left|right]; (split; [lia|]).
    - pose proof (Z.rem_bound_pos v D). pose proof (Z.quot_pos v D). lia.
    - pose proof (Z.rem_bound_pos (- v) D). pose proof (Z.quot_pos (- v) D).
      rewrite Z.quot_opp_l, Z.rem_opp_l in * by lia. lia. }
  generalize dependent (Z.quot v D). generalize dependent (Z.rem v D).
  intros r Hr2 q Eq Hsgn. split.
  - intros [|]; nia.
  - intros [|]; [left|right]; nia.
Qed.

Lemma trunc_guard f dst lo hi minl maxl v :
  known_fmt f -> good_lit f minl -> good_lit f maxl -> maxl = hi + 1 ->
  lo <= 0 <= hi -> good_min f lo minl ->
  DEF_OP_TRUNC f dst lo hi minl maxl v = trunc_spec dst lo hi (decode f v).
Proof.
  intros Hf (Fl & Cl & Sl) (Fh & Ch & Sh) -> Hr Hmin. unfold DEF_OP_TRUNC. cbv zeta.
  pose proof (decode_canonical f v Hf) as Cx.
  destruct (is_finite (decode f v)) eqn:Fx.
  - assert (is_nan (decode f v) = false) as -> by (by destruct (decode f v)).
    rewrite !(SFleb_sval f) by done. rewrite Sl, Sh, (guard_range f lo) by done.
    unfold c_float_cast, trunc_spec. destruct (decode f v); try done; by destruct (_ && _).
  - destruct (decode f v) as [|s| |]; try done. cbn [is_nan trunc_spec].
    unfold SFleb. destruct s.
    + by destruct (flit f minl).
    + destruct (SFcompare (S754_infinity false) (flit f minl)) as [[]|];
        destruct (flit f (hi + 1)); done.
Qed.

Ltac good_lit := split; [vm_compute; reflexivity|split; [vm_compute; intuition congruence|vm_compute; reflexivity]].

(** C23: the eight float-to-integer conversions.  For every bit pattern the
    handler traps on NaN, traps on a value whose integer part does not fit,
    and otherwise returns the integer part: the floating literals of the
    guards lose and add no value although not all integer bounds are
    representable, and the C cast behind them is never undefined. *)
Theorem trunc_conversions_exact (v : Z) :
  i32_trunc_s_f32 v = trunc_spec 32 (- 2 ^ 31) (2 ^ 31 - 1) (decode F32 v) /\
  i32_trunc_u_f32 v = trunc_spec 32 0 (2 ^ 32 - 1) (decode F32 v) /\
  i32_trunc_s_f64 v = trunc_spec 32 (- 2 ^ 31) (2 ^ 31 - 1) (decode F64 v) /\
  i32_trunc_u_f64 v = trunc_spec 32 0 (2 ^ 32 - 1) (decode F64 v) /\
  i64_trunc_s_f32 v = trunc_spec 64 (- 2 ^ 63) (2 ^ 63 - 1) (decode F32 v) /\
  i64_trunc_u_f32 v = trunc_spec 64 0 (2 ^ 64 - 1) (decode F32 v) /\
  i64_trunc_s_f64 v = trunc_spec 64 (- 2 ^ 63) (2 ^ 63 - 1) (decode F64 v) /\
  i64_trunc_u_f64 v = trunc_spec 64 0 (2 ^ 64 - 1) (decode F64 v).
Proof.
  repeat split; apply trunc_guard; try (by left + by right); try good_lit; try lia.
  - right. by exists 31.
  - right. by exists 63.
  - right. by exists 63.
Qed.
