(* ===== verification/Instance.v ===== *)
(** * Module instances

    The run-time state of [core/iwasm/interpreter/wasm_runtime.h]: memory,
    table, globals, functions, the exception buffer, and the access control
    data Aerogel adds, with the operations of
    [core/iwasm/interpreter/wasm_runtime.c] on it that need no bytecode:
    [wasm_enlarge_memory], the CPU and memory checks.

    Every record comes with one functional update [set_<field>] per field. *)

From S2P Require Import Prelude.
#[local] Open Scope Z_scope.

(** ** The platform

    What the code takes from the build and the platform: the [#if]s that
    matter, structure offsets of the target, the clock
    [os_time_get_renju_boot_microsecond] by number of earlier readings, and
    the system allocator by number of earlier requests (0 is [NULL]). *)
Class Platform := {
  EVAL_NO_AEROGEL : bool;
  BUILD_TARGET_X86 : bool;
  os_clock : nat -> Z;
  os_malloc : nat -> Z -> Z;
  os_realloc : nat -> Z -> Z -> Z;
  offsetof_base_addr : Z;       (* of WASMMemoryInstance *)
  offsetof_lp : Z;              (* of WASMInterpFrame *)
  sizeof_branch_block : Z;      (* of WASMBranchBlock *)
  nan_result : Z -> list Z -> Z
}.

(** ** Data *)

Record SensorActuatorInfo := mkSensorActuatorInfo {
  sa_id : Z;
  mmio_address : Z;
  num_concurrent_access : Z;
  power : Z;
  allowed_power_consumption : Z;
  used_power : Z;
  sa_timestamp : Z
}.

Definition set_sa_id (v : Z) (r : SensorActuatorInfo) : SensorActuatorInfo :=
  mkSensorActuatorInfo v (mmio_address r) (num_concurrent_access r) (power r)
    (allowed_power_consumption r) (used_power r) (sa_timestamp r).
Definition set_mmio_address (v : Z) (r : SensorActuatorInfo) : SensorActuatorInfo :=
  mkSensorActuatorInfo (sa_id r) v (num_concurrent_access r) (power r)
    (allowed_power_consumption r) (used_power r) (sa_timestamp r).
Definition set_num_concurrent_access (v : Z) (r : SensorActuatorInfo) : SensorActuatorInfo :=
  mkSensorActuatorInfo (sa_id r) (mmio_address r) v (power r) (allowed_power_consumption r)
    (used_power r) (sa_timestamp r).
Definition set_power (v : Z) (r : SensorActuatorInfo) : SensorActuatorInfo :=
  mkSensorActuatorInfo (sa_id r) (mmio_address r) (num_concurrent_access r) v
    (allowed_power_consumption r) (used_power r) (sa_timestamp r).
Definition set_allowed_power_consumption (v : Z) (r : SensorActuatorInfo) : SensorActuatorInfo :=
  mkSensorActuatorInfo (sa_id r) (mmio_address r) (num_concurrent_access r) (power r) v
    (used_power r) (sa_timestamp r).
Definition set_used_power (v : Z) (r : SensorActuatorInfo) : SensorActuatorInfo :=
  mkSensorActuatorInfo (sa_id r) (mmio_address r) (num_concurrent_access r) (power r)
    (allowed_power_consumption r) v (sa_timestamp r).
Definition set_sa_timestamp (v : Z) (r : SensorActuatorInfo) : SensorActuatorInfo :=
  mkSensorActuatorInfo (sa_id r) (mmio_address r) (num_concurrent_access r) (power r)
    (allowed_power_consumption r) (used_power r) v.

Record AccessControlModule := mkAccessControlModule {
  ac_name : string;
  authorized_sensor_actuator : list (option SensorActuatorInfo);   (* pointers *)
  num_authorized_sensor_actuator : Z;
  processor_power_consumption : Z;
  memory_consumption : Z
}.

Definition set_ac_name (v : string) (r : AccessControlModule) : AccessControlModule :=
  mkAccessControlModule v (authorized_sensor_actuator r) (num_authorized_sensor_actuator r)
    (processor_power_consumption r) (memory_consumption r).
Definition set_authorized_sensor_actuator (v : list (option SensorActuatorInfo)) (r : AccessControlModule) : AccessControlModule :=
  mkAccessControlModule (ac_name r) v (num_authorized_sensor_actuator r)
    (processor_power_consumption r) (memory_consumption r).
Definition set_num_authorized_sensor_actuator (v : Z) (r : AccessControlModule) : AccessControlModule :=
  mkAccessControlModule (ac_name r) (authorized_sensor_actuator r) v
    (processor_power_consumption r) (memory_consumption r).
Definition set_processor_power_consumption (v : Z) (r : AccessControlModule) : AccessControlModule :=
  mkAccessControlModule (ac_name r) (authorized_sensor_actuator r)
    (num_authorized_sensor_actuator r) v (memory_consumption r).
Definition set_memory_consumption (v : Z) (r : AccessControlModule) : AccessControlModule :=
  mkAccessControlModule (ac_name r) (authorized_sensor_actuator r)
    (num_authorized_sensor_actuator r) (processor_power_consumption r) v.

Record AccessControl := mkAccessControl {
  module_info : list AccessControlModule;
  num_module_info : Z;
  module_index : nat;
  processor_power : Z
}.

Definition set_module_info (v : list AccessControlModule) (r : AccessControl) : AccessControl :=
  mkAccessControl v (num_module_info r) (module_index r) (processor_power r).
Definition set_num_module_info (v : Z) (r : AccessControl) : AccessControl :=
  mkAccessControl (module_info r) v (module_index r) (processor_power r).
Definition set_module_index (v : nat) (r : AccessControl) : AccessControl :=
  mkAccessControl (module_info r) (num_module_info r) v (processor_power r).
Definition set_processor_power (v : Z) (r : AccessControl) : AccessControl :=
  mkAccessControl (module_info r) (num_module_info r) (module_index r) v.

(** [WASMMemoryInstance]: [self_addr] is the address of the structure;
    [memory_data], [global_data] and [end_addr] are offsets from [base_addr],
    where [heap_data] is; [mem_bytes] holds the bytes by offset from
    [base_addr] (absent is 0). *)
Record WASMMemoryInstance := mkMemory {
  num_bytes_per_page : Z;
  cur_page_count : Z;
  max_page_count : Z;
  heap_base_offset : Z;
  memory_data : Z;
  global_data : Z;
  global_data_size : Z;
  end_addr : Z;
  total_size : Z;
  self_addr : Z;
  heap_handle : Z;
  mem_bytes : gmap Z Z
}.

Definition set_num_bytes_per_page (v : Z) (r : WASMMemoryInstance) : WASMMemoryInstance :=
  mkMemory v (cur_page_count r) (max_page_count r) (heap_base_offset r) (memory_data r)
    (global_data r) (global_data_size r) (end_addr r) (total_size r) (self_addr r)
    (heap_handle r) (mem_bytes r).
Definition set_cur_page_count (v : Z) (r : WASMMemoryInstance) : WASMMemoryInstance :=
  mkMemory (num_bytes_per_page r) v (max_page_count r) (heap_base_offset r) (memory_data r)
    (global_data r) (global_data_size r) (end_addr r) (total_size r) (self_addr r)
    (heap_handle r) (mem_bytes r).
Definition set_max_page_count (v : Z) (r : WASMMemoryInstance) : WASMMemoryInstance :=
  mkMemory (num_bytes_per_page r) (cur_page_count r) v (heap_base_offset r) (memory_data r)
    (global_data r) (global_data_size r) (end_addr r) (total_size r) (self_addr r)
    (heap_handle r) (mem_bytes r).
Definition set_heap_base_offset (v : Z) (r : WASMMemoryInstance) : WASMMemoryInstance :=
  mkMemory (num_bytes_per_page r) (cur_page_count r) (max_page_count r) v (memory_data r)
    (global_data r) (global_data_size r) (end_addr r) (total_size r) (self_addr r)
    (heap_handle r) (mem_bytes r).
Definition set_memory_data (v : Z) (r : WASMMemoryInstance) : WASMMemoryInstance :=
  mkMemory (num_bytes_per_page r) (cur_page_count r) (max_page_count r) (heap_base_offset r) v
    (global_data r) (global_data_size r) (end_addr r) (total_size r) (self_addr r)
    (heap_handle r) (mem_bytes r).
Definition set_global_data (v : Z) (r : WASMMemoryInstance) : WASMMemoryInstance :=
  mkMemory (num_bytes_per_page r) (cur_page_count r) (max_page_count r) (heap_base_offset r)
    (memory_data r) v (global_data_size r) (end_addr r) (total_size r) (self_addr r)
    (heap_handle r) (mem_bytes r).
Definition set_global_data_size (v : Z) (r : WASMMemoryInstance) : WASMMemoryInstance :=
  mkMemory (num_bytes_per_page r) (cur_page_count r) (max_page_count r) (heap_base_offset r)
    (memory_data r) (global_data r) v (end_addr r) (total_size r) (self_addr r)
    (heap_handle r) (mem_bytes r).
Definition set_end_addr (v : Z) (r : WASMMemoryInstance) : WASMMemoryInstance :=
  mkMemory (num_bytes_per_page r) (cur_page_count r) (max_page_count r) (heap_base_offset r)
    (memory_data r) (global_data r) (global_data_size r) v (total_size r) (self_addr r)
    (heap_handle r) (mem_bytes r).
Definition set_total_size (v : Z) (r : WASMMemoryInstance) : WASMMemoryInstance :=
  mkMemory (num_bytes_per_page r) (cur_page_count r) (max_page_count r) (heap_base_offset r)
    (memory_data r) (global_data r) (global_data_size r) (end_addr r) v (self_addr r)
    (heap_handle r) (mem_bytes r).
Definition set_self_addr (v : Z) (r : WASMMemoryInstance) : WASMMemoryInstance :=
  mkMemory (num_bytes_per_page r) (cur_page_count r) (max_page_count r) (heap_base_offset r)
    (memory_data r) (global_data r) (global_data_size r) (end_addr r) (total_size r) v
    (heap_handle r) (mem_bytes r).
Definition set_heap_handle (v : Z) (r : WASMMemoryInstance) : WASMMemoryInstance :=
  mkMemory (num_bytes_per_page r) (cur_page_count r) (max_page_count r) (heap_base_offset r)
    (memory_data r) (global_data r) (global_data_size r) (end_addr r) (total_size r)
    (self_addr r) v (mem_bytes r).
Definition set_mem_bytes (v : gmap Z Z) (r : WASMMemoryInstance) : WASMMemoryInstance :=
  mkMemory (num_bytes_per_page r) (cur_page_count r) (max_page_count r) (heap_base_offset r)
    (memory_data r) (global_data r) (global_data_size r) (end_addr r) (total_size r)
    (self_addr r) (heap_handle r) v.

Record WASMTableInstance := mkTable {
  tbl_cur_size : Z;
  tbl_total_size : Z;
  tbl_elems : list Z
}.

Definition set_tbl_cur_size (v : Z) (r : WASMTableInstance) : WASMTableInstance :=
  mkTable v (tbl_total_size r) (tbl_elems r).
Definition set_tbl_total_size (v : Z) (r : WASMTableInstance) : WASMTableInstance :=
  mkTable (tbl_cur_size r) v (tbl_elems r).
Definition set_tbl_elems (v : list Z) (r : WASMTableInstance) : WASMTableInstance :=
  mkTable (tbl_cur_size r) (tbl_total_size r) v.

Record WASMGlobalInstance := mkGlobal { gl_type : Z; gl_data_offset : Z }.

Record WASMType := mkType { ty_param_count : nat; ty_result_count : nat; ty_types : list Z }.

(** [WASMFunctionInstance] with the parts of [WASMFunction] and
    [WASMFunctionImport] the interpreter reads through [u]. *)
Record WASMFunctionInstance := mkFunction {
  is_import_func : bool;
  param_count : Z;
  local_count : Z;
  param_cell_num : Z;
  ret_cell_num : Z;
  local_cell_num : Z;
  local_offsets : list Z;
  param_types : list Z;         (* points at the types of [func_type] *)
  local_types : list Z;
  func_type : WASMType;
  func_code : Z;
  func_code_size : Z;
  max_stack_cell_num : Z;
  max_block_num : Z;
  func_ptr_linked : bool
}.

(** [code_base] and [mod_code]: the loaded binary, which function code and
    instruction pointers point into. *)
Record WASMModuleInstance := mkModuleInstance {
  default_memory : option WASMMemoryInstance;
  default_table : option WASMTableInstance;
  globals : list WASMGlobalInstance;
  functions : list WASMFunctionInstance;
  mod_types : list WASMType;
  code_base : Z;
  mod_code : list Z;
  cur_exception : option string;
  access_control : option AccessControl;
  wasm_instructions_energy : Z;
  native_execution_time_us : Z;
  memory_usage_bytes : Z
}.

Definition set_default_memory (v : option WASMMemoryInstance) (r : WASMModuleInstance) : WASMModuleInstance :=
  mkModuleInstance v (default_table r) (globals r) (functions r) (mod_types r) (code_base r)
    (mod_code r) (cur_exception r) (access_control r) (wasm_instructions_energy r)
    (native_execution_time_us r) (memory_usage_bytes r).
Definition set_default_table (v : option WASMTableInstance) (r : WASMModuleInstance) : WASMModuleInstance :=
  mkModuleInstance (default_memory r) v (globals r) (functions r) (mod_types r) (code_base r)
    (mod_code r) (cur_exception r) (access_control r) (wasm_instructions_energy r)
    (native_execution_time_us r) (memory_usage_bytes r).
Definition set_globals (v : list WASMGlobalInstance) (r : WASMModuleInstance) : WASMModuleInstance :=
  mkModuleInstance (default_memory r) (default_table r) v (functions r) (mod_types r)
    (code_base r) (mod_code r) (cur_exception r) (access_control r)
    (wasm_instructions_energy r) (native_execution_time_us r) (memory_usage_bytes r).
Definition set_functions (v : list WASMFunctionInstance) (r : WASMModuleInstance) : WASMModuleInstance :=
  mkModuleInstance (default_memory r) (default_table r) (globals r) v (mod_types r)
    (code_base r) (mod_code r) (cur_exception r) (access_control r)
    (wasm_instructions_energy r) (native_execution_time_us r) (memory_usage_bytes r).
Definition set_mod_types (v : list WASMType) (r : WASMModuleInstance) : WASMModuleInstance :=
  mkModuleInstance (default_memory r) (default_table r) (globals r) (functions r) v
    (code_base r) (mod_code r) (cur_exception r) (access_control r)
    (wasm_instructions_energy r) (native_execution_time_us r) (memory_usage_bytes r).
Definition set_code_base (v : Z) (r : WASMModuleInstance) : WASMModuleInstance :=
  mkModuleInstance (default_memory r) (default_table r) (globals r) (functions r)
    (mod_types r) v (mod_code r) (cur_exception r) (access_control r)
    (wasm_instructions_energy r) (native_execution_time_us r) (memory_usage_bytes r).
Definition set_mod_code (v : list Z) (r : WASMModuleInstance) : WASMModuleInstance :=
  mkModuleInstance (default_memory r) (default_table r) (globals r) (functions r)
    (mod_types r) (code_base r) v (cur_exception r) (access_control r)
    (wasm_instructions_energy r) (native_execution_time_us r) (memory_usage_bytes r).
Definition set_cur_exception (v : option string) (r : WASMModuleInstance) : WASMModuleInstance :=
  mkModuleInstance (default_memory r) (default_table r) (globals r) (functions r)
    (mod_types r) (code_base r) (mod_code r) v (access_control r) (wasm_instructions_energy r)
    (native_execution_time_us r) (memory_usage_bytes r).
Definition set_access_control (v : option AccessControl) (r : WASMModuleInstance) : WASMModuleInstance :=
  mkModuleInstance (default_memory r) (default_table r) (globals r) (functions r)
    (mod_types r) (code_base r) (mod_code r) (cur_exception r) v (wasm_instructions_energy r)
    (native_execution_time_us r) (memory_usage_bytes r).
Definition set_wasm_instructions_energy (v : Z) (r : WASMModuleInstance) : WASMModuleInstance :=
  mkModuleInstance (default_memory r) (default_table r) (globals r) (functions r)
    (mod_types r) (code_base r) (mod_code r) (cur_exception r) (access_control r) v
    (native_execution_time_us r) (memory_usage_bytes r).
Definition set_native_execution_time_us (v : Z) (r : WASMModuleInstance) : WASMModuleInstance :=
  mkModuleInstance (default_memory r) (default_table r) (globals r) (functions r)
    (mod_types r) (code_base r) (mod_code r) (cur_exception r) (access_control r)
    (wasm_instructions_energy r) v (memory_usage_bytes r).
Definition set_memory_usage_bytes (v : Z) (r : WASMModuleInstance) : WASMModuleInstance :=
  mkModuleInstance (default_memory r) (default_table r) (globals r) (functions r)
    (mod_types r) (code_base r) (mod_code r) (cur_exception r) (access_control r)
    (wasm_instructions_energy r) (native_execution_time_us r) v.

(** Process-wide state: clock readings and allocator requests made so far,
    the profiling counters, and the peripheral address table. *)
Record World := mkWorld {
  w_ticks : nat;
  w_allocs : nat;
  check_mcu_overhead : Z;
  check_memory_usage_overhead : Z;
  total_address : Z;
  addresses : list Z
}.

Definition set_w_ticks (v : nat) (r : World) : World :=
  mkWorld v (w_allocs r) (check_mcu_overhead r) (check_memory_usage_overhead r)
    (total_address r) (addresses r).
Definition set_w_allocs (v : nat) (r : World) : World :=
  mkWorld (w_ticks r) v (check_mcu_overhead r) (check_memory_usage_overhead r)
    (total_address r) (addresses r).
Definition set_check_mcu_overhead (v : Z) (r : World) : World :=
  mkWorld (w_ticks r) (w_allocs r) v (check_memory_usage_overhead r) (total_address r)
    (addresses r).
Definition set_check_memory_usage_overhead (v : Z) (r : World) : World :=
  mkWorld (w_ticks r) (w_allocs r) (check_mcu_overhead r) v (total_address r) (addresses r).
Definition set_total_address (v : Z) (r : World) : World :=
  mkWorld (w_ticks r) (w_allocs r) (check_mcu_overhead r) (check_memory_usage_overhead r) v
    (addresses r).
Definition set_addresses (v : list Z) (r : World) : World :=
  mkWorld (w_ticks r) (w_allocs r) (check_mcu_overhead r) (check_memory_usage_overhead r)
    (total_address r) v.

Section Operations.
Context `{Platform}.

(** [bh_get_tick_us], and any direct reading of the clock. *)
Definition tick (w : World) : Z * World := (u32 (os_clock (w_ticks w)), set_w_ticks (S (w_ticks w)) w).

Definition wasm_set_exception (e : option string) (m : WASMModuleInstance) : WASMModuleInstance :=
  set_cur_exception e m.
Definition wasm_get_exception (m : WASMModuleInstance) : option string := cur_exception m.

(** Reading the current module's row of the access control table. *)
Definition current_module_info (m : WASMModuleInstance) : res AccessControlModule :=
  match access_control m with
  | None => Undef
  | Some ac => match module_info ac !! module_index ac with
               | None => Undef
               | Some i => Ok i
               end
  end.

Definition set_current_module_info (i : AccessControlModule) (m : WASMModuleInstance)
    : WASMModuleInstance :=
  match access_control m with
  | None => m
  | Some ac => set_access_control
      (Some (set_module_info (<[module_index ac := i]> (module_info ac)) ac)) m
  end.

(** [check_cpu_consumption]: is the CPU energy of the current window above
    the module's budget?  All arithmetic is [uint32]. *)
Definition check_cpu_consumption (m : WASMModuleInstance) (w : World) : res (bool * World) :=
  if EVAL_NO_AEROGEL then Ok (false, w) else
  let '(start, w) := tick w in
  rlet info := current_module_info m in
  let max_energy := processor_power_consumption info in
  let cpu_power := default 0 (processor_power <$> access_control m) in
  let cpu_exe_time_us := u32 (native_execution_time_us m + wasm_instructions_energy m) in
  let '(end_, w) := tick w in
  let w := set_check_mcu_overhead (u32 (check_mcu_overhead w + (s32 end_ - s32 start))) w in
  Ok (max_energy <? u32 (cpu_power * cpu_exe_time_us), w).

(** [check_memory_usage]; the instance keeps one memory and one table. *)
Definition check_memory_usage (m : WASMModuleInstance) (w : World)
    : res (bool * WASMModuleInstance * World) :=
  if EVAL_NO_AEROGEL then Ok (false, m, w) else
  let '(start, w) := tick w in
  let mem_total := default 0 (total_size <$> default_memory m) in
  let tbl_total := default 0 (tbl_total_size <$> default_table m) in
  let total_memory := u32 (u32 mem_total + tbl_total) in
  let m := set_memory_usage_bytes total_memory m in
  rlet info := current_module_info m in
  let '(end_, w) := tick w in
  let w := set_check_memory_usage_overhead
             (u32 (check_memory_usage_overhead w + (s32 end_ - s32 start))) w in
  Ok (memory_usage_bytes m <=? memory_consumption info, m, w).

(** [check_illegal_memory_boundary]: no peripheral address strictly between
    [base_addr] and [end_addr] ([end_ptr] is the pointer's current value). *)
Fixpoint boundary_clear (base_ptr end_ptr : Z) (addrs : list Z) : bool :=
  match addrs with
  | [] => true
  | a :: rest => if (u32 base_ptr <? a) && (a <? u32 end_ptr) then false
                 else boundary_clear base_ptr end_ptr rest
  end.

Definition check_illegal_memory_boundary (base_ptr end_ptr : Z) (w : World) : bool * World :=
  if EVAL_NO_AEROGEL then (true, w) else
  let '(start, w) := tick w in
  let ok := boundary_clear base_ptr end_ptr (take (Z.to_nat (total_address w)) (addresses w)) in
  let '(end_, w) := tick w in
  (ok, set_check_memory_usage_overhead
         (u32 (check_memory_usage_overhead w + (s32 end_ - s32 start))) w).

(** Allocator requests. *)
Definition wasm_runtime_malloc (size : Z) (w : World) : Z * World :=
  (os_malloc (w_allocs w) size, set_w_allocs (S (w_allocs w)) w).
Definition wasm_runtime_realloc (ptr size : Z) (w : World) : Z * World :=
  (os_realloc (w_allocs w) ptr size, set_w_allocs (S (w_allocs w)) w).

(** Byte-level memory. *)
Definition mem_byte (bs : gmap Z Z) (a : Z) : Z := default 0 (bs !! a).

Fixpoint read_bytes (bs : gmap Z Z) (a : Z) (n : nat) : list Z :=
  match n with
  | O => []
  | S n' => mem_byte bs a :: read_bytes bs (a + 1) n'
  end.
Fixpoint write_bytes (bs : gmap Z Z) (a : Z) (l : list Z) : gmap Z Z :=
  match l with
  | [] => bs
  | b :: l' => write_bytes (<[a := b]> bs) (a + 1) l'
  end.

(** [memset(base + lo, 0, hi - lo)] *)
Definition zero_bytes (bs : gmap Z Z) (lo hi : Z) : gmap Z Z :=
  filter (fun '(k, _) => ~ (lo <= k < hi)) bs.

Definition illegal_access_msg : string :=
  "fail to enlarge memory due to illegal access         to sensors and actuators.".

(** [wasm_enlarge_memory].  Bytes keep their offset from [base_addr] when
    the block moves; the pointer the code then forms is the old offset in
    the new block.  [aerogel_wasm_safe_allocation] is called only when the
    boundary check fails: its null result is dereferenced, its non-null
    result makes the call fail, after reading [memory->heap_handle] through
    the pointer that was reallocated.  [heap_migrate] is what
    [mem_allocator_migrate] does to the bytes of the application heap. *)
Definition wasm_enlarge_memory (safe_allocation : Z -> Z -> World -> Z * World)
    (heap_migrate : Z -> gmap Z Z -> gmap Z Z)
    (module : WASMModuleInstance) (inc_page_count : Z) (w : World)
    : res (bool * WASMModuleInstance * World) :=
  match default_memory module with
  | None => Undef
  | Some memory =>
  let heap_size := memory_data memory in
  let old_page_count := cur_page_count memory in
  let total_page_count := u32 (inc_page_count + cur_page_count memory) in
  let total_size := u64 (offsetof_base_addr + heap_size
                         + num_bytes_per_page memory * total_page_count
                         + global_data_size memory) in
  let fail msg := wasm_set_exception (Some msg) module in
  rlet info := current_module_info module in
  if inc_page_count <=? 0 then Ok (true, module, w) else
  if memory_consumption info <? u32 total_size
  then Ok (false, fail "fail to enlarge memory because of access memory size."%string, w) else
  if (total_page_count <? cur_page_count memory) || (max_page_count memory <? total_page_count)
  then Ok (false, fail "fail to enlarge memory."%string, w) else
  if UINT32_MAX <=? total_size
  then Ok (false, fail "fail to enlarge memory."%string, w) else
  let '(new_memory, w) := wasm_runtime_realloc (self_addr memory) (u32 total_size) w in
  let '(new_memory, w) := if new_memory =? 0 then wasm_runtime_malloc (u32 total_size) w
                          else (new_memory, w) in
  if new_memory =? 0 then Ok (false, fail "fail to enlarge memory."%string, w) else
  let base_ptr := new_memory + offsetof_base_addr in
  let '(legal, w) := check_illegal_memory_boundary base_ptr
                       (self_addr memory + offsetof_base_addr + end_addr memory) w in
  if negb legal then
    let '(safe, w) := safe_allocation base_ptr total_size w in
    if (safe =? 0) || negb (new_memory =? self_addr memory) then Undef
    else Ok (false, fail illegal_access_msg, w)
  else
  let bs := zero_bytes (mem_bytes memory) (end_addr memory) (total_size - offsetof_base_addr) in
  let bs := heap_migrate (new_memory - self_addr memory) bs in
  let new_global_data := heap_size + num_bytes_per_page memory * total_page_count in
  let global_data_old := heap_size + num_bytes_per_page memory * old_page_count in
  let gsize := Z.to_nat (global_data_size memory) in
  let bs := write_bytes bs new_global_data (read_bytes bs global_data_old gsize) in
  let bs := zero_bytes bs global_data_old (global_data_old + global_data_size memory) in
  let memory' := mkMemory (num_bytes_per_page memory) total_page_count (max_page_count memory)
    (heap_base_offset memory) heap_size new_global_data (global_data_size memory)
    (new_global_data + global_data_size memory) (u32 total_size) new_memory
    (heap_handle memory + (new_memory - self_addr memory)) bs in
  let module := set_default_memory (Some memory') module in
  let module := set_current_module_info
                  (set_memory_consumption (u32 total_size) info) module in
  Ok (true, module, w)
  end.

End Operations.

(** ** Bytes *)

Lemma mem_byte_write_bytes bs a l k :
  mem_byte (write_bytes bs a l) k =
    if (a <=? k) && (k <? a + Z.of_nat (length l))
    then default 0 (l !! Z.to_nat (k - a)) else mem_byte bs k.
Proof.
  revert bs a. induction l as [|b l IH]; intros bs a; cbn [write_bytes length].
  - zcmp; try lia; done.
  - rewrite IH. unfold mem_byte. zcmp; cbn [andb]; try lia;
      try (rewrite lookup_insert_ne by lia; done).
    + by replace (Z.to_nat (k - a)) with (S (Z.to_nat (k - (a + 1)))) by lia.
    + assert (k = a) as -> by lia. rewrite lookup_insert_eq.
      by replace (Z.to_nat (a - a)) with O by lia.
Qed.

Lemma write_bytes_app bs a l l' :
  write_bytes bs a (l ++ l') = write_bytes (write_bytes bs a l) (a + Z.of_nat (length l)) l'.
Proof.
  revert bs a. induction l as [|b l IH]; intros bs a; cbn [write_bytes app length].
  - f_equal. lia.
  - rewrite IH. f_equal. lia.
Qed.

Lemma length_read_bytes bs a n : length (read_bytes bs a n) = n.
Proof. revert a. induction n; intros; cbn; [done|]. by rewrite IHn. Qed.

Lemma lookup_read_bytes bs a n i :
  (i < n)%nat -> read_bytes bs a n !! i = Some (mem_byte bs (a + Z.of_nat i)).
Proof.
  revert a i. induction n as [|n IH]; intros a i Hi; [lia|].
  destruct i as [|i]; cbn [read_bytes].
  - cbn. do 2 f_equal. lia.
  - cbn [lookup list_lookup]. rewrite IH by lia. do 2 f_equal. lia.
Qed.

Lemma read_bytes_ext bs bs' a n :
  (forall k, a <= k < a + Z.of_nat n -> mem_byte bs k = mem_byte bs' k) ->
  read_bytes bs a n = read_bytes bs' a n.
Proof.
  revert a. induction n as [|n IH]; intros a H; [done|]. cbn [read_bytes].
  rewrite (H a) by lia. f_equal. apply IH. intros. apply H. lia.
Qed.

Lemma read_write_bytes bs a l : read_bytes (write_bytes bs a l) a (length l) = l.
Proof.
  apply list_eq. intros i. destruct (decide (i < length l)%nat).
  - rewrite lookup_read_bytes by done. rewrite mem_byte_write_bytes.
    replace ((a <=? a + Z.of_nat i) && (a + Z.of_nat i <? a + Z.of_nat (length l))) with true
      by (zcmp; cbn; lia).
    replace (Z.to_nat (a + Z.of_nat i - a)) with i by lia.
    destruct (l !! i) eqn:E; [done|]. apply lookup_ge_None in E. lia.
  - rewrite !lookup_ge_None_2; [done|lia|rewrite length_read_bytes; lia].
Qed.

Lemma mem_byte_zero_bytes bs lo hi k :
  mem_byte (zero_bytes bs lo hi) k = if (lo <=? k) && (k <? hi) then 0 else mem_byte bs k.
Proof.
  unfold mem_byte, zero_bytes. destruct ((lo <=? k) && (k <? hi)) eqn:E.
  - rewrite (map_lookup_filter_None_2 _ _ _); [done|]. right. intros v _ Hn. apply Hn.
    apply andb_true_iff in E as [?%Z.leb_le ?%Z.ltb_lt]. lia.
  - destruct (bs !! k) as [v|] eqn:Ek.
    + rewrite (map_lookup_filter_Some_2 _ _ _ _ Ek); [done|].
      intros Hk. zcmp; cbn in E; lia || done.
    + by rewrite (map_lookup_filter_None_2 _ _ _ (or_introl Ek)).
Qed.

Definition bytes_ok (bs : gmap Z Z) : Prop := forall k, is_byte (mem_byte bs k).

Lemma read_bytes_byte bs a n : bytes_ok bs -> Forall is_byte (read_bytes bs a n).
Proof.
  intros H. revert a. induction n as [|n IH]; intros a; cbn; constructor; [apply H|apply IH].
Qed.

Lemma bytes_ok_write bs a l : bytes_ok bs -> Forall is_byte l -> bytes_ok (write_bytes bs a l).
Proof.
  intros H Hl k. rewrite mem_byte_write_bytes. destruct (_ && _); [|apply H].
  destruct (l !! _) eqn:E; [|by split]. by eapply Forall_lookup_1.
Qed.

Lemma bytes_ok_empty : bytes_ok ∅.
Proof. intros k. unfold mem_byte. rewrite lookup_empty. by split. Qed.

(** A concrete platform: a clock that counts its readings and is never 0, an
    allocator that always succeeds in place, offsets of a 64-bit target. *)
Definition sample_platform (no_aerogel : bool) : Platform := {|
  EVAL_NO_AEROGEL := no_aerogel;
  BUILD_TARGET_X86 := false;
  os_clock := fun n => Z.of_nat n mod 2 ^ 30 + 1;
  os_malloc := fun n size => 4096 + 65536 * Z.of_nat n;
  os_realloc := fun n p size => p;
  offsetof_base_addr := 64;
  offsetof_lp := 72;
  sizeof_branch_block := 24;
  nan_result := fun w _ => 2 ^ (w - 2)
|}.
Definition sample_world : World := mkWorld 0 0 0 0 0 [].

(** ** Well-formed memory instances *)

Section Wf.
Context `{Platform}.

Definition heap_size (m : WASMMemoryInstance) : Z := memory_data m.
Definition linear_size (m : WASMMemoryInstance) : Z := num_bytes_per_page m * cur_page_count m.

(** The layout [base_addr | heap | linear memory | globals]. *)
Record mem_wf (m : WASMMemoryInstance) : Prop := {
  wf_bpp : 0 <= num_bytes_per_page m < 2 ^ 32;
  wf_pages : 0 <= cur_page_count m < 2 ^ 32;
  wf_max : max_page_count m < 2 ^ 32;
  wf_heap : 0 <= heap_size m < 2 ^ 31;
  wf_heap_base : heap_base_offset m = - heap_size m;
  wf_globals : 0 <= global_data_size m;
  wf_global_data : global_data m = heap_size m + linear_size m;
  wf_end : end_addr m = global_data m + global_data_size m;
  wf_total : total_size m = offsetof_base_addr + end_addr m;
  wf_total_max : total_size m < UINT32_MAX;
  wf_offset : 0 <= offsetof_base_addr;
  wf_bytes : bytes_ok (mem_bytes m)
}.

(** What the application heap's migration may do. *)
Definition migrates_heap_only (heap_migrate : Z -> gmap Z Z -> gmap Z Z) (heap : Z) : Prop :=
  forall d bs k, (bytes_ok bs -> is_byte (mem_byte (heap_migrate d bs) k)) /\
    (~ (0 <= k < heap) -> mem_byte (heap_migrate d bs) k = mem_byte bs k).

End Wf.

(** ** Memory growth *)

Section Enlarge.
Context `{Platform} (safe_allocation : Z -> Z -> World -> Z * World)
  (heap_migrate : Z -> gmap Z Z -> gmap Z Z).

(** The instance a successful growth to [pages] pages installs at [self]. *)
Definition grown_memory (m : WASMMemoryInstance) (pages self : Z) : WASMMemoryInstance :=
  let new_global := heap_size m + num_bytes_per_page m * pages in
  let total := offsetof_base_addr + new_global + global_data_size m in
  let bs := zero_bytes (mem_bytes m) (end_addr m) (total - offsetof_base_addr) in
  let bs := heap_migrate (self - self_addr m) bs in
  let old_global := global_data m in
  let bs := write_bytes bs new_global
              (read_bytes bs old_global (Z.to_nat (global_data_size m))) in
  let bs := zero_bytes bs old_global (old_global + global_data_size m) in
  mkMemory (num_bytes_per_page m) pages (max_page_count m) (heap_base_offset m) (heap_size m)
    new_global (global_data_size m) (new_global + global_data_size m) total self
    (heap_handle m + (self - self_addr m)) bs.

Lemma requested_total_no_wrap m pages :
  mem_wf m -> 0 <= pages < 2 ^ 32 ->
  u64 (offsetof_base_addr + memory_data m + num_bytes_per_page m * pages + global_data_size m) =
    offsetof_base_addr + memory_data m + num_bytes_per_page m * pages + global_data_size m.
Proof.
  intros [? ? ? ? ? ? Hg He Ht ? ? ?] ?. apply uwrap_id. unfold in_u, heap_size, linear_size in *.
  assert (0 <= num_bytes_per_page m * pages <= (2 ^ 32 - 1) * (2 ^ 32 - 1)) by nia.
  assert (0 <= num_bytes_per_page m * cur_page_count m) by nia. lia.
Qed.

(** What a growth that returned [true] did. *)
Lemma enlarge_success module inc w module' w' m :
  default_memory module = Some m -> mem_wf m -> 0 < inc < 2 ^ 32 ->
  wasm_enlarge_memory safe_allocation heap_migrate module inc w = Ok (true, module', w') ->
  exists info self, current_module_info module = Ok info /\
    let m' := grown_memory m (cur_page_count m + inc) self in
    cur_page_count m + inc <= max_page_count m /\ total_size m' < UINT32_MAX /\
    module' = set_current_module_info (set_memory_consumption (total_size m') info)
                (set_default_memory (Some m') module).
Proof.
  intros Hm Hwf Hinc. pose proof Hwf as [? Hp ? ? ? ? Hg He Ht ? ? ?].
  unfold wasm_enlarge_memory. rewrite Hm. intros E.
  destruct (current_module_info module) as [info| |] eqn:Ei; [|done..]. cbn [res_bind] in E.
  destruct (inc <=? 0) eqn:E0; [lia|]. clear E0.
  assert (0 <= u32 (inc + cur_page_count m) < 2 ^ 32) as Hpg by (by apply uwrap_range).
  rewrite (requested_total_no_wrap m _ Hwf Hpg) in E.
  destruct (memory_consumption info <? _); [done|].
  destruct (u32 (inc + cur_page_count m) <? cur_page_count m) eqn:E1; [done|].
  destruct (max_page_count m <? u32 (inc + cur_page_count m)) eqn:E2; [done|].
  cbn [orb] in E.
  assert (u32 (inc + cur_page_count m) = cur_page_count m + inc) as Hpe.
  { destruct (Z.ltb_spec (inc + cur_page_count m) (2 ^ 32)).
    - rewrite uwrap_id by (unfold in_u; lia). lia.
    - exfalso. apply Z.ltb_ge in E1. unfold uwrap in E1.
      rewrite (Z.mod_eq (inc + cur_page_count m) (2 ^ 32)) in E1 by lia.
      assert ((inc + cur_page_count m) / 2 ^ 32 = 1) as Hq by (symmetry; apply Z.div_unique with
        (inc + cur_page_count m - 2 ^ 32); lia). lia. }
  rewrite Hpe in *. destruct (UINT32_MAX <=? _) eqn:E3; [done|].
  destruct (wasm_runtime_realloc _ _ _) as [p1 w1].
  destruct (if p1 =? 0 then _ else _) as [p2 w2].
  destruct (p2 =? 0); [done|].
  destruct (check_illegal_memory_boundary _ _ _) as [legal w3]. destruct legal; cbn [negb] in E.
  2:{ destruct (safe_allocation _ _ _) as [q w4]. by destruct (_ || _). }
  apply Z.ltb_ge in E2. apply Z.leb_gt in E3. unfold linear_size, heap_size in *.
  assert (0 <= num_bytes_per_page m * (cur_page_count m + inc)) by nia.
  exists info, p2. split; [done|]. cbn zeta.
  assert (Htot : total_size (grown_memory m (cur_page_count m + inc) p2) =
    offsetof_base_addr + memory_data m + num_bytes_per_page m * (cur_page_count m + inc)
      + global_data_size m) by (cbn; unfold heap_size; lia).
  split; [lia|]. split; [rewrite Htot; lia|].
  rewrite (uwrap_id 32) in E by (unfold in_u; lia). rewrite Htot.
  unfold grown_memory, heap_size in *. rewrite Hg, (Z.add_assoc offsetof_base_addr).
  by inversion E.
Qed.

Lemma grown_bytes m inc self k :
  mem_wf m -> 0 < inc -> global_data_size m <= num_bytes_per_page m * inc ->
  migrates_heap_only heap_migrate (heap_size m) -> heap_size m <= k ->
  let m' := grown_memory m (cur_page_count m + inc) self in
  mem_byte (mem_bytes m') k =
    if k <? global_data m then mem_byte (mem_bytes m) k
    else if (k <? global_data m') || (end_addr m' <=? k)
    then (if k <? end_addr m' then 0 else mem_byte (mem_bytes m) k)
    else mem_byte (mem_bytes m) (k - global_data m' + global_data m).
Proof.
  intros [? ? ? Hh ? ? Hg He Ht ? ? ?] Hi Hs Hmig Hk. cbn. unfold heap_size, linear_size in *.
  set (N := num_bytes_per_page m * (cur_page_count m + inc)) in *.
  set (B := num_bytes_per_page m * cur_page_count m) in *.
  assert (HN : N = B + num_bytes_per_page m * inc) by (unfold N, B; lia).
  assert (HB : 0 <= B) by (unfold B; nia).
  rewrite mem_byte_zero_bytes, mem_byte_write_bytes, length_read_bytes, Z2Nat.id by lia.
  destruct (Z.leb_spec (memory_data m + N) k); cbn [andb].
  - destruct (Z.ltb_spec k (memory_data m + N + global_data_size m)).
    + rewrite lookup_read_bytes by lia. cbn [default].
      rewrite (proj2 (Hmig _ _ _)) by lia. rewrite mem_byte_zero_bytes.
      rewrite Z2Nat.id by lia. unfold id. zcmp; cbn [andb orb]; try lia. f_equal. lia.
    + rewrite (proj2 (Hmig _ _ _)) by lia. rewrite mem_byte_zero_bytes.
      zcmp; cbn [andb orb]; try lia; done.
  - rewrite (proj2 (Hmig _ _ _)) by lia. rewrite mem_byte_zero_bytes.
    zcmp; cbn [andb orb]; try lia; done.
Qed.

Lemma bytes_ok_zero bs lo hi : bytes_ok bs -> bytes_ok (zero_bytes bs lo hi).
Proof. intros Hb k. rewrite mem_byte_zero_bytes. destruct (_ && _); [by split|apply Hb]. Qed.

Lemma grown_wf m inc self :
  mem_wf m -> 0 < inc < 2 ^ 32 -> migrates_heap_only heap_migrate (heap_size m) ->
  cur_page_count m + inc <= max_page_count m ->
  total_size (grown_memory m (cur_page_count m + inc) self) < UINT32_MAX ->
  mem_wf (grown_memory m (cur_page_count m + inc) self).
Proof.
  intros [? ? ? ? ? ? Hg He Ht ? ? Hb] ? Hmig ? Htot. cbn in Htot. unfold heap_size in *.
  constructor; cbn; unfold heap_size, linear_size in *; cbn; try lia.
  apply bytes_ok_zero. assert (Hm : bytes_ok (heap_migrate (self - self_addr m)
    (zero_bytes (mem_bytes m) (end_addr m) (offsetof_base_addr + (memory_data m
      + num_bytes_per_page m * (cur_page_count m + inc)) + global_data_size m
      - offsetof_base_addr)))).
  { intros k. apply (proj1 (Hmig _ _ _)). by apply bytes_ok_zero. }
  apply bytes_ok_write; [done|]. by apply read_bytes_byte.
Qed.

(** C18: growing the memory by [inc] pages.  When [wasm_enlarge_memory]
    returns true the new instance is well formed, has [inc] more pages and
    no more than its maximum; the bytes of the linear memory are kept, the
    new pages - the place where the globals were included - read as zero,
    and every global has its value at its new address.  The globals must
    fit in the added pages: otherwise the code zeroes part of the copy. *)
Theorem enlarge_memory_correct module inc w module' w' m :
  default_memory module = Some m -> mem_wf m -> 0 < inc < 2 ^ 32 ->
  global_data_size m <= num_bytes_per_page m * inc ->
  migrates_heap_only heap_migrate (heap_size m) ->
  wasm_enlarge_memory safe_allocation heap_migrate module inc w = Ok (true, module', w') ->
  exists m', default_memory module' = Some m' /\ mem_wf m' /\
    cur_page_count m' = cur_page_count m + inc /\ cur_page_count m' <= max_page_count m /\
    heap_size m' = heap_size m /\
    (forall k, heap_size m <= k < global_data m ->
       mem_byte (mem_bytes m') k = mem_byte (mem_bytes m) k) /\
    (forall k, global_data m <= k < global_data m' -> mem_byte (mem_bytes m') k = 0) /\
    (forall i, 0 <= i < global_data_size m ->
       mem_byte (mem_bytes m') (global_data m' + i) = mem_byte (mem_bytes m) (global_data m + i)).
Proof.
  intros Hm Hwf Hinc Hs Hmig E.
  destruct (enlarge_success _ _ _ _ _ _ Hm Hwf Hinc E) as (info & self & _ & Hmax & Htot & ->).
  exists (grown_memory m (cur_page_count m + inc) self).
  split; [unfold set_current_module_info; by destruct (access_control _)|].
  split; [by apply grown_wf|]. do 3 (split; [done|]).
  pose proof Hwf as [? ? ? ? ? ? Hg He ? ? ? ?]. unfold heap_size, linear_size in *.
  pose proof (grown_bytes m inc self) as Hk. unfold heap_size in Hk.
  assert (0 <= num_bytes_per_page m * cur_page_count m) by nia.
  repeat split; intros.
  - rewrite Hk by (done || lia). zcmp; lia || done.
  - rewrite Hk by (done || lia). cbn in *. unfold heap_size in *.
    zcmp; cbn [orb]; lia || done.
  - rewrite Hk by (cbn; unfold heap_size; done || nia). cbn. unfold heap_size.
    zcmp; cbn [orb]; try lia; try nia. f_equal. lia.
Qed.

(** C31: the module's own growth uses up its budget: after a successful
    growth the access control table records the size reached as the limit,
    and every further growth (of a memory with non-empty pages, to a size
    that fits in 32 bits) is refused, whatever the limit was. *)
Theorem second_growth_denied module inc inc2 w module' w' m m' :
  default_memory module = Some m -> mem_wf m -> 0 < inc < 2 ^ 32 ->
  wasm_enlarge_memory safe_allocation heap_migrate module inc w = Ok (true, module', w') ->
  default_memory module' = Some m' -> 0 < num_bytes_per_page m -> 0 < inc2 ->
  total_size m' + num_bytes_per_page m * inc2 < 2 ^ 32 ->
  wasm_enlarge_memory safe_allocation heap_migrate module' inc2 w' =
    Ok (false, wasm_set_exception
          (Some "fail to enlarge memory because of access memory size."%string) module', w').
Proof.
  intros Hm Hwf Hinc E Hm' Hb Hi2 Ht2.
  destruct (enlarge_success _ _ _ _ _ _ Hm Hwf Hinc E) as (info & self & Ei & Hmax & Htot & ->).
  pose proof Hwf as [? ? ? ? ? ? Hg He ? ? ? ?]. unfold heap_size, linear_size in *.
  unfold current_module_info in Ei. destruct (access_control module) as [ac|] eqn:Eac; [|done].
  destruct (module_info ac !! module_index ac) as [i|] eqn:El; [|done]. simplify_eq.
  unfold set_current_module_info in *. cbn in Hm'. rewrite Eac in *. cbn in Hm'. simplify_eq.
  cbn in Ht2, Htot. unfold heap_size in *.
  assert (0 <= num_bytes_per_page m * cur_page_count m) by nia.
  assert (inc2 < 2 ^ 32) by nia. assert (cur_page_count m + inc + inc2 < 2 ^ 32) by nia.
  unfold wasm_enlarge_memory. cbn. rewrite Eac. cbn. unfold current_module_info, heap_size. cbn.
  rewrite list_lookup_insert_eq by (by eapply lookup_lt_Some). cbn.
  destruct (inc2 <=? 0) eqn:E0; [lia|]. clear E0.
  rewrite (uwrap_id 32 (inc2 + _)) by (unfold in_u; lia).
  rewrite (uwrap_id 64) by (unfold in_u; nia). rewrite (uwrap_id 32) by (unfold in_u; nia).
  destruct (_ <? _) eqn:E1; [done|]. exfalso. nia.
Qed.

End Enlarge.

(** A memory of one 32-byte page, a heap of 16 bytes and four bytes of
    globals. *)
Definition sample_memory : WASMMemoryInstance :=
  mkMemory 32 1 3 (-16) 16 48 4 52 116 4096 4100 (write_bytes ∅ 40 [1; 2; 3; 4; 5; 6; 7; 8; 9; 10; 11; 12]).
Definition sample_access_control : AccessControl :=
  mkAccessControl [mkAccessControlModule "app" [] 0 1000 200] 1 0 1.
Definition sample_module : WASMModuleInstance :=
  mkModuleInstance (Some sample_memory) None [] [] [] 0 [] None (Some sample_access_control) 0 0 0.
Definition sample_growth : res (bool * WASMModuleInstance * World) :=
  wasm_enlarge_memory (H:=sample_platform false) (fun _ _ w => (0, w)) (fun _ b => b)
    sample_module 1 sample_world.
Definition sample_grown : WASMModuleInstance :=
  match sample_growth with Ok (_, m, _) => m | _ => sample_module end.
Definition sample_grown_world : World :=
  match sample_growth with Ok (_, _, w) => w | _ => sample_world end.

Lemma sample_memory_wf b : mem_wf (H:=sample_platform b) sample_memory.
Proof.
  constructor; try (vm_compute; split; congruence); try (vm_compute; congruence);
    try (vm_compute; reflexivity).
  apply bytes_ok_write; [apply bytes_ok_empty|]. repeat constructor; vm_compute; congruence.
Qed.

Lemma enlarge_memory_correct_witness :
  exists m', default_memory sample_grown = Some m' /\ cur_page_count m' = 2 /\
    mem_byte (mem_bytes m') (global_data m' + 1) = 10.
Proof.
  destruct (enlarge_memory_correct (H:=sample_platform false) (fun _ _ w => (0, w)) (fun _ b => b)
    sample_module 1 sample_world sample_grown sample_grown_world sample_memory)
    as (m' & Hm' & _ & Hp & _ & _ & _ & _ & Hg).
  - reflexivity.
  - apply sample_memory_wf.
  - lia.
  - vm_compute. congruence.
  - intros d bs k. split; [|done]. intros Hb. apply Hb.
  - vm_compute. reflexivity.
  - exists m'. split; [done|]. split; [by rewrite Hp|]. by rewrite (Hg 1) by (vm_compute; split; congruence).
Defined.

Lemma second_growth_denied_witness :
  exists m', wasm_enlarge_memory (H:=sample_platform false) (fun _ _ w => (0, w)) (fun _ b => b)
    sample_grown 1 sample_grown_world = Ok (false, m', sample_grown_world).
Proof.
  eexists. eapply (second_growth_denied (H:=sample_platform false) (fun _ _ w => (0, w)) (fun _ b => b)
    sample_module 1 1 sample_world sample_grown sample_grown_world sample_memory).
  - reflexivity.
  - apply sample_memory_wf.
  - lia.
  - vm_compute. reflexivity.
  - vm_compute. reflexivity.
  - vm_compute. reflexivity.
  - lia.
  - vm_compute. reflexivity.
Defined.
