(* ===== verification/Machine.v ===== *)
(** * The interpreter's machine state

    The local variables of [wasm_interp_call_func_bytecode]
    ([core/iwasm/interpreter/wasm_interp_classic.c]), the execution
    environment of [core/iwasm/common/wasm_exec_env.h] they point into, and
    the macros the opcode handlers are written with.

    Pointers are [Z] addresses.  [cells] holds the 32-bit cells of the WASM
    stack by address; the headers of the frames lie in the same stack and
    are kept apart in [frames], the block stack of a frame as a list, top
    first.  The code checks neither the operand stack nor the block stack
    in release builds; here a block stack operation outside the frame's
    blocks is undefined behaviour, and so is every access to the memory
    instance outside the block allocated for it. *)

From S2P Require Import Prelude Leb Opcode BlockAddr Instance.
#[local] Open Scope Z_scope.

(** ** State *)

Record WASMBranchBlock := mkBranchBlock {
  block_type : Z;
  return_type : Z;
  target_addr : Z;
  block_frame_sp : Z
}.

(** [fr_block_num] is [csp_boundary - csp_bottom]. *)
Record WASMInterpFrame := mkFrame {
  fr_prev_frame : Z;
  fr_function : option nat;
  fr_ip : Z;
  fr_sp : Z;
  fr_csp : list WASMBranchBlock;
  fr_block_num : Z
}.

Definition set_fr_prev_frame (v : Z) (r : WASMInterpFrame) : WASMInterpFrame :=
  mkFrame v (fr_function r) (fr_ip r) (fr_sp r) (fr_csp r) (fr_block_num r).
Definition set_fr_function (v : option nat) (r : WASMInterpFrame) : WASMInterpFrame :=
  mkFrame (fr_prev_frame r) v (fr_ip r) (fr_sp r) (fr_csp r) (fr_block_num r).
Definition set_fr_ip (v : Z) (r : WASMInterpFrame) : WASMInterpFrame :=
  mkFrame (fr_prev_frame r) (fr_function r) v (fr_sp r) (fr_csp r) (fr_block_num r).
Definition set_fr_sp (v : Z) (r : WASMInterpFrame) : WASMInterpFrame :=
  mkFrame (fr_prev_frame r) (fr_function r) (fr_ip r) v (fr_csp r) (fr_block_num r).
Definition set_fr_csp (v : list WASMBranchBlock) (r : WASMInterpFrame) : WASMInterpFrame :=
  mkFrame (fr_prev_frame r) (fr_function r) (fr_ip r) (fr_sp r) v (fr_block_num r).
Definition set_fr_block_num (v : Z) (r : WASMInterpFrame) : WASMInterpFrame :=
  mkFrame (fr_prev_frame r) (fr_function r) (fr_ip r) (fr_sp r) (fr_csp r) v.

Record WASMExecEnv := mkExecEnv {
  cells : gmap Z Z;
  frames : gmap Z WASMInterpFrame;
  stack_bottom : Z;
  stack_top : Z;
  top_boundary : Z;
  cur_frame : Z;
  block_addr_cache : list (BlockAddr * BlockAddr)
}.

Definition set_cells (v : gmap Z Z) (r : WASMExecEnv) : WASMExecEnv :=
  mkExecEnv v (frames r) (stack_bottom r) (stack_top r) (top_boundary r) (cur_frame r)
    (block_addr_cache r).
Definition set_frames (v : gmap Z WASMInterpFrame) (r : WASMExecEnv) : WASMExecEnv :=
  mkExecEnv (cells r) v (stack_bottom r) (stack_top r) (top_boundary r) (cur_frame r)
    (block_addr_cache r).
Definition set_stack_bottom (v : Z) (r : WASMExecEnv) : WASMExecEnv :=
  mkExecEnv (cells r) (frames r) v (stack_top r) (top_boundary r) (cur_frame r)
    (block_addr_cache r).
Definition set_stack_top (v : Z) (r : WASMExecEnv) : WASMExecEnv :=
  mkExecEnv (cells r) (frames r) (stack_bottom r) v (top_boundary r) (cur_frame r)
    (block_addr_cache r).
Definition set_top_boundary (v : Z) (r : WASMExecEnv) : WASMExecEnv :=
  mkExecEnv (cells r) (frames r) (stack_bottom r) (stack_top r) v (cur_frame r)
    (block_addr_cache r).
Definition set_cur_frame (v : Z) (r : WASMExecEnv) : WASMExecEnv :=
  mkExecEnv (cells r) (frames r) (stack_bottom r) (stack_top r) (top_boundary r) v
    (block_addr_cache r).
Definition set_block_addr_cache (v : list (BlockAddr * BlockAddr)) (r : WASMExecEnv) : WASMExecEnv :=
  mkExecEnv (cells r) (frames r) (stack_bottom r) (stack_top r) (top_boundary r)
    (cur_frame r) v.

(** The registers; [memory] is always [module->default_memory], and
    [cached_global_data] is the absolute address in the variable
    [global_data]. *)
Record St := mkSt {
  frame : Z;
  frame_ip : Z;
  frame_lp : Z;
  frame_sp : Z;
  frame_csp : list WASMBranchBlock;
  cur_func : nat;
  prev_frame : Z;
  total_mem_size : Z;
  cached_global_data : Z;
  prev_timestamp : Z;
  instruction_start_time : Z;
  exec_env : WASMExecEnv;
  module : WASMModuleInstance;
  world : World
}.

Definition set_frame (v : Z) (r : St) : St :=
  mkSt v (frame_ip r) (frame_lp r) (frame_sp r) (frame_csp r) (cur_func r) (prev_frame r)
    (total_mem_size r) (cached_global_data r) (prev_timestamp r) (instruction_start_time r)
    (exec_env r) (module r) (world r).
Definition set_frame_ip (v : Z) (r : St) : St :=
  mkSt (frame r) v (frame_lp r) (frame_sp r) (frame_csp r) (cur_func r) (prev_frame r)
    (total_mem_size r) (cached_global_data r) (prev_timestamp r) (instruction_start_time r)
    (exec_env r) (module r) (world r).
Definition set_frame_lp (v : Z) (r : St) : St :=
  mkSt (frame r) (frame_ip r) v (frame_sp r) (frame_csp r) (cur_func r) (prev_frame r)
    (total_mem_size r) (cached_global_data r) (prev_timestamp r) (instruction_start_time r)
    (exec_env r) (module r) (world r).
Definition set_frame_sp (v : Z) (r : St) : St :=
  mkSt (frame r) (frame_ip r) (frame_lp r) v (frame_csp r) (cur_func r) (prev_frame r)
    (total_mem_size r) (cached_global_data r) (prev_timestamp r) (instruction_start_time r)
    (exec_env r) (module r) (world r).
Definition set_frame_csp (v : list WASMBranchBlock) (r : St) : St :=
  mkSt (frame r) (frame_ip r) (frame_lp r) (frame_sp r) v (cur_func r) (prev_frame r)
    (total_mem_size r) (cached_global_data r) (prev_timestamp r) (instruction_start_time r)
    (exec_env r) (module r) (world r).
Definition set_cur_func (v : nat) (r : St) : St :=
  mkSt (frame r) (frame_ip r) (frame_lp r) (frame_sp r) (frame_csp r) v (prev_frame r)
    (total_mem_size r) (cached_global_data r) (prev_timestamp r) (instruction_start_time r)
    (exec_env r) (module r) (world r).
Definition set_prev_frame (v : Z) (r : St) : St :=
  mkSt (frame r) (frame_ip r) (frame_lp r) (frame_sp r) (frame_csp r) (cur_func r) v
    (total_mem_size r) (cached_global_data r) (prev_timestamp r) (instruction_start_time r)
    (exec_env r) (module r) (world r).
Definition set_total_mem_size (v : Z) (r : St) : St :=
  mkSt (frame r) (frame_ip r) (frame_lp r) (frame_sp r) (frame_csp r) (cur_func r)
    (prev_frame r) v (cached_global_data r) (prev_timestamp r) (instruction_start_time r)
    (exec_env r) (module r) (world r).
Definition set_cached_global_data (v : Z) (r : St) : St :=
  mkSt (frame r) (frame_ip r) (frame_lp r) (frame_sp r) (frame_csp r) (cur_func r)
    (prev_frame r) (total_mem_size r) v (prev_timestamp r) (instruction_start_time r)
    (exec_env r) (module r) (world r).
Definition set_prev_timestamp (v : Z) (r : St) : St :=
  mkSt (frame r) (frame_ip r) (frame_lp r) (frame_sp r) (frame_csp r) (cur_func r)
    (prev_frame r) (total_mem_size r) (cached_global_data r) v (instruction_start_time r)
    (exec_env r) (module r) (world r).
Definition set_instruction_start_time (v : Z) (r : St) : St :=
  mkSt (frame r) (frame_ip r) (frame_lp r) (frame_sp r) (frame_csp r) (cur_func r)
    (prev_frame r) (total_mem_size r) (cached_global_data r) (prev_timestamp r) v (exec_env r)
    (module r) (world r).
Definition set_exec_env (v : WASMExecEnv) (r : St) : St :=
  mkSt (frame r) (frame_ip r) (frame_lp r) (frame_sp r) (frame_csp r) (cur_func r)
    (prev_frame r) (total_mem_size r) (cached_global_data r) (prev_timestamp r)
    (instruction_start_time r) v (module r) (world r).
Definition set_module (v : WASMModuleInstance) (r : St) : St :=
  mkSt (frame r) (frame_ip r) (frame_lp r) (frame_sp r) (frame_csp r) (cur_func r)
    (prev_frame r) (total_mem_size r) (cached_global_data r) (prev_timestamp r)
    (instruction_start_time r) (exec_env r) v (world r).
Definition set_world (v : World) (r : St) : St :=
  mkSt (frame r) (frame_ip r) (frame_lp r) (frame_sp r) (frame_csp r) (cur_func r)
    (prev_frame r) (total_mem_size r) (cached_global_data r) (prev_timestamp r)
    (instruction_start_time r) (exec_env r) (module r) v.

(** ** State monad

    [None] is undefined behaviour. *)

Definition M (A : Type) : Type := St -> option (A * St).
Definition mret {A} (a : A) : M A := fun s => Some (a, s).
Definition mundef {A} : M A := fun _ => None.
Definition mbind {A B} (m : M A) (k : A -> M B) : M B := fun s =>
  match m s with Some (a, s') => k a s' | None => None end.
Notation "'let*' x := m 'in' k" := (mbind m (fun x => k))
  (at level 10, x name, m at level 100, k at level 200) : res_scope.
Notation "'let*' ' p := m 'in' k" := (mbind m (fun x => match x with p => k end))
  (at level 10, p strict pattern, m at level 100, k at level 200) : res_scope.
Notation "'do*' m 'in' k" := (mbind m (fun _ => k))
  (at level 10, m at level 100, k at level 200) : res_scope.

Definition get {A} (f : St -> A) : M A := fun s => Some (f s, s).
Definition modify (f : St -> St) : M unit := fun s => Some (tt, f s).
Definition lift {A} (r : option A) : M A := fun s =>
  match r with Some a => Some (a, s) | None => None end.

(** Where a handler's [goto]s lead; [op_end] is [HANDLE_OP_END ()], [fetch]
    is [FETCH_OPCODE_AND_DISPATCH ()], [returned] is [return]. *)
Inductive label :=
  | op_end | fetch | got_exception | out_of_bounds | return_func
  | call_func_from_interp | call_func_from_entry | returned.

#[export] Instance label_eq_dec : EqDecision label.
Proof. solve_decision. Defined.

Section Machine.
Context `{Platform}.

(** [wasm_set_exception (module, msg); goto got_exception;] *)
Definition throw (msg : string) : M label :=
  do* modify (fun s => set_module (wasm_set_exception (Some msg) (module s)) s) in
  mret got_exception.

(** A computation of the numeric components. *)
Definition try {A} (r : res A) (k : A -> M label) : M label :=
  match r with Ok a => k a | Err e => throw e | Undef => mundef end.

(** ** Stack cells *)

Definition cell_at (s : St) (p : Z) : Z := default 0 (cells (exec_env s) !! p).
Definition upd_env (f : WASMExecEnv -> WASMExecEnv) : St -> St := fun s =>
  set_exec_env (f (exec_env s)) s.
Definition put_cell (p v : Z) (s : St) : St :=
  upd_env (fun e => set_cells (<[p := u32 v]> (cells e)) e) s.

Definition read_cell (p : Z) : M Z := get (fun s => cell_at s p).
Definition write_cell (p v : Z) : M unit := modify (put_cell p v).

(** [GET_I64_FROM_ADDR], [PUT_I64_TO_ADDR] on stack cells. *)
Definition i64_at (s : St) (p : Z) : Z := cell_at s p + 2 ^ 32 * cell_at s (p + 4).
Definition GET_I64_FROM_ADDR (p : Z) : M Z := get (fun s => i64_at s p).
Definition PUT_I64_TO_ADDR (p v : Z) : M unit :=
  modify (fun s => put_cell (p + 4) (Z.shiftr (u64 v) 32) (put_cell p v s)).

Definition move_sp (n : Z) : M unit := modify (fun s => set_frame_sp (frame_sp s + 4 * n) s).

Definition PUSH_I32 (v : Z) : M unit :=
  let* sp := get frame_sp in do* write_cell sp v in move_sp 1.
Definition PUSH_I64 (v : Z) : M unit :=
  let* sp := get frame_sp in do* PUT_I64_TO_ADDR sp v in move_sp 2.
Definition POP_I32 : M Z :=
  do* move_sp (-1) in let* sp := get frame_sp in read_cell sp.
Definition POP_I64 : M Z :=
  do* move_sp (-2) in let* sp := get frame_sp in GET_I64_FROM_ADDR sp.
Definition POP (n : Z) : M unit := move_sp (- n).

(** [word_copy]: cell by cell, ascending. *)
Fixpoint word_copy (dest src : Z) (num : nat) : M unit :=
  match num with
  | O => mret tt
  | S n => let* v := read_cell src in do* write_cell dest v in
           word_copy (dest + 4) (src + 4) n
  end.

(** ** Bytecode *)

(** The address of the local variable [opcode_IMPDEP]. *)
Definition impdep_addr : Z := -1.

Definition code_at (s : St) (ip : Z) : list Z :=
  if ip =? impdep_addr then [opcode_val WASM_OP_IMPDEP]
  else if ip <? code_base (module s) then []
  else drop (Z.to_nat (ip - code_base (module s))) (mod_code (module s)).

Definition set_ip (ip : Z) : M unit := modify (set_frame_ip ip).

(** [*frame_ip++] *)
Definition next_byte : M Z := fun s =>
  match code_at s (frame_ip s) with
  | [] => None
  | b :: _ => Some (b, set_frame_ip (frame_ip s + 1) s)
  end.

(** The [read_leb_*(frame_ip, frame_ip_end, x)] macros. *)
Definition read_imm (rd : list Z -> res (Z * Z)) : M Z := fun s =>
  match rd (code_at s (frame_ip s)) with
  | Ok (v, n) => Some (v, set_frame_ip (frame_ip s + n) s)
  | _ => None
  end.
Definition read_u32 : M Z := read_imm Interp.read_leb_uint32.
Definition read_s32 : M Z := read_imm Interp.read_leb_int32.
Definition read_s64 : M Z := read_imm Interp.read_leb_int64.

(** ** Frames *)

Definition upd_frame (p : Z) (f : WASMInterpFrame -> WASMInterpFrame) : M unit :=
  modify (upd_env (fun e => set_frames (alter f p (frames e)) e)).
Definition get_frame (p : Z) : M WASMInterpFrame := fun s =>
  match frames (exec_env s) !! p with Some f => Some (f, s) | None => None end.
Definition lp_of (p : Z) : Z := p + offsetof_lp.

Definition get_func (i : nat) : M WASMFunctionInstance := fun s =>
  match functions (module s) !! i with Some f => Some (f, s) | None => None end.

Definition align_uint (v b : Z) : Z := u32 (Z.land (u32 (v + b - 1)) (Z.lnot (b - 1))).
Definition wasm_interp_interp_frame_size (all_cell_num : Z) : Z :=
  align_uint (u32 (offsetof_lp + u32 (all_cell_num * 5))) 4.

(** [wasm_exec_env_alloc_wasm_frame] and the other accessors of the stack. *)
Definition wasm_exec_env_alloc_wasm_frame (e : WASMExecEnv) (size : Z) : option (Z * WASMExecEnv) :=
  let addr := stack_top e in
  if top_boundary e <? addr + u32 (size * 2) then None
  else Some (addr, set_stack_top (stack_top e + size) e).
Definition wasm_exec_env_free_wasm_frame (e : WASMExecEnv) (prev_top : Z) : WASMExecEnv :=
  set_stack_top prev_top e.
Definition wasm_exec_env_set_cur_frame (p : Z) : M unit := modify (upd_env (set_cur_frame p)).

Definition new_frame (prev : Z) : WASMInterpFrame := mkFrame prev None 0 0 [] 0.

(** [ALLOC_FRAME]: [NULL] ([None]) with the exception set when the stack is
    full. *)
Definition ALLOC_FRAME (size prev : Z) : M (option Z) := fun s =>
  match wasm_exec_env_alloc_wasm_frame (exec_env s) size with
  | Some (addr, e) =>
      Some (Some addr, set_exec_env (set_frames (<[addr := new_frame prev]> (frames e)) e) s)
  | None => Some (None, set_module (wasm_set_exception
                (Some "WASM interp failed: stack overflow."%string) (module s)) s)
  end.
Definition FREE_FRAME (p : Z) : M unit :=
  modify (upd_env (fun e => wasm_exec_env_free_wasm_frame e p)).

Definition SYNC_ALL_TO_FRAME : M unit := fun s =>
  upd_frame (frame s) (fun f =>
    mkFrame (fr_prev_frame f) (fr_function f) (frame_ip s) (frame_sp s) (frame_csp s)
      (fr_block_num f)) s.
Definition UPDATE_ALL_FROM_FRAME : M unit :=
  let* p := get frame in let* f := get_frame p in
  modify (fun s => set_frame_sp (fr_sp f) (set_frame_ip (fr_ip f) (set_frame_csp (fr_csp f) s))).
Definition RECOVER_CONTEXT (new : Z) : M unit :=
  let* f := get_frame new in let* fn := lift (fr_function f) in
  modify (fun s => set_frame new (set_cur_func fn (set_prev_frame (fr_prev_frame f)
    (set_frame_ip (fr_ip f) (set_frame_lp (lp_of new) (set_frame_sp (fr_sp f)
    (set_frame_csp (fr_csp f) s))))))).

(** ** Blocks *)

Definition VALUE_TYPE_I32 := 0x7f.
Definition VALUE_TYPE_I64 := 0x7e.
Definition VALUE_TYPE_F32 := 0x7d.
Definition VALUE_TYPE_F64 := 0x7c.
Definition VALUE_TYPE_VOID := 0x40.

(** Cells of a value or block type. *)
Definition is_32 (t : Z) : bool := (t =? VALUE_TYPE_I32) || (t =? VALUE_TYPE_F32).
Definition is_64 (t : Z) : bool := (t =? VALUE_TYPE_I64) || (t =? VALUE_TYPE_F64).

Definition PUSH_CSP (type ret_type target : Z) : M unit :=
  let* p := get frame in let* f := get_frame p in let* csp := get frame_csp in
  if Z.of_nat (length csp) <? fr_block_num f then
    modify (fun s => set_frame_csp (mkBranchBlock type ret_type target (frame_sp s) :: csp) s)
  else mundef.

Definition POP_CSP : M unit :=
  let* csp := get frame_csp in
  match csp with [] => mundef | _ :: r => modify (set_frame_csp r) end.

Definition POP_CSP_N (n : Z) : M unit :=
  let* old := get frame_sp in let* csp := get frame_csp in
  match drop (Z.to_nat n) csp with
  | [] => mundef
  | b :: r =>
      do* modify (fun s => set_frame_csp (b :: r) (set_frame_ip (target_addr b)
                             (set_frame_sp (block_frame_sp b) s))) in
      if is_32 (return_type b) then let* v := read_cell (old - 4) in PUSH_I32 v
      else if is_64 (return_type b) then let* v := GET_I64_FROM_ADDR (old - 8) in PUSH_I64 v
      else mret tt
  end.

(** ** Linear memory *)

Definition get_memory : M WASMMemoryInstance := fun s =>
  match default_memory (module s) with Some m => Some (m, s) | None => None end.

(** Accesses by offset from [base_addr]. *)
Definition in_block (m : WASMMemoryInstance) (off : Z) (n : nat) : bool :=
  (0 <=? off) && (off + Z.of_nat n <=? total_size m - offsetof_base_addr).
Definition load_bytes (off : Z) (n : nat) : M Z :=
  let* m := get_memory in
  if in_block m off n then mret (le_val (read_bytes (mem_bytes m) off n)) else mundef.
Definition store_bytes (off : Z) (n : nat) (v : Z) : M unit :=
  let* m := get_memory in
  if in_block m off n then
    modify (fun s => set_module (set_default_memory (Some
      (set_mem_bytes (write_bytes (mem_bytes m) off (le_bytes n v)) m)) (module s)) s)
  else mundef.

Definition LOAD_SIZE : list Z :=
  [4; 8; 4; 8; 1; 1; 2; 2; 1; 1; 2; 2; 4; 4;
   4; 8; 4; 8; 1; 2; 1; 2; 4].

(** [CHECK_MEMORY_OVERFLOW]: [maddr] as an offset from [base_addr], or
    [goto out_of_bounds]. *)
Definition effective (heap_base_offset addr offset : Z) : Z * Z :=
  let offset1 := s32 (u32 (offset + addr)) in
  (offset1, u32 (u32 offset1 - heap_base_offset)).
Definition load_size (op : WASMOpcode) : Z :=
  default 0 (LOAD_SIZE !! Z.to_nat (opcode_val op - opcode_val WASM_OP_I32_LOAD)).
Definition CHECK_MEMORY_OVERFLOW (op : WASMOpcode) (offset addr : Z) : M (option Z) :=
  let* memory := get (fun s => default_memory (module s)) in
  let* total := get total_mem_size in
  let base := default 0 (heap_base_offset <$> memory) in
  let '(offset1, offset2) := effective base addr offset in
  if offset2 + load_size op <=? total then
    let* m := lift memory in mret (Some (memory_data m + offset1))
  else mret None.

(** ** Metering *)

Definition read_tick : M Z := fun s =>
  let '(t, w) := tick (world s) in Some (t, set_world w s).
Definition start_instruction : M unit :=
  let* t := read_tick in modify (set_instruction_start_time t).

(** [FETCH_OPCODE_AND_DISPATCH]: [None] is [goto got_exception]. *)
Definition FETCH_OPCODE_AND_DISPATCH : M (option WASMOpcode) :=
  let* current_time := read_tick in
  let* prev := get prev_timestamp in
  let* ok := (if 1000000 <? u32 (current_time - prev) then
                do* modify (fun s => set_prev_timestamp current_time (set_module
                      (set_native_execution_time_us 0 (set_wasm_instructions_energy 0 (module s))) s)) in
                mret true
              else fun s =>
                match check_cpu_consumption (module s) (world s) with
                | Ok (true, w) => Some (false, set_module (wasm_set_exception
                      (Some "max mcu power."%string) (module s)) (set_world w s))
                | Ok (false, w) => Some (true, set_world w s)
                | _ => None
                end) in
  if ok then
    let* b := next_byte in
    match dispatch b with Ok op => mret (Some op) | _ => mundef end
  else mret None.

(** [HANDLE_OP_END] up to its [FETCH_OPCODE_AND_DISPATCH]. *)
Definition HANDLE_OP_END : M label :=
  let* start := get instruction_start_time in
  if start =? 0 then throw "failed read time." else
  let* cur_time := read_tick in
  do* modify (fun s => set_instruction_start_time 0 (set_module
        (set_wasm_instructions_energy
           (u32 (wasm_instructions_energy (module s) + u32 (cur_time - start))) (module s)) s)) in
  mret fetch.

End Machine.
