(* ===== verification/Interp.v ===== *)
(** * The bytecode interpreter

    [wasm_interp_call_func_bytecode], [wasm_interp_call_func_native] and
    [wasm_interp_call_wasm] of
    [core/iwasm/interpreter/wasm_interp_classic.c], in the build with
    [WASM_ENABLE_LABELS_AS_VALUES], one definition per opcode handler or
    group of handlers that only differ in the operation. *)

From S2P Require Import Prelude Numeric Leb Opcode BlockAddr Float Instance Machine.
#[local] Open Scope Z_scope.

(** What lies outside these files: [wasm_runtime_invoke_native] (the
    registered native function [cur_func] on the arguments at [lp]: success,
    the cells of [argv_ret], and everything it may have changed), the two
    parts [wasm_enlarge_memory] takes, and the addresses the system
    allocator gives [br_table]'s buffer. *)
Class Natives := {
  invoke_native : WASMFunctionInstance -> Z -> WASMExecEnv -> WASMModuleInstance -> World ->
    option (bool * list Z * WASMExecEnv * WASMModuleInstance * World);
  safe_allocation : Z -> Z -> World -> Z * World;
  heap_migrate : Z -> gmap Z Z -> gmap Z Z
}.

Section Interp.
Context `{Platform} `{Natives}.

(** ** Control instructions *)

(** The two-entry cache line of an address, then the scanner. *)
Definition find_block (block_type : Z) : M (option (Z * Z)) :=
  let* ip := get frame_ip in
  let* cache := get (fun s => block_addr_cache (exec_env s)) in
  match cache !! cache_line ip with
  | None => mundef
  | Some (b0, b1) =>
      if start_addr b0 =? ip then mret (Some (else_addr b0, BlockAddr.end_addr b0))
      else if start_addr b1 =? ip then mret (Some (else_addr b1, BlockAddr.end_addr b1))
      else
        let* buf := get (fun s => code_at s ip) in
        match wasm_loader_find_block_addr cache false ip buf block_type with
        | Ok (e, n, cache') =>
            do* modify (upd_env (set_block_addr_cache cache')) in mret (Some (e, n))
        | Err _ => mret None
        | Undef => mundef
        end
  end.

Definition op_block : M label :=
  let* block_ret_type := next_byte in
  let* r := find_block BLOCK_TYPE_BLOCK in
  match r with
  | None => throw "find block address failed"
  | Some (_, end_addr) =>
      do* PUSH_CSP BLOCK_TYPE_BLOCK block_ret_type end_addr in mret op_end
  end.

Definition op_loop : M label :=
  let* block_ret_type := next_byte in
  let* ip := get frame_ip in
  do* PUSH_CSP BLOCK_TYPE_LOOP block_ret_type ip in
  mret op_end.

Definition op_if : M label :=
  let* block_ret_type := next_byte in
  let* r := find_block BLOCK_TYPE_IF in
  match r with
  | None => throw "find block address failed"
  | Some (else_addr, end_addr) =>
      let* cond := POP_I32 in
      do* PUSH_CSP BLOCK_TYPE_IF block_ret_type end_addr in
      if cond =? 0 then
        if else_addr =? 0 then
          do* POP_CSP in do* set_ip (end_addr + 1) in mret op_end
        else
          do* set_ip (else_addr + 1) in mret op_end
      else mret op_end
  end.

Definition op_else : M label :=
  let* csp := get frame_csp in
  match csp with
  | [] => mundef
  | b :: _ => do* set_ip (target_addr b) in mret op_end
  end.

(** [for (...) *prev_frame->sp++ = frame_sp[i]] *)
Fixpoint copy_results (src : Z) (n : nat) : M unit :=
  match n with
  | O => mret tt
  | S n' =>
      let* p := get prev_frame in
      let* f := get_frame p in
      let* v := read_cell src in
      do* write_cell (fr_sp f) v in
      do* upd_frame p (fun f => set_fr_sp (fr_sp f + 4) f) in
      copy_results (src + 4) n'
  end.

Definition op_return : M label :=
  let* i := get cur_func in let* f := get_func i in
  do* move_sp (- ret_cell_num f) in
  let* sp := get frame_sp in
  do* copy_results sp (Z.to_nat (ret_cell_num f)) in
  mret return_func.

Definition op_endblock : M label :=
  let* csp := get frame_csp in
  if (1 <? length csp)%nat then do* POP_CSP in mret op_end else op_return.

Definition op_br : M label :=
  let* depth := read_u32 in
  do* POP_CSP_N depth in mret op_end.

Definition op_br_if : M label :=
  let* depth := read_u32 in
  let* cond := POP_I32 in
  if cond =? 0 then mret op_end else do* POP_CSP_N depth in mret op_end.

Definition BR_TABLE_TMP_BUF_LEN := 32.

(** [for (i = 0; i < count; i++) read_leb_uint32(..., depths[i]);] - the
    buffer length bounds the iterations. *)
Fixpoint read_depths (fuel : nat) (count : Z) : M (list Z) :=
  if count <=? 0 then mret [] else
  match fuel with
  | O => mundef
  | S f => let* d := read_u32 in let* ds := read_depths f (count - 1) in mret (d :: ds)
  end.

Definition alloc_depths (count : Z) : M bool :=
  if count <=? BR_TABLE_TMP_BUF_LEN then mret true else
  if UINT32_MAX <=? 4 * count then mret false else fun s =>
  let '(p, w) := wasm_runtime_malloc (4 * count) (world s) in
  Some (negb (p =? 0), set_world w s).

Definition op_br_table : M label :=
  let* count := read_u32 in
  let* ok := alloc_depths count in
  if ok then
    let* len := get (fun s => length (code_at s (frame_ip s))) in
    let* depths := read_depths len count in
    let* depth := read_u32 in
    let* didx := POP_I32 in
    let depth := if (0 <=? s32 didx) && (didx <? count)
                 then default depth (depths !! Z.to_nat didx) else depth in
    do* POP_CSP_N depth in mret op_end
  else throw "WASM interp failed: allocate memory failed.".

Definition op_call : M label :=
  let* fidx := read_u32 in
  let* _ := get_func (Z.to_nat fidx) in
  do* modify (set_cur_func (Z.to_nat fidx)) in
  mret call_func_from_interp.

(** [memcmp] over the second type's array, like the source over the count
    of the first; the counts are equal when it is evaluated. *)
Definition wasm_type_equal (type1 type2 : WASMType) : bool :=
  (ty_param_count type1 =? ty_param_count type2)%nat
  && (ty_result_count type1 =? ty_result_count type2)%nat
  && (let n := (ty_param_count type1 + ty_result_count type1)%nat in
      bool_decide (take n (ty_types type1) = take n (ty_types type2))).

Definition get_table : M WASMTableInstance := fun s =>
  match default_table (module s) with Some t => Some (t, s) | None => None end.

Definition op_call_indirect : M label :=
  let* tidx := read_u32 in
  let* types := get (fun s => mod_types (module s)) in
  match types !! Z.to_nat tidx with
  | None => throw "type index is overflow"
  | Some cur_type =>
      do* modify (fun s => set_frame_ip (frame_ip s + 1) s) in
      let* val := POP_I32 in
      let* table := get_table in
      if (s32 val <? 0) || (s32 (tbl_cur_size table) <=? s32 val)
      then throw "undefined element" else
      let* fidx := lift (tbl_elems table !! Z.to_nat val) in
      if fidx =? UINT32_MAX then throw "uninitialized element" else
      let* f := get_func (Z.to_nat fidx) in
      do* modify (set_cur_func (Z.to_nat fidx)) in
      if negb (wasm_type_equal cur_type (func_type f))
      then throw "indirect call type mismatch"
      else mret call_func_from_interp
  end.

(** ** Parametric and variable instructions *)

Definition op_drop (n : Z) : M label := do* move_sp (- n) in mret op_end.

Definition op_select : M label :=
  let* cond := POP_I32 in
  do* move_sp (-1) in
  let* sp := get frame_sp in
  if cond =? 0 then
    let* v := read_cell sp in do* write_cell (sp - 4) v in mret op_end
  else mret op_end.

Definition op_select_64 : M label :=
  let* cond := POP_I32 in
  do* move_sp (-2) in
  let* sp := get frame_sp in
  if cond =? 0 then
    let* v := read_cell sp in do* write_cell (sp - 8) v in
    let* v := read_cell (sp + 4) in do* write_cell (sp - 4) v in mret op_end
  else mret op_end.

(** [GET_LOCAL_INDEX_TYPE_AND_OFFSET]: the local's type and address. *)
Definition GET_LOCAL : M (Z * Z) :=
  let* i := get cur_func in let* f := get_func i in
  let* local_idx := read_u32 in
  let* off := lift (local_offsets f !! Z.to_nat local_idx) in
  let* lp := get frame_lp in
  let* ty := lift (if local_idx <? param_count f then param_types f !! Z.to_nat local_idx
                   else local_types f !! Z.to_nat (local_idx - param_count f)) in
  mret (ty, lp + 4 * off).

Definition op_get_local : M label :=
  let* '(ty, p) := GET_LOCAL in
  if is_32 ty then let* v := read_cell p in do* PUSH_I32 v in mret op_end
  else if is_64 ty then let* v := GET_I64_FROM_ADDR p in do* PUSH_I64 v in mret op_end
  else throw "invalid local type".

Definition op_set_local : M label :=
  let* '(ty, p) := GET_LOCAL in
  if is_32 ty then let* v := POP_I32 in do* write_cell p v in mret op_end
  else if is_64 ty then let* v := POP_I64 in do* PUT_I64_TO_ADDR p v in mret op_end
  else throw "invalid local type".

Definition op_tee_local : M label :=
  let* '(ty, p) := GET_LOCAL in
  let* sp := get frame_sp in
  if is_32 ty then let* v := read_cell (sp - 4) in do* write_cell p v in mret op_end
  else if is_64 ty then
    let* v := GET_I64_FROM_ADDR (sp - 8) in do* PUT_I64_TO_ADDR p v in mret op_end
  else throw "invalid local type".

(** The [_FAST] variants: width and offset in one byte. *)
Definition fast_local : M (bool * Z) :=
  let* b := next_byte in
  let* lp := get frame_lp in
  mret (if Z.land b 0x80 =? 0 then (false, lp + 4 * b) else (true, lp + 4 * Z.land b 0x7f)).

Definition op_get_local_fast : M label :=
  let* '(wide, p) := fast_local in
  if (wide : bool) then let* v := GET_I64_FROM_ADDR p in do* PUSH_I64 v in mret op_end
  else let* v := read_cell p in do* PUSH_I32 v in mret op_end.

Definition op_set_local_fast : M label :=
  let* '(wide, p) := fast_local in
  if (wide : bool) then let* v := POP_I64 in do* PUT_I64_TO_ADDR p v in mret op_end
  else let* v := POP_I32 in do* write_cell p v in mret op_end.

Definition op_tee_local_fast : M label :=
  let* '(wide, p) := fast_local in
  let* sp := get frame_sp in
  if (wide : bool) then
    let* v := GET_I64_FROM_ADDR (sp - 8) in do* PUT_I64_TO_ADDR p v in mret op_end
  else let* v := read_cell (sp - 4) in do* write_cell p v in mret op_end.

(** The global's type and its offset in the memory instance, through the
    cached pointer [global_data]. *)
Definition GET_GLOBAL : M (Z * Z) :=
  let* global_idx := read_u32 in
  let* g := get (fun s => globals (module s) !! Z.to_nat global_idx) in
  let* g := lift g in
  let* base := get cached_global_data in
  let* m := get_memory in
  mret (gl_type g, base - (self_addr m + offsetof_base_addr) + gl_data_offset g).

Definition op_get_global : M label :=
  let* '(ty, p) := GET_GLOBAL in
  if is_32 ty then let* v := load_bytes p 4 in do* PUSH_I32 v in mret op_end
  else if is_64 ty then let* v := load_bytes p 8 in do* PUSH_I64 v in mret op_end
  else throw "invalid global type".

Definition op_set_global : M label :=
  let* '(ty, p) := GET_GLOBAL in
  if is_32 ty then let* v := POP_I32 in do* store_bytes p 4 v in mret op_end
  else if is_64 ty then let* v := POP_I64 in do* store_bytes p 8 v in mret op_end
  else throw "invalid global type".

(** ** Memory instructions *)

(** The two immediates; [flags] is not used. *)
Definition memarg : M Z := let* _ := read_u32 in read_u32.

(** What each load pushes: bytes read, conversion, 64-bit result. *)
Definition load_kind (op : WASMOpcode) : nat * (Z -> Z) * bool :=
  match op with
  | WASM_OP_I32_LOAD | WASM_OP_F32_LOAD => (4%nat, id, false)
  | WASM_OP_I64_LOAD | WASM_OP_F64_LOAD => (8%nat, id, true)
  | WASM_OP_I32_LOAD8_S => (1%nat, fun b => sign_ext_8_32 (s8 b), false)
  | WASM_OP_I32_LOAD8_U => (1%nat, id, false)
  | WASM_OP_I32_LOAD16_S => (2%nat, fun b => sign_ext_16_32 (s16 b), false)
  | WASM_OP_I32_LOAD16_U => (2%nat, id, false)
  | WASM_OP_I64_LOAD8_S => (1%nat, fun b => sign_ext_8_64 (s8 b), true)
  | WASM_OP_I64_LOAD8_U => (1%nat, id, true)
  | WASM_OP_I64_LOAD16_S => (2%nat, fun b => sign_ext_16_64 (s16 b), true)
  | WASM_OP_I64_LOAD16_U => (2%nat, id, true)
  | WASM_OP_I64_LOAD32_S => (4%nat, fun b => sign_ext_32_64 (s32 b), true)
  | _ => (4%nat, id, true)
  end.

Definition op_load (op : WASMOpcode) : M label :=
  let* offset := memarg in
  let* addr := POP_I32 in
  let* maddr := CHECK_MEMORY_OVERFLOW op offset addr in
  match maddr with
  | None => mret out_of_bounds
  | Some maddr =>
      let '(n, conv, wide) := load_kind op in
      let* b := load_bytes maddr n in
      do* (if (wide : bool) then PUSH_I64 (conv b) else PUSH_I32 (conv b)) in
      mret op_end
  end.

(** The stores: [n] cells of operand, the address below, [n] bytes stored.
    The float stores go through 32-bit accesses, here in address order. *)
Definition op_store_f32 : M label :=
  let* offset := memarg in
  do* move_sp (-1) in
  let* addr := POP_I32 in
  let* maddr := CHECK_MEMORY_OVERFLOW WASM_OP_F32_STORE offset addr in
  match maddr with
  | None => mret out_of_bounds
  | Some maddr =>
      let* sp := get frame_sp in
      let* v := read_cell (sp + 4) in
      do* store_bytes maddr 4 v in mret op_end
  end.

Definition op_store_f64 : M label :=
  let* offset := memarg in
  do* move_sp (-2) in
  let* addr := POP_I32 in
  let* maddr := CHECK_MEMORY_OVERFLOW WASM_OP_F64_STORE offset addr in
  match maddr with
  | None => mret out_of_bounds
  | Some maddr =>
      let* sp := get frame_sp in
      let* v := read_cell (sp + 4) in
      do* store_bytes maddr 4 v in
      let* v := read_cell (sp + 8) in
      do* store_bytes (maddr + 4) 4 v in mret op_end
  end.

Definition store_size (op : WASMOpcode) : nat :=
  match op with
  | WASM_OP_I32_STORE | WASM_OP_I64_STORE32 => 4
  | WASM_OP_I32_STORE8 | WASM_OP_I64_STORE8 => 1
  | WASM_OP_I32_STORE16 | WASM_OP_I64_STORE16 => 2
  | _ => 8
  end.

Definition op_store_int (wide : bool) (op : WASMOpcode) : M label :=
  let* offset := memarg in
  let* sval := (if wide then POP_I64 else POP_I32) in
  let* addr := POP_I32 in
  let* maddr := CHECK_MEMORY_OVERFLOW op offset addr in
  match maddr with
  | None => mret out_of_bounds
  | Some maddr => do* store_bytes maddr (store_size op) sval in mret op_end
  end.

Definition op_memory_size : M label :=
  let* _ := read_u32 in
  let* m := get_memory in
  do* PUSH_I32 (cur_page_count m) in mret op_end.

Definition op_memory_grow : M label :=
  let* m := get_memory in
  let prev_page_count := cur_page_count m in
  let* _ := read_u32 in
  let* delta := POP_I32 in
  let* ok := (fun s =>
    match wasm_enlarge_memory safe_allocation heap_migrate (module s) delta (world s) with
    | Ok (b, m', w') => Some (b, set_module m' (set_world w' s))
    | _ => None
    end) in
  if (ok : bool) then
    do* PUSH_I32 prev_page_count in
    let* m' := get_memory in
    do* modify (fun s =>
      set_total_mem_size (u32 (num_bytes_per_page m * cur_page_count m' - heap_base_offset m))
        (set_cached_global_data (self_addr m' + offsetof_base_addr + global_data m') s)) in
    mret op_end
  else
    do* PUSH_I32 (-1) in
    do* modify (fun s => set_module (wasm_set_exception None (module s)) s) in
    mret op_end.

(** ** Constants *)

Definition op_const (wide : bool) : M label :=
  if wide then let* v := read_s64 in do* PUSH_I64 v in mret op_end
  else let* v := read_s32 in do* PUSH_I32 v in mret op_end.

Fixpoint next_bytes (n : nat) : M (list Z) :=
  match n with
  | O => mret []
  | S n' => let* b := next_byte in let* bs := next_bytes n' in mret (b :: bs)
  end.

Definition op_const_float (wide : bool) : M label :=
  if wide then let* bs := next_bytes 8 in do* PUSH_I64 (le_val bs) in mret op_end
  else let* bs := next_bytes 4 in do* PUSH_I32 (le_val bs) in mret op_end.

(** ** Numeric instructions

    The operand stack discipline of the [DEF_OP_*] macros, for an operation
    given on unsigned words or bit patterns. *)

Definition pop (wide : bool) : M Z := if wide then POP_I64 else POP_I32.
Definition push (wide : bool) (v : Z) : M unit := if wide then PUSH_I64 v else PUSH_I32 v.

(** One operand of width [a], a result of width [r]. *)
Definition op_unary (a r : bool) (f : Z -> Z) : M label :=
  let* v := pop a in do* push r (f v) in mret op_end.
Definition op_unary_res (a r : bool) (f : Z -> res Z) : M label :=
  let* v := pop a in try (f v) (fun x => do* push r x in mret op_end).

Definition op_binary (a r : bool) (f : Z -> Z -> Z) : M label :=
  let* v2 := pop a in let* v1 := pop a in do* push r (f v1 v2) in mret op_end.
Definition op_binary_res (a : bool) (f : Z -> Z -> res Z) : M label :=
  let* v2 := pop a in let* v1 := pop a in
  try (f v1 v2) (fun x => do* push a x in mret op_end).

(** [frame_sp -= n; *(frame_sp - n) op= *frame_sp]: in place. *)
Definition op_inplace (wide : bool) (f : Z -> Z -> res Z) : M label :=
  let* v2 := pop wide in
  let* sp := get frame_sp in
  if wide then
    let* v1 := GET_I64_FROM_ADDR (sp - 8) in
    try (f v1 v2) (fun x => do* PUT_I64_TO_ADDR (sp - 8) x in mret op_end)
  else
    let* v1 := read_cell (sp - 4) in
    try (f v1 v2) (fun x => do* write_cell (sp - 4) x in mret op_end).

Definition op_neg (wide : bool) : M label :=
  let* sp := get frame_sp in
  if wide then
    let* v := GET_I64_FROM_ADDR (sp - 8) in
    do* PUT_I64_TO_ADDR (sp - 8) (f_neg F64 v) in mret op_end
  else
    let* v := read_cell (sp - 4) in
    do* write_cell (sp - 4) (f_neg F32 v) in mret op_end.

Definition op_numeric (wide : bool) (op : Z -> Z -> Z) : M label :=
  op_inplace wide (fun a b => Ok (DEF_OP_NUMERIC (if wide then 64 else 32) op a b)).
Definition op_numeric_shift (wide : bool) (op : Z -> Z -> Z) (conv : Z -> Z) : M label :=
  op_inplace wide (op_shift BUILD_TARGET_X86 (if wide then 64 else 32) op conv).
Definition op_numeric_float (wide : bool) (op : fbinop) : M label :=
  op_inplace wide (fun a b => Ok (f_numeric nan_result (if wide then F64 else F32) op a b)).
Definition op_cmp (wide : bool) (conv : Z -> Z) (cond : Z -> Z -> bool) : M label :=
  op_binary wide false (DEF_OP_CMP conv cond).
Definition op_cmp_float (wide : bool) (c : fcmp) : M label :=
  op_binary wide false (f_cmp (if wide then F64 else F32) c).

Definition neqb (a b : Z) : bool := negb (a =? b).

(** Comparison instructions. *)
Definition exec_cmp (op : WASMOpcode) : option (M label) :=
  match op with
  | WASM_OP_I32_EQZ => Some (op_unary false false DEF_OP_EQZ)
  | WASM_OP_I32_EQ => Some (op_cmp false u32 Z.eqb)
  | WASM_OP_I32_NE => Some (op_cmp false u32 neqb)
  | WASM_OP_I32_LT_S => Some (op_cmp false s32 Z.ltb)
  | WASM_OP_I32_LT_U => Some (op_cmp false u32 Z.ltb)
  | WASM_OP_I32_GT_S => Some (op_cmp false s32 Z.gtb)
  | WASM_OP_I32_GT_U => Some (op_cmp false u32 Z.gtb)
  | WASM_OP_I32_LE_S => Some (op_cmp false s32 Z.leb)
  | WASM_OP_I32_LE_U => Some (op_cmp false u32 Z.leb)
  | WASM_OP_I32_GE_S => Some (op_cmp false s32 Z.geb)
  | WASM_OP_I32_GE_U => Some (op_cmp false u32 Z.geb)
  | WASM_OP_I64_EQZ => Some (op_unary true false DEF_OP_EQZ)
  | WASM_OP_I64_EQ => Some (op_cmp true u64 Z.eqb)
  | WASM_OP_I64_NE => Some (op_cmp true u64 neqb)
  | WASM_OP_I64_LT_S => Some (op_cmp true s64 Z.ltb)
  | WASM_OP_I64_LT_U => Some (op_cmp true u64 Z.ltb)
  | WASM_OP_I64_GT_S => Some (op_cmp true s64 Z.gtb)
  | WASM_OP_I64_GT_U => Some (op_cmp true u64 Z.gtb)
  | WASM_OP_I64_LE_S => Some (op_cmp true s64 Z.leb)
  | WASM_OP_I64_LE_U => Some (op_cmp true u64 Z.leb)
  | WASM_OP_I64_GE_S => Some (op_cmp true s64 Z.geb)
  | WASM_OP_I64_GE_U => Some (op_cmp true u64 Z.geb)
  | _ => None
  end.

Definition exec_cmp_float (op : WASMOpcode) : option (M label) :=
  match op with
  | WASM_OP_F32_EQ => Some (op_cmp_float false FEq)
  | WASM_OP_F32_NE => Some (op_cmp_float false FNe)
  | WASM_OP_F32_LT => Some (op_cmp_float false FLt)
  | WASM_OP_F32_GT => Some (op_cmp_float false FGt)
  | WASM_OP_F32_LE => Some (op_cmp_float false FLe)
  | WASM_OP_F32_GE => Some (op_cmp_float false FGe)
  | WASM_OP_F64_EQ => Some (op_cmp_float true FEq)
  | WASM_OP_F64_NE => Some (op_cmp_float true FNe)
  | WASM_OP_F64_LT => Some (op_cmp_float true FLt)
  | WASM_OP_F64_GT => Some (op_cmp_float true FGt)
  | WASM_OP_F64_LE => Some (op_cmp_float true FLe)
  | WASM_OP_F64_GE => Some (op_cmp_float true FGe)
  | _ => None
  end.

(** Numeric instructions of i32 and i64. *)
Definition exec_i32 (op : WASMOpcode) : option (M label) :=
  match op with
  | WASM_OP_I32_CLZ => Some (op_unary false false clz32)
  | WASM_OP_I32_CTZ => Some (op_unary false false ctz32)
  | WASM_OP_I32_POPCNT => Some (op_unary false false popcount32)
  | WASM_OP_I32_ADD => Some (op_numeric false Z.add)
  | WASM_OP_I32_SUB => Some (op_numeric false Z.sub)
  | WASM_OP_I32_MUL => Some (op_numeric false Z.mul)
  | WASM_OP_I32_DIV_S => Some (op_binary_res false (op_div_s 32))
  | WASM_OP_I32_DIV_U => Some (op_binary_res false (op_div_u 32))
  | WASM_OP_I32_REM_S => Some (op_binary_res false (op_rem_s 32))
  | WASM_OP_I32_REM_U => Some (op_binary_res false (op_rem_u 32))
  | WASM_OP_I32_AND => Some (op_numeric false Z.land)
  | WASM_OP_I32_OR => Some (op_numeric false Z.lor)
  | WASM_OP_I32_XOR => Some (op_numeric false Z.lxor)
  | WASM_OP_I32_SHL => Some (op_numeric_shift false Z.shiftl u32)
  | WASM_OP_I32_SHR_S => Some (op_numeric_shift false Z.shiftr s32)
  | WASM_OP_I32_SHR_U => Some (op_numeric_shift false Z.shiftr u32)
  | WASM_OP_I32_ROTL => Some (op_binary false false rotl32)
  | WASM_OP_I32_ROTR => Some (op_binary false false rotr32)
  | _ => None
  end.

Definition exec_i64 (op : WASMOpcode) : option (M label) :=
  match op with
  | WASM_OP_I64_CLZ => Some (op_unary true true clz64)
  | WASM_OP_I64_CTZ => Some (op_unary true true ctz64)
  | WASM_OP_I64_POPCNT => Some (op_unary true true popcount64)
  | WASM_OP_I64_ADD => Some (op_numeric true Z.add)
  | WASM_OP_I64_SUB => Some (op_numeric true Z.sub)
  | WASM_OP_I64_MUL => Some (op_numeric true Z.mul)
  | WASM_OP_I64_DIV_S => Some (op_binary_res true (op_div_s 64))
  | WASM_OP_I64_DIV_U => Some (op_binary_res true (op_div_u 64))
  | WASM_OP_I64_REM_S => Some (op_binary_res true (op_rem_s 64))
  | WASM_OP_I64_REM_U => Some (op_binary_res true (op_rem_u 64))
  | WASM_OP_I64_AND => Some (op_numeric true Z.land)
  | WASM_OP_I64_OR => Some (op_numeric true Z.lor)
  | WASM_OP_I64_XOR => Some (op_numeric true Z.lxor)
  | WASM_OP_I64_SHL => Some (op_numeric_shift true Z.shiftl u64)
  | WASM_OP_I64_SHR_S => Some (op_numeric_shift true Z.shiftr s64)
  | WASM_OP_I64_SHR_U => Some (op_numeric_shift true Z.shiftr u64)
  | WASM_OP_I64_ROTL => Some (op_binary true true rotl64)
  | WASM_OP_I64_ROTR => Some (op_binary true true rotr64)
  | _ => None
  end.

(** Numeric instructions of f32 and f64. *)
Definition exec_f32 (op : WASMOpcode) : option (M label) :=
  let nan := nan_result in
  match op with
  | WASM_OP_F32_ABS => Some (op_unary false false (f_abs nan F32))
  | WASM_OP_F32_NEG => Some (op_neg false)
  | WASM_OP_F32_CEIL => Some (op_unary false false (f_round nan F32 Ceil))
  | WASM_OP_F32_FLOOR => Some (op_unary false false (f_round nan F32 Floor))
  | WASM_OP_F32_TRUNC => Some (op_unary false false (f_round nan F32 Trunc))
  | WASM_OP_F32_NEAREST => Some (op_unary false false (f_round nan F32 Rint))
  | WASM_OP_F32_SQRT => Some (op_unary false false (f_sqrt nan F32))
  | WASM_OP_F32_ADD => Some (op_numeric_float false FAdd)
  | WASM_OP_F32_SUB => Some (op_numeric_float false FSub)
  | WASM_OP_F32_MUL => Some (op_numeric_float false FMul)
  | WASM_OP_F32_DIV => Some (op_numeric_float false FDiv)
  | WASM_OP_F32_MIN => Some (op_binary false false (f_minmax nan F32 wa_fmin))
  | WASM_OP_F32_MAX => Some (op_binary false false (f_minmax nan F32 wa_fmax))
  | WASM_OP_F32_COPYSIGN => Some (op_binary false false (f_copysign nan F32))
  | _ => None
  end.

Definition exec_f64 (op : WASMOpcode) : option (M label) :=
  let nan := nan_result in
  match op with
  | WASM_OP_F64_ABS => Some (op_unary true true (f_abs nan F64))
  | WASM_OP_F64_NEG => Some (op_neg true)
  | WASM_OP_F64_CEIL => Some (op_unary true true (f_round nan F64 Ceil))
  | WASM_OP_F64_FLOOR => Some (op_unary true true (f_round nan F64 Floor))
  | WASM_OP_F64_TRUNC => Some (op_unary true true (f_round nan F64 Trunc))
  | WASM_OP_F64_NEAREST => Some (op_unary true true (f_round nan F64 Rint))
  | WASM_OP_F64_SQRT => Some (op_unary true true (f_sqrt nan F64))
  | WASM_OP_F64_ADD => Some (op_numeric_float true FAdd)
  | WASM_OP_F64_SUB => Some (op_numeric_float true FSub)
  | WASM_OP_F64_MUL => Some (op_numeric_float true FMul)
  | WASM_OP_F64_DIV => Some (op_numeric_float true FDiv)
  | WASM_OP_F64_MIN => Some (op_binary true true (f_minmax nan F64 wa_fmin))
  | WASM_OP_F64_MAX => Some (op_binary true true (f_minmax nan F64 wa_fmax))
  | WASM_OP_F64_COPYSIGN => Some (op_binary true true (f_copysign nan F64))
  | _ => None
  end.

(** Conversions and reinterpretations. *)
Definition exec_conv (op : WASMOpcode) : option (M label) :=
  let nan := nan_result in
  match op with
  | WASM_OP_I32_WRAP_I64 => Some (op_unary true false (fun v => Z.land v 0xffffffff))
  | WASM_OP_I32_TRUNC_S_F32 => Some (op_unary_res false false i32_trunc_s_f32)
  | WASM_OP_I32_TRUNC_U_F32 => Some (op_unary_res false false i32_trunc_u_f32)
  | WASM_OP_I32_TRUNC_S_F64 => Some (op_unary_res true false i32_trunc_s_f64)
  | WASM_OP_I32_TRUNC_U_F64 => Some (op_unary_res true false i32_trunc_u_f64)
  | WASM_OP_I64_EXTEND_S_I32 => Some (op_unary false true s32)
  | WASM_OP_I64_EXTEND_U_I32 => Some (op_unary false true u32)
  | WASM_OP_I64_TRUNC_S_F32 => Some (op_unary_res false true i64_trunc_s_f32)
  | WASM_OP_I64_TRUNC_U_F32 => Some (op_unary_res false true i64_trunc_u_f32)
  | WASM_OP_I64_TRUNC_S_F64 => Some (op_unary_res true true i64_trunc_s_f64)
  | WASM_OP_I64_TRUNC_U_F64 => Some (op_unary_res true true i64_trunc_u_f64)
  | WASM_OP_F32_CONVERT_S_I32 => Some (op_unary false false (fun v => f_of_int nan F32 (s32 v)))
  | WASM_OP_F32_CONVERT_U_I32 => Some (op_unary false false (fun v => f_of_int nan F32 (u32 v)))
  | WASM_OP_F32_CONVERT_S_I64 => Some (op_unary true false (fun v => f_of_int nan F32 (s64 v)))
  | WASM_OP_F32_CONVERT_U_I64 => Some (op_unary true false (fun v => f_of_int nan F32 (u64 v)))
  | WASM_OP_F32_DEMOTE_F64 => Some (op_unary true false (f_of_float nan F64 F32))
  | WASM_OP_F64_CONVERT_S_I32 => Some (op_unary false true (fun v => f_of_int nan F64 (s32 v)))
  | WASM_OP_F64_CONVERT_U_I32 => Some (op_unary false true (fun v => f_of_int nan F64 (u32 v)))
  | WASM_OP_F64_CONVERT_S_I64 => Some (op_unary true true (fun v => f_of_int nan F64 (s64 v)))
  | WASM_OP_F64_CONVERT_U_I64 => Some (op_unary true true (fun v => f_of_int nan F64 (u64 v)))
  | WASM_OP_F64_PROMOTE_F32 => Some (op_unary false true (f_of_float nan F32 F64))
  | WASM_OP_I32_REINTERPRET_F32 | WASM_OP_I64_REINTERPRET_F64
  | WASM_OP_F32_REINTERPRET_I32 | WASM_OP_F64_REINTERPRET_I64 => Some (mret op_end)
  | _ => None
  end.

(** The first dispatch of an activation reads [WASM_OP_IMPDEP]. *)
Definition op_impdep : M label :=
  let* p := get prev_frame in
  let* f := get_frame p in
  do* modify (fun s => set_frame p (set_frame_ip (fr_ip f)
                (set_frame_sp (fr_sp f) (set_frame_csp (fr_csp f) s)))) in
  mret call_func_from_entry.

Definition exec_control (op : WASMOpcode) : option (M label) :=
  match op with
  | WASM_OP_NOP => Some (mret op_end)
  | WASM_OP_BLOCK => Some op_block
  | WASM_OP_LOOP => Some op_loop
  | WASM_OP_IF => Some op_if
  | WASM_OP_ELSE => Some op_else
  | WASM_OP_END => Some op_endblock
  | WASM_OP_BR => Some op_br
  | WASM_OP_BR_IF => Some op_br_if
  | WASM_OP_BR_TABLE => Some op_br_table
  | WASM_OP_RETURN => Some op_return
  | WASM_OP_CALL => Some op_call
  | WASM_OP_CALL_INDIRECT => Some op_call_indirect
  | WASM_OP_IMPDEP => Some op_impdep
  | WASM_OP_DROP => Some (op_drop 1)
  | WASM_OP_DROP_64 => Some (op_drop 2)
  | WASM_OP_SELECT => Some op_select
  | WASM_OP_SELECT_64 => Some op_select_64
  | WASM_OP_GET_LOCAL => Some op_get_local
  | EXT_OP_GET_LOCAL_FAST => Some op_get_local_fast
  | WASM_OP_SET_LOCAL => Some op_set_local
  | EXT_OP_SET_LOCAL_FAST => Some op_set_local_fast
  | WASM_OP_TEE_LOCAL => Some op_tee_local
  | EXT_OP_TEE_LOCAL_FAST => Some op_tee_local_fast
  | WASM_OP_GET_GLOBAL => Some op_get_global
  | WASM_OP_SET_GLOBAL => Some op_set_global
  | _ => None
  end.

Definition exec_memory (op : WASMOpcode) : option (M label) :=
  match op with
  | WASM_OP_F32_STORE => Some op_store_f32
  | WASM_OP_F64_STORE => Some op_store_f64
  | WASM_OP_I32_STORE | WASM_OP_I32_STORE8 | WASM_OP_I32_STORE16 => Some (op_store_int false op)
  | WASM_OP_I64_STORE | WASM_OP_I64_STORE8 | WASM_OP_I64_STORE16 | WASM_OP_I64_STORE32 =>
      Some (op_store_int true op)
  | WASM_OP_MEMORY_SIZE => Some op_memory_size
  | WASM_OP_MEMORY_GROW => Some op_memory_grow
  | WASM_OP_I32_CONST => Some (op_const false)
  | WASM_OP_I64_CONST => Some (op_const true)
  | WASM_OP_F32_CONST => Some (op_const_float false)
  | WASM_OP_F64_CONST => Some (op_const_float true)
  | _ => if op_between op WASM_OP_I32_LOAD WASM_OP_I64_LOAD32_U then Some (op_load op) else None
  end.

(** The handler [goto *handle_table[opcode]] reaches.  All but
    [WASM_OP_UNREACHABLE] and the unused opcodes first read the clock. *)
Definition handler (op : WASMOpcode) : option (M label) :=
  union (exec_control op) (union (exec_memory op) (union (exec_cmp op)
    (union (exec_cmp_float op) (union (exec_i32 op) (union (exec_i64 op)
    (union (exec_f32 op) (union (exec_f64 op) (exec_conv op)))))))).

Definition exec_op (op : WASMOpcode) : M label :=
  match op with
  | WASM_OP_UNREACHABLE => throw "unreachable"
  | _ => match handler op with
         | Some h => do* start_instruction in h
         | None => throw "WASM interp failed: unsupported opcode."
         end
  end.

(** ** Calls *)

(** Copy [argv_ret] to the caller's operand stack. *)
Definition push_argv_ret (prev : Z) (n : Z) (argv_ret : list Z) : M unit :=
  let* f := get_frame prev in
  if n =? 1 then
    do* write_cell (fr_sp f) (default 0 (argv_ret !! 0%nat)) in
    upd_frame prev (fun f => set_fr_sp (fr_sp f + 4) f)
  else if n =? 2 then
    do* write_cell (fr_sp f) (default 0 (argv_ret !! 0%nat)) in
    do* write_cell (fr_sp f + 4) (default 0 (argv_ret !! 1%nat)) in
    upd_frame prev (fun f => set_fr_sp (fr_sp f + 8) f)
  else mret tt.

(** [wasm_interp_call_func_native].  The unlinked message omits the import
    names. *)
Definition wasm_interp_call_func_native (i : nat) (f : WASMFunctionInstance) (prev : Z) : M unit :=
  let* p := ALLOC_FRAME (wasm_interp_interp_frame_size 2) prev in
  match p with
  | None => mret tt
  | Some p =>
  do* upd_frame p (fun fr => set_fr_function (Some i) (set_fr_ip 0
                     (set_fr_sp (lp_of p + 4 * 2) fr))) in
  do* wasm_exec_env_set_cur_frame p in
  if negb (func_ptr_linked f) then
    modify (fun s => set_module (wasm_set_exception
      (Some "fail to call unlinked import function"%string) (module s)) s)
  else
  let* r := (fun s =>
    match invoke_native f (lp_of p) (exec_env s) (module s) (world s) with
    | Some (ok, argv_ret, e, m, w) =>
        Some ((ok, argv_ret), set_exec_env e (set_module m (set_world w s)))
    | None => None
    end) in
  let '(ok, argv_ret) := r in
  if negb ok then mret tt else
  do* push_argv_ret prev (ret_cell_num f) argv_ret in
  do* FREE_FRAME p in
  wasm_exec_env_set_cur_frame prev
  end.

Definition do_call_func_from_interp : M label :=
  let* i := get cur_func in let* f := get_func i in
  let* outs_area := get (fun s => stack_top (exec_env s)) in
  do* POP (param_cell_num f) in
  do* SYNC_ALL_TO_FRAME in
  let* sp := get frame_sp in
  do* word_copy (lp_of outs_area) sp (Z.to_nat (param_cell_num f)) in
  let* fr := get frame in
  do* modify (set_prev_frame fr) in
  mret call_func_from_entry.

(** A callee in bytecode: its frame, registers, zeroed locals and the block
    of its body. *)
Definition enter_bytecode (i : nat) (f : WASMFunctionInstance) : M label :=
  let* prev := get prev_frame in
  let all_cell_num := param_cell_num f + local_cell_num f + max_stack_cell_num f
                      + max_block_num f * sizeof_branch_block / 4 in
  if UINT32_MAX <=? all_cell_num then throw "WASM interp failed: stack overflow." else
  let* p := ALLOC_FRAME (wasm_interp_interp_frame_size (u32 all_cell_num)) prev in
  match p with
  | None => do* modify (set_frame prev) in mret got_exception
  | Some p =>
  let lp := lp_of p in
  let sp := lp + 4 * (param_cell_num f + local_cell_num f) in
  do* upd_frame p (fun fr => set_fr_function (Some i) (set_fr_block_num (max_block_num f) fr)) in
  do* modify (fun s => set_frame p (set_frame_ip (func_code f) (set_frame_lp lp
                (set_frame_sp sp (set_frame_csp [] s))))) in
  do* modify (upd_env (fun e => set_cells
        (filter (fun '(k, _) => ~ (lp + 4 * param_cell_num f <= k < sp)) (cells e)) e)) in
  let* ret_type := lift (if (ty_result_count (func_type f) =? 0)%nat then Some VALUE_TYPE_VOID
                         else param_types f !! ty_param_count (func_type f)) in
  do* PUSH_CSP BLOCK_TYPE_FUNCTION ret_type (func_code f + func_code_size f - 1) in
  do* wasm_exec_env_set_cur_frame p in
  mret op_end
  end.

Definition do_call_func_from_entry : M label :=
  let* i := get cur_func in let* f := get_func i in
  if is_import_func f then
    let* prev := get prev_frame in
    do* wasm_interp_call_func_native i f prev in
    let* p := get frame in let* fr := get_frame p in
    do* modify (set_prev_frame (fr_prev_frame fr)) in
    let* fn := lift (fr_function fr) in
    do* modify (set_cur_func fn) in
    do* UPDATE_ALL_FROM_FRAME in
    let* e := get (fun s => wasm_get_exception (module s)) in
    match e with Some _ => mret got_exception | None => mret op_end end
  else enter_bytecode i f.

Definition do_return_func : M label :=
  let* p := get frame in let* prev := get prev_frame in
  do* FREE_FRAME p in
  do* wasm_exec_env_set_cur_frame prev in
  let* f := get_frame prev in
  if fr_ip f =? 0 then mret returned
  else do* RECOVER_CONTEXT prev in mret op_end.

(** The labelled code behind [goto l]; a label never leads to more than
    three others in a row. *)
Definition goto1 (l : label) : M label :=
  match l with
  | op_end => HANDLE_OP_END
  | out_of_bounds => throw "out of bounds memory access"
  | got_exception => mret returned
  | return_func => do_return_func
  | call_func_from_interp => do_call_func_from_interp
  | call_func_from_entry => do_call_func_from_entry
  | fetch | returned => mret l
  end.

Definition goto (l : label) : M label :=
  let* l := goto1 l in let* l := goto1 l in let* l := goto1 l in goto1 l.

(** One opcode: dispatch, handler, and what follows up to the next
    [FETCH_OPCODE_AND_DISPATCH] (true) or the [return] (false). *)
Definition step : M bool :=
  let* op := FETCH_OPCODE_AND_DISPATCH in
  match op with
  | None => mret false
  | Some op =>
      let* l := exec_op op in
      let* l := goto l in
      mret (bool_decide (l = fetch))
  end.

(** At most [fuel] opcodes; [Some (false, s)] is a return of the function. *)
Fixpoint run (fuel : nat) : M bool :=
  match fuel with
  | O => mret true
  | S n => let* more := step in if (more : bool) then run n else mret false
  end.

(** ** Entry *)

(** The local variables as declared at the top of
    [wasm_interp_call_func_bytecode], [now] being the clock read there. *)
Definition initial_state (e : WASMExecEnv) (m : WASMModuleInstance) (w : World)
    (i : nat) (prev now : Z) : St :=
  let total := match default_memory m with
               | Some mem => u32 (num_bytes_per_page mem * cur_page_count mem - heap_base_offset mem)
               | None => 0
               end in
  let gdata := match default_memory m with
               | Some mem => self_addr mem + offsetof_base_addr + global_data mem
               | None => 0
               end in
  mkSt 0 impdep_addr 0 0 [] i prev total gdata now 0 e m w.

Fixpoint write_cells (c : gmap Z Z) (p : Z) (l : list Z) : gmap Z Z :=
  match l with [] => c | v :: l' => write_cells (<[p := u32 v]> c) (p + 4) l' end.
Fixpoint read_cells (c : gmap Z Z) (p : Z) (n : nat) : list Z :=
  match n with O => [] | S n' => default 0 (c !! p) :: read_cells c (p + 4) n' end.

(** [wasm_interp_call_wasm]: the result is the cells written to [argv],
    [None] when an exception is set; [Undef] also when [fuel] opcodes do not
    suffice.  The argument count message omits the two numbers. *)
Definition wasm_interp_call_wasm (fuel : nat) (m : WASMModuleInstance) (e : WASMExecEnv)
    (w : World) (i : nat) (argv : list Z)
    : res (option (list Z) * WASMModuleInstance * WASMExecEnv * World) :=
  match functions m !! i with
  | None => Undef
  | Some f =>
  if negb (Z.of_nat (length argv) =? param_cell_num f)
  then Ok (None, wasm_set_exception (Some "invalid argument count"%string) m, e, w) else
  let prev_frame := cur_frame e in
  match wasm_exec_env_alloc_wasm_frame e (wasm_interp_interp_frame_size 2) with
  | None => Ok (None, wasm_set_exception
                  (Some "WASM interp failed: stack overflow."%string) m, e, w)
  | Some (p, e) =>
      let fr := mkFrame prev_frame None 0 (lp_of p) [] 0 in
      let e := set_frames (<[p := fr]> (frames e)) e in
      let e := set_cells (write_cells (cells e) (lp_of (stack_top e)) argv) e in
      let e := set_cur_frame p e in
      match (if is_import_func f then
               mbind (wasm_interp_call_func_native i f p) (fun _ => mret false)
                 (initial_state e m w i p 0)
             else let '(now, w) := tick w in run fuel (initial_state e m w i p now)) with
      | Some (false, s) =>
          match frames (exec_env s) !! p with
          | None => Undef
          | Some fr =>
              let m := module s in
              let out := match wasm_get_exception m with
                         | None => Some (read_cells (cells (exec_env s))
                                     (fr_sp fr - 4 * ret_cell_num f) (Z.to_nat (ret_cell_num f)))
                         | Some _ => None
                         end in
              let e := set_cur_frame prev_frame (exec_env s) in
              Ok (out, m, wasm_exec_env_free_wasm_frame e p, world s)
          end
      | _ => Undef
      end
  end
  end.

End Interp.
