(* ===== verification/MachineFacts.v ===== *)
(** * Facts on the machine state

    What pushes, pops and cell accesses do, stated on states; the metered
    dispatch of one opcode; how label handlers chain. *)

From S2P Require Import Prelude Numeric Leb Opcode BlockAddr Float Instance Machine Interp.
#[local] Open Scope Z_scope.

(** ** Cells *)

Lemma cell_at_put_cell s p v q :
  cell_at (put_cell p v s) q = if q =? p then u32 v else cell_at s q.
Proof.
  unfold cell_at, put_cell, upd_env. cbn. destruct (Z.eqb_spec q p) as [->|].
  - by rewrite lookup_insert_eq.
  - by rewrite lookup_insert_ne by done.
Qed.

Definition cells_ok (s : St) : Prop := forall p, in_u 32 (cell_at s p).

Lemma cells_ok_put s p v : cells_ok s -> cells_ok (put_cell p v s).
Proof.
  intros Hs q. rewrite cell_at_put_cell. destruct (_ =? _); [by apply uwrap_range|apply Hs].
Qed.

Lemma i64_range s p : cells_ok s -> in_u 64 (i64_at s p).
Proof. intros Hs. unfold i64_at. pose proof (Hs p). pose proof (Hs (p + 4)). unfold in_u in *. lia. Qed.

(** ** Operands of either width *)

Definition width (wide : bool) : Z := if wide then 64 else 32.
Definition ncells (wide : bool) : Z := if wide then 2 else 1.
Definition val_at (wide : bool) (s : St) (p : Z) : Z := if wide then i64_at s p else cell_at s p.
Definition top_val (wide : bool) (s : St) : Z := val_at wide s (frame_sp s - 4 * ncells wide).
Definition put_val (wide : bool) (p v : Z) (s : St) : St :=
  if wide then put_cell (p + 4) (Z.shiftr (u64 v) 32) (put_cell p v s) else put_cell p v s.
Definition add_sp (n : Z) (s : St) : St := set_frame_sp (frame_sp s + 4 * n) s.
Definition push_st (wide : bool) (v : Z) (s : St) : St :=
  add_sp (ncells wide) (put_val wide (frame_sp s) v s).

Lemma add_sp_add n k s : add_sp n (add_sp k s) = add_sp (n + k) s.
Proof. destruct s. unfold add_sp, set_frame_sp. cbn -[Z.mul Z.add]. f_equal. lia. Qed.

Lemma frame_sp_add n s : frame_sp (add_sp n s) = frame_sp s + 4 * n.
Proof. done. Qed.

Lemma val_at_add_sp w n s p : val_at w (add_sp n s) p = val_at w s p.
Proof. by destruct w. Qed.

Lemma push_eq wide v s : push wide v s = Some (tt, push_st wide v s).
Proof. by destruct wide. Qed.

Lemma pop_eq wide s : pop wide s = Some (top_val wide s, add_sp (- ncells wide) s).
Proof.
  destruct wide; cbn; unfold top_val, add_sp; cbn -[Z.mul Z.add]; do 2 f_equal;
    unfold i64_at, cell_at; cbn -[Z.mul Z.add]; repeat f_equal; lia.
Qed.

Lemma val_at_range wide s p : cells_ok s -> in_u (width wide) (val_at wide s p).
Proof. intros Hs. destruct wide; [by apply i64_range|apply Hs]. Qed.

Lemma width_pos wide : 0 < width wide.
Proof. by destruct wide. Qed.

Lemma val_at_put_val wide p v s : val_at wide (put_val wide p v s) p = uwrap (width wide) v.
Proof.
  destruct wide; cbn [val_at put_val width]; unfold i64_at; rewrite ?cell_at_put_cell, ?Z.eqb_refl.
  - destruct (Z.eqb_spec p (p + 4)); [lia|].
    assert (u32 v = u64 v mod 2 ^ 32) as ->.
    { unfold uwrap. change (2 ^ 64) with (2 ^ 32 * 2 ^ 32).
      rewrite Z.rem_mul_r, Z.mul_comm, Z.mod_add, Z.mod_mod by lia. done. }
    pose proof (uwrap_range 64 v ltac:(lia)) as [? ?]. set (u := u64 v) in *.
    rewrite Z.shiftr_div_pow2 by lia. rewrite (uwrap_id 32 (u / 2 ^ 32)).
    + pose proof (Z.div_mod u (2 ^ 32)). lia.
    + split; [apply Z.div_pos; lia|]. apply Z.div_lt_upper_bound; lia.
  - done.
Qed.

Lemma cell_at_put_val wide p v s q :
  q < p \/ p + 4 * ncells wide <= q -> cell_at (put_val wide p v s) q = cell_at s q.
Proof.
  intros Hq. destruct wide; cbn in *; rewrite !cell_at_put_cell.
  - destruct (Z.eqb_spec q (p + 4)); [lia|]. destruct (Z.eqb_spec q p); [lia|done].
  - destruct (Z.eqb_spec q p); [lia|done].
Qed.

Lemma val_at_put_val_ne wide w p v s q :
  q + 4 * ncells w <= p \/ p + 4 * ncells wide <= q ->
  val_at w (put_val wide p v s) q = val_at w s q.
Proof.
  intros Hq. destruct w; cbn in *; unfold i64_at; by rewrite !cell_at_put_val by (destruct wide; cbn in *; lia).
Qed.

Lemma cells_ok_put_val wide p v s : cells_ok s -> cells_ok (put_val wide p v s).
Proof. intros Hs. destruct wide; cbn; repeat apply cells_ok_put; done. Qed.

Lemma top_val_push wide v s : top_val wide (push_st wide v s) = uwrap (width wide) v.
Proof.
  unfold top_val, push_st. rewrite <- (val_at_put_val wide (frame_sp s) v s).
  destruct wide; cbn -[Z.mul]; unfold i64_at, cell_at; cbn -[Z.mul]; repeat f_equal; lia.
Qed.

Lemma cell_at_push wide v s q :
  q < frame_sp s -> cell_at (push_st wide v s) q = cell_at s q.
Proof. intros Hq. change (cell_at (put_val wide (frame_sp s) v s) q = cell_at s q).
  by rewrite cell_at_put_val by lia. Qed.

Lemma cells_ok_push wide v s : cells_ok s -> cells_ok (push_st wide v s).
Proof. intros Hs. change (cells_ok (put_val wide (frame_sp s) v s)). by apply cells_ok_put_val. Qed.

(** Running a bind whose first part is known. *)
Lemma mbind_eq {A B} (m : M A) (k : A -> M B) s a s' :
  m s = Some (a, s') -> mbind m k s = k a s'.
Proof. intros E. unfold mbind. by rewrite E. Qed.

Lemma mbind_inv {A B} (m : M A) (k : A -> M B) s r :
  mbind m k s = Some r -> exists a s', m s = Some (a, s') /\ k a s' = Some r.
Proof. unfold mbind. destruct (m s) as [[a s']|]; [eauto|done]. Qed.

(** ** Metering

    [erase] forgets the clock, the energy counters and the two time stamps:
    what metering changes and no handler reads. *)

Definition erase_m (m : WASMModuleInstance) : WASMModuleInstance :=
  set_native_execution_time_us 0 (set_wasm_instructions_energy 0 m).
Definition erase (s : St) : St :=
  set_world sample_world (set_prev_timestamp 0 (set_instruction_start_time 0
    (set_module (erase_m (module s)) s))).

Lemma erase_fields s s' :
  erase s = erase s' ->
  exec_env s = exec_env s' /\ frame_ip s = frame_ip s' /\ frame_sp s = frame_sp s' /\
  erase_m (module s) = erase_m (module s').
Proof.
  intros E. repeat split; [exact (f_equal exec_env E)|exact (f_equal frame_ip E)
    |exact (f_equal frame_sp E)|exact (f_equal module E)].
Qed.

Lemma erase_idemp s : erase (erase s) = erase s.
Proof. done. Qed.
Lemma erase_push w v s : erase (push_st w v s) = push_st w v (erase s).
Proof. by destruct w. Qed.
Lemma erase_put_val w p v s : erase (put_val w p v s) = put_val w p v (erase s).
Proof. by destruct w. Qed.
Lemma erase_add_sp n s : erase (add_sp n s) = add_sp n (erase s).
Proof. done. Qed.
Lemma val_at_erase w s p : val_at w (erase s) p = val_at w s p.
Proof. by destruct w. Qed.
Lemma cells_ok_erase s : cells_ok (erase s) <-> cells_ok s.
Proof. done. Qed.

Lemma start_push w v s : instruction_start_time (push_st w v s) = instruction_start_time s.
Proof. by destruct w. Qed.

Section Step.
Context `{Platform} `{Natives}.

(** The meter never stops the module: a build without access control, or a
    budget no 32-bit consumption exceeds. *)
Definition unlimited (m : WASMModuleInstance) : Prop :=
  EVAL_NO_AEROGEL = true \/
  exists info, current_module_info m = Ok info /\ UINT32_MAX <= processor_power_consumption info.

Lemma unlimited_erase m : unlimited (erase_m m) <-> unlimited m.
Proof. done. Qed.

Lemma check_cpu_unlimited m w :
  unlimited m -> exists w', check_cpu_consumption m w = Ok (false, w').
Proof.
  intros [E|(info & Ei & Hb)]; unfold check_cpu_consumption; [rewrite E; eauto|].
  destruct EVAL_NO_AEROGEL; [eauto|]. destruct (tick w) as [t1 w1]. rewrite Ei. cbn [res_bind].
  destruct (tick w1) as [t2 w2]. eexists. repeat f_equal.
  apply Z.ltb_ge. pose proof (uwrap_range 32 (default 0 (processor_power <$> access_control m)
    * u32 (native_execution_time_us m + wasm_instructions_energy m))) as Hr.
  unfold in_u in Hr. lia.
Qed.

Lemma read_tick_eq s : exists t s', read_tick s = Some (t, s') /\ erase s' = erase s /\
  t = u32 (os_clock (w_ticks (world s))).
Proof. unfold read_tick. cbn. eauto. Qed.

Lemma code_at_erase s s' ip : erase s = erase s' -> code_at s ip = code_at s' ip.
Proof.
  intros E. apply erase_fields in E as (_ & _ & _ & E).
  assert (code_base (module s) = code_base (module s') /\ mod_code (module s) = mod_code (module s'))
    as [E1 E2] by (split; [exact (f_equal code_base E)|exact (f_equal mod_code E)]).
  unfold code_at. by rewrite E1, E2.
Qed.

Lemma next_byte_eq s b rest :
  code_at s (frame_ip s) = b :: rest ->
  next_byte s = Some (b, set_frame_ip (frame_ip s + 1) s).
Proof. intros E. unfold next_byte. by rewrite E. Qed.

Lemma erase_set_ip s s' n :
  erase s = erase s' -> erase (set_frame_ip n s) = erase (set_frame_ip n s').
Proof.
  intros E. change (set_frame_ip n (erase s) = set_frame_ip n (erase s')). by rewrite E.
Qed.

Lemma fetch_unlimited s b rest op :
  unlimited (module s) -> code_at s (frame_ip s) = b :: rest -> dispatch b = Ok op ->
  exists s', FETCH_OPCODE_AND_DISPATCH s = Some (Some op, s') /\
    erase s' = erase (set_frame_ip (frame_ip s + 1) s).
Proof.
  intros Hu Hc Hd. unfold FETCH_OPCODE_AND_DISPATCH.
  destruct (read_tick_eq s) as (t & s1 & E1 & He1 & _). rewrite (mbind_eq _ _ _ _ _ E1).
  unfold mbind at 1. cbn [get].
  assert (Hu1 : unlimited (module s1)).
  { apply erase_fields in He1 as (_ & _ & _ & E). by rewrite <- unlimited_erase, E. }
  assert (Hgo : forall s2, erase s2 = erase s ->
    exists s', (let* b := next_byte in
       match dispatch b with Ok op => mret (Some op) | _ => mundef end) s2 = Some (Some op, s') /\
      erase s' = erase (set_frame_ip (frame_ip s + 1) s)).
  { intros s2 E2. pose proof (erase_fields _ _ E2) as (_ & Ei & _ & _).
    rewrite (mbind_eq _ _ _ _ _ (next_byte_eq s2 b rest ltac:(by rewrite (code_at_erase _ _ _ E2), Ei))).
    rewrite Hd. eexists. split; [done|]. rewrite Ei. by apply erase_set_ip. }
  destruct (1000000 <? _).
  - apply Hgo. by rewrite <- He1.
  - destruct (check_cpu_unlimited (module s1) (world s1) Hu1) as (w' & Ew).
    unfold mbind at 1. rewrite Ew. apply Hgo. by rewrite <- He1.
Qed.

(** The clock never reads 0 (which the code takes for a failed reading). *)
Definition clock_runs : Prop := forall n, u32 (os_clock n) <> 0.

Lemma goto_fetch s : goto fetch s = Some (fetch, s).
Proof. done. Qed.

Lemma start_eq s :
  exists s', start_instruction s = Some (tt, s') /\ erase s' = erase s /\
    instruction_start_time s' = u32 (os_clock (w_ticks (world s))).
Proof. unfold start_instruction, read_tick, mbind, modify. cbn. eauto. Qed.

Lemma goto_op_end s :
  instruction_start_time s <> 0 ->
  exists s', goto op_end s = Some (fetch, s') /\ erase s' = erase s.
Proof.
  intros Hn. unfold goto, goto1 at 1, HANDLE_OP_END, mbind, get.
  destruct (Z.eqb_spec (instruction_start_time s) 0); [done|]. cbn. eauto.
Qed.

(** A handler keeps the time stamp of its own start. *)
Definition keeps_start {A} (m : M A) : Prop :=
  forall s a s', m s = Some (a, s') -> instruction_start_time s' = instruction_start_time s.

(** One opcode whose handler ends normally, respectively traps. *)
Lemma step_ok s b rest op h (P : St -> Prop) :
  clock_runs -> unlimited (module s) ->
  code_at s (frame_ip s) = b :: rest -> dispatch b = Ok op ->
  handler op = Some h -> op <> WASM_OP_UNREACHABLE ->
  (forall s1, erase s1 = erase (set_frame_ip (frame_ip s + 1) s) ->
     exists s2, h s1 = Some (op_end, s2) /\
       instruction_start_time s2 = instruction_start_time s1 /\
       forall s3, erase s3 = erase s2 -> P s3) ->
  exists s', step s = Some (true, s') /\ P s'.
Proof.
  intros Hclk Hu Hc Hd Hh Hop HP. unfold step.
  destruct (fetch_unlimited s b rest op Hu Hc Hd) as (s0 & E0 & He0).
  rewrite (mbind_eq _ _ _ _ _ E0).
  assert (Ex : exec_op op = let* _ := start_instruction in h)
    by (unfold exec_op; rewrite Hh; by destruct op).
  destruct (start_eq s0) as (s1 & E1 & He1 & Ht).
  destruct (HP s1) as (s2 & E2 & Hst & Hpost); [by rewrite He1|].
  destruct (goto_op_end s2) as (s3 & E3 & He3); [rewrite Hst, Ht; apply Hclk|].
  exists s3. split; [|by apply Hpost].
  unfold mbind at 1. rewrite Ex. unfold mbind at 1. rewrite E1, E2.
  by rewrite (mbind_eq _ _ _ _ _ E3).
Qed.

(** One opcode whose handler leaves through label [l]. *)
Lemma step_label s b rest op h (P : St -> Prop) :
  unlimited (module s) ->
  code_at s (frame_ip s) = b :: rest -> dispatch b = Ok op ->
  handler op = Some h -> op <> WASM_OP_UNREACHABLE ->
  (forall s1, erase s1 = erase (set_frame_ip (frame_ip s + 1) s) ->
     exists l s2 s3, h s1 = Some (l, s2) /\ goto l s2 = Some (returned, s3) /\ P s3) ->
  exists s', step s = Some (false, s') /\ P s'.
Proof.
  intros Hu Hc Hd Hh Hop HP. unfold step.
  destruct (fetch_unlimited s b rest op Hu Hc Hd) as (s0 & E0 & He0).
  rewrite (mbind_eq _ _ _ _ _ E0).
  assert (Ex : exec_op op = let* _ := start_instruction in h)
    by (unfold exec_op; rewrite Hh; by destruct op).
  destruct (start_eq s0) as (s1 & E1 & He1 & Ht).
  destruct (HP s1) as (l & s2 & s3 & E2 & E3 & Hpost); [by rewrite He1|].
  exists s3. split; [|done].
  unfold mbind at 1. rewrite Ex. unfold mbind at 1. rewrite E1, E2.
  by rewrite (mbind_eq _ _ _ _ _ E3).
Qed.

Lemma step_trap s b rest op h (P : St -> Prop) :
  unlimited (module s) ->
  code_at s (frame_ip s) = b :: rest -> dispatch b = Ok op ->
  handler op = Some h -> op <> WASM_OP_UNREACHABLE ->
  (forall s1, erase s1 = erase (set_frame_ip (frame_ip s + 1) s) ->
     exists s2, h s1 = Some (got_exception, s2) /\ P s2) ->
  exists s', step s = Some (false, s') /\ P s'.
Proof.
  intros Hu Hc Hd Hh Hop HP. apply (step_label s b rest op h); try done.
  intros s1 E1. destruct (HP s1 E1) as (s2 & E2 & Hp). by exists got_exception, s2, s2.
Qed.

(** ** Runs *)

Lemma run_add n k s s' :
  run n s = Some (true, s') -> run (n + k) s = run k s'.
Proof.
  revert s. induction n as [|n IH]; intros s; cbn [run Nat.add].
  - unfold mret. intros E. by simplify_eq.
  - intros E. apply mbind_inv in E as (more & s1 & E1 & E). rewrite (mbind_eq _ _ _ _ _ E1).
    destruct more; [by apply IH|]. unfold mret in E. by simplify_eq.
Qed.

Lemma run_one s s' b : step s = Some (b, s') -> run 1 s = Some (b, s').
Proof. intros E. cbn [run]. rewrite (mbind_eq _ _ _ _ _ E). by destruct b. Qed.

Lemma run_trans n k s s1 r :
  run n s = Some (true, s1) -> run k s1 = r -> run (n + k) s = r.
Proof. intros E <-. by apply run_add. Qed.

End Step.

(** ** Reading immediates *)

(** The instruction pointer is in loaded code. *)
Definition ip_ok (s : St) : Prop := 0 <= code_base (module s) <= frame_ip s.

Lemma code_at_app s l r :
  ip_ok s -> code_at s (frame_ip s) = l ++ r ->
  code_at s (frame_ip s + Z.of_nat (length l)) = r.
Proof.
  unfold ip_ok, code_at, impdep_addr. intros Hi E.
  destruct (Z.eqb_spec (frame_ip s) (-1)); [lia|].
  destruct (Z.eqb_spec (frame_ip s + Z.of_nat (length l)) (-1)); [lia|].
  destruct (Z.ltb_spec (frame_ip s) (code_base (module s))); [lia|].
  destruct (Z.ltb_spec (frame_ip s + Z.of_nat (length l)) (code_base (module s))); [lia|].
  replace (Z.to_nat (frame_ip s + Z.of_nat (length l) - code_base (module s)))
    with (Z.to_nat (frame_ip s - code_base (module s)) + length l)%nat by lia.
  by rewrite <- drop_drop, E, drop_app_length.
Qed.

Lemma read_u32_enc s v rest :
  in_u 32 v -> code_at s (frame_ip s) = encode_uleb 5 v ++ rest ->
  read_u32 s = Some (v, set_frame_ip (frame_ip s + Z.of_nat (length (encode_uleb 5 v))) s).
Proof.
  intros Hv E. unfold read_u32, read_imm. rewrite E.
  destruct (encode_uleb_spec 5 v) as (H1 & H2 & H3); [|done|].
  { destruct Hv. pose proof (Z.pow_le_mono_r 2 32 (7 * Z.of_nat 5)). lia. }
  rewrite interp_u32_macro by (auto; lia). by rewrite H2, uwrap_id.
Qed.

Lemma read_s32_enc s v rest :
  in_s 32 v -> code_at s (frame_ip s) = encode_sleb 5 v ++ rest ->
  read_s32 s = Some (v, set_frame_ip (frame_ip s + Z.of_nat (length (encode_sleb 5 v))) s).
Proof.
  intros Hv E. unfold read_s32, read_imm. rewrite E.
  destruct (encode_sleb_spec 5 v) as (H1 & H2 & H3); [|done|].
  { destruct Hv. pose proof (Z.pow_le_mono_r 2 (32 - 1) (7 * Z.of_nat 5 - 1)). lia. }
  unfold Interp.read_leb_int32. rewrite interp_signed_macro by (auto; lia).
  by rewrite H2, swrap_id.
Qed.

Lemma read_s64_enc s v rest :
  in_s 64 v -> code_at s (frame_ip s) = encode_sleb 10 v ++ rest ->
  read_s64 s = Some (v, set_frame_ip (frame_ip s + Z.of_nat (length (encode_sleb 10 v))) s).
Proof.
  intros Hv E. unfold read_s64, read_imm. rewrite E.
  destruct (encode_sleb_spec 10 v) as (H1 & H2 & H3); [|done|].
  { destruct Hv. pose proof (Z.pow_le_mono_r 2 (64 - 1) (7 * Z.of_nat 10 - 1)). lia. }
  unfold Interp.read_leb_int64. rewrite interp_signed_macro by (auto; lia).
  by rewrite H2, swrap_id.
Qed.

(** ** A concrete machine *)

Lemma sample_clock_runs b : @clock_runs (sample_platform b).
Proof.
  intros n. cbn [os_clock sample_platform]. pose proof (Z.mod_pos_bound (Z.of_nat n) (2 ^ 30)).
  rewrite uwrap_id; unfold in_u; lia.
Qed.

Definition sample_natives : Natives := {|
  invoke_native := fun f lp e m w => Some (true, [u32 (default 0 (cells e !! lp) + 1)], e, m, w);
  safe_allocation := fun _ _ w => (0, w);
  heap_migrate := fun _ b => b
|}.

Lemma cells_ok_write_cells (c : gmap Z Z) (p : Z) (l : list Z) s :
  (forall q, in_u 32 (default 0 (c !! q))) ->
  cells (exec_env s) = write_cells c p l -> cells_ok s.
Proof.
  intros Hc E q. unfold cell_at. rewrite E. clear E. revert c p Hc q.
  induction l as [|v l IH]; intros c p Hc q; [apply Hc|]. cbn [write_cells]. apply IH.
  intros r. destruct (decide (p = r)) as [->|].
  - rewrite lookup_insert_eq. by apply uwrap_range.
  - by rewrite lookup_insert_ne.
Qed.

Lemma cells_ok_sample s p l : cells (exec_env s) = write_cells ∅ p l -> cells_ok s.
Proof. apply cells_ok_write_cells. intros q. rewrite lookup_empty. by split. Qed.

Definition sample_env (stack : list Z) : WASMExecEnv :=
  mkExecEnv (write_cells ∅ 6000 stack) ∅ 5000 5000 100000 0
    (replicate 64 (null_block_addr, null_block_addr)).
Definition sample_code_module (code : list Z) (fs : list WASMFunctionInstance) : WASMModuleInstance :=
  mkModuleInstance (Some sample_memory) None [] fs [] 1000 code None
    (Some sample_access_control) 0 0 0.
Definition sample_state (code stack : list Z) : St :=
  mkSt 5000 1000 6000 (6000 + 4 * Z.of_nat (length stack)) [] 0 0 48 4208 0 0
    (sample_env stack) (sample_code_module code []) sample_world.
