(* ===== verification/OpSpec.v ===== *)
(** * What the numeric opcodes compute

    A table of the operands, result and function of every numeric opcode,
    and the theorem that the handlers of
    [core/iwasm/interpreter/wasm_interp_classic.c] implement it on the
    operand stack - trapping instead of pushing where the function fails. *)

From S2P Require Import Prelude Numeric Leb Opcode BlockAddr Float Instance Machine Interp.
From S2P Require Import MachineFacts.
#[local] Open Scope Z_scope.

Section Table.
Context `{Platform}.

Let i32 := false.
Let i64 := true.
Let ok1 (f : Z -> Z) : Z -> res Z := fun v => Ok (f v).
Let ok2 (f : Z -> Z -> Z) : Z -> Z -> res Z := fun a b => Ok (f a b).
Let nan := nan_result.

(** Operand width, result width, function (widths: [true] is 64 bits). *)
Definition unop_sem (op : WASMOpcode) : option (bool * bool * (Z -> res Z)) :=
  match op with
  | WASM_OP_I32_EQZ => Some (i32, i32, ok1 (fun v => Z.b2z (v =? 0)))
  | WASM_OP_I64_EQZ => Some (i64, i32, ok1 (fun v => Z.b2z (v =? 0)))
  | WASM_OP_I32_CLZ => Some (i32, i32, ok1 clz32)
  | WASM_OP_I32_CTZ => Some (i32, i32, ok1 ctz32)
  | WASM_OP_I32_POPCNT => Some (i32, i32, ok1 popcount32)
  | WASM_OP_I64_CLZ => Some (i64, i64, ok1 clz64)
  | WASM_OP_I64_CTZ => Some (i64, i64, ok1 ctz64)
  | WASM_OP_I64_POPCNT => Some (i64, i64, ok1 popcount64)
  | WASM_OP_F32_ABS => Some (i32, i32, ok1 (f_abs nan F32))
  | WASM_OP_F32_NEG => Some (i32, i32, ok1 (f_neg F32))
  | WASM_OP_F32_CEIL => Some (i32, i32, ok1 (f_round nan F32 Ceil))
  | WASM_OP_F32_FLOOR => Some (i32, i32, ok1 (f_round nan F32 Floor))
  | WASM_OP_F32_TRUNC => Some (i32, i32, ok1 (f_round nan F32 Trunc))
  | WASM_OP_F32_NEAREST => Some (i32, i32, ok1 (f_round nan F32 Rint))
  | WASM_OP_F32_SQRT => Some (i32, i32, ok1 (f_sqrt nan F32))
  | WASM_OP_F64_ABS => Some (i64, i64, ok1 (f_abs nan F64))
  | WASM_OP_F64_NEG => Some (i64, i64, ok1 (f_neg F64))
  | WASM_OP_F64_CEIL => Some (i64, i64, ok1 (f_round nan F64 Ceil))
  | WASM_OP_F64_FLOOR => Some (i64, i64, ok1 (f_round nan F64 Floor))
  | WASM_OP_F64_TRUNC => Some (i64, i64, ok1 (f_round nan F64 Trunc))
  | WASM_OP_F64_NEAREST => Some (i64, i64, ok1 (f_round nan F64 Rint))
  | WASM_OP_F64_SQRT => Some (i64, i64, ok1 (f_sqrt nan F64))
  | WASM_OP_I32_WRAP_I64 => Some (i64, i32, ok1 u32)
  | WASM_OP_I64_EXTEND_S_I32 => Some (i32, i64, ok1 s32)
  | WASM_OP_I64_EXTEND_U_I32 => Some (i32, i64, ok1 u32)
  | WASM_OP_I32_TRUNC_S_F32 => Some (i32, i32, i32_trunc_s_f32)
  | WASM_OP_I32_TRUNC_U_F32 => Some (i32, i32, i32_trunc_u_f32)
  | WASM_OP_I32_TRUNC_S_F64 => Some (i64, i32, i32_trunc_s_f64)
  | WASM_OP_I32_TRUNC_U_F64 => Some (i64, i32, i32_trunc_u_f64)
  | WASM_OP_I64_TRUNC_S_F32 => Some (i32, i64, i64_trunc_s_f32)
  | WASM_OP_I64_TRUNC_U_F32 => Some (i32, i64, i64_trunc_u_f32)
  | WASM_OP_I64_TRUNC_S_F64 => Some (i64, i64, i64_trunc_s_f64)
  | WASM_OP_I64_TRUNC_U_F64 => Some (i64, i64, i64_trunc_u_f64)
  | WASM_OP_F32_CONVERT_S_I32 => Some (i32, i32, ok1 (fun v => f_of_int nan F32 (s32 v)))
  | WASM_OP_F32_CONVERT_U_I32 => Some (i32, i32, ok1 (fun v => f_of_int nan F32 (u32 v)))
  | WASM_OP_F32_CONVERT_S_I64 => Some (i64, i32, ok1 (fun v => f_of_int nan F32 (s64 v)))
  | WASM_OP_F32_CONVERT_U_I64 => Some (i64, i32, ok1 (fun v => f_of_int nan F32 (u64 v)))
  | WASM_OP_F32_DEMOTE_F64 => Some (i64, i32, ok1 (f_of_float nan F64 F32))
  | WASM_OP_F64_CONVERT_S_I32 => Some (i32, i64, ok1 (fun v => f_of_int nan F64 (s32 v)))
  | WASM_OP_F64_CONVERT_U_I32 => Some (i32, i64, ok1 (fun v => f_of_int nan F64 (u32 v)))
  | WASM_OP_F64_CONVERT_S_I64 => Some (i64, i64, ok1 (fun v => f_of_int nan F64 (s64 v)))
  | WASM_OP_F64_CONVERT_U_I64 => Some (i64, i64, ok1 (fun v => f_of_int nan F64 (u64 v)))
  | WASM_OP_F64_PROMOTE_F32 => Some (i32, i64, ok1 (f_of_float nan F32 F64))
  | _ => None
  end.

Let cmp_u (c : Z -> Z -> bool) := ok2 (fun a b => Z.b2z (c a b)).
Let cmp_s (w : Z) (c : Z -> Z -> bool) := ok2 (fun a b => Z.b2z (c (swrap w a) (swrap w b))).
Let cmp_f (f : float_fmt) (c : fcmp) := ok2 (f_cmp f c).
Let arith (w : Z) (op : Z -> Z -> Z) := ok2 (fun a b => uwrap w (op a b)).
Let shift := op_shift BUILD_TARGET_X86.

(** Operand width (of both), result width, function. *)
Definition binop_sem (op : WASMOpcode) : option (bool * bool * (Z -> Z -> res Z)) :=
  match op with
  | WASM_OP_I32_EQ => Some (i32, i32, cmp_u Z.eqb)
  | WASM_OP_I32_NE => Some (i32, i32, cmp_u (fun a b => negb (a =? b)))
  | WASM_OP_I32_LT_S => Some (i32, i32, cmp_s 32 Z.ltb)
  | WASM_OP_I32_LT_U => Some (i32, i32, cmp_u Z.ltb)
  | WASM_OP_I32_GT_S => Some (i32, i32, cmp_s 32 Z.gtb)
  | WASM_OP_I32_GT_U => Some (i32, i32, cmp_u Z.gtb)
  | WASM_OP_I32_LE_S => Some (i32, i32, cmp_s 32 Z.leb)
  | WASM_OP_I32_LE_U => Some (i32, i32, cmp_u Z.leb)
  | WASM_OP_I32_GE_S => Some (i32, i32, cmp_s 32 Z.geb)
  | WASM_OP_I32_GE_U => Some (i32, i32, cmp_u Z.geb)
  | WASM_OP_I64_EQ => Some (i64, i32, cmp_u Z.eqb)
  | WASM_OP_I64_NE => Some (i64, i32, cmp_u (fun a b => negb (a =? b)))
  | WASM_OP_I64_LT_S => Some (i64, i32, cmp_s 64 Z.ltb)
  | WASM_OP_I64_LT_U => Some (i64, i32, cmp_u Z.ltb)
  | WASM_OP_I64_GT_S => Some (i64, i32, cmp_s 64 Z.gtb)
  | WASM_OP_I64_GT_U => Some (i64, i32, cmp_u Z.gtb)
  | WASM_OP_I64_LE_S => Some (i64, i32, cmp_s 64 Z.leb)
  | WASM_OP_I64_LE_U => Some (i64, i32, cmp_u Z.leb)
  | WASM_OP_I64_GE_S => Some (i64, i32, cmp_s 64 Z.geb)
  | WASM_OP_I64_GE_U => Some (i64, i32, cmp_u Z.geb)
  | WASM_OP_F32_EQ => Some (i32, i32, cmp_f F32 FEq)
  | WASM_OP_F32_NE => Some (i32, i32, cmp_f F32 FNe)
  | WASM_OP_F32_LT => Some (i32, i32, cmp_f F32 FLt)
  | WASM_OP_F32_GT => Some (i32, i32, cmp_f F32 FGt)
  | WASM_OP_F32_LE => Some (i32, i32, cmp_f F32 FLe)
  | WASM_OP_F32_GE => Some (i32, i32, cmp_f F32 FGe)
  | WASM_OP_F64_EQ => Some (i64, i32, cmp_f F64 FEq)
  | WASM_OP_F64_NE => Some (i64, i32, cmp_f F64 FNe)
  | WASM_OP_F64_LT => Some (i64, i32, cmp_f F64 FLt)
  | WASM_OP_F64_GT => Some (i64, i32, cmp_f F64 FGt)
  | WASM_OP_F64_LE => Some (i64, i32, cmp_f F64 FLe)
  | WASM_OP_F64_GE => Some (i64, i32, cmp_f F64 FGe)
  | WASM_OP_I32_ADD => Some (i32, i32, arith 32 Z.add)
  | WASM_OP_I32_SUB => Some (i32, i32, arith 32 Z.sub)
  | WASM_OP_I32_MUL => Some (i32, i32, arith 32 Z.mul)
  | WASM_OP_I32_DIV_S => Some (i32, i32, op_div_s 32)
  | WASM_OP_I32_DIV_U => Some (i32, i32, op_div_u 32)
  | WASM_OP_I32_REM_S => Some (i32, i32, op_rem_s 32)
  | WASM_OP_I32_REM_U => Some (i32, i32, op_rem_u 32)
  | WASM_OP_I32_AND => Some (i32, i32, arith 32 Z.land)
  | WASM_OP_I32_OR => Some (i32, i32, arith 32 Z.lor)
  | WASM_OP_I32_XOR => Some (i32, i32, arith 32 Z.lxor)
  | WASM_OP_I32_SHL => Some (i32, i32, shift 32 Z.shiftl u32)
  | WASM_OP_I32_SHR_S => Some (i32, i32, shift 32 Z.shiftr s32)
  | WASM_OP_I32_SHR_U => Some (i32, i32, shift 32 Z.shiftr u32)
  | WASM_OP_I32_ROTL => Some (i32, i32, ok2 rotl32)
  | WASM_OP_I32_ROTR => Some (i32, i32, ok2 rotr32)
  | WASM_OP_I64_ADD => Some (i64, i64, arith 64 Z.add)
  | WASM_OP_I64_SUB => Some (i64, i64, arith 64 Z.sub)
  | WASM_OP_I64_MUL => Some (i64, i64, arith 64 Z.mul)
  | WASM_OP_I64_DIV_S => Some (i64, i64, op_div_s 64)
  | WASM_OP_I64_DIV_U => Some (i64, i64, op_div_u 64)
  | WASM_OP_I64_REM_S => Some (i64, i64, op_rem_s 64)
  | WASM_OP_I64_REM_U => Some (i64, i64, op_rem_u 64)
  | WASM_OP_I64_AND => Some (i64, i64, arith 64 Z.land)
  | WASM_OP_I64_OR => Some (i64, i64, arith 64 Z.lor)
  | WASM_OP_I64_XOR => Some (i64, i64, arith 64 Z.lxor)
  | WASM_OP_I64_SHL => Some (i64, i64, shift 64 Z.shiftl u64)
  | WASM_OP_I64_SHR_S => Some (i64, i64, shift 64 Z.shiftr s64)
  | WASM_OP_I64_SHR_U => Some (i64, i64, shift 64 Z.shiftr u64)
  | WASM_OP_I64_ROTL => Some (i64, i64, ok2 rotl64)
  | WASM_OP_I64_ROTR => Some (i64, i64, ok2 rotr64)
  | WASM_OP_F32_ADD => Some (i32, i32, ok2 (f_numeric nan F32 FAdd))
  | WASM_OP_F32_SUB => Some (i32, i32, ok2 (f_numeric nan F32 FSub))
  | WASM_OP_F32_MUL => Some (i32, i32, ok2 (f_numeric nan F32 FMul))
  | WASM_OP_F32_DIV => Some (i32, i32, ok2 (f_numeric nan F32 FDiv))
  | WASM_OP_F32_MIN => Some (i32, i32, ok2 (f_minmax nan F32 wa_fmin))
  | WASM_OP_F32_MAX => Some (i32, i32, ok2 (f_minmax nan F32 wa_fmax))
  | WASM_OP_F32_COPYSIGN => Some (i32, i32, ok2 (f_copysign nan F32))
  | WASM_OP_F64_ADD => Some (i64, i64, ok2 (f_numeric nan F64 FAdd))
  | WASM_OP_F64_SUB => Some (i64, i64, ok2 (f_numeric nan F64 FSub))
  | WASM_OP_F64_MUL => Some (i64, i64, ok2 (f_numeric nan F64 FMul))
  | WASM_OP_F64_DIV => Some (i64, i64, ok2 (f_numeric nan F64 FDiv))
  | WASM_OP_F64_MIN => Some (i64, i64, ok2 (f_minmax nan F64 wa_fmin))
  | WASM_OP_F64_MAX => Some (i64, i64, ok2 (f_minmax nan F64 wa_fmax))
  | WASM_OP_F64_COPYSIGN => Some (i64, i64, ok2 (f_copysign nan F64))
  | _ => None
  end.

End Table.

(** ** The handlers implement the table *)

Section Handlers.
Context `{Platform} `{Natives}.

Definition trap_st (e : string) (s : St) : St := set_module (wasm_set_exception (Some e) (module s)) s.

(** The state a handler leaves: the result pushed over the operands, or the
    exception set. *)
Definition finish (r : bool) (n : Z) (v : res Z) (s : St) : option (label * St) :=
  match v with
  | Ok x => Some (op_end, push_st r x (add_sp (- n) s))
  | Err e => Some (got_exception, trap_st e (add_sp (- n) s))
  | Undef => None
  end.

Definition second_val (a : bool) (s : St) : Z := val_at a s (frame_sp s - 8 * ncells a).

Lemma put_val_add_sp a p v n s : put_val a p v (add_sp n s) = add_sp n (put_val a p v s).
Proof. by destruct a. Qed.

Lemma push_in_place a v n s :
  push_st a v (add_sp (- n - ncells a) s) =
    add_sp (- n) (put_val a (frame_sp s - 4 * (n + ncells a)) v s).
Proof.
  unfold push_st. rewrite put_val_add_sp, add_sp_add, frame_sp_add.
  f_equal; [lia|]. f_equal. lia.
Qed.

Lemma top_val_add_sp a s : top_val a (add_sp (- ncells a) s) = second_val a s.
Proof.
  unfold top_val, second_val. rewrite frame_sp_add.
  assert (forall p, val_at a (add_sp (- ncells a) s) p = val_at a s p) as -> by (by destruct a).
  f_equal. lia.
Qed.

Lemma op_unary_spec a r f s :
  op_unary a r f s = finish r (ncells a) (Ok (f (top_val a s))) s.
Proof. unfold op_unary. rewrite (mbind_eq _ _ _ _ _ (pop_eq a s)). unfold mbind. by rewrite push_eq. Qed.

Lemma op_unary_res_spec a r f s :
  op_unary_res a r f s = finish r (ncells a) (f (top_val a s)) s.
Proof.
  unfold op_unary_res. rewrite (mbind_eq _ _ _ _ _ (pop_eq a s)).
  destruct (f _); cbn [try finish]; [|done..]. unfold mbind. by rewrite push_eq.
Qed.

Lemma op_binary_spec a r f s :
  op_binary a r f s = finish r (2 * ncells a) (Ok (f (second_val a s) (top_val a s))) s.
Proof.
  unfold op_binary. rewrite (mbind_eq _ _ _ _ _ (pop_eq a s)), (mbind_eq _ _ _ _ _ (pop_eq a _)).
  unfold mbind. rewrite push_eq, top_val_add_sp, add_sp_add. cbn [finish].
  by replace (- ncells a + - ncells a) with (- (2 * ncells a)) by lia.
Qed.

Lemma op_binary_res_spec a f s :
  op_binary_res a f s = finish a (2 * ncells a) (f (second_val a s) (top_val a s)) s.
Proof.
  unfold op_binary_res. rewrite (mbind_eq _ _ _ _ _ (pop_eq a s)), (mbind_eq _ _ _ _ _ (pop_eq a _)).
  rewrite top_val_add_sp, add_sp_add.
  replace (- ncells a + - ncells a) with (- (2 * ncells a)) by lia.
  destruct (f _ _); cbn [try finish]; [|done..]. unfold mbind. by rewrite push_eq.
Qed.

(** An operation that cannot trap. *)
Lemma op_inplace_spec a f s :
  (forall v1 v2 e, f v1 v2 <> Err e) ->
  op_inplace a f s = finish a (2 * ncells a) (f (second_val a s) (top_val a s)) s.
Proof.
  intros Hf. unfold op_inplace. rewrite (mbind_eq _ _ _ _ _ (pop_eq a s)).
  unfold mbind at 1. cbn [get].
  assert (Hv : val_at a (add_sp (- ncells a) s) (frame_sp (add_sp (- ncells a) s) - 4 * ncells a)
    = second_val a s) by apply top_val_add_sp.
  destruct (f (second_val a s) (top_val a s)) as [x|e|] eqn:E; [|by apply Hf in E|].
  - cbn [finish]. replace (- (2 * ncells a)) with (- ncells a - ncells a) by lia.
    rewrite (push_in_place a x (ncells a) s), <- put_val_add_sp.
    replace (frame_sp s - 4 * (ncells a + ncells a))
      with (frame_sp (add_sp (- ncells a) s) - 4 * ncells a) by (rewrite frame_sp_add; lia).
    set (s1 := add_sp (- ncells a) s) in *.
    destruct a; cbn [val_at ncells] in Hv; change (4 * 2) with 8 in *; change (4 * 1) with 4 in *;
      unfold mbind, read_cell, GET_I64_FROM_ADDR, get; rewrite Hv, E; done.
  - destruct a; cbn [val_at ncells] in Hv; change (4 * 2) with 8 in *; change (4 * 1) with 4 in *;
      unfold mbind, read_cell, GET_I64_FROM_ADDR, get;
      cbn [ncells] in *; rewrite Hv, E; done.
Qed.

Lemma op_neg_spec a s :
  op_neg a s = finish a (ncells a) (Ok (f_neg (if a then F64 else F32) (top_val a s))) s.
Proof.
  cbn [finish]. replace (- ncells a) with (- 0 - ncells a) by lia.
  rewrite push_in_place, <- put_val_add_sp.
  replace (add_sp (- 0) s) with s by (destruct s; unfold add_sp, set_frame_sp; cbn -[Z.mul Z.add]; f_equal; lia).
  destruct a; done.
Qed.

(** Functions that agree on words give the same result. *)
Lemma finish_ext r n f g s : f = g -> finish r n f s = finish r n g s.
Proof. by intros ->. Qed.

Lemma top_val_range a s : cells_ok s -> in_u (width a) (top_val a s).
Proof. intros Hs. by apply val_at_range. Qed.

Lemma second_val_range a s : cells_ok s -> in_u (width a) (second_val a s).
Proof. intros Hs. by apply val_at_range. Qed.

Lemma land_wrap v : Z.land v 0xffffffff = u32 v.
Proof. change 0xffffffff with (Z.ones 32). by rewrite Z.land_ones by lia. Qed.

Lemma op_shift_no_err x86 w op conv a b e : op_shift x86 w op conv a b <> Err e.
Proof. unfold op_shift, DEF_OP_NUMERIC2, DEF_OP_SHIFT. destruct x86; by destruct (_ <? w). Qed.

Lemma unop_implemented op a r f s :
  unop_sem op = Some (a, r, f) ->
  exists h, handler op = Some h /\ op <> WASM_OP_UNREACHABLE /\
    h s = finish r (ncells a) (f (top_val a s)) s.
Proof.
  destruct op; try discriminate; intros E; injection E as <- <- <-;
    (eexists; split; [reflexivity|split; [discriminate|]]);
    first [ rewrite op_unary_spec; apply finish_ext; first [done | by rewrite land_wrap]
          | rewrite op_unary_res_spec; done | rewrite op_neg_spec; done ].
Qed.

Lemma binop_implemented op a r f s :
  cells_ok s -> binop_sem op = Some (a, r, f) ->
  exists h, handler op = Some h /\ op <> WASM_OP_UNREACHABLE /\
    h s = finish r (2 * ncells a) (f (second_val a s) (top_val a s)) s.
Proof.
  intros Hs Hop. pose proof (top_val_range a s Hs) as H1. pose proof (second_val_range a s Hs) as H2.
  revert Hop H1 H2.
  destruct op; try discriminate; intros E; injection E as <- <- <-; intros H1 H2;
    (eexists; split; [reflexivity|split; [discriminate|]]);
    unfold op_numeric, op_numeric_shift, op_numeric_float, op_cmp, op_cmp_float, neqb;
    first [ rewrite op_inplace_spec by (intros; first [apply op_shift_no_err | discriminate]); done
          | rewrite op_binary_res_spec; done
          | rewrite op_binary_spec; apply finish_ext; unfold DEF_OP_CMP;
              cbn [width] in *; rewrite ?(uwrap_id _ _ H1), ?(uwrap_id _ _ H2); done ].
Qed.

Lemma top_val_erase a s : top_val a (erase s) = top_val a s.
Proof. by destruct a. Qed.
Lemma second_val_erase a s : second_val a (erase s) = second_val a s.
Proof. by destruct a. Qed.

(** What one opcode does to a running module: pushes over its operands and
    goes on, or sets the exception and returns. *)
Definition steps_to (s : St) (r : bool) (n : Z) (v : res Z) : Prop :=
  match v with
  | Ok x => exists s', step s = Some (true, s') /\
              erase s' = erase (push_st r x (add_sp (- n) (set_frame_ip (frame_ip s + 1) s)))
  | Err e => exists s', step s = Some (false, s') /\ wasm_get_exception (module s') = Some e
  | Undef => True
  end.

Lemma steps_to_finish s rest op r n v h :
  clock_runs -> unlimited (module s) ->
  code_at s (frame_ip s) = opcode_val op :: rest -> handler op = Some h ->
  op <> WASM_OP_UNREACHABLE ->
  (forall s1, erase s1 = erase (set_frame_ip (frame_ip s + 1) s) -> h s1 = finish r n v s1) ->
  steps_to s r n v.
Proof.
  intros Hclk Hu Hc Hh Hop HP.
  assert (Hd : dispatch (opcode_val op) = Ok op) by (unfold dispatch; by rewrite handle_table_val).
  destruct v as [x|e|]; cbn [steps_to]; [| |done].
  - eapply step_ok; [done..|]. intros s1 E1. rewrite (HP _ E1). cbn [finish].
    eexists. split; [done|]. split; [by rewrite start_push|].
    intros s3 ->. by rewrite !erase_push, !erase_add_sp, E1.
  - eapply step_trap; [done..|]. intros s1 E1. rewrite (HP _ E1). cbn [finish].
    eexists. split; [done|]. done.
Qed.

Lemma unop_step s rest op a r f :
  clock_runs -> unlimited (module s) -> code_at s (frame_ip s) = opcode_val op :: rest ->
  unop_sem op = Some (a, r, f) -> steps_to s r (ncells a) (f (top_val a s)).
Proof.
  intros Hclk Hu Hc Hop. destruct (unop_implemented op a r f s Hop) as (h & Hh & Hn & _).
  eapply steps_to_finish; [done..|]. intros s1 E1.
  destruct (unop_implemented op a r f s1 Hop) as (h' & Hh' & _ & Hf).
  rewrite Hh in Hh'. injection Hh' as <-.
  rewrite Hf, <- (top_val_erase a s1), E1. by destruct a.
Qed.

Lemma binop_step s rest op a r f :
  clock_runs -> unlimited (module s) -> cells_ok s ->
  code_at s (frame_ip s) = opcode_val op :: rest ->
  binop_sem op = Some (a, r, f) -> steps_to s r (2 * ncells a) (f (second_val a s) (top_val a s)).
Proof.
  intros Hclk Hu Hs Hc Hop. destruct (binop_implemented op a r f s Hs Hop) as (h & Hh & Hn & _).
  eapply steps_to_finish; [done..|]. intros s1 E1.
  assert (Hs1 : cells_ok s1) by (rewrite <- cells_ok_erase, E1; done).
  destruct (binop_implemented op a r f s1 Hs1 Hop) as (h' & Hh' & _ & Hf).
  rewrite Hh in Hh'. injection Hh' as <-.
  rewrite Hf, <- (top_val_erase a s1), <- (second_val_erase a s1), E1. by destruct a.
Qed.

(** C5: every numeric, comparison and conversion opcode - integer and float,
    at both widths - does what its row of the table says: one step of a
    module within its energy budget replaces the operands on the stack by
    the function's value and moves to the next opcode, or, where the
    function traps, ends the run with that trap's exception. *)
Theorem numeric_opcodes_refine_table (s : St) (rest : list Z) (op : WASMOpcode) :
  clock_runs -> unlimited (module s) -> cells_ok s ->
  code_at s (frame_ip s) = opcode_val op :: rest ->
  (forall a r f, unop_sem op = Some (a, r, f) ->
     steps_to s r (ncells a) (f (top_val a s))) /\
  (forall a r f, binop_sem op = Some (a, r, f) ->
     steps_to s r (2 * ncells a) (f (second_val a s) (top_val a s))).
Proof. intros Hclk Hu Hs Hc. split; intros a r f; [by eapply unop_step|by eapply binop_step]. Qed.

End Handlers.

(** [i32.sub] of 7 and 9; [i32.div_u] by zero. *)
Lemma numeric_opcodes_refine_table_witness :
  (exists s', @step (sample_platform true) sample_natives (sample_state [0x6b] [7; 9]) = Some (true, s') /\
     top_val false s' = 2 ^ 32 - 2) /\
  (exists s', @step (sample_platform true) sample_natives (sample_state [0x6e] [7; 0]) = Some (false, s') /\
     wasm_get_exception (module s') = Some "integer divide by zero"%string).
Proof.
  pose proof (@numeric_opcodes_refine_table (sample_platform true) sample_natives) as T.
  split.
  - destruct (T (sample_state [0x6b] [7; 9]) [] WASM_OP_I32_SUB) as [_ H];
      [apply sample_clock_runs|by left|by eapply (cells_ok_sample _ 6000)|done|].
    destruct (H _ _ _ eq_refl) as (s' & E & Es). exists s'. split; [done|].
    rewrite <- top_val_erase, Es. vm_compute. reflexivity.
  - destruct (T (sample_state [0x6e] [7; 0]) [] WASM_OP_I32_DIV_U) as [_ H];
      [apply sample_clock_runs|by left|by eapply (cells_ok_sample _ 6000)|done|].
    exact (H _ _ _ eq_refl).
Defined.
