(* ===== verification/Sandbox.v ===== *)
(** * Linear memory accesses

    The bounds check of the load and store handlers
    ([CHECK_MEMORY_OVERFLOW] in
    [core/iwasm/interpreter/wasm_interp_classic.c]): which addresses it
    lets through, that those stay inside heap and linear memory, and what
    the handlers then read and write. *)

From S2P Require Import Prelude Numeric Leb Opcode BlockAddr Float Instance Machine Interp.
From S2P Require Import MachineFacts.
#[local] Open Scope Z_scope.

Section Sandbox.
Context `{Platform} `{Natives}.

(** The registers agree with the memory instance. *)
Record memory_view (s : St) (m : WASMMemoryInstance) : Prop := {
  mv_memory : default_memory (module s) = Some m;
  mv_wf : mem_wf m;
  mv_total : total_mem_size s = linear_size m + heap_size m
}.

(** Application addresses are signed: linear memory from 0, the heap below. *)
Definition app_addr (offset addr : Z) : Z := s32 (u32 (offset + addr)).
Definition app_addr_ok (m : WASMMemoryInstance) (a n : Z) : bool :=
  (- heap_size m <=? a) && (a + n <=? linear_size m).

Definition is_mem_op (op : WASMOpcode) : bool :=
  op_between op WASM_OP_I32_LOAD WASM_OP_I64_STORE32.

Lemma load_size_range op : is_mem_op op = true -> 1 <= load_size op <= 8.
Proof. destruct op; vm_compute; intros; try done; split; congruence. Qed.

Lemma app_addr_case offset addr :
  let ea := u32 (offset + addr) in
  0 <= ea < 2 ^ 32 /\ app_addr offset addr = if ea <? 2 ^ 31 then ea else ea - 2 ^ 32.
Proof.
  cbn zeta. pose proof (uwrap_range 32 (offset + addr)) as Hr. split; [apply Hr; lia|].
  unfold app_addr. rewrite swrap_case by (try lia; apply Hr; lia). done.
Qed.

Lemma linear_size_nonneg m : mem_wf m -> 0 <= linear_size m.
Proof. intros [? ? ? ? ? ? ? ? ? ? ? ?]. unfold linear_size. nia. Qed.

(** [offset2], the value that is compared. *)
Lemma offset2_eq m offset addr :
  mem_wf m ->
  effective (heap_base_offset m) addr offset =
    (app_addr offset addr, u32 (app_addr offset addr + heap_size m)).
Proof.
  intros Hwf. unfold effective. fold (app_addr offset addr). f_equal.
  rewrite (wf_heap_base _ Hwf), uwrap_sub_l. f_equal. lia.
Qed.

Lemma check_cases m offset addr n :
  mem_wf m -> linear_size m <= 2 ^ 31 -> 1 <= n ->
  (u32 (app_addr offset addr + heap_size m) + n <=? linear_size m + heap_size m) =
    app_addr_ok m (app_addr offset addr) n.
Proof.
  intros Hwf Hlin Hn. pose proof (linear_size_nonneg m Hwf) as Hl.
  destruct (app_addr_case offset addr) as [He ->]. set (ea := u32 (offset + addr)) in *.
  pose proof (wf_heap _ Hwf) as Hh. set (h := heap_size m) in *. unfold app_addr_ok. fold h.
  destruct (Z.ltb_spec ea (2 ^ 31)).
  - rewrite uwrap_id by (unfold in_u; lia). zcmp; cbn; lia || done.
  - destruct (Z.ltb_spec (ea + h) (2 ^ 32)).
    + replace (u32 (ea - 2 ^ 32 + h)) with (ea + h).
      * zcmp; cbn; lia || done.
      * unfold uwrap. replace (ea - 2 ^ 32 + h) with (ea + h + (-1) * 2 ^ 32) by lia.
        rewrite Z.mod_add by lia. rewrite Z.mod_small; lia.
    + rewrite uwrap_id by (unfold in_u; lia). zcmp; cbn; lia || done.
Qed.

Lemma check_eq s m op offset addr :
  memory_view s m -> linear_size m <= 2 ^ 31 -> is_mem_op op = true ->
  CHECK_MEMORY_OVERFLOW op offset addr s =
    Some (if app_addr_ok m (app_addr offset addr) (load_size op)
          then Some (heap_size m + app_addr offset addr) else None, s).
Proof.
  intros [Hm Hwf Ht] Hlin Hop. pose proof (load_size_range op Hop).
  unfold CHECK_MEMORY_OVERFLOW, mbind, get, lift, mret. rewrite Hm, Ht.
  change (default 0 (heap_base_offset <$> Some m)) with (heap_base_offset m).
  rewrite (offset2_eq m offset addr Hwf), check_cases by (done || lia).
  by destruct (app_addr_ok _ _ _).
Qed.

(** C2: with at most 2 GiB of linear memory the bounds check of every load
    and store lets an access through exactly when it lies in the heap or
    the linear memory of the instance (addresses are taken as signed 32-bit,
    the heap below 0), and the address then used is inside the block: it
    reaches neither the globals behind nor anything before it. *)
Theorem memory_access_sandboxed (s : St) m op offset addr :
  memory_view s m -> linear_size m <= 2 ^ 31 -> is_mem_op op = true ->
  let a := app_addr offset addr in
  CHECK_MEMORY_OVERFLOW op offset addr s =
    Some (if app_addr_ok m a (load_size op) then Some (heap_size m + a) else None, s) /\
  (app_addr_ok m a (load_size op) = true ->
     0 <= heap_size m + a /\ heap_size m + a + load_size op <= global_data m).
Proof.
  intros Hv Hlin Hop a. subst a. split; [by apply check_eq|]. destruct Hv as [Hm Hwf Ht].
  rewrite (wf_global_data _ Hwf). unfold app_addr_ok.
  rewrite andb_true_iff, !Z.leb_le. lia.
Qed.

(** C29: the 2 GiB bound is needed.  In a larger linear memory there are
    accesses the check lets through although their address lies before the
    memory instance: the effective address is converted to [int32] before
    it is added to the 64-bit pointer. *)
Theorem large_memory_escape (s : St) m op :
  memory_view s m -> 2 ^ 31 + 8 <= linear_size m -> is_mem_op op = true ->
  exists maddr, CHECK_MEMORY_OVERFLOW op 0 (2 ^ 31) s = Some (Some maddr, s) /\
    maddr < 0 /\ (forall n, load_bytes maddr n s = None).
Proof.
  intros [Hm Hwf Ht] Hlin Hop. pose proof (load_size_range op Hop) as Hn.
  pose proof (wf_heap _ Hwf) as Hh.
  assert (Ha : app_addr 0 (2 ^ 31) = - 2 ^ 31) by reflexivity.
  exists (heap_size m - 2 ^ 31). split; [|split; [lia|]].
  - unfold CHECK_MEMORY_OVERFLOW, mbind, get, lift, mret. rewrite Hm, Ht.
    change (default 0 (heap_base_offset <$> Some m)) with (heap_base_offset m).
    rewrite (offset2_eq m 0 (2 ^ 31) Hwf), Ha.
    replace (u32 (- 2 ^ 31 + heap_size m)) with (2 ^ 31 + heap_size m).
    + destruct (Z.leb_spec (2 ^ 31 + heap_size m + load_size op) (linear_size m + heap_size m)); [done|lia].
    + unfold uwrap. replace (- 2 ^ 31 + heap_size m) with (2 ^ 31 + heap_size m + (-1) * 2 ^ 32) by lia.
      rewrite Z.mod_add by lia. rewrite Z.mod_small; lia.
  - intros n. unfold load_bytes, mbind, get_memory, in_block. rewrite Hm.
    destruct (Z.leb_spec 0 (heap_size m - 2 ^ 31)); [lia|done].
Qed.

(** ** Loads *)

(** Both immediates of a memory access. *)
Definition memarg_bytes (flags offset : Z) : list Z := encode_uleb 5 flags ++ encode_uleb 5 offset.
Definition after_memarg (flags offset : Z) (s : St) : St :=
  set_frame_ip (frame_ip s + Z.of_nat (length (memarg_bytes flags offset))) s.

Lemma memarg_eq s flags offset rest :
  ip_ok s -> in_u 32 flags -> in_u 32 offset ->
  code_at s (frame_ip s) = memarg_bytes flags offset ++ rest ->
  memarg s = Some (offset, after_memarg flags offset s).
Proof.
  intros Hi Hf Ho Hc. unfold memarg_bytes in Hc. rewrite <- app_assoc in Hc. unfold memarg.
  rewrite (mbind_eq _ _ _ _ _ (read_u32_enc s flags _ Hf Hc)).
  rewrite (read_u32_enc (set_frame_ip (frame_ip s + Z.of_nat (length (encode_uleb 5 flags))) s)
    offset rest Ho (code_at_app s _ _ Hi Hc)).
  unfold after_memarg, memarg_bytes. rewrite length_app.
  do 2 f_equal. destruct s. cbn. unfold set_frame_ip. cbn. f_equal. lia.
Qed.

(** The loads of WebAssembly: bytes read, signed, 64-bit result. *)
Definition load_spec (op : WASMOpcode) : option (nat * bool * bool) :=
  match op with
  | WASM_OP_I32_LOAD | WASM_OP_F32_LOAD => Some (4%nat, false, false)
  | WASM_OP_I64_LOAD | WASM_OP_F64_LOAD => Some (8%nat, false, true)
  | WASM_OP_I32_LOAD8_S => Some (1%nat, true, false)
  | WASM_OP_I32_LOAD8_U => Some (1%nat, false, false)
  | WASM_OP_I32_LOAD16_S => Some (2%nat, true, false)
  | WASM_OP_I32_LOAD16_U => Some (2%nat, false, false)
  | WASM_OP_I64_LOAD8_S => Some (1%nat, true, true)
  | WASM_OP_I64_LOAD8_U => Some (1%nat, false, true)
  | WASM_OP_I64_LOAD16_S => Some (2%nat, true, true)
  | WASM_OP_I64_LOAD16_U => Some (2%nat, false, true)
  | WASM_OP_I64_LOAD32_S => Some (4%nat, true, true)
  | WASM_OP_I64_LOAD32_U => Some (4%nat, false, true)
  | _ => None
  end.
Definition loaded_value (n : nat) (signed : bool) (bytes : list Z) : Z :=
  if signed then swrap (8 * Z.of_nat n) (le_val bytes) else le_val bytes.

Lemma load_kind_spec op n signed wide :
  load_spec op = Some (n, signed, wide) ->
  is_mem_op op = true /\ load_size op = Z.of_nat n /\ exists conv, load_kind op = (n, conv, wide) /\
    forall l, conv (le_val l) = loaded_value n signed l.
Proof.
  destruct op; try discriminate; intros E; injection E as <- <- <-;
    (split; [reflexivity|]; split; [reflexivity|]; eexists; split; [reflexivity|]); intros l;
    unfold loaded_value; try done; (apply sign_ext_id; [lia|]); apply swrap_range; lia.
Qed.

Lemma in_block_ok m a n :
  mem_wf m -> 0 <= heap_size m + a -> heap_size m + a + Z.of_nat n <= global_data m ->
  in_block m (heap_size m + a) n = true.
Proof.
  intros [? ? ? ? ? ? Hg He Ht ? ? ?] H1 H2. unfold in_block.
  apply andb_true_iff. split; apply Z.leb_le; lia.
Qed.

Lemma load_bytes_ok s m a n :
  memory_view s m -> app_addr_ok m a (Z.of_nat n) = true ->
  load_bytes (heap_size m + a) n s =
    Some (le_val (read_bytes (mem_bytes m) (heap_size m + a) n), s).
Proof.
  intros [Hm Hwf Ht] Ha. unfold load_bytes, mbind, get_memory. rewrite Hm.
  unfold app_addr_ok in Ha. rewrite andb_true_iff, !Z.leb_le in Ha.
  rewrite in_block_ok by (done || lia || (rewrite (wf_global_data _ Hwf); lia)). done.
Qed.

Lemma memory_view_module s s' m :
  module s' = module s -> total_mem_size s' = total_mem_size s ->
  memory_view s m -> memory_view s' m.
Proof. intros E1 E2 [H1 H2 H3]. constructor; congruence. Qed.

Definition pop_addr (n : Z) (s : St) : St := add_sp (- n) s.

Lemma op_load_eq (s : St) m op n signed wide flags offset rest :
  memory_view s m -> linear_size m <= 2 ^ 31 -> load_spec op = Some (n, signed, wide) ->
  ip_ok s -> in_u 32 flags -> in_u 32 offset ->
  code_at s (frame_ip s) = memarg_bytes flags offset ++ rest ->
  let a := app_addr offset (top_val false s) in
  let s1 := pop_addr 1 (after_memarg flags offset s) in
  op_load op s =
    if app_addr_ok m a (Z.of_nat n)
    then Some (op_end, push_st wide
           (loaded_value n signed (read_bytes (mem_bytes m) (heap_size m + a) n)) s1)
    else Some (out_of_bounds, s1).
Proof.
  intros Hv Hlin Hop Hi Hf Ho Hc. cbn zeta.
  destruct (load_kind_spec _ _ _ _ Hop) as (Hmem & Hsz & conv & Hk & Hconv).
  unfold op_load. rewrite (mbind_eq _ _ _ _ _ (memarg_eq s flags offset rest Hi Hf Ho Hc)).
  set (s0 := after_memarg flags offset s).
  rewrite (mbind_eq _ _ _ _ _ (pop_eq false s0)).
  change (top_val false s0) with (top_val false s). fold (pop_addr 1 s0).
  change (add_sp (- ncells false) s0) with (pop_addr 1 s0). set (s1 := pop_addr 1 s0).
  assert (Hv1 : memory_view s1 m) by (by apply (memory_view_module s)).
  rewrite (mbind_eq _ _ _ _ _ (check_eq s1 m op offset _ Hv1 Hlin Hmem)), Hsz.
  destruct (app_addr_ok _ _ _) eqn:Ha; [|done].
  rewrite Hk. rewrite (mbind_eq _ _ _ _ _ (load_bytes_ok s1 m _ n ltac:(done) Ha)).
  rewrite Hconv. unfold mbind. by destruct wide.
Qed.

(** C9: the loads.  With at most 2 GiB of linear memory every load handler
    leaves memory alone and replaces the address on the operand stack by the
    bytes there, little-endian, sign- or zero-extended to the result width,
    if all of them are in heap or linear memory; otherwise it goes to
    [out_of_bounds].  No load is undefined. *)
Theorem loads_correct (s : St) m op n signed wide flags offset rest :
  memory_view s m -> linear_size m <= 2 ^ 31 -> load_spec op = Some (n, signed, wide) ->
  ip_ok s -> in_u 32 flags -> in_u 32 offset ->
  code_at s (frame_ip s) = memarg_bytes flags offset ++ rest ->
  let a := app_addr offset (top_val false s) in
  let s1 := pop_addr 1 (after_memarg flags offset s) in
  op_load op s =
    if app_addr_ok m a (Z.of_nat n)
    then Some (op_end, push_st wide
           (loaded_value n signed (read_bytes (mem_bytes m) (heap_size m + a) n)) s1)
    else Some (out_of_bounds, s1).
Proof. apply op_load_eq. Qed.

(** ** Stores *)

(** Bytes stored and width of the operand. *)
Definition store_spec (op : WASMOpcode) : option (nat * bool) :=
  match op with
  | WASM_OP_I32_STORE | WASM_OP_F32_STORE => Some (4%nat, false)
  | WASM_OP_I32_STORE8 => Some (1%nat, false)
  | WASM_OP_I32_STORE16 => Some (2%nat, false)
  | WASM_OP_I64_STORE | WASM_OP_F64_STORE => Some (8%nat, true)
  | WASM_OP_I64_STORE8 => Some (1%nat, true)
  | WASM_OP_I64_STORE16 => Some (2%nat, true)
  | WASM_OP_I64_STORE32 => Some (4%nat, true)
  | _ => None
  end.

Definition with_bytes (m : WASMMemoryInstance) (bs : gmap Z Z) (s : St) : St :=
  set_module (set_default_memory (Some (set_mem_bytes bs m)) (module s)) s.

Lemma store_bytes_ok s m a n v :
  default_memory (module s) = Some m -> in_block m a n = true ->
  store_bytes a n v s = Some (tt, with_bytes m (write_bytes (mem_bytes m) a (le_bytes n v)) s).
Proof. intros Hm Ha. unfold store_bytes, mbind, get_memory. by rewrite Hm, Ha. Qed.

Lemma app_addr_in_block m a n :
  mem_wf m -> app_addr_ok m a (Z.of_nat n) = true -> in_block m (heap_size m + a) n = true.
Proof.
  intros Hwf Ha. unfold app_addr_ok in Ha. rewrite andb_true_iff, !Z.leb_le in Ha.
  apply in_block_ok; [done|lia|rewrite (wf_global_data _ Hwf); lia].
Qed.

(** The two halves of a double are the bytes of the whole. *)
Lemma le_bytes_halves lo hi :
  in_u 32 lo -> le_bytes 8 (lo + 2 ^ 32 * hi) = le_bytes 4 lo ++ le_bytes 4 hi.
Proof.
  intros Hlo. rewrite (le_bytes_app 4 4). change (8 * Z.of_nat 4) with 32. f_equal.
  - rewrite <- le_bytes_wrap. f_equal. change (8 * Z.of_nat 4) with 32. unfold uwrap.
    rewrite Z.mul_comm, Z.mod_add by lia. by apply Z.mod_small.
  - f_equal. rewrite Z.shiftr_div_pow2, Z.mul_comm, Z.div_add by lia.
    unfold in_u in Hlo. rewrite Z.div_small; lia.
Qed.

Lemma in_block_sub m a n k j :
  in_block m a n = true -> (k + j <= n)%nat -> in_block m (a + Z.of_nat k) j = true.
Proof. unfold in_block. rewrite !andb_true_iff, !Z.leb_le. lia. Qed.

Lemma store_f64_bytes s m a lo hi :
  default_memory (module s) = Some m -> in_block m a 8 = true -> in_u 32 lo ->
  (do* store_bytes a 4 lo in store_bytes (a + 4) 4 hi) s =
    Some (tt, with_bytes m (write_bytes (mem_bytes m) a (le_bytes 8 (lo + 2 ^ 32 * hi))) s).
Proof.
  intros Hm Ha Hlo. pose proof (in_block_sub m a 8 0 4 Ha ltac:(lia)) as H1.
  pose proof (in_block_sub m a 8 4 4 Ha ltac:(lia)) as H2.
  rewrite Z.add_0_r in H1. rewrite (mbind_eq _ _ _ _ _ (store_bytes_ok s m a 4 lo Hm H1)).
  rewrite (store_bytes_ok _ (set_mem_bytes (write_bytes (mem_bytes m) a (le_bytes 4 lo)) m) (a + 4) 4 hi)
    by done.
  rewrite le_bytes_halves, write_bytes_app, length_le_bytes by done. done.
Qed.

(** The handler of a store. *)
Definition op_store (op : WASMOpcode) : M label := default mundef (exec_memory op).

(** The address below a value of width [wide]. *)
Definition store_addr (wide : bool) (s : St) : Z := cell_at s (frame_sp s - 4 * ncells wide - 4).

Lemma add_sp_sub1 wide s :
  add_sp (- ncells false) (add_sp (- ncells wide) s) = add_sp (- (ncells wide + 1)) s.
Proof. rewrite add_sp_add. f_equal. cbn [ncells]. lia. Qed.

Lemma top_addr wide s : top_val false (add_sp (- ncells wide) s) = store_addr wide s.
Proof.
  unfold top_val, store_addr. rewrite val_at_add_sp, frame_sp_add. cbn [val_at ncells].
  f_equal. lia.
Qed.

Lemma pop_addr_eq wide s :
  POP_I32 (add_sp (- ncells wide) s) = Some (store_addr wide s, add_sp (- (ncells wide + 1)) s).
Proof. change POP_I32 with (pop false). by rewrite pop_eq, top_addr, add_sp_sub1. Qed.

(** What every store handler does once the immediates are read. *)
Definition store_outcome (m : WASMMemoryInstance) (n : nat) (wide : bool) (a : Z) (s0 : St)
    : option (label * St) :=
  let s1 := add_sp (- (ncells wide + 1)) s0 in
  if app_addr_ok m a (Z.of_nat n) then
    Some (op_end, with_bytes m
      (write_bytes (mem_bytes m) (heap_size m + a) (le_bytes n (top_val wide s0))) s1)
  else Some (out_of_bounds, s1).

Section Store.
Context (s0 s : St) (m : WASMMemoryInstance) (offset : Z).
Hypothesis Hview : memory_view s0 m.
Hypothesis Hlin : linear_size m <= 2 ^ 31.
Hypothesis Hmemarg : memarg s = Some (offset, s0).

Lemma view_popped n : memory_view (add_sp n s0) m.
Proof. by apply (memory_view_module s0). Qed.

Lemma op_store_int_outcome wide op n :
  is_mem_op op = true -> load_size op = Z.of_nat n -> store_size op = n ->
  op_store_int wide op s = store_outcome m n wide (app_addr offset (store_addr wide s0)) s0.
Proof.
  intros Hop Hl Hn. unfold op_store_int. rewrite (mbind_eq _ _ _ _ _ Hmemarg).
  change (if wide then POP_I64 else POP_I32) with (pop wide).
  rewrite (mbind_eq _ _ _ _ _ (pop_eq wide s0)), (mbind_eq _ _ _ _ _ (pop_addr_eq wide s0)).
  rewrite (mbind_eq _ _ _ _ _ (check_eq _ m op offset _ (view_popped _) Hlin Hop)), Hl, Hn.
  unfold store_outcome. destruct (app_addr_ok _ _ _) eqn:Ha; [|done].
  by rewrite (mbind_eq _ _ _ _ _ (store_bytes_ok (add_sp (- (ncells wide + 1)) s0)
    m _ n (top_val wide s0) (mv_memory _ _ Hview)
    (app_addr_in_block m _ n (mv_wf _ _ Hview) Ha))).
Qed.

Lemma op_store_f32_outcome :
  op_store_f32 s = store_outcome m 4 false (app_addr offset (store_addr false s0)) s0.
Proof.
  unfold op_store_f32. rewrite (mbind_eq _ _ _ _ _ Hmemarg).
  change (move_sp (-1)) with (modify (add_sp (- ncells false))). unfold mbind at 1. cbn [modify].
  rewrite (mbind_eq _ _ _ _ _ (pop_addr_eq false s0)).
  rewrite (mbind_eq _ _ _ _ _ (check_eq _ m WASM_OP_F32_STORE offset _ (view_popped _) Hlin eq_refl)).
  unfold store_outcome. change (load_size WASM_OP_F32_STORE) with (Z.of_nat 4).
  destruct (app_addr_ok _ _ _) eqn:Ha; [|done]. set (s1 := add_sp _ s0).
  assert (E : cell_at s1 (frame_sp s1 + 4) = top_val false s0).
  { unfold top_val. change (cell_at s0 (frame_sp s1 + 4) = cell_at s0 (frame_sp s0 - 4 * 1)).
    f_equal. unfold s1. rewrite frame_sp_add. cbn [ncells]. lia. }
  unfold mbind at 1, get. unfold mbind at 1, read_cell, get. rewrite E.
  by rewrite (mbind_eq _ _ _ _ _ (store_bytes_ok s1 m _ 4 (top_val false s0) (mv_memory _ _ Hview)
    (app_addr_in_block m _ 4 (mv_wf _ _ Hview) Ha))).
Qed.

Lemma op_store_f64_outcome :
  cells_ok s0 ->
  op_store_f64 s = store_outcome m 8 true (app_addr offset (store_addr true s0)) s0.
Proof.
  intros Hs. unfold op_store_f64. rewrite (mbind_eq _ _ _ _ _ Hmemarg).
  change (move_sp (-2)) with (modify (add_sp (- ncells true))). unfold mbind at 1. cbn [modify].
  rewrite (mbind_eq _ _ _ _ _ (pop_addr_eq true s0)).
  rewrite (mbind_eq _ _ _ _ _ (check_eq _ m WASM_OP_F64_STORE offset _ (view_popped _) Hlin eq_refl)).
  unfold store_outcome. change (load_size WASM_OP_F64_STORE) with (Z.of_nat 8).
  destruct (app_addr_ok _ _ _) eqn:Ha; [|done]. set (s1 := add_sp _ s0).
  pose proof (app_addr_in_block m _ 8 (mv_wf _ _ Hview) Ha) as Hb.
  assert (E : top_val true s0 = cell_at s1 (frame_sp s1 + 4) + 2 ^ 32 * cell_at s1 (frame_sp s1 + 8)).
  { unfold top_val. unfold s1. rewrite frame_sp_add. cbn [val_at ncells]. unfold i64_at.
    change (cell_at (add_sp (- (2 + 1)) s0)) with (cell_at s0). do 2 f_equal; [|f_equal]; lia. }
  pose proof (store_f64_bytes s1 m _ (cell_at s1 (frame_sp s1 + 4)) (cell_at s1 (frame_sp s1 + 8))
    (mv_memory _ _ Hview) Hb (Hs _)) as Hst. rewrite <- E in Hst.
  unfold mbind at 1, get. unfold mbind at 1, read_cell, get.
  apply mbind_inv in Hst as ([] & s2 & E1 & E2). rewrite (mbind_eq _ _ _ _ _ E1).
  assert (E3 : cell_at s2 (frame_sp s1 + 8) = cell_at s1 (frame_sp s1 + 8)).
  { pose proof (in_block_sub m _ 8 0 4 Hb ltac:(lia)) as H1. rewrite Z.add_0_r in H1.
    rewrite (store_bytes_ok s1 m _ 4 _ (mv_memory _ _ Hview) H1) in E1.
    injection E1 as <-. reflexivity. }
  unfold mbind at 1, read_cell, get. rewrite E3. by rewrite (mbind_eq _ _ _ _ _ E2).
Qed.

End Store.

Lemma op_store_outcome op n wide s s0 m offset :
  memory_view s0 m -> linear_size m <= 2 ^ 31 -> cells_ok s0 ->
  memarg s = Some (offset, s0) -> store_spec op = Some (n, wide) ->
  op_store op s = store_outcome m n wide (app_addr offset (store_addr wide s0)) s0.
Proof.
  intros Hv Hl Hs Hm. destruct op; try discriminate; intros E; injection E as <- <-;
    first [ by apply op_store_f32_outcome | by apply op_store_f64_outcome
          | by apply op_store_int_outcome ].
Qed.

(** C10: the stores.  With at most 2 GiB of linear memory every store
    handler pops value and address and writes the low bytes of the value,
    little-endian, at the address - if all of them are in heap or linear
    memory; otherwise it goes to [out_of_bounds] and memory is unchanged.
    A store changes no other byte, so the globals behind the linear memory
    cannot be overwritten, and reading the same bytes gives the value back. *)
Theorem stores_correct (s : St) m op n wide flags offset rest :
  memory_view s m -> linear_size m <= 2 ^ 31 -> store_spec op = Some (n, wide) ->
  ip_ok s -> cells_ok s -> in_u 32 flags -> in_u 32 offset ->
  code_at s (frame_ip s) = memarg_bytes flags offset ++ rest ->
  let a := app_addr offset (store_addr wide s) in
  let s1 := pop_addr (ncells wide + 1) (after_memarg flags offset s) in
  let bs := write_bytes (mem_bytes m) (heap_size m + a) (le_bytes n (top_val wide s)) in
  op_store op s = Some (if app_addr_ok m a (Z.of_nat n) then (op_end, with_bytes m bs s1)
                        else (out_of_bounds, s1)) /\
  (app_addr_ok m a (Z.of_nat n) = true ->
    (forall k, global_data m <= k -> mem_byte bs k = mem_byte (mem_bytes m) k) /\
    (forall k, ~ (heap_size m + a <= k < heap_size m + a + Z.of_nat n) ->
       mem_byte bs k = mem_byte (mem_bytes m) k) /\
    loaded_value n false (read_bytes bs (heap_size m + a) n) =
      uwrap (8 * Z.of_nat n) (top_val wide s)).
Proof.
  intros Hv Hlin Hop Hi Hs Hf Ho Hc a s1 bs.
  assert (Hout : forall k, ~ (heap_size m + a <= k < heap_size m + a + Z.of_nat n) ->
    mem_byte bs k = mem_byte (mem_bytes m) k).
  { intros k Hk. unfold bs. rewrite mem_byte_write_bytes, length_le_bytes.
    zcmp; cbn [andb]; try lia; done. }
  split; [|split; [|split; [done|]]].
  - set (s0 := after_memarg flags offset s).
    rewrite (op_store_outcome op n wide s s0 m offset); try done.
    + unfold store_outcome. change (store_addr wide s0) with (store_addr wide s).
      assert (top_val wide s0 = top_val wide s) as -> by (by destruct wide).
      fold a. by destruct (app_addr_ok _ _ _).
    + by apply (memory_view_module s).
    + by apply (memarg_eq s flags offset rest).
  - intros k Hk. apply Hout. unfold app_addr_ok in H1. rewrite andb_true_iff, !Z.leb_le in H1.
    rewrite (wf_global_data _ (mv_wf _ _ Hv)) in Hk. lia.
  - unfold loaded_value, bs.
    rewrite <- (length_le_bytes n (top_val wide s)) at 2. rewrite read_write_bytes. apply le_val_bytes.
Qed.

End Sandbox.

(** ** Concrete accesses *)

Lemma sample_view code stack :
  @memory_view (sample_platform true) (sample_state code stack) sample_memory.
Proof. constructor; [reflexivity|apply sample_memory_wf|reflexivity]. Qed.

Lemma memory_access_sandboxed_witness :
  CHECK_MEMORY_OVERFLOW WASM_OP_I32_LOAD 24 4 (sample_state [] []) =
    Some (Some 44, sample_state [] []) /\
  CHECK_MEMORY_OVERFLOW WASM_OP_I32_LOAD 25 4 (sample_state [] []) =
    Some (None, sample_state [] []).
Proof.
  split.
  - apply (@memory_access_sandboxed (sample_platform true) (sample_state [] []) sample_memory
      WASM_OP_I32_LOAD 24 4 (sample_view _ _)); [vm_compute; congruence|reflexivity].
  - apply (@memory_access_sandboxed (sample_platform true) (sample_state [] []) sample_memory
      WASM_OP_I32_LOAD 25 4 (sample_view _ _)); [vm_compute; congruence|reflexivity].
Defined.

(** 3 GiB of linear memory. *)
Definition large_memory : WASMMemoryInstance :=
  mkMemory 65536 49152 65536 (-1024) 1024 3221226496 0 3221226496 3221226560 4096 4100 ∅.
Definition large_state : St :=
  set_total_mem_size 3221226496
    (set_module (set_default_memory (Some large_memory) (module (sample_state [] []))) (sample_state [] [])).

Lemma large_memory_escape_witness :
  exists maddr, CHECK_MEMORY_OVERFLOW WASM_OP_I64_STORE 0 (2 ^ 31) large_state =
    Some (Some maddr, large_state) /\ maddr < 0.
Proof.
  destruct (@large_memory_escape (sample_platform true) large_state large_memory WASM_OP_I64_STORE)
    as (maddr & E & Hn & _).
  - constructor; [reflexivity| |reflexivity].
    constructor; try (vm_compute; split; congruence); try (vm_compute; congruence);
      try (vm_compute; reflexivity).
  - vm_compute. congruence.
  - reflexivity.
  - by exists maddr.
Defined.

Lemma loads_correct_witness :
  exists s', @op_load (sample_platform true) WASM_OP_I32_LOAD8_U (sample_state [0; 8; 0x0b] [16]) =
    Some (op_end, s') /\ top_val false s' = 1.
Proof.
  rewrite (@loads_correct (sample_platform true) (sample_state [0; 8; 0x0b] [16]) sample_memory
    WASM_OP_I32_LOAD8_U 1 false false 0 8 [0x0b] (sample_view _ _)).
  - vm_compute. by eexists.
  - vm_compute. congruence.
  - reflexivity.
  - vm_compute. split; congruence.
  - by split.
  - by split.
  - reflexivity.
Defined.

Lemma stores_correct_witness :
  exists s', @op_store (sample_platform true) sample_natives WASM_OP_I32_STORE16
      (sample_state [1; 0; 0x0b] [30; 0x1234567]) = Some (op_end, s').
Proof.
  rewrite (proj1 (@stores_correct (sample_platform true) sample_natives
    (sample_state [1; 0; 0x0b] [30; 0x1234567]) sample_memory
    WASM_OP_I32_STORE16 2 false 1 0 [0x0b] (sample_view _ _) ltac:(vm_compute; congruence) eq_refl
    ltac:(vm_compute; split; congruence) ltac:(by eapply (cells_ok_sample _ 6000))
    ltac:(by split) ltac:(by split) eq_refl)).
  vm_compute. by eexists.
Defined.
