(* ===== verification/Traps.v ===== *)
(** * Traps, returns and metering of the interpreter

    Why an activation of [wasm_interp_call_func_bytecode] ends, what
    [wasm_interp_call_wasm] leaves behind, and what the energy meter around
    each dispatch lets through
    ([core/iwasm/interpreter/wasm_interp_classic.c], [check_cpu_consumption]
    of [core/iwasm/interpreter/wasm_runtime.c]). *)

From S2P Require Import Prelude Numeric Leb Opcode BlockAddr Float Instance Machine Interp.
From S2P Require Import MachineFacts.
#[local] Open Scope Z_scope.

(** ** Postconditions *)

Definition mpost {A} (m : M A) (Q : A -> St -> Prop) : Prop :=
  forall s a s', m s = Some (a, s') -> Q a s'.

Lemma mpost_bind {A B} (m : M A) (k : A -> M B) Q :
  (forall a, mpost (k a) Q) -> mpost (mbind m k) Q.
Proof. intros H s b s' E. apply mbind_inv in E as (a & s1 & _ & E). by eapply H. Qed.

Lemma mpost_bind2 {A B} (m : M A) (R : A -> St -> Prop) (k : A -> M B) Q :
  mpost m R -> (forall a s b s', R a s -> k a s = Some (b, s') -> Q b s') -> mpost (mbind m k) Q.
Proof. intros Hm H s b s' E. apply mbind_inv in E as (a & s1 & E1 & E). eauto. Qed.

Lemma mpost_ret {A} (a : A) (Q : A -> St -> Prop) : (forall s, Q a s) -> mpost (mret a) Q.
Proof. intros H s a' s' E. unfold mret in E. by simplify_eq. Qed.

Lemma mpost_use {A} (m : M A) s a s' Q : m s = Some (a, s') -> mpost m Q -> Q a s'.
Proof. intros E H. by eapply H. Qed.

Lemma mpost_weaken {A} (m : M A) (Q R : A -> St -> Prop) :
  mpost m Q -> (forall a s, Q a s -> R a s) -> mpost m R.
Proof. intros H HR s a s' E. eauto. Qed.

Lemma mpost_undef {A} (Q : A -> St -> Prop) : mpost mundef Q.
Proof. done. Qed.

Section Traps.
Context `{Platform} `{Natives}.

(** ** Every [goto got_exception] follows a [wasm_set_exception] *)

Definition has_exception (s : St) : Prop := wasm_get_exception (module s) <> None.
Definition excused (l : label) (s : St) : Prop :=
  l <> returned /\ (l = got_exception -> has_exception s).

Lemma excused_throw msg : mpost (throw msg) excused.
Proof.
  intros s l s' E. unfold throw, mbind, modify, mret in E. by simplify_eq.
Qed.

Lemma excused_ret l : l <> returned -> l <> got_exception -> mpost (mret l) excused.
Proof. intros Hr Hl. apply mpost_ret. intros s. by split. Qed.

Ltac excuse :=
  repeat lazymatch goal with
  | |- mpost (throw _) _ => apply excused_throw
  | |- mpost mundef _ => apply mpost_undef
  | |- mpost (mret _) _ => apply excused_ret; discriminate
  | |- mpost (mbind _ _) _ => apply mpost_bind; intros ?
  | |- mpost (try ?r _) _ => destruct r; cbn [try]
  | |- mpost (if ?b then _ else _) _ => destruct b
  | |- mpost (match ?x with _ => _ end) _ => destruct x
  | |- mpost (let '(_, _) := ?x in _) _ => destruct x
  end.

Lemma op_return_excused : mpost op_return excused.
Proof. unfold op_return. excuse. Qed.

Lemma exec_control_excused op h : exec_control op = Some h -> mpost h excused.
Proof.
  destruct op; try discriminate; intros E; injection E as <-;
    first [ apply op_return_excused
          | unfold op_block, op_loop, op_if, op_else, op_endblock, op_br, op_br_if, op_br_table,
              op_call, op_call_indirect, op_impdep, op_drop, op_select, op_select_64, op_get_local,
              op_get_local_fast, op_set_local, op_set_local_fast, op_tee_local, op_tee_local_fast,
              op_get_global, op_set_global; excuse; apply op_return_excused ].
Qed.

Lemma op_load_excused op : mpost (op_load op) excused.
Proof. unfold op_load. excuse. Qed.

Lemma exec_memory_excused op h : exec_memory op = Some h -> mpost h excused.
Proof.
  assert (Hd : forall o, (if op_between o WASM_OP_I32_LOAD WASM_OP_I64_LOAD32_U
    then Some (op_load o) else None) = Some h -> mpost h excused).
  { intros o. destruct (op_between _ _ _); [|done]. intros E. injection E as <-. apply op_load_excused. }
  unfold exec_memory.
  destruct op; cbv beta iota;
    lazymatch goal with
    | |- (if op_between ?o _ _ then _ else _) = _ -> _ => apply (Hd o)
    | _ => intros E; injection E as <-
    end;
    unfold op_store_f32, op_store_f64, op_store_int, op_memory_size, op_memory_grow, op_const,
      op_const_float; excuse.
Qed.

Lemma op_unary_excused a r f : mpost (op_unary a r f) excused.
Proof. unfold op_unary. excuse. Qed.
Lemma op_unary_res_excused a r f : mpost (op_unary_res a r f) excused.
Proof. unfold op_unary_res. excuse. Qed.
Lemma op_binary_excused a r f : mpost (op_binary a r f) excused.
Proof. unfold op_binary. excuse. Qed.
Lemma op_binary_res_excused a f : mpost (op_binary_res a f) excused.
Proof. unfold op_binary_res. excuse. Qed.
Lemma op_inplace_excused a f : mpost (op_inplace a f) excused.
Proof. unfold op_inplace. excuse. Qed.
Lemma op_neg_excused a : mpost (op_neg a) excused.
Proof. unfold op_neg. excuse. Qed.

Lemma numeric_excused op h :
  union (exec_cmp op) (union (exec_cmp_float op) (union (exec_i32 op) (union (exec_i64 op)
    (union (exec_f32 op) (union (exec_f64 op) (exec_conv op)))))) = Some h ->
  mpost h excused.
Proof.
  destruct op; try discriminate; intros E; injection E as <-;
    first [ apply op_unary_excused | apply op_unary_res_excused | apply op_binary_excused
          | apply op_binary_res_excused | apply op_inplace_excused | apply op_neg_excused
          | by apply excused_ret ].
Qed.

Lemma union_inv {A} (x y : option A) a : x ∪ y = Some a -> x = Some a \/ (x = None /\ y = Some a).
Proof. destruct x, y; cbn; intros E; simplify_eq; auto. Qed.

Lemma exec_op_excused op : mpost (exec_op op) excused.
Proof.
  assert (Hh : forall h, handler op = Some h -> mpost h excused).
  { intros h E. apply union_inv in E as [E|[_ E]]; [by eapply exec_control_excused|].
    apply union_inv in E as [E|[_ E]]; [by eapply exec_memory_excused|].
    by apply (numeric_excused op). }
  unfold exec_op. destruct op; try apply excused_throw;
    (destruct (handler _) eqn:E; [apply mpost_bind; intros _; by apply Hh|apply excused_throw]).
Qed.

(** ** How an activation ends *)

(** The callee returned to native code: its frame is popped and the frame
    of the native caller is current. *)
Definition returned_to_native (s : St) : Prop :=
  exists fr, frames (exec_env s) !! prev_frame s = Some fr /\ fr_ip fr = 0 /\
    cur_frame (exec_env s) = prev_frame s /\ stack_top (exec_env s) = frame s.

Definition ends_well (l : label) (s : St) : Prop :=
  (l = got_exception -> has_exception s) /\ (l = returned -> has_exception s \/ returned_to_native s).

Lemma excused_ends_well l s : excused l s -> ends_well l s.
Proof. intros [Hn He]. by split. Qed.

Lemma enter_bytecode_excused i f : mpost (enter_bytecode i f) excused.
Proof.
  unfold enter_bytecode. apply mpost_bind. intros prev. destruct (_ <=? _); [apply excused_throw|].
  eapply (mpost_bind2 _ (fun p s => p = None -> has_exception s)).
  - intros s p s' E ->. unfold ALLOC_FRAME in E.
    destruct (wasm_exec_env_alloc_wasm_frame _ _) as [[addr e]|]; by simplify_eq.
  - intros [p|] s l s' Hp E.
    + apply (mpost_use _ _ _ _ _ E). excuse.
    + unfold mbind, modify, mret in E. injection E as <- <-. split; [done|].
      intros _. by apply Hp.
Qed.

Lemma do_call_func_from_entry_excused : mpost do_call_func_from_entry excused.
Proof.
  unfold do_call_func_from_entry. apply mpost_bind. intros i. apply mpost_bind. intros f.
  destruct (is_import_func f); [|apply enter_bytecode_excused].
  do 8 (apply mpost_bind; intros ?).
  eapply (mpost_bind2 _ (fun e s => wasm_get_exception (module s) = e)).
  - intros s e s' E. unfold get in E. by simplify_eq.
  - intros [e|] s l s' He E; unfold mret in E; simplify_eq; split; try done.
    intros _. unfold has_exception. by rewrite He.
Qed.

Lemma do_return_func_ends : mpost do_return_func ends_well.
Proof.
  intros s l s' E. unfold do_return_func in E.
  apply mbind_inv in E as (p & s1 & E1 & E). unfold get in E1. simplify_eq.
  apply mbind_inv in E as (prev & s2 & E2 & E). unfold get in E2. simplify_eq.
  apply mbind_inv in E as ([] & s3 & E3 & E). unfold FREE_FRAME, modify in E3. simplify_eq.
  apply mbind_inv in E as ([] & s4 & E4 & E).
  unfold wasm_exec_env_set_cur_frame, modify in E4. simplify_eq.
  apply mbind_inv in E as (f & s5 & E5 & E). unfold get_frame in E5.
  destruct (_ !! _) eqn:Ef; [|done]. simplify_eq. destruct (Z.eqb_spec (fr_ip f) 0).
  - unfold mret in E. simplify_eq. split; [done|]. intros _. right. exists f. split; [done|].
    split; [done|]. by split.
  - apply mbind_inv in E as ([] & s6 & _ & E). unfold mret in E. by simplify_eq.
Qed.

Lemma HANDLE_OP_END_excused : mpost HANDLE_OP_END excused.
Proof. unfold HANDLE_OP_END. excuse. Qed.

Lemma do_call_func_from_interp_excused : mpost do_call_func_from_interp excused.
Proof. unfold do_call_func_from_interp. excuse. Qed.

Lemma goto1_ends l s l' s' :
  ends_well l s -> goto1 l s = Some (l', s') -> ends_well l' s'.
Proof.
  intros [He Hr] E. destruct l; cbn [goto1] in E.
  - by eapply excused_ends_well, HANDLE_OP_END_excused.
  - unfold mret in E. by simplify_eq.
  - unfold mret in E. simplify_eq. split; [done|]. intros _. left. by apply He.
  - by eapply excused_ends_well, excused_throw.
  - by eapply do_return_func_ends.
  - by eapply excused_ends_well, do_call_func_from_interp_excused.
  - by eapply excused_ends_well, do_call_func_from_entry_excused.
  - unfold mret in E. by simplify_eq.
Qed.

(** Jumps that remain after a label. *)
Definition rank (l : label) : nat :=
  match l with
  | fetch | returned => 0 | got_exception => 1 | op_end | out_of_bounds => 2
  | return_func | call_func_from_entry => 3 | call_func_from_interp => 4
  end.

Ltac ranks :=
  repeat lazymatch goal with
  | |- mpost (throw _) _ => let E := fresh in intros ? ? ? E; unfold throw, mbind, modify, mret in E;
                            injection E as <- <-; cbn; lia
  | |- mpost mundef _ => apply mpost_undef
  | |- mpost (mret _) _ => apply mpost_ret; intros _; cbn; lia
  | |- mpost (mbind _ _) _ => apply mpost_bind; intros ?
  | |- mpost (if ?b then _ else _) _ => destruct b
  | |- mpost (match ?x with _ => _ end) _ => destruct x
  end.

Lemma goto1_rank l : mpost (goto1 l) (fun l' _ => (rank l' <= rank l - 1)%nat).
Proof.
  destruct l; cbn [goto1]; unfold HANDLE_OP_END, do_return_func, do_call_func_from_interp,
    do_call_func_from_entry, enter_bytecode; ranks.
Qed.

Lemma goto_done l s l' s' : goto l s = Some (l', s') -> l' = fetch \/ l' = returned.
Proof.
  unfold goto. intros E.
  do 3 (let l := fresh "l" in let s := fresh "s" in let E1 := fresh "E" in
        apply mbind_inv in E as (l & s & E1 & E); apply goto1_rank in E1).
  apply goto1_rank in E.
  assert (rank l <= 4)%nat by (destruct l; cbn; lia).
  assert (rank l' = 0)%nat as Hr by lia. destruct l'; auto; discriminate.
Qed.

Lemma goto_ends l s l' s' : ends_well l s -> goto l s = Some (l', s') -> ends_well l' s'.
Proof.
  intros Hl E. unfold goto in E.
  do 3 (let l := fresh "l" in let s := fresh "s" in let E1 := fresh "E" in
        apply mbind_inv in E as (l & s & E1 & E); eapply goto1_ends in E1; [|done]).
  by eapply goto1_ends.
Qed.

Lemma fetch_none s s' :
  FETCH_OPCODE_AND_DISPATCH s = Some (None, s') ->
  wasm_get_exception (module s') = Some "max mcu power."%string.
Proof.
  unfold FETCH_OPCODE_AND_DISPATCH. intros E.
  apply mbind_inv in E as (t & s1 & _ & E). apply mbind_inv in E as (p & s2 & _ & E).
  apply mbind_inv in E as (ok & s3 & E3 & E). destruct ok.
  - exfalso. apply mbind_inv in E as (b & s4 & _ & E). by destruct (dispatch b).
  - unfold mret in E. simplify_eq. destruct (1000000 <? _).
    + unfold mbind, modify, mret in E3. by simplify_eq.
    + destruct (check_cpu_consumption _ _) as [[[] w]| |]; by simplify_eq.
Qed.

(** C12: an activation of the interpreter ends for a stated reason: if a
    step does not go on, then either an exception is set - every trap, a
    denied energy check, a failed call - or the function returned to its
    native caller, its frame popped and the caller's frame current. *)
Theorem activation_end_explained (s s' : St) :
  step s = Some (false, s') -> has_exception s' \/ returned_to_native s'.
Proof.
  unfold step. intros E. apply mbind_inv in E as (op & s1 & E1 & E). destruct op as [op|].
  - apply mbind_inv in E as (l & s2 & E2 & E). apply mbind_inv in E as (l' & s3 & E3 & E).
    unfold mret in E. injection E as Hl <-.
    destruct (goto_done _ _ _ _ E3) as [->| ->]; [done|].
    eapply goto_ends in E3 as [_ Hr]; [by apply Hr|]. eapply excused_ends_well, exec_op_excused, E2.
  - unfold mret in E. simplify_eq. left. unfold has_exception. by rewrite (fetch_none _ _ E1).
Qed.

(** ** What [wasm_interp_call_wasm] leaves behind *)

(** C8: a call from native code is balanced: whatever happens - a wrong
    argument count, a full stack, a trap deep in nested calls, a normal
    return - the current frame and the top of the WASM stack are afterwards
    what they were before, and a result is only delivered when no exception
    is set. *)
Theorem call_wasm_balanced fuel m e w i argv r m' e' w' :
  wasm_interp_call_wasm fuel m e w i argv = Ok (r, m', e', w') ->
  cur_frame e' = cur_frame e /\ stack_top e' = stack_top e /\
  match r with
  | None => wasm_get_exception m' <> None
  | Some res => wasm_get_exception m' = None /\ exists f, functions m !! i = Some f /\
      Z.of_nat (length argv) = param_cell_num f /\ length res = Z.to_nat (ret_cell_num f)
  end.
Proof.
  unfold wasm_interp_call_wasm. destruct (functions m !! i) as [f|] eqn:Ef; [|done].
  destruct (Z.eqb_spec (Z.of_nat (length argv)) (param_cell_num f)); cbn [negb];
    [|intros E; injection E as <- <- <- <-; split; [done|split; [done|discriminate]]].
  unfold wasm_exec_env_alloc_wasm_frame.
  destruct (_ <? _); [intros E; injection E as <- <- <- <-; split; [done|split; [done|discriminate]]|].
  destruct (if is_import_func f then _ else _) as [[[|] s]|]; [done| |done].
  destruct (frames (exec_env s) !! _) as [fr|]; [|done].
  intros E. injection E as <- <- <- <-. split; [done|]. split; [done|].
  destruct (wasm_get_exception (module s)); [done|]. split; [done|]. exists f.
  split; [done|]. split; [done|]. clear. generalize (fr_sp fr - 4 * ret_cell_num f).
  induction (Z.to_nat (ret_cell_num f)) as [|k IH]; intros p; cbn; [done|]. by rewrite IH.
Qed.

(** ** The energy meter *)

(** The consumption the check compares with the budget, as the code
    computes it and as it should be. *)
Definition metered (m : WASMModuleInstance) : Z :=
  u32 (default 0 (processor_power <$> access_control m)
       * u32 (native_execution_time_us m + wasm_instructions_energy m)).
Definition consumed (m : WASMModuleInstance) : Z :=
  default 0 (processor_power <$> access_control m)
    * (native_execution_time_us m + wasm_instructions_energy m).
Definition budget (m : WASMModuleInstance) : option Z :=
  match current_module_info m with Ok i => Some (processor_power_consumption i) | _ => None end.

Lemma check_cpu_eq m w :
  EVAL_NO_AEROGEL = false ->
  match check_cpu_consumption m w with
  | Ok (b, _) => exists max, budget m = Some max /\ b = (max <? metered m)
  | _ => budget m = None
  end.
Proof.
  intros Ha. unfold check_cpu_consumption, budget. rewrite Ha. destruct (tick w) as [t1 w1].
  assert (Hc : match current_module_info m with Err _ => False | _ => True end).
  { unfold current_module_info. destruct (access_control m) as [ac|]; [|done].
    by destruct (module_info ac !! _). }
  destruct (current_module_info m); cbn [res_bind]; [|done..].
  destruct (tick w1). eauto.
Qed.

(** C13: the energy check before every dispatch (builds with access
    control).  An opcode is dispatched only if a second has passed since the
    last reset - and then the counters restart at zero - or the metered
    consumption is within the module's budget; otherwise the activation ends
    with the exception "max mcu power." and nothing is dispatched.  The
    metered consumption is the true one as long as that fits in 32 bits. *)
Theorem dispatch_within_budget (s s' : St) (op : option WASMOpcode) :
  EVAL_NO_AEROGEL = false ->
  FETCH_OPCODE_AND_DISPATCH s = Some (op, s') ->
  let t := u32 (os_clock (w_ticks (world s))) in
  let expired := 1000000 <? u32 (t - prev_timestamp s) in
  match op with
  | Some _ => if expired then wasm_instructions_energy (module s') = 0 /\
                              native_execution_time_us (module s') = 0 /\ prev_timestamp s' = t
              else exists max, budget (module s) = Some max /\ metered (module s) <= max /\
                               module s' = module s
  | None => expired = false /\ wasm_get_exception (module s') = Some "max mcu power."%string /\
            exists max, budget (module s) = Some max /\ max < metered (module s)
  end /\
  (in_u 32 (native_execution_time_us (module s) + wasm_instructions_energy (module s)) ->
   in_u 32 (consumed (module s)) -> metered (module s) = consumed (module s)).
Proof.
  intros Ha E. split.
  2:{ intros H1 H2. unfold metered, consumed in *. by rewrite (uwrap_id 32 (_ + _)), uwrap_id. }
  unfold FETCH_OPCODE_AND_DISPATCH in E.
  apply mbind_inv in E as (t & s1 & E1 & E). unfold read_tick in E1. cbn in E1. simplify_eq.
  apply mbind_inv in E as (p & s2 & E2 & E). unfold get in E2. simplify_eq. cbn [prev_timestamp set_world] in E.
  destruct (1000000 <? _).
  - apply mbind_inv in E as (ok & s3 & E3 & E). unfold mbind, modify, mret in E3. simplify_eq.
    apply mbind_inv in E as (b & s4 & E4 & E). unfold next_byte in E4.
    destruct (code_at _ _); [done|]. simplify_eq. destruct (dispatch b); [|done..].
    unfold mret in E. by simplify_eq.
  - apply mbind_inv in E as (ok & s3 & E3 & E). cbn [module world set_world] in E3.
    pose proof (check_cpu_eq (module s) (set_w_ticks (S (w_ticks (world s))) (world s)) Ha) as Hc.
    cbn in E3. destruct (check_cpu_consumption _ _) as [[[] w]| |]; simplify_eq.
    + unfold mret in E. simplify_eq. destruct Hc as (max & Hb & Hm). split; [done|]. split; [done|].
      exists max. split; [done|]. symmetry in Hm. by apply Z.ltb_lt in Hm.
    + apply mbind_inv in E as (b & s4 & E4 & E). unfold next_byte in E4.
      destruct (code_at _ _); [done|]. simplify_eq. destruct (dispatch b); [|done..].
      unfold mret in E. simplify_eq. destruct Hc as (max & Hb & Hm). exists max.
      split; [done|]. symmetry in Hm. by apply Z.ltb_ge in Hm.
Qed.

(** C30: the check can be evaded by consuming more.  The product of power
    and time is a 32-bit word: for every processor power that is a power of
    two below 2^32 there is a running time whose true consumption is 2^32
    and whose metered consumption is 0, within every budget. *)
Theorem energy_check_wraps (m : WASMModuleInstance) (w : World) (ac : AccessControl) (k max : Z) :
  EVAL_NO_AEROGEL = false ->
  access_control m = Some ac -> 0 < k < 32 -> processor_power ac = 2 ^ k ->
  budget m = Some max -> 0 <= max < 2 ^ 32 ->
  let m' := set_native_execution_time_us 0 (set_wasm_instructions_energy (2 ^ (32 - k)) m) in
  consumed m' = 2 ^ 32 /\ max < consumed m' /\
  exists w', check_cpu_consumption m' w = Ok (false, w').
Proof.
  intros Ha Hac Hk Hp Hb Hmax m'.
  assert (Hcons : consumed m' = 2 ^ 32).
  { unfold consumed. cbn. rewrite Hac. cbn. rewrite Z.add_0_l, Hp, <- Z.pow_add_r by lia. f_equal. lia. }
  split; [done|]. split; [lia|].
  pose proof (check_cpu_eq m' w Ha) as Hc. assert (Hb' : budget m' = Some max) by done.
  assert (Hm : metered m' = 0).
  { unfold metered. rewrite uwrap_mul_r. fold (consumed m'). by rewrite Hcons. }
  destruct (check_cpu_consumption m' w) as [[b w']| |]; [|congruence..].
  destruct Hc as (max' & Hb'' & ->). exists w'. rewrite Hm. do 2 f_equal.
  rewrite Hb' in Hb''. simplify_eq. f_equal. apply Z.ltb_ge. lia.
Qed.

End Traps.

(** Running an [unreachable]. *)
Lemma activation_end_explained_witness :
  exists s', @step (sample_platform true) sample_natives (sample_state [0x00] []) = Some (false, s') /\
    (has_exception s' \/ returned_to_native s').
Proof.
  eexists. split; [vm_compute; reflexivity|].
  apply (@activation_end_explained (sample_platform true) sample_natives (sample_state [0x00] [])).
  vm_compute. reflexivity.
Defined.

(** Factorial on [i64], recursive. *)
Definition fac_code : list Z :=
  [0x20; 0; 0x50; 0x04; 0x7e; 0x42; 1; 0x05; 0x20; 0; 0x20; 0; 0x42; 1; 0x7d; 0x10; 0; 0x7e; 0x0b; 0x0b].
Definition fac : WASMFunctionInstance :=
  mkFunction false 1 0 2 2 0 [0] [0x7e; 0x7e] [] (mkType 1 1 [0x7e; 0x7e]) 1000 20 6 2 true.
Abbreviation call_fac n := (@wasm_interp_call_wasm (sample_platform true) sample_natives 1000
  (sample_code_module fac_code [fac]) (sample_env []) sample_world 0 [n; 0]).
Lemma call_wasm_balanced_witness :
  exists m' e' w', call_fac 20 = Ok (Some [2432902008176640000 mod 2 ^ 32; 2432902008176640000 / 2 ^ 32], m', e', w') /\
    cur_frame e' = 0 /\ stack_top e' = 5000.
Proof.
  assert (Hr : match call_fac 20 with
    | Ok (o, _, _, _) => o = Some [2432902008176640000 mod 2 ^ 32; 2432902008176640000 / 2 ^ 32]
    | _ => False end) by (vm_compute; reflexivity).
  destruct (call_fac 20) as [[[[o m'] e'] w']| |] eqn:E; [|destruct Hr..].
  destruct (@call_wasm_balanced (sample_platform true) sample_natives _ _ _ _ _ _ _ _ _ _ E) as (H1 & H2 & _).
  exists m', e', w'. rewrite Hr. split; [reflexivity|]. rewrite H1, H2. by split.
Defined.

Lemma dispatch_within_budget_witness :
  exists s', @FETCH_OPCODE_AND_DISPATCH (sample_platform false) (sample_state [0x01] []) =
    Some (Some WASM_OP_NOP, s') /\ exists max, budget (module (sample_state [0x01] [])) = Some max.
Proof.
  eexists. split; [vm_compute; reflexivity|].
  destruct (@dispatch_within_budget (sample_platform false) (sample_state [0x01] []) _
    (Some WASM_OP_NOP) eq_refl ltac:(vm_compute; reflexivity)) as [(max & Hb & _) _].
  by exists max.
Defined.

Lemma energy_check_wraps_witness :
  exists m' w', 1000 < consumed m' /\
    @check_cpu_consumption (sample_platform false) m' sample_world = Ok (false, w').
Proof.
  destruct (@energy_check_wraps (sample_platform false)
    (set_access_control (Some (set_processor_power (2 ^ 10) sample_access_control))
       (sample_code_module [] [])) sample_world (set_processor_power (2 ^ 10) sample_access_control)
    10 1000) as (_ & Hlt & w' & Hc); try reflexivity; [lia|lia|].
  eexists _, w'. split; [exact Hlt|exact Hc].
Defined.
