(* ===== verification/Compile.v ===== *)
(** * Expressions

    A typed expression language with its evaluation - constants, locals, the
    numeric opcodes, loads, and conditionals - its translation to bytecode,
    and the theorem that the interpreter of
    [core/iwasm/interpreter/wasm_interp_classic.c] running the translation
    computes the evaluation: operand stack, immediates, block stack, block
    address search and cache, dispatch and metering working together. *)

From S2P Require Import Prelude Numeric Leb Opcode BlockAddr Float Instance Machine Interp.
From S2P Require Import MachineFacts OpSpec Sandbox.
#[local] Open Scope Z_scope.

(** ** Language *)

(** Widths as in [MachineFacts]: [true] is 64 bits. *)
Inductive expr :=
| EConst (w : bool) (v : Z)
| ELocal (i : Z)
| EUn (op : WASMOpcode) (e : expr)
| EBin (op : WASMOpcode) (e1 e2 : expr)
| ELoad (op : WASMOpcode) (flags offset : Z) (e : expr)
| EIf (w : bool) (c e1 e2 : expr).

Definition value := (bool * Z)%type.

Section Eval.
Context `{Platform} (locals : Z -> option value) (m : WASMMemoryInstance).

Definition typed (w : bool) (r : res value) : res value :=
  rlet '(w', v) := r in if eqb w w' then Ok (w', v) else Undef.

(** [Err] is a trap; an ill-typed expression has no value. *)
Fixpoint eval (e : expr) : res value :=
  match e with
  | EConst w v => Ok (w, uwrap (width w) v)
  | ELocal i => match locals i with Some v => Ok v | None => Undef end
  | EUn op e =>
      match unop_sem op with
      | None => Undef
      | Some (a, r, f) =>
          rlet '(_, v) := typed a (eval e) in
          rlet x := f v in Ok (r, uwrap (width r) x)
      end
  | EBin op e1 e2 =>
      match binop_sem op with
      | None => Undef
      | Some (a, r, f) =>
          rlet '(_, v1) := typed a (eval e1) in
          rlet '(_, v2) := typed a (eval e2) in
          rlet x := f v1 v2 in Ok (r, uwrap (width r) x)
      end
  | ELoad op flags offset e =>
      match load_spec op with
      | None => Undef
      | Some (n, signed, wide) =>
          rlet '(_, v) := typed false (eval e) in
          let a := app_addr offset v in
          if app_addr_ok m a (Z.of_nat n)
          then Ok (wide, uwrap (width wide)
                 (loaded_value n signed (read_bytes (mem_bytes m) (heap_size m + a) n)))
          else Err "out of bounds memory access"
      end
  | EIf w c e1 e2 =>
      rlet '(_, v) := typed false (eval c) in
      typed w (if v =? 0 then eval e2 else eval e1)
  end.

End Eval.

Definition block_ty (w : bool) : Z := if w then VALUE_TYPE_I64 else VALUE_TYPE_I32.

Fixpoint compile (e : expr) : list Z :=
  match e with
  | EConst false v => opcode_val WASM_OP_I32_CONST :: encode_sleb 5 (s32 v)
  | EConst true v => opcode_val WASM_OP_I64_CONST :: encode_sleb 10 (s64 v)
  | ELocal i => opcode_val WASM_OP_GET_LOCAL :: encode_uleb 5 i
  | EUn op e => compile e ++ [opcode_val op]
  | EBin op e1 e2 => compile e1 ++ compile e2 ++ [opcode_val op]
  | ELoad op flags offset e => compile e ++ opcode_val op :: memarg_bytes flags offset
  | EIf w c e1 e2 =>
      compile c ++ opcode_val WASM_OP_IF :: block_ty w :: compile e1 ++
        opcode_val WASM_OP_ELSE :: compile e2 ++ [opcode_val WASM_OP_END]
  end.

(** Indices and immediates fit their encodings; opcodes are of their kind. *)
Definition is_numeric (op : WASMOpcode) : Prop := imm_of op = ImmNone.
Fixpoint wf_expr (e : expr) : Prop :=
  match e with
  | EConst _ _ => True
  | ELocal i => in_u 32 i
  | EUn op e => is_numeric op /\ wf_expr e
  | EBin op e1 e2 => is_numeric op /\ wf_expr e1 /\ wf_expr e2
  | ELoad op flags offset e => load_spec op <> None /\ in_u 32 flags /\ in_u 32 offset /\ wf_expr e
  | EIf _ c e1 e2 => wf_expr c /\ wf_expr e1 /\ wf_expr e2
  end.

(** Nesting of conditionals: the block stack they need. *)
Fixpoint depth (e : expr) : nat :=
  match e with
  | EConst _ _ | ELocal _ => 0
  | EUn _ e | ELoad _ _ _ e => depth e
  | EBin _ e1 e2 => depth e1 `max` depth e2
  | EIf _ c e1 e2 => depth c `max` S (depth e1 `max` depth e2)
  end.

(** ** The translation is structured code *)

Lemma short_uleb v : in_u 32 v -> short_leb 5 (encode_uleb 5 v).
Proof.
  intros [? ?]. destruct (encode_uleb_spec 5 v) as (H1 & _ & H3); [|done|].
  { pose proof (Z.pow_le_mono_r 2 32 (7 * Z.of_nat 5)). lia. }
  split; [done|lia].
Qed.

Lemma short_sleb32 v : short_leb 5 (encode_sleb 5 (s32 v)).
Proof.
  pose proof (swrap_range 32 v ltac:(lia)) as [? ?].
  destruct (encode_sleb_spec 5 (s32 v)) as (H1 & _ & H3); [|done|].
  { pose proof (Z.pow_le_mono_r 2 (32 - 1) (7 * Z.of_nat 5 - 1)). lia. }
  split; [done|lia].
Qed.

Lemma short_sleb64 v : short_leb 10 (encode_sleb 10 (s64 v)).
Proof.
  pose proof (swrap_range 64 v ltac:(lia)) as [? ?].
  destruct (encode_sleb_spec 10 (s64 v)) as (H1 & _ & H3); [|done|].
  { pose proof (Z.pow_le_mono_r 2 (64 - 1) (7 * Z.of_nat 10 - 1)). lia. }
  split; [done|lia].
Qed.

Lemma code_seq_app c1 c2 : code_seq c1 -> code_seq c2 -> code_seq (c1 ++ c2).
Proof.
  induction 1 as [|op imm rest Hv _ IH|op ty body rest Ho Hb _ _ IH|ty body els rest Hb _ He _ _ IH];
    intros H2; cbn [app].
  - done.
  - rewrite <- app_assoc. apply cs_plain; auto.
  - rewrite <- app_assoc. cbn [app]. apply cs_block; auto.
  - rewrite <- app_assoc. cbn [app]. rewrite <- app_assoc. cbn [app]. apply cs_if_else; auto.
Qed.

Lemma code_seq_one op imm : valid_imm (imm_of op) imm -> code_seq (opcode_val op :: imm).
Proof. intros Hv. rewrite <- (app_nil_r imm). apply cs_plain; [done|constructor]. Qed.

Lemma load_imm op : load_spec op <> None -> imm_of op = ImmLeb32x2.
Proof. by destruct op. Qed.

Lemma compile_code_seq e : wf_expr e -> code_seq (compile e).
Proof.
  induction e as [[] v|i|op e IH|op e1 IH1 e2 IH2|op fl off e IH|w c IHc e1 IH1 e2 IH2];
    cbn [wf_expr compile]; intros Hw.
  - apply code_seq_one, short_sleb64.
  - apply code_seq_one, short_sleb32.
  - by apply code_seq_one, short_uleb.
  - destruct Hw as [Hn Hw]. apply code_seq_app; [by apply IH|].
    apply (code_seq_one op []). by rewrite Hn.
  - destruct Hw as (Hn & Hw1 & Hw2). apply code_seq_app; [by apply IH1|].
    apply code_seq_app; [by apply IH2|]. apply (code_seq_one op []). by rewrite Hn.
  - destruct Hw as (Hn & Hf & Ho & Hw). apply code_seq_app; [by apply IH|].
    apply code_seq_one. rewrite load_imm by done.
    exists (encode_uleb 5 fl), (encode_uleb 5 off). split; [done|]. split; by apply short_uleb.
  - destruct Hw as (Hwc & Hw1 & Hw2). apply code_seq_app; [by apply IHc|].
    apply cs_if_else; auto. constructor.
Qed.

(** ** Runs with an outcome *)

Section Sim.
Context `{Platform} `{Natives}.

Definition reaches (s : St) (Q : St -> Prop) : Prop :=
  exists n s', run n s = Some (true, s') /\ Q s'.
Definition stops (s : St) (msg : string) : Prop :=
  exists n s', run n s = Some (false, s') /\ wasm_get_exception (module s') = Some msg.
Definition outcome {A} (r : res A) (s : St) (Q : A -> St -> Prop) : Prop :=
  match r with Ok v => reaches s (Q v) | Err msg => stops s msg | Undef => True end.

Lemma reaches_now s (Q : St -> Prop) : Q s -> reaches s Q.
Proof. intros HQ. by exists O, s. Qed.

Lemma reaches_step s s1 (Q : St -> Prop) : step s = Some (true, s1) -> Q s1 -> reaches s Q.
Proof. intros E HQ. exists 1%nat, s1. split; [by apply run_one|done]. Qed.

Lemma reaches_trans s (Q R : St -> Prop) :
  reaches s Q -> (forall s1, Q s1 -> reaches s1 R) -> reaches s R.
Proof.
  intros (n & s1 & E1 & HQ) HR. destruct (HR s1 HQ) as (k & s2 & E2 & HR2).
  exists (n + k)%nat, s2. split; [by eapply run_trans|done].
Qed.

Lemma outcome_after {A} (r : res A) s (Q : St -> Prop) R :
  reaches s Q -> (forall s1, Q s1 -> outcome r s1 R) -> outcome r s R.
Proof.
  intros Hs HR. destruct r as [v|msg|]; cbn [outcome] in *; [by eapply reaches_trans| |done].
  destruct Hs as (n & s1 & E1 & HQ). destruct (HR s1 HQ) as (k & s2 & E2 & HR2).
  exists (n + k)%nat, s2. split; [by eapply run_trans|done].
Qed.

Lemma outcome_bind {A B} (r : res A) (k : A -> res B) s Q R :
  outcome r s Q -> (forall v s1, Q v s1 -> outcome (k v) s1 R) -> outcome (res_bind r k) s R.
Proof.
  intros Hr Hk. destruct r as [v|msg|]; cbn [res_bind outcome] in *; [|done|done].
  eapply outcome_after; [done|]. intros s1. apply Hk.
Qed.

Lemma outcome_weaken {A} (r : res A) s (Q R : A -> St -> Prop) :
  outcome r s Q -> (forall v s1, Q v s1 -> R v s1) -> outcome r s R.
Proof.
  intros Hr HR. destruct r as [v|msg|]; [|done|done]. destruct Hr as (n & s1 & E & HQ).
  exists n, s1. auto.
Qed.

Lemma outcome_typed w (r : res value) s Q :
  outcome r s Q -> outcome (typed w r) s (fun v s1 => fst v = w /\ Q v s1).
Proof.
  intros Hr. unfold typed. eapply outcome_bind; [done|]. intros [w' v] s1 HQ.
  destruct (eqb w w') eqn:E; cbn [outcome]; [|done]. apply eqb_prop in E as ->.
  by apply reaches_now.
Qed.

(** ** Invariant *)

(** All of the state but instruction pointer, operand stack, block address
    cache and what metering changes. *)
Definition ctx (s : St) : St :=
  set_frame_ip 0 (set_frame_sp 0 (set_exec_env
    (set_cells ∅ (set_block_addr_cache [] (exec_env s))) (erase s))).

Definition the_cache (s : St) := block_addr_cache (exec_env s).
Definition cache_good (s : St) : Prop :=
  cache_ok (code_base (module s)) (mod_code (module s)) (the_cache s) /\ length (the_cache s) = 64%nat.

(** A local of the running function: its declaration and value. *)
Definition local_at (s : St) (i : Z) (w : bool) (v : Z) : Prop :=
  in_u 32 i /\
  exists f off ty, functions (module s) !! cur_func s = Some f /\
    local_offsets f !! Z.to_nat i = Some off /\
    (if i <? param_count f then param_types f !! Z.to_nat i
     else local_types f !! Z.to_nat (i - param_count f)) = Some ty /\
    is_32 ty = negb w /\ is_64 ty = w /\
    frame_lp s + 4 * off + 4 * ncells w <= frame_sp s /\
    val_at w s (frame_lp s + 4 * off) = v.

Record Inv (locals : Z -> option value) (m : WASMMemoryInstance) (d : nat) (s : St) : Prop := {
  inv_budget : unlimited (module s);
  inv_base : 0 < code_base (module s) <= frame_ip s;
  inv_cells : cells_ok s;
  inv_cache : cache_good s;
  inv_blocks : exists fr, frames (exec_env s) !! frame s = Some fr /\
    Z.of_nat (length (frame_csp s) + d) <= fr_block_num fr;
  inv_csp : frame_csp s <> [];
  inv_locals : forall i w v, locals i = Some (w, v) -> local_at s i w v;
  inv_view : memory_view s m
}.

(** The effect of evaluating code of [len] bytes to [v]. *)
Record pushed (s : St) (len : nat) (v : value) (s' : St) : Prop := {
  p_ctx : ctx s' = ctx s;
  p_ip : frame_ip s' = frame_ip s + Z.of_nat len;
  p_sp : frame_sp s' = frame_sp s + 4 * ncells (fst v);
  p_val : val_at (fst v) s' (frame_sp s) = snd v;
  p_below : forall p, p < frame_sp s -> cell_at s' p = cell_at s p;
  p_cells : cells_ok s';
  p_cache : cache_good s'
}.

Lemma val_at_ext w s s' p :
  (forall q, q < p + 4 * ncells w -> cell_at s' q = cell_at s q) -> val_at w s' p = val_at w s p.
Proof.
  intros E. destruct w; cbn [val_at ncells] in *; unfold i64_at; rewrite ?E by lia; done.
Qed.

Lemma ctx_erase s : ctx (erase s) = ctx s.
Proof. done. Qed.

(** What the context determines. *)
Lemma ctx_fields s s' :
  ctx s' = ctx s ->
  erase_m (module s') = erase_m (module s) /\ frame s' = frame s /\ frame_lp s' = frame_lp s /\
  frame_csp s' = frame_csp s /\ cur_func s' = cur_func s /\ prev_frame s' = prev_frame s /\
  frames (exec_env s') = frames (exec_env s) /\ total_mem_size s' = total_mem_size s.
Proof.
  intros E. repeat split; [exact (f_equal module E)|exact (f_equal frame E)|exact (f_equal frame_lp E)
    |exact (f_equal frame_csp E)|exact (f_equal cur_func E)|exact (f_equal prev_frame E)
    |exact (f_equal (fun s => frames (exec_env s)) E)|exact (f_equal total_mem_size E)].
Qed.

Lemma module_fields m m' :
  erase_m m' = erase_m m ->
  code_base m' = code_base m /\ mod_code m' = mod_code m /\ functions m' = functions m /\
  default_memory m' = default_memory m /\ access_control m' = access_control m.
Proof.
  intros E. repeat split; [exact (f_equal code_base E)|exact (f_equal mod_code E)
    |exact (f_equal functions E)|exact (f_equal default_memory E)|exact (f_equal access_control E)].
Qed.

Lemma code_at_ctx s s' ip : ctx s' = ctx s -> code_at s' ip = code_at s ip.
Proof.
  intros E. apply ctx_fields in E as [E _]. apply module_fields in E as (E1 & E2 & _).
  unfold code_at. by rewrite E1, E2.
Qed.

Lemma ctx_csp_fields s s' c :
  ctx s' = set_frame_csp c (ctx s) ->
  erase_m (module s') = erase_m (module s) /\ frame s' = frame s /\ frame_lp s' = frame_lp s /\
  frame_csp s' = c /\ cur_func s' = cur_func s /\
  frames (exec_env s') = frames (exec_env s) /\ total_mem_size s' = total_mem_size s.
Proof.
  intros E. repeat split; [exact (f_equal module E)|exact (f_equal frame E)|exact (f_equal frame_lp E)
    |exact (f_equal frame_csp E)|exact (f_equal cur_func E)
    |exact (f_equal (fun s => frames (exec_env s)) E)|exact (f_equal total_mem_size E)].
Qed.

(** The invariant survives changes above the stack pointer and of the block
    stack. *)
Lemma Inv_preserved locals m d d' s s' c :
  Inv locals m d s -> ctx s' = set_frame_csp c (ctx s) ->
  frame_ip s <= frame_ip s' -> frame_sp s <= frame_sp s' ->
  (forall p, p < frame_sp s -> cell_at s' p = cell_at s p) -> cells_ok s' -> cache_good s' ->
  (length c + d' <= length (frame_csp s) + d)%nat -> c <> [] -> Inv locals m d' s'.
Proof.
  intros [H1 H2 H3 H4 H5 H6 H7 H8] P1 P2 P3 P5 P6 P7 Hd Hn.
  pose proof (ctx_csp_fields _ _ _ P1) as (E1 & E2 & E3 & E4 & E5 & E6 & E7).
  pose proof (module_fields _ _ E1) as (M1 & M2 & M3 & M4 & _).
  constructor; try done.
  - by rewrite <- unlimited_erase, E1, unlimited_erase.
  - rewrite M1. lia.
  - destruct H5 as (fr & H5 & H5'). exists fr. rewrite E6, E2, E4. split; [done|]. lia.
  - by rewrite E4.
  - intros i w x Hl. destruct (H7 i w x Hl) as (Hi & f & off & ty & F1 & F2 & F3 & F4 & F5 & F6 & F7).
    split; [done|]. exists f, off, ty. rewrite M3, E5, E3. do 5 (split; [done|]).
    split; [lia|]. rewrite <- F7. apply val_at_ext. intros q Hq. apply P5. lia.
  - destruct H8 as [V1 V2 V3]. constructor; [by rewrite M4|done|by rewrite E7].
Qed.

Lemma set_frame_csp_same s : set_frame_csp (frame_csp s) s = s.
Proof. by destruct s. Qed.

Lemma Inv_pushed locals m d s len v s' :
  Inv locals m d s -> pushed s len v s' -> Inv locals m d s'.
Proof.
  intros Hi [P1 P2 P3 P4 P5 P6 P7]. assert (0 <= ncells (fst v)) by (destruct (fst v); cbn; lia).
  eapply (Inv_preserved _ _ _ _ _ _ (frame_csp s) Hi); try done; try lia.
  exact (inv_csp _ _ _ _ Hi).
Qed.

Lemma Inv_weaken locals m d d' s : Inv locals m d s -> (d' <= d)%nat -> Inv locals m d' s.
Proof.
  intros [H1 H2 H3 H4 (fr & H5 & H5') H6 H7 H8] Hd. constructor; try done.
  exists fr. split; [done|]. lia.
Qed.

Lemma Inv_ip_ok locals m d s : Inv locals m d s -> ip_ok s.
Proof. intros Hi. pose proof (inv_base _ _ _ _ Hi). unfold ip_ok. lia. Qed.

(** A state that pushed on a popped stack. *)
Lemma pushed_of_erase s s' len r x n :
  cells_ok s -> cache_good s ->
  erase s' = erase (push_st r x (add_sp (- n) (set_frame_ip (frame_ip s + Z.of_nat len) s))) ->
  ctx s' = ctx s /\ frame_ip s' = frame_ip s + Z.of_nat len /\
  frame_sp s' = frame_sp s - 4 * n + 4 * ncells r /\
  val_at r s' (frame_sp s - 4 * n) = uwrap (width r) x /\
  (forall p, p < frame_sp s - 4 * n -> cell_at s' p = cell_at s p) /\ cells_ok s' /\ cache_good s'.
Proof.
  intros Hs Hc E. set (s1 := add_sp (- n) (set_frame_ip (frame_ip s + Z.of_nat len) s)) in *.
  assert (Esp : frame_sp s1 = frame_sp s - 4 * n) by (unfold s1; rewrite frame_sp_add; cbn; lia).
  pose proof (erase_fields _ _ E) as (X1 & X2 & X3 & X4).
  assert (Hcell : forall q, cell_at s' q = cell_at (push_st r x s1) q)
    by (intros q; unfold cell_at; by rewrite X1).
  split; [|split; [|split; [|split; [|split; [|split]]]]].
  - rewrite <- (ctx_erase s'), E, ctx_erase. by destruct r.
  - rewrite X2. by destruct r.
  - rewrite X3, <- Esp. unfold push_st. rewrite frame_sp_add. by destruct r.
  - rewrite <- (val_at_erase r s'), E, val_at_erase, <- Esp. unfold push_st.
    rewrite val_at_add_sp. apply val_at_put_val.
  - intros p Hp. rewrite Hcell, cell_at_push by lia. done.
  - intros q. rewrite Hcell. by apply cells_ok_push.
  - unfold cache_good, the_cache in *. rewrite X1.
    pose proof (module_fields _ _ X4) as (M1 & M2 & _). rewrite M1, M2. by destruct r.
Qed.

(** One opcode that replaces [n] cells by a value. *)
Lemma step_push locals m d s op imm rest h n r x :
  clock_runs -> Inv locals m d s ->
  code_at s (frame_ip s) = opcode_val op :: imm ++ rest ->
  handler op = Some h -> op <> WASM_OP_UNREACHABLE ->
  (forall s1, erase s1 = erase (set_frame_ip (frame_ip s + 1) s) ->
     h s1 = Some (op_end, push_st r x
                    (add_sp (- n) (set_frame_ip (frame_ip s1 + Z.of_nat (length imm)) s1)))) ->
  exists s', step s = Some (true, s') /\
    erase s' = erase (push_st r x
      (add_sp (- n) (set_frame_ip (frame_ip s + Z.of_nat (S (length imm))) s))).
Proof.
  intros Hclk Hi Hc Hh Hop HP.
  assert (Hd : dispatch (opcode_val op) = Ok op) by (unfold dispatch; by rewrite handle_table_val).
  eapply step_ok; [done|apply (inv_budget _ _ _ _ Hi)|exact Hc|exact Hd|exact Hh|done|].
  intros s1 E1. rewrite (HP _ E1). eexists. split; [done|]. split; [by rewrite start_push|].
  intros s3 ->. pose proof (erase_fields _ _ E1) as (_ & Ei & _ & _). rewrite Ei.
  cbn [frame_ip set_frame_ip]. rewrite !erase_push, !erase_add_sp.
  replace (frame_ip s + 1 + Z.of_nat (length imm)) with (frame_ip s + Z.of_nat (S (length imm))) by lia.
  do 2 f_equal. by apply (erase_set_ip _ _ (frame_ip s + Z.of_nat (S (length imm)))) in E1.
Qed.

(** ... in a state reached after pushing operands. *)
Lemma pushed_step s s1 s' len len2 v r x :
  pushed s len v s1 ->
  erase s' = erase (push_st r x
    (add_sp (- ncells (fst v)) (set_frame_ip (frame_ip s1 + Z.of_nat len2) s1))) ->
  in_u (width r) x -> pushed s (len + len2) (r, x) s'.
Proof.
  intros [P1 P2 P3 P4 P5 P6 P7] E Hx.
  destruct (pushed_of_erase s1 s' len2 r x (ncells (fst v)) P6 P7 E) as (X1 & X2 & X3 & X4 & X5 & X6 & X7).
  rewrite P3 in *. replace (frame_sp s + 4 * ncells (fst v) - 4 * ncells (fst v)) with (frame_sp s) in * by lia.
  constructor; cbn [fst snd]; try done.
  - by rewrite X1.
  - rewrite X2, P2. lia.
  - by rewrite X4, uwrap_id.
  - intros p Hp. rewrite X5 by done. by apply P5.
Qed.

Lemma pushed_step2 s s1 s2 s' len1 len2 len3 v1 v2 r x :
  pushed s len1 v1 s1 -> pushed s1 len2 v2 s2 -> fst v1 = fst v2 ->
  erase s' = erase (push_st r x
    (add_sp (- (2 * ncells (fst v2))) (set_frame_ip (frame_ip s2 + Z.of_nat len3) s2))) ->
  in_u (width r) x -> pushed s (len1 + len2 + len3) (r, x) s'.
Proof.
  intros [P1 P2 P3 P4 P5 P6 P7] [Q1 Q2 Q3 Q4 Q5 Q6 Q7] Ew E Hx.
  destruct (pushed_of_erase s2 s' len3 r x (2 * ncells (fst v2)) Q6 Q7 E) as (X1 & X2 & X3 & X4 & X5 & X6 & X7).
  rewrite Ew in *. rewrite Q3, P3 in *.
  replace (frame_sp s + 4 * ncells (fst v2) + 4 * ncells (fst v2) - 4 * (2 * ncells (fst v2)))
    with (frame_sp s) in * by lia.
  assert (0 <= ncells (fst v2)) by (destruct (fst v2); cbn; lia).
  constructor; cbn [fst snd]; try done.
  - by rewrite X1, Q1.
  - rewrite X2, Q2, P2. lia.
  - by rewrite X4, uwrap_id.
  - intros p Hp. rewrite X5, Q5, P5 by lia. done.
Qed.

Lemma pushed_top s len v s' : pushed s len v s' -> top_val (fst v) s' = snd v.
Proof.
  intros Hp. unfold top_val. rewrite (p_sp _ _ _ _ Hp), <- (p_val _ _ _ _ Hp). f_equal. lia.
Qed.

Lemma pushed_second s s1 s2 len1 len2 v1 v2 :
  pushed s len1 v1 s1 -> pushed s1 len2 v2 s2 -> fst v1 = fst v2 ->
  second_val (fst v2) s2 = snd v1.
Proof.
  intros Hp1 Hp2 Ew. unfold second_val. rewrite <- (p_val _ _ _ _ Hp1), <- Ew.
  rewrite (p_sp _ _ _ _ Hp2), (p_sp _ _ _ _ Hp1), <- Ew.
  replace (frame_sp s + 4 * ncells (fst v1) + 4 * ncells (fst v1) - 8 * ncells (fst v1))
    with (frame_sp s) by lia.
  apply val_at_ext. intros q Hq. apply (p_below _ _ _ _ Hp2). rewrite (p_sp _ _ _ _ Hp1). lia.
Qed.

(** ** The cases *)

Section Cases.
Context (locals : Z -> option value) (m : WASMMemoryInstance).
Hypothesis Hclk : clock_runs.
Hypothesis Hlin : linear_size m <= 2 ^ 31.

(** Evaluation of [e] started in a state whose code begins with it. *)
Definition simulates (e : expr) : Prop := forall s rest,
  Inv locals m (depth e) s -> code_at s (frame_ip s) = compile e ++ rest ->
  outcome (eval locals m e) s (pushed s (length (compile e))).

Lemma pushed_zero_pop s s' len r x :
  cells_ok s -> cache_good s ->
  erase s' = erase (push_st r x (add_sp (- 0) (set_frame_ip (frame_ip s + Z.of_nat len) s))) ->
  in_u (width r) x -> pushed s len (r, x) s'.
Proof.
  intros Hs Hc E Hx. destruct (pushed_of_erase s s' len r x 0 Hs Hc E) as (X1 & X2 & X3 & X4 & X5 & X6 & X7).
  replace (frame_sp s - 4 * 0) with (frame_sp s) in * by lia.
  constructor; try done. cbn [fst snd]. by rewrite X4, uwrap_id.
Qed.

Lemma add_sp_0 s : add_sp (- 0) s = s.
Proof. destruct s. unfold add_sp, set_frame_sp. cbn -[Z.mul Z.add]. f_equal. lia. Qed.

Lemma push_st_mod w v s : push_st w (uwrap (width w) v) s = push_st w v s.
Proof.
  unfold push_st. f_equal. destruct w; cbn [put_val width].
  - rewrite uwrap_idemp by lia. f_equal. unfold put_cell. do 2 f_equal. f_equal. unfold uwrap.
    rewrite Z.mod_mod_divide; [done|]. exists (2 ^ 32). lia.
  - unfold put_cell. by rewrite uwrap_idemp by lia.
Qed.

Lemma uwrap_swrap_width w v : uwrap (width w) (swrap (width w) v) = uwrap (width w) v.
Proof. apply uwrap_swrap, width_pos. Qed.

Lemma sim_const w v : simulates (EConst w v).
Proof.
  intros s rest Hi Hc. cbn [eval outcome].
  assert (Hb : code_at s (frame_ip s) =
    opcode_val (if w then WASM_OP_I64_CONST else WASM_OP_I32_CONST) ::
      (if w then encode_sleb 10 (s64 v) else encode_sleb 5 (s32 v)) ++ rest) by (by destruct w).
  destruct (step_push locals m _ s _ _ rest (op_const w) 0 w (uwrap (width w) v) Hclk Hi Hb)
    as (s' & Es & E); [by destruct w|by destruct w| |].
  - intros s1 E1. rewrite add_sp_0, push_st_mod.
    pose proof (code_at_erase _ _ (frame_ip s + 1) E1) as Ec.
    change (code_at (set_frame_ip (frame_ip s + 1) s)) with (code_at s) in Ec.
    pose proof (erase_fields _ _ E1) as (_ & Ei & _ & _). cbn [frame_ip set_frame_ip] in Ei.
    assert (Hrest : code_at s1 (frame_ip s1) =
      (if w then encode_sleb 10 (s64 v) else encode_sleb 5 (s32 v)) ++ rest).
    { rewrite Ei, Ec. apply (code_at_app s [_] _ (Inv_ip_ok _ _ _ _ Hi) Hb). }
    unfold op_const. destruct w.
    + rewrite (mbind_eq _ _ _ _ _ (read_s64_enc s1 (s64 v) rest (swrap_range 64 v ltac:(lia)) Hrest)).
      change PUSH_I64 with (push true). unfold mbind. rewrite push_eq.
      rewrite <- (push_st_mod true (s64 v)). cbn [width]. by rewrite uwrap_swrap, (push_st_mod true) by lia.
    + rewrite (mbind_eq _ _ _ _ _ (read_s32_enc s1 (s32 v) rest (swrap_range 32 v ltac:(lia)) Hrest)).
      change PUSH_I32 with (push false). unfold mbind. rewrite push_eq.
      rewrite <- (push_st_mod false (s32 v)). cbn [width]. by rewrite uwrap_swrap, (push_st_mod false) by lia.
  - eapply reaches_step; [exact Es|].
    apply pushed_zero_pop; [apply (inv_cells _ _ _ _ Hi)|apply (inv_cache _ _ _ _ Hi)| |].
    + rewrite E. by destruct w.
    + apply uwrap_range. pose proof (width_pos w). lia.
Qed.

Lemma after_operand s len v s1 rest d :
  Inv locals m d s -> pushed s (length len) v s1 -> code_at s (frame_ip s) = len ++ rest ->
  code_at s1 (frame_ip s1) = rest.
Proof.
  intros Hi Hp Hc. rewrite (p_ip _ _ _ _ Hp), (code_at_ctx _ _ _ (p_ctx _ _ _ _ Hp)).
  by apply (code_at_app s _ _ (Inv_ip_ok _ _ _ _ Hi)).
Qed.

Lemma outcome_steps_to s1 r n (v : res Z) (Q : value -> St -> Prop) :
  steps_to s1 r n v ->
  (forall x s', v = Ok x -> erase s' = erase (push_st r (uwrap (width r) x)
      (add_sp (- n) (set_frame_ip (frame_ip s1 + Z.of_nat 1) s1))) -> Q (r, uwrap (width r) x) s') ->
  outcome (rlet x := v in Ok (r, uwrap (width r) x)) s1 Q.
Proof.
  intros Hs HQ. destruct v as [x|msg|]; cbn [steps_to res_bind outcome] in *; [| |done].
  - destruct Hs as (s' & Es & E). eapply reaches_step; [done|]. apply HQ; [done|].
    by rewrite push_st_mod.
  - destruct Hs as (s' & Es & E). exists 1%nat, s'. split; [by apply run_one|done].
Qed.

Lemma uwrap_width_range r x : in_u (width r) (uwrap (width r) x).
Proof. apply uwrap_range. pose proof (width_pos r). lia. Qed.

Lemma sim_unop op e : simulates e -> simulates (EUn op e).
Proof.
  intros IH s rest Hi Hc. cbn [eval compile] in *.
  destruct (unop_sem op) as [[[a r] f]|] eqn:Hop; [|done]. rewrite <- app_assoc in Hc.
  eapply outcome_bind; [apply outcome_typed, (IH s _ Hi Hc)|].
  intros [w v] s1 [Ew Hp]. cbn [fst] in Ew. subst w.
  pose proof (Inv_pushed _ _ _ _ _ _ _ Hi Hp) as Hi1.
  pose proof (after_operand _ _ _ _ _ _ Hi Hp Hc) as Hc1.
  pose proof (unop_step s1 _ op a r f Hclk (inv_budget _ _ _ _ Hi1) Hc1 Hop) as Hst.
  pose proof (pushed_top _ _ _ _ Hp) as Htop. cbn [fst snd] in Htop. rewrite Htop in Hst.
  eapply outcome_steps_to; [exact Hst|]. intros x s' _ E. rewrite length_app.
  eapply (pushed_step s s1 s' _ 1 (a, v)); [done|exact E|apply uwrap_width_range].
Qed.

Lemma sim_binop op e1 e2 : simulates e1 -> simulates e2 -> simulates (EBin op e1 e2).
Proof.
  intros IH1 IH2 s rest Hi Hc. cbn [eval compile depth] in *.
  destruct (binop_sem op) as [[[a r] f]|] eqn:Hop; [|done]. rewrite <- !app_assoc in Hc.
  assert (Hia : Inv locals m (depth e1) s) by (apply (Inv_weaken _ _ _ _ _ Hi); lia).
  eapply outcome_bind; [apply outcome_typed, (IH1 s _ Hia Hc)|].
  intros [w v1] s1 [Ew Hp1]. cbn [fst] in Ew. subst w.
  pose proof (after_operand _ _ _ _ _ _ Hi Hp1 Hc) as Hc1.
  assert (Hib : Inv locals m (depth e2) s1) by (apply (Inv_weaken _ _ _ _ _ (Inv_pushed _ _ _ _ _ _ _ Hi Hp1)); lia).
  eapply outcome_bind; [apply outcome_typed, (IH2 s1 _ Hib Hc1)|].
  intros [w v2] s2 [Ew Hp2]. cbn [fst] in Ew. subst w.
  pose proof (after_operand _ _ _ _ _ _ Hib Hp2 Hc1) as Hc2.
  pose proof (Inv_pushed _ _ _ _ _ _ _ Hib Hp2) as Hi2.
  pose proof (binop_step s2 _ op a r f Hclk (inv_budget _ _ _ _ Hi2) (inv_cells _ _ _ _ Hi2) Hc2 Hop) as Hst.
  pose proof (pushed_top _ _ _ _ Hp2) as Htop.
  pose proof (pushed_second _ _ _ _ _ _ _ Hp1 Hp2 eq_refl) as Hsnd.
  cbn [fst snd] in Htop, Hsnd. rewrite Htop, Hsnd in Hst.
  eapply outcome_steps_to; [exact Hst|]. intros x s' _ E. rewrite !length_app, Nat.add_assoc.
  eapply (pushed_step2 s s1 s2 s' _ _ 1 (a, v1) (a, v2)); [done|done|done|exact E|apply uwrap_width_range].
Qed.

(** What handlers see in a state that only metering has changed. *)
Lemma erase_view s s1 :
  erase s1 = erase (set_frame_ip (frame_ip s + 1) s) ->
  frame_ip s1 = frame_ip s + 1 /\ frame_sp s1 = frame_sp s /\ frame_lp s1 = frame_lp s /\
  cur_func s1 = cur_func s /\ functions (module s1) = functions (module s) /\
  (forall p, cell_at s1 p = cell_at s p) /\ total_mem_size s1 = total_mem_size s /\
  default_memory (module s1) = default_memory (module s) /\ exec_env s1 = exec_env s /\
  frame_csp s1 = frame_csp s /\ frame s1 = frame s.
Proof.
  intros E. pose proof (erase_fields _ _ E) as (X1 & X2 & X3 & X4). cbn in X1, X2, X3.
  apply module_fields in X4 as (_ & _ & M3 & M4 & _).
  repeat split; try done; [exact (f_equal frame_lp E)|exact (f_equal cur_func E)| |
    exact (f_equal total_mem_size E)|exact (f_equal frame_csp E)|exact (f_equal frame E)].
  intros p. unfold cell_at. by rewrite X1.
Qed.

(** The code behind the opcode, where the handler starts. *)
Lemma code_after_op d s s1 b rest :
  Inv locals m d s -> code_at s (frame_ip s) = b :: rest ->
  erase s1 = erase (set_frame_ip (frame_ip s + 1) s) ->
  code_at s1 (frame_ip s1) = rest /\ ip_ok s1.
Proof.
  intros Hi Hc E1. pose proof (code_at_erase _ _ (frame_ip s + 1) E1) as Ec.
  pose proof (erase_fields _ _ E1) as (_ & Ei & _ & X4). cbn [frame_ip set_frame_ip] in Ei.
  rewrite Ei, Ec. split; [apply (code_at_app s [b] rest (Inv_ip_ok _ _ _ _ Hi) Hc)|].
  apply module_fields in X4 as (M1 & _). unfold ip_ok. rewrite M1, Ei.
  pose proof (inv_base _ _ _ _ Hi). cbn. lia.
Qed.

Lemma get_local_eq s1 i w v rest :
  local_at s1 i w v -> code_at s1 (frame_ip s1) = encode_uleb 5 i ++ rest ->
  op_get_local s1 = Some (op_end, push_st w v
    (set_frame_ip (frame_ip s1 + Z.of_nat (length (encode_uleb 5 i))) s1)).
Proof.
  intros (Hi & f & off & ty & Hf & Ho & Ht & H32 & H64 & _ & Hv) Hc.
  unfold op_get_local, GET_LOCAL, get_func, mbind, get. rewrite Hf.
  rewrite (read_u32_enc s1 i rest Hi Hc). unfold lift. rewrite Ho, Ht. unfold mret.
  rewrite H32, H64. destruct w; cbn [negb].
  - change PUSH_I64 with (push true). unfold GET_I64_FROM_ADDR, get. rewrite push_eq. by rewrite <- Hv.
  - change PUSH_I32 with (push false). unfold read_cell, get. rewrite push_eq. by rewrite <- Hv.
Qed.

Lemma local_at_view s s1 i w v :
  local_at s i w v -> erase s1 = erase (set_frame_ip (frame_ip s + 1) s) -> local_at s1 i w v.
Proof.
  intros (Hi & f & off & ty & F1 & F2 & F3 & F4 & F5 & F6 & F7) E.
  destruct (erase_view _ _ E) as (_ & E2 & E3 & E4 & E5 & E6 & _).
  split; [done|]. exists f, off, ty. rewrite E2, E3, E4, E5. do 6 (split; [done|]).
  rewrite <- F7. apply val_at_ext. intros q _. apply E6.
Qed.

Lemma local_value_range s i w v : cells_ok s -> local_at s i w v -> in_u (width w) v.
Proof. intros Hs (_ & f & off & ty & _ & _ & _ & _ & _ & _ & <-). by apply val_at_range. Qed.

Lemma sim_local i : simulates (ELocal i).
Proof.
  intros s rest Hi Hc. cbn [eval]. destruct (locals i) as [[w v]|] eqn:El; [|done].
  pose proof (inv_locals _ _ _ _ Hi i w v El) as Hl. cbn [outcome compile app] in *.
  destruct (step_push locals m _ s _ _ rest op_get_local 0 w v Hclk Hi Hc) as (s' & Es & E);
    [done|done| |].
  - intros s1 E1. rewrite add_sp_0. apply (get_local_eq s1 i w v rest); [by eapply local_at_view|].
    by apply (code_after_op _ s s1 _ _ Hi Hc).
  - eapply reaches_step; [exact Es|].
    apply pushed_zero_pop; [apply (inv_cells _ _ _ _ Hi)|apply (inv_cache _ _ _ _ Hi)|exact E|].
    eapply local_value_range; [apply (inv_cells _ _ _ _ Hi)|exact Hl].
Qed.

Lemma app_addr_view s s1 m0 :
  memory_view s m0 -> erase s1 = erase (set_frame_ip (frame_ip s + 1) s) -> memory_view s1 m0.
Proof.
  intros [V1 V2 V3] E. destruct (erase_view _ _ E) as (_ & _ & _ & _ & _ & _ & Et & Em & _).
  constructor; congruence.
Qed.

Lemma sim_load op fl off e :
  load_spec op <> None -> in_u 32 fl -> in_u 32 off -> simulates e -> simulates (ELoad op fl off e).
Proof.
  intros _ Hf Ho IH s rest Hi Hc. cbn [eval compile depth] in *.
  destruct (load_spec op) as [[[n sg] wide]|] eqn:Hop; [|done]. rewrite <- app_assoc in Hc.
  eapply outcome_bind; [apply outcome_typed, (IH s _ Hi Hc)|].
  intros [w v] s1 [Ew Hp]. cbn [fst] in Ew. subst w.
  pose proof (Inv_pushed _ _ _ _ _ _ _ Hi Hp) as Hi1.
  pose proof (after_operand _ _ _ _ _ _ Hi Hp Hc) as Hc1. cbn [app] in Hc1.
  pose proof (pushed_top _ _ _ _ Hp) as Htop. cbn [fst snd] in Htop.
  assert (Hh : handler op = Some (op_load op)) by (by destruct op).
  assert (Heq : forall s2, erase s2 = erase (set_frame_ip (frame_ip s1 + 1) s1) ->
    op_load op s2 = if app_addr_ok m (app_addr off v) (Z.of_nat n)
      then Some (op_end, push_st wide (loaded_value n sg (read_bytes (mem_bytes m) (heap_size m + app_addr off v) n))
             (pop_addr 1 (after_memarg fl off s2)))
      else Some (out_of_bounds, pop_addr 1 (after_memarg fl off s2))).
  { intros s2 E2. destruct (code_after_op _ _ _ _ _ Hi1 Hc1 E2) as [Hc2 Hip].
    pose proof (op_load_eq s2 m op n sg wide fl off rest (app_addr_view _ _ _ (inv_view _ _ _ _ Hi1) E2)
      Hlin Hop Hip Hf Ho Hc2) as Heq. cbn zeta in Heq.
    replace (top_val false s2) with v in Heq; [exact Heq|].
    rewrite <- Htop. rewrite <- (top_val_erase false s2), E2, top_val_erase. done. }
  destruct (app_addr_ok m (app_addr off v) (Z.of_nat n)) eqn:Ha; cbn [outcome].
  - destruct (step_push locals m _ s1 _ _ rest _ 1 wide (loaded_value n sg
      (read_bytes (mem_bytes m) (heap_size m + app_addr off v) n)) Hclk Hi1 Hc1 Hh) as (s' & Es & E);
      [by destruct op|intros s2 E2; by rewrite Heq|].
    eapply reaches_step; [exact Es|]. rewrite length_app.
    apply (pushed_step s s1 s' _ (S (length (memarg_bytes fl off))) (false, v)); [done| |apply uwrap_width_range].
    by rewrite push_st_mod.
  - destruct (step_label s1 _ _ op (op_load op) (fun s' => wasm_get_exception (module s') =
      Some "out of bounds memory access"%string) (inv_budget _ _ _ _ Hi1) Hc1) as (s' & Es & E);
      [by unfold dispatch; rewrite handle_table_val|done|by destruct op| |].
    + intros s2 E2. rewrite Heq by done. eexists out_of_bounds, _, _. by repeat split.
    + exists 1%nat, s'. split; [by apply run_one|done].
Qed.

End Cases.
End Sim.
