(* ===== verification/Conditional.v ===== *)
(** * Conditionals and the correctness of the translation

    The last case of the simulation of [Compile] - entering a conditional
    through the block address search and its cache, leaving it from either
    branch - and the theorem. *)

From S2P Require Import Prelude Numeric Leb Opcode BlockAddr Float Instance Machine Interp.
From S2P Require Import MachineFacts OpSpec Sandbox Compile.
#[local] Open Scope Z_scope.

Section Conditional.
Context `{Platform} `{Natives} (locals : Z -> option value) (m : WASMMemoryInstance).
Hypothesis Hclk : clock_runs.
Hypothesis Hlin : linear_size m <= 2 ^ 31.
Abbreviation simulates := (Compile.simulates locals m).

(** ** Stepping without pushing *)

(** A step that pushes nothing: new block stack, instruction and stack
    pointer. *)
Record moved (s s' : St) (csp : list WASMBranchBlock) (ip sp : Z) : Prop := {
  m_ctx : ctx s' = set_frame_csp csp (ctx s);
  m_ip : frame_ip s' = ip;
  m_sp : frame_sp s' = sp;
  m_cells : forall p, cell_at s' p = cell_at s p;
  m_cache : cache_good s'
}.

Definition move (s : St) cache csp ip sp : St :=
  set_frame_csp csp (set_frame_sp sp (set_frame_ip ip (upd_env (set_block_addr_cache cache) s))).

Lemma move_erase s s1 s3 cache csp ip sp :
  erase s1 = erase (set_frame_ip (frame_ip s + 1) s) ->
  erase s3 = erase (move s1 cache csp ip sp) ->
  cache_ok (code_base (module s)) (mod_code (module s)) cache -> length cache = 64%nat ->
  moved s s3 csp ip sp.
Proof.
  intros E1 E3 Hc Hl. pose proof (erase_fields _ _ E3) as (X1 & X2 & X3 & X4).
  pose proof (erase_fields _ _ E1) as (Y1 & _ & _ & Y4). constructor; try done.
  - rewrite <- (ctx_erase s3), E3, ctx_erase.
    change (set_frame_csp csp (ctx (erase s1)) = set_frame_csp csp (ctx s)). by rewrite E1.
  - intros p. unfold cell_at. rewrite X1. cbn. by rewrite Y1.
  - unfold cache_good, the_cache. rewrite X1. split; [|done].
    pose proof (module_fields _ _ X4) as (M1 & M2 & _). rewrite M1, M2.
    pose proof (module_fields _ _ Y4) as (N1 & N2 & _). cbn. by rewrite N1, N2.
Qed.

Lemma move_same_cache s csp ip sp :
  set_frame_csp csp (set_frame_sp sp (set_frame_ip ip s)) = move s (the_cache s) csp ip sp.
Proof. destruct s as [? ? ? ? ? ? ? ? ? ? ? [] ? ?]. done. Qed.

(** A step of an opcode that only moves. *)
Lemma step_move d s op rest h csp ip sp :
  Inv locals m d s -> code_at s (frame_ip s) = opcode_val op :: rest ->
  handler op = Some h -> op <> WASM_OP_UNREACHABLE ->
  (forall s1, erase s1 = erase (set_frame_ip (frame_ip s + 1) s) ->
     exists cache, h s1 = Some (op_end, move s1 cache csp ip sp) /\
       cache_ok (code_base (module s)) (mod_code (module s)) cache /\ length cache = 64%nat) ->
  exists s', step s = Some (true, s') /\ moved s s' csp ip sp.
Proof.
  intros Hi Hc Hh Hop HP.
  eapply step_ok; [done|apply (inv_budget _ _ _ _ Hi)|exact Hc| |exact Hh|done|].
  { unfold dispatch. by rewrite handle_table_val. }
  intros s1 E1. destruct (HP s1 E1) as (cache & E & Hok & Hl).
  eexists. split; [exact E|]. split; [done|]. intros s3 E3. by eapply move_erase.
Qed.

Lemma step_else d s b r rest :
  Inv locals m d s -> frame_csp s = b :: r ->
  code_at s (frame_ip s) = opcode_val WASM_OP_ELSE :: rest ->
  exists s', step s = Some (true, s') /\ moved s s' (b :: r) (target_addr b) (frame_sp s).
Proof.
  intros Hi Hb Hc. apply (step_move d s WASM_OP_ELSE rest op_else); try done.
  intros s1 E1. destruct (erase_view _ _ E1) as (_ & E2 & _ & _ & _ & _ & _ & _ & Ee & E3 & _).
  destruct (inv_cache _ _ _ _ Hi) as [Hok Hl]. exists (the_cache s).
  split; [|by split]. unfold op_else, mbind, get, set_ip, modify, mret. rewrite E3, Hb.
  unfold the_cache. rewrite <- Ee, <- move_same_cache, <- E2, <- Hb, <- E3. by destruct s1.
Qed.

Lemma step_end d s b r rest :
  Inv locals m d s -> frame_csp s = b :: r -> r <> [] ->
  code_at s (frame_ip s) = opcode_val WASM_OP_END :: rest ->
  exists s', step s = Some (true, s') /\ moved s s' r (frame_ip s + 1) (frame_sp s).
Proof.
  intros Hi Hb Hr Hc. apply (step_move d s WASM_OP_END rest op_endblock); try done.
  intros s1 E1. destruct (erase_view _ _ E1) as (E0 & E2 & _ & _ & _ & _ & _ & _ & Ee & E3 & _).
  destruct (inv_cache _ _ _ _ Hi) as [Hok Hl]. exists (the_cache s).
  split; [|by split]. unfold op_endblock, POP_CSP, mbind, get, modify, mret. rewrite E3, Hb.
  destruct r as [|b' r]; [done|]. cbn [length Nat.ltb Nat.leb].
  unfold the_cache. rewrite <- Ee, <- move_same_cache, <- E2, <- E0, E3, Hb. by destruct s1.
Qed.

Lemma code_at_drop s :
  0 < code_base (module s) <= frame_ip s ->
  code_at s (frame_ip s) = drop (Z.to_nat (frame_ip s - code_base (module s))) (mod_code (module s)).
Proof.
  intros Hb. unfold code_at, impdep_addr.
  destruct (Z.eqb_spec (frame_ip s) (-1)); [lia|].
  by destruct (Z.ltb_spec (frame_ip s) (code_base (module s))); [lia|].
Qed.

Lemma upd_same_cache s : upd_env (set_block_addr_cache (the_cache s)) s = s.
Proof. destruct s as [? ? ? ? ? ? ? ? ? ? ? [] ? ?]. done. Qed.

(** The address search of [if], through the cache or the scanner. *)
Lemma find_block_eq s body els rest :
  0 < code_base (module s) <= frame_ip s -> cache_good s ->
  code_at s (frame_ip s) = block_bytes body (Some els) ++ opcode_val WASM_OP_END :: rest ->
  code_seq body -> code_seq els ->
  exists cache, find_block BLOCK_TYPE_IF s =
      Some (Some (frame_ip s + Z.of_nat (length body),
                  frame_ip s + Z.of_nat (length (block_bytes body (Some els)))),
            upd_env (set_block_addr_cache cache) s) /\
    cache_ok (code_base (module s)) (mod_code (module s)) cache /\ length cache = 64%nat.
Proof.
  intros Hb [Hok Hl] Hc Hbody Hels. pose proof Hc as Hd. rewrite code_at_drop in Hd by done.
  set (base := code_base (module s)) in *. set (code := mod_code (module s)) in *.
  assert (Hmine : block_at base code (mkBlockAddr (frame_ip s) (frame_ip s + Z.of_nat (length body))
      (frame_ip s + Z.of_nat (length (block_bytes body (Some els)))))).
  { split; [cbn; lia|]. exists body, (Some els), rest. by repeat split. }
  unfold find_block, mbind, get. fold (the_cache s).
  destruct (the_cache s !! cache_line (frame_ip s)) as [[b0 b1]|] eqn:El.
  2:{ apply lookup_ge_None_1 in El. unfold cache_line, BLOCK_ADDR_CACHE_SIZE in El.
      pose proof (Z.mod_pos_bound (frame_ip s) 64). lia. }
  assert (entry_ok base code b0 /\ entry_ok base code b1) as [He0 He1]
    by exact (Forall_lookup_1 _ _ _ _ Hok El).
  assert (Hhit : forall b, entry_ok base code b -> start_addr b = frame_ip s ->
    else_addr b = frame_ip s + Z.of_nat (length body) /\
    BlockAddr.end_addr b = frame_ip s + Z.of_nat (length (block_bytes body (Some els)))).
  { intros b [Hz|Hbk] Es; [lia|]. by apply (block_at_det base code b _ Hbk Hmine). }
  destruct (Z.eqb_spec (start_addr b0) (frame_ip s)) as [Es0|_].
  { destruct (Hhit b0 He0 Es0) as [-> ->]. exists (the_cache s). rewrite upd_same_cache. by split. }
  destruct (Z.eqb_spec (start_addr b1) (frame_ip s)) as [Es1|_].
  { destruct (Hhit b1 He1 Es1) as [-> ->]. exists (the_cache s). rewrite upd_same_cache. by split. }
  destruct (find_block_addr_spec base (frame_ip s) code body rest (Some els) (the_cache s) false
    BLOCK_TYPE_IF) as (cache & E & Hok'); try done; [lia|].
  rewrite code_at_drop by done. fold base code. rewrite E. exists cache.
  split; [done|]. split; [done|]. by rewrite (find_block_addr_length _ _ _ _ _ _ _ _ E).
Qed.

(** The moves of [op_if] as one. *)
Lemma move_jump s cache csp ip sp x :
  set_frame_ip ip (set_frame_csp csp (set_frame_sp sp (upd_env (set_block_addr_cache cache)
    (set_frame_ip x s)))) = move s cache csp ip sp.
Proof. done. Qed.
Lemma move_fall s cache csp ip sp :
  set_frame_csp csp (set_frame_sp sp (upd_env (set_block_addr_cache cache)
    (set_frame_ip ip s))) = move s cache csp ip sp.
Proof. done. Qed.
Lemma move_ext s cache cache' csp csp' ip ip' sp sp' :
  cache = cache' -> csp = csp' -> ip = ip' -> sp = sp' ->
  Some (op_end, move s cache csp ip sp) = Some (op_end, move s cache' csp' ip' sp').
Proof. congruence. Qed.

(** [if] with an operand of [v]. *)
Lemma step_if d s ty body els rest v :
  Inv locals m (S d) s -> top_val false s = v ->
  code_at s (frame_ip s) = opcode_val WASM_OP_IF :: ty :: body ++ opcode_val WASM_OP_ELSE ::
      els ++ opcode_val WASM_OP_END :: rest ->
  code_seq body -> code_seq els ->
  let start := frame_ip s + 2 in
  let else_ := start + Z.of_nat (length body) in
  exists s', step s = Some (true, s') /\
    moved s s' (mkBranchBlock BLOCK_TYPE_IF ty (else_ + 1 + Z.of_nat (length els)) (frame_sp s - 4)
                  :: frame_csp s)
      (if v =? 0 then else_ + 1 else start) (frame_sp s - 4).
Proof.
  intros Hi Hv Hc Hbody Hels. cbn zeta.
  apply (step_move (S d) s WASM_OP_IF (ty :: body ++ opcode_val WASM_OP_ELSE ::
      els ++ opcode_val WASM_OP_END :: rest) op_if); try done.
  intros s1 E1. destruct (erase_view _ _ E1) as (E0 & E2 & _ & _ & _ & _ & _ & _ & Ee & E3 & E4).
  destruct (code_after_op _ _ _ _ _ _ _ Hi Hc E1) as [Hc1 Hip1].
  unfold op_if. rewrite (mbind_eq _ _ _ _ _ (next_byte_eq _ _ _ Hc1)).
  set (s2 := set_frame_ip (frame_ip s1 + 1) s1).
  pose proof (code_at_app s1 [ty] _ Hip1 Hc1) as Hc2.
  assert (Hm : code_base (module s2) = code_base (module s) /\ mod_code (module s2) = mod_code (module s)).
  { pose proof (erase_fields _ _ E1) as (_ & _ & _ & X4).
    by pose proof (module_fields _ _ X4) as (M1 & M2 & _). }
  destruct Hm as [Hm1 Hm2]. pose proof (inv_base _ _ _ _ Hi) as Hbase.
  destruct (find_block_eq s2 body els rest) as (cache & Ef & Hok & Hl); try done.
  { rewrite Hm1. cbn. rewrite E0. lia. }
  { unfold cache_good, the_cache. rewrite Hm1, Hm2. unfold s2. cbn. rewrite Ee. apply (inv_cache _ _ _ _ Hi). }
  { change (code_at s1 (frame_ip s1 + 1) = block_bytes body (Some els) ++ opcode_val WASM_OP_END :: rest).
    cbn [block_bytes]. rewrite <- app_assoc. exact Hc2. }
  rewrite (mbind_eq _ _ _ _ _ Ef). exists cache. rewrite Hm1, Hm2 in Hok. split; [|by split].
  set (s3 := upd_env (set_block_addr_cache cache) s2).
  change POP_I32 with (pop false). rewrite (mbind_eq _ _ _ _ _ (pop_eq false s3)).
  assert (Htop : top_val false s3 = v).
  { rewrite <- Hv. change (top_val false s3) with (top_val false s1).
    by rewrite <- (top_val_erase false s1), E1, top_val_erase. }
  destruct (inv_blocks _ _ _ _ Hi) as (fr & Hfr & Hn).
  unfold PUSH_CSP, get_frame, mbind, get. cbn -[Z.mul Z.add Z.sub opcode_val block_bytes].
  rewrite E4, Ee, Hfr. change (add_sp (- (1)) s3) with (add_sp (- ncells false) s3).
  change (frame_csp (add_sp (- ncells false) s3)) with (frame_csp s1). rewrite E3.
  rewrite (proj2 (Z.ltb_lt _ _)) by lia. unfold modify, set_ip, mret.
  change (cell_at s3 (frame_sp s1 - 4 * 1)) with (top_val false s3). rewrite Htop.
  assert (Hend : frame_ip s1 + 1 + Z.of_nat (length (block_bytes body (Some els))) =
    frame_ip s + 2 + Z.of_nat (length body) + 1 + Z.of_nat (length els))
    by (cbn [block_bytes]; rewrite length_app; cbn [length]; lia).
  rewrite Hend. destruct (Z.eqb_spec v 0) as [->|Hv0].
  - destruct (Z.eqb_spec (frame_ip s1 + 1 + Z.of_nat (length body)) 0); [lia|].
    unfold add_sp, s3, s2. rewrite move_jump. apply move_ext; cbn; [done| |lia|lia]. do 2 f_equal; lia.
  - unfold add_sp, s3, s2. rewrite move_fall. apply move_ext; cbn; [done| |lia|lia]. do 2 f_equal; lia.
Qed.

Lemma moved_trans s s1 s2 c1 i1 p1 c2 i2 p2 :
  moved s s1 c1 i1 p1 -> moved s1 s2 c2 i2 p2 -> moved s s2 c2 i2 p2.
Proof.
  intros [M1 M2 M3 M4 M5] [N1 N2 N3 N4 N5]. constructor; try done.
  - by rewrite N1, M1.
  - intros p. by rewrite N4.
Qed.

Lemma code_at_moved s s' c i p ip : moved s s' c i p -> code_at s' ip = code_at s ip.
Proof.
  intros Hm. pose proof (ctx_csp_fields _ _ _ (m_ctx _ _ _ _ _ Hm)) as (E & _).
  apply module_fields in E as (E1 & E2 & _). unfold code_at. by rewrite E1, E2.
Qed.

Lemma Inv_moved d d' s s' c i :
  Inv locals m d s -> moved s s' c i (frame_sp s) -> frame_ip s <= i ->
  (length c + d' <= length (frame_csp s) + d)%nat -> c <> [] -> Inv locals m d' s'.
Proof.
  intros Hi [M1 M2 M3 M4 M5] Hip Hl Hc.
  eapply (Inv_preserved _ _ _ _ _ _ c Hi); try done; try lia.
  intros p. rewrite M4. apply (inv_cells _ _ _ _ Hi).
Qed.

(** Leaving a conditional from either branch. *)
Lemma leave_end d s b r rest :
  Inv locals m d s -> frame_csp s = b :: r -> r <> [] ->
  code_at s (frame_ip s) = opcode_val WASM_OP_END :: rest ->
  reaches s (fun s' => moved s s' r (frame_ip s + 1) (frame_sp s)).
Proof.
  intros Hi Hb Hr Hc. destruct (step_end d s b r rest Hi Hb Hr Hc) as (s' & Es & Hm).
  by eapply reaches_step.
Qed.

Lemma leave_else d s b r els rest :
  Inv locals m d s -> frame_csp s = b :: r -> r <> [] ->
  target_addr b = frame_ip s + 1 + Z.of_nat (length els) ->
  code_at s (frame_ip s) = opcode_val WASM_OP_ELSE :: els ++ opcode_val WASM_OP_END :: rest ->
  reaches s (fun s' => moved s s' r (target_addr b + 1) (frame_sp s)).
Proof.
  intros Hi Hb Hr Ht Hc. destruct (step_else d s b r _ Hi Hb Hc) as (s1 & Es & Hm).
  eapply (reaches_trans s (fun s' => s' = s1)); [by eapply reaches_step|]. intros ? ->.
  assert (Hi1 : Inv locals m d s1).
  { apply (Inv_moved d d s s1 (b :: r) (target_addr b) Hi); [done|lia| |done]. by rewrite Hb. }
  assert (Hc1 : code_at s1 (frame_ip s1) = opcode_val WASM_OP_END :: rest).
  { rewrite (code_at_moved _ _ _ _ _ _ Hm), (m_ip _ _ _ _ _ Hm), Ht.
    replace (frame_ip s + 1 + Z.of_nat (length els))
      with (frame_ip s + Z.of_nat (length (opcode_val WASM_OP_ELSE :: els))) by (cbn [length]; lia).
    by apply (code_at_app s _ _ (Inv_ip_ok _ _ _ _ Hi)). }
  pose proof (ctx_csp_fields _ _ _ (m_ctx _ _ _ _ _ Hm)) as (_ & _ & _ & Hb1 & _).
  destruct (step_end d s1 b r rest Hi1 Hb1 Hr Hc1) as (s2 & Es2 & Hm2).
  eapply reaches_step; [done|]. rewrite (m_ip _ _ _ _ _ Hm), (m_sp _ _ _ _ _ Hm) in Hm2.
  by eapply moved_trans.
Qed.

(** Entering, evaluating and leaving add up to a push. *)
Lemma moved_pushed s s1 s3 s4 s5 len v csp b len2 c ip ip5 total :
  pushed s len (false, c) s1 -> moved s1 s3 (b :: csp) ip (frame_sp s1 - 4) ->
  pushed s3 len2 v s4 -> moved s4 s5 csp ip5 (frame_sp s4) -> csp = frame_csp s ->
  ip5 = frame_ip s + Z.of_nat total -> pushed s total v s5.
Proof.
  intros [P1 P2 P3 P4 P5 P6 P7] [M1 M2 M3 M4 M5] [Q1 Q2 Q3 Q4 Q5 Q6 Q7] [N1 N2 N3 N4 N5] Ec Et.
  cbn [fst snd ncells] in *. assert (Esp : frame_sp s3 = frame_sp s) by lia.
  constructor; try done; try lia.
  - rewrite N1, Q1, M1, P1, Ec. apply (set_frame_csp_same (ctx s)).
  - rewrite <- Q4, Esp. apply val_at_ext. intros q _. apply N4.
  - intros p Hp. rewrite N4, Q5, M4, P5 by lia. done.
  - intros p. rewrite N4. apply Q6.
Qed.

(** The taken branch [e] of a conditional entered at [s3], left by [Hleave]. *)
Lemma sim_branch d s s1 s3 e len c b ip rest1 ip5 total :
  simulates e -> Inv locals m (S d) s -> pushed s len (false, c) s1 -> (depth e <= d)%nat ->
  moved s1 s3 (b :: frame_csp s) ip (frame_sp s1 - 4) -> frame_ip s1 <= ip ->
  code_at s3 (frame_ip s3) = compile e ++ rest1 -> ip5 = frame_ip s + Z.of_nat total ->
  (forall s4, Inv locals m d s4 -> frame_csp s4 = b :: frame_csp s ->
     frame_ip s4 = frame_ip s3 + Z.of_nat (length (compile e)) ->
     code_at s4 (frame_ip s4) = rest1 ->
     reaches s4 (fun s5 => moved s4 s5 (frame_csp s) ip5 (frame_sp s4))) ->
  outcome (eval locals m e) s3 (fun v s4 => reaches s4 (pushed s total v)).
Proof.
  intros IH Hi Hp Hd Hm Hip Hc Hip5 Hleave.
  assert (Hi3 : Inv locals m d s3).
  { pose proof Hp as [P1 P2 P3 P4 P5 P6 P7]. pose proof Hm as [M1 M2 M3 M4 M5].
    cbn [fst snd ncells] in *. eapply (Inv_preserved _ _ _ _ _ _ (b :: frame_csp s) Hi); try done; try lia.
    - by rewrite M1, P1.
    - intros p Hp'. rewrite M4. by apply P5.
    - intros p. rewrite M4. apply P6.
    - cbn [length]. lia. }
  pose proof (IH s3 rest1 (Inv_weaken _ _ _ _ _ Hi3 Hd) Hc) as Hsim.
  eapply outcome_weaken; [exact Hsim|]. intros v s4 Hp4.
  pose proof (ctx_fields _ _ (p_ctx _ _ _ _ Hp4)) as (_ & _ & _ & Hb4 & _).
  pose proof (ctx_csp_fields _ _ _ (m_ctx _ _ _ _ _ Hm)) as (_ & _ & _ & Hb3 & _).
  eapply reaches_trans.
  - apply Hleave; [by eapply Inv_pushed|by rewrite Hb4, Hb3|apply (p_ip _ _ _ _ Hp4)|].
    by apply (after_operand _ _ _ _ _ _ _ _ Hi3 Hp4 Hc).
  - intros s5 Hm5. apply reaches_now. exact (moved_pushed _ _ _ _ _ _ _ _ _ _ _ _ _ _ Hp Hm Hp4 Hm5 eq_refl Hip5).
Qed.

Lemma outcome_flat {A} (r : res A) s (Q : A -> St -> Prop) :
  outcome r s (fun v s1 => reaches s1 (Q v)) -> outcome r s Q.
Proof.
  destruct r as [v|msg|]; cbn [outcome]; [|done|done].
  intros Hr. eapply reaches_trans; [exact Hr|done].
Qed.


Lemma sim_if w c e1 e2 :
  wf_expr e1 -> wf_expr e2 ->
  simulates c -> simulates e1 -> simulates e2 -> simulates (EIf w c e1 e2).
Proof.
  intros Hw1 Hw2 IHc IH1 IH2 s rest Hi Hc. cbn [eval compile depth] in *.
  rewrite <- app_assoc in Hc. cbn [app] in Hc. rewrite <- app_assoc in Hc. cbn [app] in Hc.
  rewrite <- app_assoc in Hc. cbn [app] in Hc.
  assert (Hi0 : Inv locals m (depth c) s) by (apply (Inv_weaken _ _ _ _ _ Hi); lia).
  eapply outcome_bind; [apply outcome_typed, (IHc s _ Hi0 Hc)|].
  intros [w' v] s1 [Ew Hp1]. cbn [fst] in Ew. subst w'.
  pose proof (after_operand _ _ _ _ _ _ _ _ Hi Hp1 Hc) as Hc1.
  set (dd := (depth e1 `max` depth e2)%nat) in *.
  assert (Hid : Inv locals m (S dd) s) by (apply (Inv_weaken _ _ _ _ _ Hi); lia).
  assert (Hi1 : Inv locals m (S dd) s1) by (by eapply Inv_pushed).
  pose proof (ctx_fields _ _ (p_ctx _ _ _ _ Hp1)) as (_ & _ & _ & Hcsp & _).
  destruct (step_if dd s1 (block_ty w) (compile e1) (compile e2) rest v Hi1 (pushed_top _ _ _ _ Hp1)
    Hc1 (compile_code_seq e1 Hw1) (compile_code_seq e2 Hw2)) as (s3 & Es3 & Hm3).
  rewrite Hcsp in Hm3.
  assert (Htotal : frame_ip s1 + 2 + Z.of_nat (length (compile e1)) + 1 + Z.of_nat (length (compile e2)) + 1
    = frame_ip s + Z.of_nat (length (compile (EIf w c e1 e2)))).
  { rewrite (p_ip _ _ _ _ Hp1). cbn [compile]. rewrite length_app. cbn [length].
    rewrite length_app. cbn [length]. rewrite length_app. cbn [length]. lia. }
  eapply (outcome_after _ _ (fun s2 => s3 = s2)); [by eapply reaches_step|]. intros ? <-.
  eapply outcome_weaken; [apply outcome_typed with (Q := pushed s (length (compile (EIf w c e1 e2))))|
    by intros ? ? [_ ?]].
  apply outcome_flat. pose proof (Inv_ip_ok _ _ _ _ Hi1) as Hip1.
  pose proof (inv_csp _ _ _ _ Hi) as Hne.
  destruct (Z.eqb_spec v 0) as [Hv|Hv].
  - eapply (sim_branch dd s s1 s3 e2 _ v _ _ (opcode_val WASM_OP_END :: rest) _ _ IH2 Hid Hp1
      ltac:(lia) Hm3); [lia| |exact Htotal|].
    + rewrite (m_ip _ _ _ _ _ Hm3), (code_at_moved _ _ _ _ _ _ Hm3).
      replace (frame_ip s1 + 2 + Z.of_nat (length (compile e1)) + 1) with (frame_ip s1 + Z.of_nat
        (length (opcode_val WASM_OP_IF :: block_ty w :: compile e1 ++ [opcode_val WASM_OP_ELSE])))
        by (cbn [length]; rewrite length_app; cbn [length]; lia).
      apply (code_at_app s1); [done|]. cbn [app]. rewrite <- app_assoc. exact Hc1.
    + intros s4 Hi4 Hb4 Hip4 Hc4. rewrite (m_ip _ _ _ _ _ Hm3) in Hip4.
      pose proof (leave_end dd s4 _ _ rest Hi4 Hb4 Hne Hc4) as Hl. rewrite Hip4 in Hl. exact Hl.
  - eapply (sim_branch dd s s1 s3 e1 _ v _ _ (opcode_val WASM_OP_ELSE :: compile e2 ++
      opcode_val WASM_OP_END :: rest) _ _ IH1 Hid Hp1 ltac:(lia) Hm3); [lia| |exact Htotal|].
    + rewrite (m_ip _ _ _ _ _ Hm3), (code_at_moved _ _ _ _ _ _ Hm3).
      apply (code_at_app s1 [opcode_val WASM_OP_IF; block_ty w]); [done|]. exact Hc1.
    + intros s4 Hi4 Hb4 Hip4 Hc4. rewrite (m_ip _ _ _ _ _ Hm3) in Hip4.
      apply (leave_else dd s4 _ _ (compile e2) rest Hi4 Hb4 Hne); [|exact Hc4].
      cbn [target_addr]. lia.
Qed.

Lemma simulation e : wf_expr e -> simulates e.
Proof.
  induction e as [w v|i|op e IH|op e1 IH1 e2 IH2|op fl off e IH|w c IHc e1 IH1 e2 IH2];
    cbn [wf_expr]; intros Hw.
  - exact (sim_const locals m Hclk w v).
  - exact (sim_local locals m Hclk i).
  - exact (sim_unop locals m Hclk op e (IH (proj2 Hw))).
  - destruct Hw as (_ & Hw1 & Hw2). exact (sim_binop locals m Hclk op e1 e2 (IH1 Hw1) (IH2 Hw2)).
  - destruct Hw as (Ho & Hf & Hoff & Hw). exact (sim_load locals m Hclk Hlin op fl off e Ho Hf Hoff (IH Hw)).
  - destruct Hw as (Hwc & Hw1 & Hw2). exact (sim_if w c e1 e2 Hw1 Hw2 (IHc Hwc) (IH1 Hw1) (IH2 Hw2)).
Qed.

End Conditional.

Section Theorem_.
Context `{Platform} `{Natives}.

(** C1: the interpreter computes expressions.  Wherever the bytes at the
    instruction pointer begin with the translation of a well-formed
    expression - constants, locals, every integer and float opcode, loads,
    nested conditionals - running them, in any function, with any sound
    block address cache and enough blocks for the nesting, either pushes
    exactly the value of the expression and leaves everything below it, the
    block stack and the rest of the machine as they were, at the byte behind
    the translation, or stops with exactly the trap the evaluation meets
    first. *)
Theorem compile_correct (locals : Z -> option value) m (e : expr) (s : St) rest :
  clock_runs -> linear_size m <= 2 ^ 31 -> wf_expr e ->
  Inv locals m (depth e) s ->
  code_at s (frame_ip s) = compile e ++ rest ->
  outcome (eval locals m e) s (pushed s (length (compile e))).
Proof. intros Hclk Hlin Hw Hi Hc. by apply (simulation locals m Hclk Hlin e Hw s rest). Qed.

End Theorem_.

(** A function of one parameter in the middle of its body, the parameter
    being 5. *)
Definition sample_expr : expr :=
  EIf false (ELocal 0)
    (EBin WASM_OP_I32_ADD (ELoad WASM_OP_I32_LOAD8_U 0 8 (EConst false 16)) (ELocal 0))
    (EBin WASM_OP_I32_DIV_U (EConst false 1) (EConst false 0)).
Definition sample_function : WASMFunctionInstance :=
  mkFunction false 1 0 1 1 0 [0] [0x7f; 0x7f] [] (mkType 1 1 [0x7f; 0x7f]) 1000 64 6 4 true.
Definition sample_expr_state : St :=
  let s := sample_state (compile sample_expr ++ [0x0b]) [5] in
  set_cur_func 0 (set_frame_csp [mkBranchBlock BLOCK_TYPE_FUNCTION 0x7f 1063 6004]
    (set_module (sample_code_module (compile sample_expr ++ [0x0b]) [sample_function])
      (upd_env (set_frames {[5000 := mkFrame 4900 (Some 0%nat) 0 0 [] 4]}) s))).
Definition sample_locals (i : Z) : option value := if i =? 0 then Some (false, 5) else None.

Lemma sample_expr_inv :
  @Inv (sample_platform true) sample_locals sample_memory 1 sample_expr_state.
Proof.
  constructor.
  - by left.
  - split; reflexivity.
  - by apply (cells_ok_sample _ 6000 [5]).
  - split; [|done]. apply Forall_replicate. split; by left.
  - exists (mkFrame 4900 (Some 0%nat) 0 0 [] 4). by split.
  - done.
  - intros i w v E. unfold sample_locals in E. destruct (Z.eqb_spec i 0) as [->|]; [|done].
    injection E as <- <-. split; [done|]. exists sample_function, 0, 0x7f. by vm_compute.
  - constructor; [done|apply sample_memory_wf|done].
Qed.

Lemma compile_correct_witness :
  @eval (sample_platform true) sample_locals sample_memory sample_expr = Ok (false, 6) /\
  @reaches (sample_platform true) sample_natives sample_expr_state
    (fun s' => top_val false s' = 6 /\ frame_ip s' = 1019).
Proof.
  assert (E : @eval (sample_platform true) sample_locals sample_memory sample_expr = Ok (false, 6))
    by (vm_compute; reflexivity).
  split; [exact E|].
  pose proof (@compile_correct (sample_platform true) sample_natives sample_locals sample_memory
    sample_expr sample_expr_state [0x0b] (sample_clock_runs true) ltac:(vm_compute; congruence)
    ltac:(vm_compute; repeat split; congruence) sample_expr_inv ltac:(vm_compute; reflexivity)) as Hc.
  rewrite E in Hc. destruct Hc as (n & s' & Hr & Hp). exists n, s'. split; [exact Hr|]. split.
  - exact (pushed_top _ _ _ _ Hp).
  - rewrite (p_ip _ _ _ _ Hp). vm_compute. reflexivity.
Defined.
