(* ===== verification/Aerogel.v ===== *)
(** * Aerogel: access control of sensors and actuators

    The specification sheets of
    [core/iwasm/interpreter/wasm_runtime.c] and their parser, the three
    checks in front of every peripheral access, the access loop
    [aerogel_sensor_module], and the native functions of
    [core/iwasm/common/wasm_runtime_common.c] that applications import.

    C strings are [string]s (the terminator is their end); reading or
    writing outside a buffer, reading what was never written, dereferencing
    [NULL] and dividing by zero are [Undef].  The allocations of this part
    are not checked by the code and succeed here.  [printf]s are left out;
    what reaches a peripheral is recorded in [trace]. *)

From S2P Require Import Prelude Instance.
From Stdlib Require Import Ascii.
#[local] Open Scope string_scope.
#[local] Open Scope Z_scope.

(** ** C library *)

(** [strstr]: the rest of [hay] from the first occurrence. *)
Fixpoint strstr (hay needle : string) : option string :=
  if String.prefix needle hay then Some hay else
  match hay with
  | EmptyString => None
  | String _ h => strstr h needle
  end.

(** [p + n], up to the terminator. *)
Fixpoint skip (n : nat) (s : string) : res string :=
  match n with
  | O => Ok s
  | S n => match s with EmptyString => Undef | String _ s => skip n s end
  end.

(** [strstr] where the code relies on a match, then past it. *)
Definition after (key s : string) : res string :=
  match strstr s key with
  | None => Undef
  | Some t => skip (String.length key) t
  end.

Definition newline : ascii := "010"%char.
Definition tab : ascii := "009"%char.

Fixpoint count_char (c : ascii) (s : string) : Z :=
  match s with
  | EmptyString => 0
  | String d s => (if Ascii.eqb d c then 1 else 0) + count_char c s
  end.

Definition digit_val (c : ascii) : option Z :=
  let n := Z.of_nat (nat_of_ascii c) in
  if (48 <=? n) && (n <=? 57) then Some (n - 48) else None.
Definition hex_val (c : ascii) : option Z :=
  let n := Z.of_nat (nat_of_ascii c) in
  if (48 <=? n) && (n <=? 57) then Some (n - 48)
  else if (65 <=? n) && (n <=? 70) then Some (n - 55)
  else if (97 <=? n) && (n <=? 102) then Some (n - 87)
  else None.
Definition is_space (c : ascii) : bool :=
  let n := Z.of_nat (nat_of_ascii c) in (n =? 32) || ((9 <=? n) && (n <=? 13)).

Fixpoint digits (base : Z) (val : ascii -> option Z) (acc : Z) (s : string) : Z :=
  match s with
  | EmptyString => acc
  | String c s => match val c with
                  | Some d => digits base val (base * acc + d) s
                  | None => acc
                  end
  end.
Fixpoint skip_spaces (s : string) : string :=
  match s with
  | String c s' => if is_space c then skip_spaces s' else s
  | EmptyString => s
  end.
Definition signed_digits (f : string -> Z) (s : string) : Z :=
  match skip_spaces s with
  | String "-"%char s => - f s
  | String "+"%char s => f s
  | s => f s
  end.

(** [atoi]: undefined when the value is no [int]. *)
Definition atoi (s : string) : res Z :=
  let v := signed_digits (digits 10 digit_val 0) s in
  if (- 2 ^ 31 <=? v) && (v <? 2 ^ 31) then Ok v else Undef.

(** [(uint32)strtoul (s, NULL, 16)] for at most ten characters. *)
Definition strtoul16 (s : string) : Z :=
  u32 (signed_digits (fun s =>
    let s := match s with
             | String "0"%char (String ("x"%char | "X"%char) (String c r as t)) =>
                 match hex_val c with Some _ => t | None => s end
             | _ => s
             end in
    digits 16 hex_val 0 s) s).

(** [strncpy (buf, s, n)] into a larger, zeroed buffer. *)
Fixpoint strncpy (n : nat) (s : string) : string :=
  match n, s with
  | S n, String c s => String c (strncpy n s)
  | _, _ => ""
  end.

(** [for (i = 0; i < n; i++) { if (s[i] == stop) break; buf[i] = s[i]; }]
    into a zeroed buffer of [n] bytes: the string there, and whether a
    terminator is left.  The loop does not stop at the end of [s]. *)
Fixpoint copy_field (n : nat) (stop : ascii) (s : string) : res (string * bool) :=
  match n with
  | O => Ok ("", false)
  | S n =>
      match s with
      | EmptyString => if (n =? 0)%nat then Ok ("", true) else Undef
      | String c s =>
          if Ascii.eqb c stop then Ok ("", true)
          else rlet '(r, ended) := copy_field n stop s in Ok (String c r, ended)
      end
  end.
(** ... when the buffer is then read as a string. *)
Definition field (n : nat) (stop : ascii) (s : string) : res string :=
  rlet '(r, ended) := copy_field n stop s in if (ended : bool) then Ok r else Undef.

(** ** The sheets of the source *)

Definition device_spec : string :=
"name:imu,id:0,address:0x90000000,power:10,concurrent_access:50
name:camera,id:1,address:0x8ffffffc,power:500,concurrent_access:2
name:motion,id:2,address:0x8ffffff0,power:20,concurrent_access:65
name:microphone,id:3,address:0x8FFFFFEC,power:100,concurrent_access:3
name:speaker,id:4,address:0x8FFFFFE4,power:400,concurrent_access:1
name:door_motor,id:5,address:0x8FFFFFE0,power:300,concurrent_access:1
name:propeller,id:6,address:0x8FFFFFC0,power:350,concurrent_access:1
name:home_camera_control,id:7,address:0x8FFFFFC4,power:400,concurrent_access:1
name:home_camera_image,id:8,address:0x8FFFFFCC,power:500,concurrent_access:30
name:door_battery,id:9,address:0x8FFFFFC8,power:20,concurrent_access:30
mcu,power:1
".

Definition module_spec : string :=
"name:regular1,device:camera-1000000.speaker-30000,mcu:9000,memory:200000
name:regular2,device:imu-10000.motion-9000.camera-10000000.speaker-20000.propeller-5000.door_motor-100000,mcu:1000000,memory:200000
name:regular3,device:camera-1000000.microphone-5000,mcu:9000,memory:200000
name:regular_uav1,device:imu-10000.camera-1000000.propeller-1000000,mcu:10000000,memory:200000
name:regular_uav2,device:imu-10000.camera-1000000,mcu:10000000,memory:200000
name:regular_smarthome1,device:microphone-100000.speaker-1000000.door_battery-10000.home_camera_image-50000,mcu:10000000,memory:200000
name:regular_smarthome2,device:motion-100000.home_camera_image-5000000.home_camera_control-5000000.door_motor-5000000,mcu:100000000,memory:200000
name:shortage_camera,device:home_camera_image-1500,mcu:10000000,memory:200000
name:shortage_memory,device:imu-10000.camera-1000000,mcu:10000000,memory:5000
name:shortage_mcu,device:microphone-1000000.door_battery-10000.home_camera_image-50000,mcu:5000,memory:200000
name:init_access_denial,device:camera-1000000.speaker-30000,mcu:10000000,memory:200000
name:max_con_access,device:camera-10000000.propeller-1000000,mcu:10000000,memory:200000
".

Definition sensor_index_mapping : list string :=
  ["imu"; "camera"; "motion"; "microphone"; "speaker"; "door_motor"; "propeller";
   "home_camera_control"; "home_camera_image"; "door_battery"].

(** ** Global state *)

(** What peripherals see. *)
Inductive access :=
  | ReadSensor (name : string) (freq : Z)
  | SetActuator (name : string) (vals : list Z) (latency : Z).

Record Globals := mkGlobals {
  g_world : World;
  sensor_actuator_concurrent_access : list Z;
  num_sensor_actuator_concurrent_access : Z;
  check_peripheral_overhead : Z;
  other_checking_overhead : Z;
  parsing_file_overhead : Z;
  rands : nat;                     (* calls of [get_renju_rand] *)
  trace : list access              (* latest first *)
}.

Definition set_g_world (v : World) (g : Globals) : Globals :=
  mkGlobals v (sensor_actuator_concurrent_access g) (num_sensor_actuator_concurrent_access
    g) (check_peripheral_overhead g) (other_checking_overhead g) (parsing_file_overhead g)
    (rands g) (trace g).
Definition set_sensor_actuator_concurrent_access (v : list Z) (g : Globals) : Globals :=
  mkGlobals (g_world g) v (num_sensor_actuator_concurrent_access g)
    (check_peripheral_overhead g) (other_checking_overhead g) (parsing_file_overhead g) (rands
    g) (trace g).
Definition set_num_sensor_actuator_concurrent_access (v : Z) (g : Globals) : Globals :=
  mkGlobals (g_world g) (sensor_actuator_concurrent_access g) v (check_peripheral_overhead
    g) (other_checking_overhead g) (parsing_file_overhead g) (rands g) (trace g).
Definition set_check_peripheral_overhead (v : Z) (g : Globals) : Globals :=
  mkGlobals (g_world g) (sensor_actuator_concurrent_access g)
    (num_sensor_actuator_concurrent_access g) v (other_checking_overhead g)
    (parsing_file_overhead g) (rands g) (trace g).
Definition set_other_checking_overhead (v : Z) (g : Globals) : Globals :=
  mkGlobals (g_world g) (sensor_actuator_concurrent_access g)
    (num_sensor_actuator_concurrent_access g) (check_peripheral_overhead g) v
    (parsing_file_overhead g) (rands g) (trace g).
Definition set_parsing_file_overhead (v : Z) (g : Globals) : Globals :=
  mkGlobals (g_world g) (sensor_actuator_concurrent_access g)
    (num_sensor_actuator_concurrent_access g) (check_peripheral_overhead g)
    (other_checking_overhead g) v (rands g) (trace g).
Definition set_rands (v : nat) (g : Globals) : Globals :=
  mkGlobals (g_world g) (sensor_actuator_concurrent_access g)
    (num_sensor_actuator_concurrent_access g) (check_peripheral_overhead g)
    (other_checking_overhead g) (parsing_file_overhead g) v (trace g).
Definition set_trace (v : list access) (g : Globals) : Globals :=
  mkGlobals (g_world g) (sensor_actuator_concurrent_access g)
    (num_sensor_actuator_concurrent_access g) (check_peripheral_overhead g)
    (other_checking_overhead g) (parsing_file_overhead g) (rands g) v.

Section Aerogel.
Context `{Platform}.

(** The sheets; what lies in memory nobody wrote: a word of a fresh
    allocation, the rest of a local buffer. *)
Context (device_spec module_spec : string).
Context (uninit_word : Z) (uninit_buffer : string).
(** [get_renju_rand], by number of calls. *)
Context (renju_rand : nat -> Z).

(** ** Parsing the sheets *)

(** [parse_sensor_actuator_info]: [None] is the [NULL] of a bad name. *)
Definition parse_sensor_actuator_info (name : string) (allowed : Z)
    : res (option SensorActuatorInfo) :=
  match strstr device_spec name with
  | None => Ok None
  | Some tmp =>
      rlet tmp := (match strstr tmp "id:" with None => Undef | Some t => Ok t end) in
      rlet at_id := skip 3 tmp in
      let id := match at_id with
                | EmptyString => - 48
                | String c _ => Z.of_nat (nat_of_ascii c) - 48
                end in
      rlet tmp := after "address:" tmp in
      let address := strtoul16 (strncpy 10 tmp) in
      rlet tmp := after "power:" tmp in
      rlet power := (rlet f := field 4 ","%char tmp in atoi f) in
      rlet tmp := after "concurrent_access:" tmp in
      rlet concurrent := (rlet f := field 3 newline tmp in atoi f) in
      Ok (Some (mkSensorActuatorInfo (u32 id) address (u32 concurrent) (u32 power) allowed 0
                  uninit_word))
  end.

(** [parse_sensor_actuator_info_list]: the loop's locals are the two
    buffers and which of them is being filled; the array has ten slots. *)
Record ListParser := mkListParser {
  lp_num : bool; lp_name : string; lp_number : string; lp_infos : list (option SensorActuatorInfo)
}.

(** [buf[j++] = c] into [n] bytes. *)
Definition append_char (n : nat) (buf : string) (c : ascii) : res string :=
  if (String.length buf <? n)%nat then Ok (buf ++ String c "")%string else Undef.

(** Closing an entry; both buffers must be terminated. *)
Definition parse_entry (s : ListParser) : res (list (option SensorActuatorInfo)) :=
  if (String.length (lp_name s) <? 20)%nat && (String.length (lp_number s) <? 10)%nat
     && (length (lp_infos s) <? 10)%nat then
    rlet number := atoi (lp_number s) in
    rlet info := parse_sensor_actuator_info (lp_name s) (u32 number) in
    Ok (lp_infos s ++ [info])%list
  else Undef.

Definition list_parser_step (c : ascii) (s : ListParser) : res ListParser :=
  if lp_num s then
    if Ascii.eqb c "."%char then
      rlet infos := parse_entry s in Ok (mkListParser false "" (lp_number s) infos)
    else
      rlet number := append_char 10 (lp_number s) c in
      Ok (mkListParser true (lp_name s) number (lp_infos s))
  else if Ascii.eqb c "-"%char then Ok (mkListParser true (lp_name s) "" (lp_infos s))
  else
    rlet name := append_char 20 (lp_name s) c in
    Ok (mkListParser false name (lp_number s) (lp_infos s)).

Fixpoint parse_list_from (l : string) (s : ListParser) : res (list (option SensorActuatorInfo)) :=
  match l with
  | EmptyString => parse_entry s
  | String c l => rlet s := list_parser_step c s in parse_list_from l s
  end.
Definition parse_sensor_actuator_info_list (l : string) : res (list (option SensorActuatorInfo)) :=
  parse_list_from l (mkListParser false "" "" []).

(** One iteration of [parse_access_control_module], [tmp] behind "name:". *)
Definition parse_module_row (tmp : string) : res (AccessControlModule * string) :=
  rlet '(name, _) := copy_field 20 ","%char tmp in
  rlet tmp := after "device:" tmp in
  rlet device_list := field 100 ","%char tmp in
  let num := 1 + count_char "."%char device_list in
  rlet devices := parse_sensor_actuator_info_list device_list in
  rlet tmp := after "mcu:" tmp in
  rlet mcu := (rlet f := field 8 ","%char tmp in atoi f) in
  rlet tmp := after "memory:" tmp in
  rlet memory := (rlet f := field 16 newline tmp in atoi f) in
  Ok (mkAccessControlModule name devices num (u32 mcu) (u32 memory), tmp).

(** [parse_access_control_module]: the list has eleven slots; every row
    consumes characters. *)
Definition MODULE_LIST_SLOTS : nat := 11.
Fixpoint parse_module_rows (fuel : nat) (tmp : string) (acc : list AccessControlModule)
    : res (list AccessControlModule) :=
  match strstr tmp "name:" with
  | None => Ok acc
  | Some t =>
      match fuel with
      | O => Undef
      | S fuel =>
          rlet t := skip 5 t in
          rlet '(row, t) := parse_module_row t in
          if (length acc <? MODULE_LIST_SLOTS)%nat
          then parse_module_rows fuel t (acc ++ [row])%list else Undef
      end
  end.
Definition parse_access_control_module : res (list AccessControlModule) :=
  parse_module_rows (S (String.length module_spec)) module_spec [].

(** The rows of a sheet, without what follows the last newline. *)
Fixpoint rows (s acc : string) : list string :=
  match s with
  | EmptyString => []
  | String c s => if Ascii.eqb c newline then acc :: rows s ""
                  else rows s (acc ++ String c "")%string
  end.

(** [init_sensor_access]: counts the rows but the last and zeroes a counter
    for each that declares its concurrency.  Its row buffer is unterminated
    for the first row. *)
Fixpoint zero_counters (rows : list string) (first : bool) (k : nat) (counters : list Z)
    : res (list Z) :=
  match rows with
  | [] => Ok counters
  | r :: rest =>
      if (150 <? String.length r)%nat then Undef else
      match strstr (if first || (150 <=? String.length r)%nat then r ++ uninit_buffer else r)%string "concurrent_access:" with
      | None => Ok counters
      | Some _ => if (k <? length counters)%nat
                  then zero_counters rest false (S k) (<[k := 0]> counters) else Undef
      end
  end.
Definition init_sensor_access (g : Globals) : res Globals :=
  let spec := String.substring 0 (String.length device_spec - 1) device_spec in
  rlet counters := zero_counters (rows spec "") true 0 (sensor_actuator_concurrent_access g) in
  Ok (set_sensor_actuator_concurrent_access counters
       (set_num_sensor_actuator_concurrent_access
         (num_sensor_actuator_concurrent_access g + count_char newline spec) g)).

(** All peripheral addresses of the device sheet. *)
Fixpoint all_addresses (fuel : nat) (tmp : string) : list Z :=
  match fuel with
  | O => []
  | S fuel =>
      match strstr tmp "address:" with
      | None => []
      | Some t => match skip 8 t with
                  | Ok t => strtoul16 (strncpy 10 t) :: all_addresses fuel t
                  | _ => []
                  end
      end
  end.

Definition clock (g : Globals) : Z * Globals :=
  let '(t, w) := tick (g_world g) in (t, set_g_world w g).

(** [parse_access_control_spec] for an instance; [total_address] grows with
    every call, the fresh array is filled from the start. *)
Definition parse_access_control_spec (g : Globals) : res (AccessControl * Globals) :=
  let '(start, g) := clock g in
  rlet g := (if num_sensor_actuator_concurrent_access g =? 0 then init_sensor_access g else Ok g) in
  rlet infos := parse_access_control_module in
  rlet tmp := after "mcu,power:" device_spec in
  rlet power := (rlet f := field 8 newline tmp in atoi f) in
  let total := total_address (g_world g) + count_char newline device_spec - 1 in
  let found := all_addresses (S (String.length device_spec)) device_spec in
  if Z.of_nat (length found) <=? total then
    let addrs := (found ++ replicate (Z.to_nat total - length found) uninit_word)%list in
    let g := set_g_world (set_addresses addrs (set_total_address total (g_world g))) g in
    let '(end_, g) := clock g in
    Ok (mkAccessControl infos (count_char newline module_spec) 0 (u32 power),
        set_parsing_file_overhead
          (u32 (parsing_file_overhead g + (s32 end_ - s32 start))) g)
  else Undef.

(** [wasm_add_index_from_name]: newlines before the first occurrence. *)
Definition wasm_add_index_from_name (m : WASMModuleInstance) (name : string)
    : res WASMModuleInstance :=
  if EVAL_NO_AEROGEL then Ok m else
  match strstr module_spec name, access_control m with
  | Some t, Some ac =>
      let before := String.substring 0 (String.length module_spec - String.length t) module_spec in
      Ok (set_access_control (Some (set_module_index (Z.to_nat (count_char newline before)) ac)) m)
  | _, _ => Undef
  end.

(** ** Checks

    [true] means denied, as in the source. *)

Fixpoint upto (stop : ascii) (s : string) : string :=
  match s with
  | EmptyString => ""
  | String c s => if Ascii.eqb c stop then "" else String c (upto stop s)
  end.

Definition add_other_overhead (start end_ : Z) (g : Globals) : Globals :=
  set_other_checking_overhead (u32 (other_checking_overhead g + (s32 end_ - s32 start))) g.
Definition add_peripheral_overhead (start end_ : Z) (g : Globals) : Globals :=
  set_check_peripheral_overhead (u32 (check_peripheral_overhead g + (s32 end_ - s32 start))) g.

(** The row is copied to a buffer of 200 bytes without a terminator. *)
Definition name_denied (module_name sensor_name : string) : res bool :=
  match strstr module_spec module_name with
  | None => Ok true
  | Some tmp =>
      let row := upto newline tmp in
      if (200 <? String.length row)%nat then Undef
      else Ok (match strstr (row ++ uninit_buffer)%string sensor_name with
               | Some _ => false
               | None => true
               end)
  end.
Definition check_access_name (module_name sensor_name : string) (g : Globals)
    : res (bool * Globals) :=
  if EVAL_NO_AEROGEL then Ok (false, g) else
  let '(start, g) := clock g in
  rlet denied := name_denied module_name sensor_name in
  let '(end_, g) := clock g in
  Ok (denied, add_other_overhead start end_ g).

(** First name of the mapping that contains [name]. *)
Fixpoint peripheral_index (mapping : list string) (name : string) : option nat :=
  match mapping with
  | [] => None
  | n :: rest => match strstr n name with
                 | Some _ => Some 0%nat
                 | None => S <$> peripheral_index rest name
                 end
  end.

Definition check_access_concurrency (sensor_name : string) (max_concurrent : Z) (g : Globals)
    : res (bool * Globals) :=
  if EVAL_NO_AEROGEL then Ok (false, g) else
  let '(start, g) := clock g in
  rlet '(denied, g) :=
    match peripheral_index sensor_index_mapping sensor_name with
    | None => Ok (true, g)
    | Some i =>
        match sensor_actuator_concurrent_access g !! i with
        | None => Undef
        | Some n =>
            if n <? max_concurrent
            then Ok (false, set_sensor_actuator_concurrent_access
                       (<[i := u32 (n + 1)]> (sensor_actuator_concurrent_access g)) g)
            else Ok (true, g)
        end
    end in
  let '(end_, g) := clock g in
  Ok (denied, add_other_overhead start end_ g).

(** One access charged to a peripheral at [cur_time]. *)
Definition charge (cur_time : Z) (i : SensorActuatorInfo) : bool * SensorActuatorInfo :=
  if 10000000 <? u32 (cur_time - sa_timestamp i)
  then (false, set_used_power 0 (set_sa_timestamp cur_time i))
  else
    let i := set_used_power (u32 (used_power i + u32 (power i * 1))) i in
    if allowed_power_consumption i <? used_power i then (true, set_used_power 0 i)
    else (false, i).

(** The entry of a peripheral among the first [n] authorised ones. *)
Fixpoint find_info (id : Z) (n : nat) (infos : list (option SensorActuatorInfo))
    : res (option (nat * SensorActuatorInfo)) :=
  match n with
  | O => Ok None
  | S n =>
      match infos with
      | Some i :: rest =>
          if sa_id i =? id then Ok (Some (0%nat, i)) else
          rlet r := find_info id n rest in
          Ok ((fun '(k, i) => (S k, i)) <$> r)
      | _ => Undef
      end
  end.

Definition set_info (k : nat) (i : SensorActuatorInfo) (a : AccessControlModule) : AccessControlModule :=
  set_authorized_sensor_actuator (<[k := Some i]> (authorized_sensor_actuator a)) a.

Definition check_access_energy (m : WASMModuleInstance) (peripheral_name : string) (g : Globals)
    : res (bool * WASMModuleInstance * Globals) :=
  if EVAL_NO_AEROGEL then Ok (false, m, g) else
  let '(start, g) := clock g in
  rlet '(denied, m, g) :=
    match peripheral_index sensor_index_mapping peripheral_name with
    | None => Ok (true, m, g)
    | Some id =>
        rlet a := current_module_info m in
        rlet found := find_info (Z.of_nat id) (Z.to_nat (num_authorized_sensor_actuator a))
                        (authorized_sensor_actuator a) in
        match found with
        | None => Ok (true, m, g)
        | Some (k, i) =>
            let '(cur_time, g) := clock g in
            let '(denied, i) := charge cur_time i in
            Ok (denied, set_current_module_info (set_info k i a) m, g)
        end
    end in
  let '(end_, g) := clock g in
  Ok (denied, m, add_peripheral_overhead start end_ g).

(** ** Peripheral accesses *)

Record aerogel_sensor := mkSensor { sensor_name : string; freq : Z; duration : Z }.
Record aerogel_actuator := mkActuator {
  actuator_name : string; act_val : list Z; repetition : Z; act_latency : Z
}.
(** One array of words per round; [None] was never written. *)
Record aerogel_val := mkVal { val_name : string; val_value : list (option (list Z)) }.

Definition record_access (a : access) (g : Globals) : Globals := set_trace (a :: trace g) g.

Fixpoint take_rands (n : nat) (from : nat) (modulus : Z) : list Z :=
  match n with
  | O => []
  | S n => u32 (renju_rand from) mod modulus :: take_rands n (S from) modulus
  end.
Definition draw (n : nat) (modulus : Z) (g : Globals) : list Z * Globals :=
  (take_rands n (rands g) modulus, set_rands (rands g + n) g).

(** [get_imu], [get_door_battery], [get_camera], [get_motion],
    [get_microphone]; the camera keeps one of ten numbers. *)
Definition get_imu (g : Globals) := draw 3 100 g.
Definition get_door_battery (g : Globals) := draw 1 100 g.
Definition get_camera (g : Globals) : list Z * Globals :=
  let '(image, g) := draw 100 100 g in
  (map (fun i => default 0 (image !! (10 * i)%nat)) (seq 0 10), g).
Definition get_motion (g : Globals) := draw 1 4 g.
Definition get_microphone (g : Globals) := draw 10 4 g.

Definition read_device (name : string) : option (Globals -> list Z * Globals) :=
  if String.eqb name "imu" then Some get_imu
  else if String.eqb name "door_battery" then Some get_door_battery
  else if String.eqb name "camera" || String.eqb name "home_camera_image" then Some get_camera
  else if String.eqb name "motion" then Some get_motion
  else if String.eqb name "microphone" then Some get_microphone
  else None.
Definition is_actuator (name : string) : bool :=
  String.eqb name "speaker" || String.eqb name "door_motor" || String.eqb name "propeller"
  || String.eqb name "home_camera_control".

(** The limit in the device sheet, copied to 20 bytes, zeroed or not. *)
Definition max_access (zeroed : bool) (name : string) : res Z :=
  if EVAL_NO_AEROGEL then Ok (if zeroed then 1000 else 10000) else
  match strstr device_spec name with
  | None => Undef
  | Some tmp =>
      rlet tmp := after "concurrent_access:" tmp in
      let number := upto newline tmp in
      if (String.length number =? String.length tmp)%nat then Undef
      else if (20 <=? String.length number)%nat then Undef
      else rlet n := atoi (if zeroed then number else number ++ uninit_buffer)%string in Ok (u32 n)
  end.

(** The time of an access counts against the CPU budget; a module over it
    waits, and the time is forgotten. *)
Definition account_cpu (start : Z) (m : WASMModuleInstance) (g : Globals)
    : res (WASMModuleInstance * Globals) :=
  let '(end_, g) := clock g in
  let m := set_native_execution_time_us (u32 (s32 end_ - s32 start)) m in
  rlet '(over, w) := check_cpu_consumption m (g_world g) in
  let g := set_g_world w g in
  Ok (if (over : bool) then set_native_execution_time_us 0 m else m, g).

Fixpoint actuate (n : nat) (a : aerogel_actuator) (m : WASMModuleInstance) (g : Globals)
    : res (WASMModuleInstance * Globals) :=
  match n with
  | O => Ok (m, g)
  | S n =>
      rlet '(denied, m, g) := check_access_energy m (actuator_name a) g in
      let g := if negb denied && is_actuator (actuator_name a)
               then record_access (SetActuator (actuator_name a) (act_val a) (act_latency a)) g
               else g in
      actuate n a m g
  end.

Definition use_actuator (module_name : string) (a : aerogel_actuator)
    (m : WASMModuleInstance) (g : Globals) : res (WASMModuleInstance * Globals) :=
  let name := actuator_name a in
  rlet max := max_access true name in
  rlet '(denied, g) := check_access_name module_name name g in
  if (denied : bool) then Ok (m, g) else
  rlet '(denied, g) := check_access_concurrency name max g in
  if (denied : bool) then Ok (m, g) else
  let '(start, g) := clock g in
  rlet '(m, g) := actuate (Z.to_nat (repetition a)) a m g in
  account_cpu start m g.

(** [n] rounds of a sensor; the results in order. *)
Fixpoint sample_sensor (n : nat) (s : aerogel_sensor) (m : WASMModuleInstance) (g : Globals)
    : res (list (option (list Z)) * WASMModuleInstance * Globals) :=
  match n with
  | O => Ok ([], m, g)
  | S n =>
      rlet '(denied, m, g) := check_access_energy m (sensor_name s) g in
      let '(v, g) :=
        if (denied : bool) then (None, g) else
        match read_device (sensor_name s) with
        | None => (None, g)
        | Some read =>
            let '(v, g) := read (record_access (ReadSensor (sensor_name s) (freq s)) g) in (Some v, g)
        end in
      rlet '(vs, m, g) := sample_sensor n s m g in
      Ok (v :: vs, m, g)
  end.

(** [None]: the entry of [ret_val] is not written. *)
Definition use_sensor (module_name : string) (s : aerogel_sensor)
    (m : WASMModuleInstance) (g : Globals)
    : res (option aerogel_val * WASMModuleInstance * Globals) :=
  let name := sensor_name s in
  rlet max := max_access false name in
  rlet '(denied, g) := check_access_name module_name name g in
  if (denied : bool) then Ok (None, m, g) else
  rlet '(denied, m, g) := check_access_energy m name g in
  if (denied : bool) then Ok (None, m, g) else
  rlet '(denied, g) := check_access_concurrency name max g in
  if (denied : bool) then Ok (None, m, g) else
  if freq s =? 0 then Undef else
  let period := 1000000 / freq s in
  if period =? 0 then Undef else
  let n := Z.to_nat (duration s / period) in
  let '(start, g) := clock g in
  rlet '(vs, m, g) := sample_sensor n s m g in
  rlet '(m, g) := account_cpu start m g in
  Ok (Some (mkVal name vs), m, g).

Fixpoint use_actuators (module_name : string) (l : list aerogel_actuator)
    (m : WASMModuleInstance) (g : Globals) : res (WASMModuleInstance * Globals) :=
  match l with
  | [] => Ok (m, g)
  | a :: l => rlet '(m, g) := use_actuator module_name a m g in use_actuators module_name l m g
  end.
Fixpoint use_sensors (module_name : string) (l : list aerogel_sensor)
    (m : WASMModuleInstance) (g : Globals)
    : res (list (option aerogel_val) * WASMModuleInstance * Globals) :=
  match l with
  | [] => Ok ([], m, g)
  | s :: l =>
      rlet '(v, m, g) := use_sensor module_name s m g in
      rlet '(vs, m, g) := use_sensors module_name l m g in
      Ok (v :: vs, m, g)
  end.

(** [aerogel_sensor_module]: the actuators, then the sensors. *)
Definition aerogel_sensor_module (m : WASMModuleInstance) (module_name : string)
    (sensors : list aerogel_sensor) (actuators : list aerogel_actuator) (g : Globals)
    : res (list (option aerogel_val) * WASMModuleInstance * Globals) :=
  rlet '(m, g) := use_actuators module_name actuators m g in
  use_sensors module_name sensors m g.

(** ** Native functions *)

(** [aerogel_flatten_ret_val]: the words stored to the application's
    buffer, whose length it does not look at. *)
Fixpoint flatten_rounds (l : list (option (list Z))) : res (list Z) :=
  match l with
  | [] => Ok []
  | None :: _ => Undef
  | Some v :: l => rlet r := flatten_rounds l in Ok (v ++ r)%list
  end.
Fixpoint aerogel_flatten_ret_val (l : list (option aerogel_val)) : res (list Z) :=
  match l with
  | [] => Ok []
  | None :: _ => Undef
  | Some v :: l =>
      rlet a := flatten_rounds (val_value v) in
      rlet b := aerogel_flatten_ret_val l in Ok (a ++ b)%list
  end.

(** Names separated by tabs; each is copied to 20 bytes. *)
Fixpoint split_tabs (s acc : string) : list string :=
  match s with
  | EmptyString => [acc]
  | String c s => if Ascii.eqb c tab then acc :: split_tabs s ""
                  else split_tabs s (acc ++ String c "")%string
  end.
Fixpoint device_names (l : list string) : res (list string) :=
  match l with
  | [] => Ok []
  | n :: l => if (String.length n <? 20)%nat
              then rlet r := device_names l in Ok (n :: r) else Undef
  end.

(** The sensor list, from parallel arrays of words. *)
Fixpoint sensor_list (names : list string) (frequency durations : list Z) : res (list aerogel_sensor) :=
  match names, frequency, durations with
  | [], _, _ => Ok []
  | n :: names, f :: fs, d :: ds =>
      rlet r := sensor_list names fs ds in Ok (mkSensor n f d :: r)
  | _, _, _ => Undef
  end.

Definition aerogel_sensor_native (m : WASMModuleInstance) (module_name : string)
    (sensor_name_list : string) (frequency durations : list Z) (g : Globals)
    : res (list Z * WASMModuleInstance * Globals) :=
  rlet names := device_names (split_tabs sensor_name_list "") in
  rlet sensors := sensor_list names frequency durations in
  rlet '(ret_val, m, g) := aerogel_sensor_module m module_name sensors [] g in
  rlet words := aerogel_flatten_ret_val ret_val in
  Ok (words, m, g).

(** The actuator list: the values of all actuators lie in one array. *)
Fixpoint actuator_list (names : list string) (vals len_val repetitions latencies : list Z)
    : res (list aerogel_actuator) :=
  match names, len_val, repetitions, latencies with
  | [], _, _, _ => Ok []
  | n :: names, k :: ks, r :: rs, l :: ls =>
      let k := Z.to_nat k in
      if (k <=? length vals)%nat then
        rlet rest := actuator_list names (drop k vals) ks rs ls in
        Ok (mkActuator n (take k vals) r l :: rest)
      else Undef
  | _, _, _, _ => Undef
  end.

Definition aerogel_actuator_native (m : WASMModuleInstance) (module_name : string)
    (actuator_name_list : string) (val_list len_val repetitions latencies : list Z) (g : Globals)
    : res (WASMModuleInstance * Globals) :=
  rlet names := device_names (split_tabs actuator_name_list "") in
  rlet actuators := actuator_list names val_list len_val repetitions latencies in
  rlet '(_, m, g) := aerogel_sensor_module m module_name [] actuators g in
  Ok (m, g).

End Aerogel.
