(* ===== verification/AerogelFacts.v ===== *)
(** * What Aerogel's checks guarantee

    Every peripheral access is authorised, energy accounts stay within their
    allowance, what a denial and a counter do to later accesses; the device
    lists of the module sheet are read back; what the natives do with
    results that were never produced. *)

From S2P Require Import Prelude Instance Aerogel.
From Stdlib Require Import Ascii.
#[local] Open Scope string_scope.
#[local] Open Scope list_scope.
#[local] Open Scope Z_scope.

(** ** Energy accounts *)

(** The account of a peripheral without its use. *)
Definition entitlement (i : SensorActuatorInfo) : SensorActuatorInfo :=
  set_used_power 0 (set_sa_timestamp 0 i).
Definition in_budget (i : SensorActuatorInfo) : Prop :=
  0 <= used_power i <= allowed_power_consumption i.

Lemma charge_entitlement t i d i' : charge t i = (d, i') -> entitlement i' = entitlement i.
Proof. unfold charge. repeat case_match; intros E; by simplify_eq. Qed.

Lemma charge_in_budget t i d i' :
  0 <= allowed_power_consumption i -> charge t i = (d, i') -> in_budget i'.
Proof.
  intros Ha. unfold charge, in_budget. destruct (_ <? u32 (t - _)); [intros E; by simplify_eq|].
  cbn [allowed_power_consumption used_power set_used_power].
  destruct (Z.ltb_spec (allowed_power_consumption i) (u32 (used_power i + u32 (power i * 1))));
    intros E; simplify_eq; cbn -[uwrap] in *; [lia|].
  pose proof (uwrap_range 32 (used_power i + u32 (power i * 1)) ltac:(lia)) as [? ?]; lia.
Qed.

(** Checks of one peripheral one after the other. *)
Fixpoint charges (ts : list Z) (i : SensorActuatorInfo) : list bool :=
  match ts with
  | [] => []
  | t :: ts => let '(d, i) := charge t i in d :: charges ts i
  end.

Definition same_window (i : SensorActuatorInfo) (t : Z) : Prop :=
  u32 (t - sa_timestamp i) <= 10000000.

(** Checks a full allowance lets through in a row. *)
Definition full_run (i : SensorActuatorInfo) : Z := allowed_power_consumption i / power i.

Lemma charge_in_window i t k :
  0 < power i -> 0 <= allowed_power_consumption i -> allowed_power_consumption i + power i < 2 ^ 32 ->
  same_window i t -> 0 <= k <= full_run i -> used_power i = k * power i ->
  charge t i = (bool_decide (k = full_run i),
    set_used_power (if bool_decide (k = full_run i) then 0 else (k + 1) * power i) i).
Proof.
  intros Hp Ha Hs Hw Hk Hu. unfold charge, same_window, full_run in *.
  destruct (Z.ltb_spec 10000000 (u32 (t - sa_timestamp i))); [lia|].
  pose proof (Z.div_mod (allowed_power_consumption i) (power i) ltac:(lia)) as Hd.
  pose proof (Z.mod_pos_bound (allowed_power_consumption i) (power i) Hp).
  set (q := allowed_power_consumption i / power i) in *.
  assert (Hkp : k * power i <= allowed_power_consumption i) by nia.
  rewrite (uwrap_id 32 (power i * 1)) by (unfold in_u; lia).
  rewrite Hu, uwrap_id by (unfold in_u; lia). cbn [allowed_power_consumption used_power set_used_power].
  destruct (Z.ltb_spec (allowed_power_consumption i) (k * power i + power i * 1)).
  - rewrite bool_decide_eq_true_2 by nia. done.
  - rewrite bool_decide_eq_false_2 by nia. do 2 f_equal. lia.
Qed.

Lemma charges_run i ts k :
  0 < power i -> 0 <= allowed_power_consumption i -> allowed_power_consumption i + power i < 2 ^ 32 ->
  Forall (same_window i) ts -> 0 <= k <= full_run i -> used_power i = k * power i ->
  charges ts i = map (fun j => (k + 1 + Z.of_nat j) mod (full_run i + 1) =? 0) (seq 0 (length ts)).
Proof.
  intros Hp Ha Hs Hw. revert i k Hp Ha Hs Hw. induction ts as [|t ts IH];
    intros i k Hp Ha Hs Hw Hk Hu; [done|].
  apply Forall_cons_1 in Hw as [Ht Hw]. cbn [charges length seq map].
  rewrite (charge_in_window i t k) by done. rewrite <- seq_shift, map_map.
  set (i' := set_used_power _ i). assert (Hf : full_run i' = full_run i) by done.
  f_equal.
  - rewrite Z.add_0_r. destruct (decide (k = full_run i)) as [->|Hn].
    + rewrite bool_decide_eq_true_2, Z.mod_same by lia. done.
    + rewrite bool_decide_eq_false_2, Z.mod_small by lia. symmetry. apply Z.eqb_neq. lia.
  - rewrite (IH i' (if bool_decide (k = full_run i) then 0 else k + 1)); try done.
    + apply map_ext. intros j. rewrite Hf. case_bool_decide as Hk'; [|do 2 f_equal; lia].
      rewrite Hk'. replace (full_run i + 1 + Z.of_nat (S j)) with
        (0 + 1 + Z.of_nat j + 1 * (full_run i + 1)) by lia. by rewrite Z.mod_add by lia.
    + rewrite Hf. case_bool_decide; lia.
    + unfold i'. cbn. case_bool_decide; lia.
Qed.

(** C14: a denial forgives the energy used so far.  In one window of ten
    seconds the checks of a peripheral are granted except every
    [allowed / power + 1]-st, however many there are: the allowance bounds
    the run between two denials and not the energy of the window. *)
Theorem denial_refills_allowance (i : SensorActuatorInfo) (ts : list Z) :
  0 < power i -> 0 <= allowed_power_consumption i -> allowed_power_consumption i + power i < 2 ^ 32 ->
  Forall (same_window i) ts -> used_power i = 0 ->
  charges ts i =
    map (fun j => (Z.of_nat j + 1) mod (allowed_power_consumption i / power i + 1) =? 0)
        (seq 0 (length ts)).
Proof.
  intros Hp Ha Hs Hw Hu. rewrite (charges_run i ts 0); try done.
  - apply map_ext. intros j. unfold full_run. do 2 f_equal. lia.
  - split; [lia|]. apply Z.div_pos; lia.
Qed.

Lemma denial_refills_allowance_witness :
  charges [5; 6; 7; 8; 9; 10; 11; 12] (mkSensorActuatorInfo 1 0 2 500 1000 0 0)
    = [false; false; true; false; false; true; false; false].
Proof.
  rewrite denial_refills_allowance; [vm_compute; reflexivity|cbn; lia|cbn; lia|cbn; lia| |done].
  repeat constructor; vm_compute; congruence.
Defined.

(** ** Rights of a module *)

Section Facts.
Context `{Platform} (device_spec module_spec : string) (uninit_buffer : string).
Context (renju_rand : nat -> Z).

Abbreviation use_sensor := (Aerogel.use_sensor device_spec module_spec uninit_buffer renju_rand).
Abbreviation use_actuator := (Aerogel.use_actuator device_spec module_spec uninit_buffer).
Abbreviation use_sensors := (Aerogel.use_sensors device_spec module_spec uninit_buffer renju_rand).
Abbreviation use_actuators := (Aerogel.use_actuators device_spec module_spec uninit_buffer).
Abbreviation aerogel_sensor_module :=
  (Aerogel.aerogel_sensor_module device_spec module_spec uninit_buffer renju_rand).

(** What the module may use, and how much. *)
Definition rights (m : WASMModuleInstance) : res (Z * list (option SensorActuatorInfo)) :=
  rlet a := current_module_info m in
  Ok (num_authorized_sensor_actuator a, map (fmap entitlement) (authorized_sensor_actuator a)).

(** A peripheral is listed under its number. *)
Definition authorised (m : WASMModuleInstance) (name : string) : Prop :=
  exists id n l i, peripheral_index sensor_index_mapping name = Some id /\
    rights m = Ok (n, l) /\ In (Some i) (take (Z.to_nat n) l) /\ sa_id i = Z.of_nat id.

Definition budget_ok (m : WASMModuleInstance) : Prop :=
  forall a i, current_module_info m = Ok a -> In (Some i) (authorized_sensor_actuator a) ->
    0 <= allowed_power_consumption i -> in_budget i.

(** Counters only grow. *)
Definition counters_grow (g g' : Globals) : Prop :=
  forall i n, sensor_actuator_concurrent_access g !! i = Some n -> in_u 32 n ->
    exists n', sensor_actuator_concurrent_access g' !! i = Some n' /\ in_u 32 n' /\ n <= n'.

Lemma find_info_spec id n infos k i :
  find_info id n infos = Ok (Some (k, i)) ->
  (k < n)%nat /\ infos !! k = Some (Some i) /\ sa_id i = id.
Proof.
  revert infos k i. induction n as [|n IH]; intros infos k i; cbn [find_info]; [done|].
  destruct infos as [|[j|] infos]; [done| |done].
  destruct (Z.eqb_spec (sa_id j) id) as [<-|_]; [intros E; simplify_eq; split; [lia|done]|].
  intros E. rinv E. simplify_eq. destruct v as [[k' j']|]; cbn in E; simplify_eq.
  destruct (IH _ _ _ E0) as (? & ? & ?). repeat split; [lia|done|done].
Qed.

Lemma current_set_info m a k i a' :
  current_module_info m = Ok a -> a' = set_info k i a ->
  current_module_info (set_current_module_info a' m) = Ok a'.
Proof.
  unfold current_module_info, set_current_module_info. intros E ->.
  destruct (access_control m) as [ac|]; [|done]. cbn in *.
  destruct (module_info ac !! module_index ac) as [b|] eqn:Eb; [|done].
  rewrite list_lookup_insert_eq; [done|]. by eapply lookup_lt_Some.
Qed.

Lemma rights_set_info m a k i j :
  current_module_info m = Ok a -> authorized_sensor_actuator a !! k = Some (Some i) ->
  entitlement j = entitlement i ->
  rights (set_current_module_info (set_info k j a) m) = rights m.
Proof.
  intros E Ek Ej. unfold rights. rewrite (current_set_info m a k j _ E eq_refl), E. cbn. do 2 f_equal.
  rewrite list_fmap_insert. apply list_insert_id. rewrite list_lookup_fmap, Ek. cbn. by rewrite Ej.
Qed.

Lemma budget_set_info m a k j :
  current_module_info m = Ok a -> budget_ok m -> (0 <= allowed_power_consumption j -> in_budget j) ->
  budget_ok (set_current_module_info (set_info k j a) m).
Proof.
  intros E Hb Hj b i. rewrite (current_set_info m a k j _ E eq_refl). intros Eb Hi Ha. simplify_eq.
  cbn in Hi. apply list_elem_of_In in Hi. apply list_elem_of_lookup_1 in Hi as [p Hp].
  apply list_lookup_insert_Some in Hp as [(_ & Ei & _)|[_ Hp]]; [simplify_eq; auto|].
  apply (Hb a i); [done| |done]. apply list_elem_of_In. by eapply list_elem_of_lookup_2.
Qed.

(** ** The checks *)

Hypothesis Hon : EVAL_NO_AEROGEL = false.

Lemma clock_eq g t g' : clock g = (t, g') ->
  trace g' = trace g /\ rands g' = rands g /\
  sensor_actuator_concurrent_access g' = sensor_actuator_concurrent_access g.
Proof. unfold clock. destruct (tick (g_world g)) as [u w]. intros E. by simplify_eq. Qed.

(** What a check of the energy leaves, and when it grants. *)
Record energy_post (m : WASMModuleInstance) (name : string) (g : Globals) (denied : bool)
    (m' : WASMModuleInstance) (g' : Globals) : Prop := {
  ep_rights : rights m' = rights m;
  ep_trace : trace g' = trace g;
  ep_counters : sensor_actuator_concurrent_access g' = sensor_actuator_concurrent_access g;
  ep_granted : denied = false -> authorised m name;
  ep_budget : budget_ok m -> budget_ok m'
}.

Lemma check_access_energy_spec m name g denied m' g' :
  check_access_energy m name g = Ok (denied, m', g') -> energy_post m name g denied m' g'.
Proof.
  unfold check_access_energy. rewrite Hon. destruct (clock g) as [start g1] eqn:E1.
  apply clock_eq in E1 as (T1 & _ & C1). intros E. rinv E. destruct v as [[d m2] g2].
  destruct (clock g2) as [end_ g3] eqn:E3. apply clock_eq in E3 as (T3 & _ & C3).
  injection E as -> -> <-. cbn.
  destruct (peripheral_index sensor_index_mapping name) as [id|] eqn:Ep; cycle 1.
  { simplify_eq. constructor; cbn; try done; congruence. }
  rinv E0. destruct v0 as [[k i]|]; cycle 1.
  { simplify_eq. constructor; cbn; try done; congruence. }
  destruct (clock g1) as [now g4] eqn:E4. apply clock_eq in E4 as (T4 & _ & C4).
  destruct (charge now i) as [d j] eqn:Ec. simplify_eq.
  destruct (find_info_spec _ _ _ _ _ E1) as (Hk & Hl & Hid).
  pose proof (charge_entitlement _ _ _ _ Ec) as Hent.
  constructor; cbn; [by eapply rights_set_info|congruence|congruence| |].
  - intros _. exists id, (num_authorized_sensor_actuator v),
      (map (fmap entitlement) (authorized_sensor_actuator v)), (entitlement i).
    split; [done|]. split; [by unfold rights; rewrite E|]. split; [|done].
    apply list_elem_of_In. apply list_elem_of_lookup_2 with k.
    rewrite lookup_take_lt by done. rewrite list_lookup_fmap, Hl. done.
  - intros Hb. apply budget_set_info; [done|done|]. intros Ha.
    eapply charge_in_budget; [|exact Ec].
    pose proof (f_equal allowed_power_consumption Hent) as Hp. cbn in Hp. by rewrite <- Hp.
Qed.

(** ** Uses of peripherals *)

Definition device (a : access) : string :=
  match a with ReadSensor n _ => n | SetActuator n _ _ => n end.

(** A computation from [m], [g] that only adds accesses satisfying [P]. *)
Record uses (P : string -> Prop) (m : WASMModuleInstance) (g : Globals)
    (m' : WASMModuleInstance) (g' : Globals) : Prop := {
  u_rights : rights m' = rights m;
  u_trace : exists new, trace g' = new ++ trace g /\ Forall (fun a => P (device a)) new;
  u_counters : counters_grow g g';
  u_budget : budget_ok m -> budget_ok m'
}.

Lemma counters_same g g' :
  sensor_actuator_concurrent_access g' = sensor_actuator_concurrent_access g -> counters_grow g g'.
Proof. intros E i n Hn Hr. exists n. rewrite E. by repeat split; try apply Hr. Qed.

Lemma counters_trans g1 g2 g3 : counters_grow g1 g2 -> counters_grow g2 g3 -> counters_grow g1 g3.
Proof.
  intros H1 H2 i n Hn Hr. destruct (H1 i n Hn Hr) as (n2 & E2 & Hr2 & ?).
  destruct (H2 i n2 E2 Hr2) as (n3 & E3 & Hr3 & ?). exists n3. split; [done|]. split; [done|lia].
Qed.

Lemma uses_refl (P : string -> Prop) m g g' :
  trace g' = trace g -> counters_grow g g' -> uses P m g m g'.
Proof. intros Ht Hc. constructor; [done|by exists []|done|done]. Qed.

Lemma uses_trans (P : string -> Prop) m1 g1 m2 g2 m3 g3 :
  uses P m1 g1 m2 g2 -> uses P m2 g2 m3 g3 -> uses P m1 g1 m3 g3.
Proof.
  intros [R1 (n1 & T1 & F1) C1 B1] [R2 (n2 & T2 & F2) C2 B2]. constructor.
  - congruence.
  - exists (n2 ++ n1). rewrite T2, T1, app_assoc. split; [done|]. by apply Forall_app.
  - by eapply counters_trans.
  - auto.
Qed.

Lemma uses_weaken (P Q : string -> Prop) m g m' g' :
  uses P m g m' g' -> (forall n, P n -> Q n) -> uses Q m g m' g'.
Proof.
  intros [R (n & T & F) C B] HPQ. constructor; try done. exists n. split; [done|].
  eapply Forall_impl; [done|]. intros a. apply HPQ.
Qed.

Lemma uses_record (P : string -> Prop) m g a : P (device a) -> uses P m g m (record_access a g).
Proof.
  intros Ha. constructor; [done| |by apply counters_same|done].
  exists [a]. split; [done|]. by constructor.
Qed.

Lemma authorised_rights m m' name : rights m' = rights m -> authorised m' name -> authorised m name.
Proof. intros E (id & n & l & i & H1 & H2 & H3). exists id, n, l, i. rewrite <- E. auto. Qed.

Lemma energy_uses (P : string -> Prop) m name g denied m' g' :
  energy_post m name g denied m' g' -> uses P m g m' g'.
Proof.
  intros [R T C _ B]. constructor; [done|by exists []|by apply counters_same|done].
Qed.

Lemma name_check_spec module_name name g denied g' :
  check_access_name module_spec uninit_buffer module_name name g = Ok (denied, g') ->
  (forall P m, uses P m g m g') /\
  name_denied module_spec uninit_buffer module_name name = Ok denied.
Proof.
  unfold check_access_name. rewrite Hon. destruct (clock g) as [start g1] eqn:E1.
  apply clock_eq in E1 as (T1 & _ & C1). intros E. rinv E.
  destruct (clock g1) as [end_ g3] eqn:E3. apply clock_eq in E3 as (T3 & _ & C3).
  simplify_eq. split; [|done]. intros P m. apply uses_refl; cbn; [congruence|].
  apply counters_same. cbn. congruence.
Qed.

Lemma concurrency_check_spec name max g denied g' :
  0 <= max < 2 ^ 32 -> check_access_concurrency name max g = Ok (denied, g') ->
  forall P m, uses P m g m g'.
Proof.
  intros Hmax. unfold check_access_concurrency. rewrite Hon.
  destruct (clock g) as [start g1] eqn:E1. apply clock_eq in E1 as (T1 & _ & C1). intros E. rinv E.
  destruct v as [d g2]. destruct (clock g2) as [end_ g3] eqn:E3. apply clock_eq in E3 as (T3 & _ & C3).
  injection E as -> <-. intros P m.
  destruct (peripheral_index sensor_index_mapping name) as [i|]; cycle 1.
  { simplify_eq. apply uses_refl; cbn; [congruence|]. apply counters_same. cbn. congruence. }
  destruct (sensor_actuator_concurrent_access g1 !! i) as [n|] eqn:En; [|done].
  destruct (Z.ltb_spec n max); simplify_eq.
  - apply uses_refl; cbn; [cbn in T3; congruence|]. intros k c Hc Hr. cbn in *. rewrite C3, C1 in *.
    destruct (decide (i = k)) as [->|].
    + rewrite list_lookup_insert_eq by (by eapply lookup_lt_Some). eexists. split; [done|].
      simplify_eq. unfold in_u in *. rewrite uwrap_id by (unfold in_u; lia). lia.
    + rewrite list_lookup_insert_ne by done. exists c. by split; [done|].
  - apply uses_refl; cbn; [congruence|]. apply counters_same. cbn. congruence.
Qed.

(** What a granted access needs. *)
Definition granted (m : WASMModuleInstance) (module_name name : string) : Prop :=
  authorised m name /\ name_denied module_spec uninit_buffer module_name name = Ok false.

Lemma uses_rights (P : WASMModuleInstance -> string -> Prop) m m1 g1 m2 g2 :
  (forall n, P m1 n -> P m n) -> uses (P m1) m1 g1 m2 g2 -> uses (P m) m1 g1 m2 g2.
Proof. intros HP Hu. by eapply uses_weaken. Qed.

Lemma actuate_uses n a m g m' g' :
  actuate n a m g = Ok (m', g') ->
  uses (fun x => x = actuator_name a /\ authorised m x) m g m' g'.
Proof.
  revert m g. induction n as [|n IH]; intros m g; cbn [actuate]; intros E.
  { simplify_eq. apply uses_refl; [done|by apply counters_same]. }
  rinv E. destruct v as [[denied m1] g1]. pose proof (check_access_energy_spec _ _ _ _ _ _ E0) as Hp.
  eapply uses_trans; [by eapply energy_uses|].
  assert (Hr : forall x, authorised m1 x -> authorised m x)
    by (intros x; apply authorised_rights, (ep_rights _ _ _ _ _ _ Hp)).
  destruct (negb denied && is_actuator (actuator_name a)) eqn:Ed.
  - eapply uses_trans; [apply (uses_record _ m1 g1 (SetActuator (actuator_name a) (act_val a) (act_latency a)))|].
    + split; [done|]. apply (ep_granted _ _ _ _ _ _ Hp). by destruct denied.
    + eapply uses_weaken; [by apply IH|]. intros x [? ?]. auto.
  - eapply uses_weaken; [by apply IH|]. intros x [? ?]. auto.
Qed.

Lemma read_device_spec name read g v g' :
  read_device renju_rand name = Some read -> read g = (v, g') ->
  trace g' = trace g /\
  sensor_actuator_concurrent_access g' = sensor_actuator_concurrent_access g.
Proof.
  unfold read_device. repeat case_match; intros E; simplify_eq;
    unfold get_imu, get_door_battery, get_camera, get_motion, get_microphone, draw;
    intros E; by simplify_eq.
Qed.

Lemma sample_sensor_uses n s m g vs m' g' :
  sample_sensor renju_rand n s m g = Ok (vs, m', g') ->
  uses (fun x => x = sensor_name s /\ authorised m x) m g m' g'.
Proof.
  revert m g vs. induction n as [|n IH]; intros m g vs; cbn [sample_sensor]; intros E.
  { simplify_eq. apply uses_refl; [done|by apply counters_same]. }
  rinv E. destruct v as [[denied m1] g1]. pose proof (check_access_energy_spec _ _ _ _ _ _ E0) as Hp.
  eapply uses_trans; [by eapply energy_uses|].
  assert (Hr : forall x, authorised m1 x -> authorised m x)
    by (intros x; apply authorised_rights, (ep_rights _ _ _ _ _ _ Hp)).
  destruct denied; [|destruct (read_device renju_rand (sensor_name s)) as [read|] eqn:Er].
  - rinv E. destruct v as [[vs1 m2] g2]. simplify_eq.
    eapply uses_weaken; [by eapply IH|]. intros x [? ?]. auto.
  - destruct (read _) as [w g2] eqn:Ew. rinv E. destruct v as [[vs1 m2] g3]. simplify_eq.
    destruct (read_device_spec _ _ _ _ _ Er Ew) as [Ht Hc].
    eapply uses_trans; [apply (uses_record _ m1 g1 (ReadSensor (sensor_name s) (freq s)))|].
    + split; [done|]. by apply (ep_granted _ _ _ _ _ _ Hp).
    + eapply uses_trans; [apply uses_refl; [exact Ht|by apply counters_same]|].
      eapply uses_weaken; [by eapply IH|]. intros x [? ?]. auto.
  - rinv E. destruct v as [[vs1 m2] g2]. simplify_eq.
    eapply uses_weaken; [by eapply IH|]. intros x [? ?]. auto.
Qed.

Lemma max_access_range zeroed name max : max_access device_spec uninit_buffer zeroed name = Ok max ->
  0 <= max < 2 ^ 32.
Proof.
  unfold max_access. rewrite Hon. destruct (strstr device_spec name); [|done]. intros E. rinv E.
  destruct (_ =? _)%nat; [done|]. destruct (_ <=? _)%nat; [done|]. rinv E. simplify_eq.
  apply uwrap_range. lia.
Qed.

Lemma account_cpu_uses P start m g m' g' : account_cpu start m g = Ok (m', g') -> uses P m g m' g'.
Proof.
  unfold account_cpu. destruct (clock g) as [t g1] eqn:E1. apply clock_eq in E1 as (T1 & _ & C1).
  intros E. rinv E. destruct v as [over w]. simplify_eq.
  constructor; [by destruct over|by exists []|by apply counters_same|by destruct over].
Qed.

(** The accesses of one device, the name check behind it. *)
Lemma uses_granted m module_name name m' g g' :
  name_denied module_spec uninit_buffer module_name name = Ok false ->
  uses (fun x => x = name /\ authorised m x) m g m' g' -> uses (granted m module_name) m g m' g'.
Proof. intros Hn Hu. eapply uses_weaken; [exact Hu|]. by intros x [-> ?]. Qed.

Lemma granted_rights m m' module_name name :
  rights m' = rights m -> granted m' module_name name -> granted m module_name name.
Proof. intros E [Ha Hn]. split; [by eapply authorised_rights|done]. Qed.

Lemma use_actuator_uses module_name a m g m' g' :
  use_actuator module_name a m g = Ok (m', g') -> uses (granted m module_name) m g m' g'.
Proof.
  unfold Aerogel.use_actuator. intros E. rinv E. destruct v0 as [denied g1].
  destruct (name_check_spec _ _ _ _ _ E1) as [Hu1 Hn].
  destruct denied; [simplify_eq; apply Hu1|]. rinv E. destruct v0 as [denied g2].
  pose proof (concurrency_check_spec _ _ _ _ _ (max_access_range _ _ _ E0) E2) as Hu2.
  destruct denied; [simplify_eq; eapply uses_trans; [apply Hu1|apply Hu2]|].
  destruct (clock g2) as [start g3] eqn:E3. rinv E. destruct v0 as [m4 g4].
  apply clock_eq in E3 as (T3 & _ & C3). apply (uses_granted _ _ _ _ _ _ Hn).
  eapply uses_trans; [apply Hu1|]. eapply uses_trans; [apply Hu2|].
  eapply uses_trans; [apply uses_refl; [exact T3|by apply counters_same]|].
  eapply uses_trans; [by eapply actuate_uses|]. by eapply account_cpu_uses.
Qed.

Lemma use_sensor_uses module_name s m g v m' g' :
  use_sensor module_name s m g = Ok (v, m', g') -> uses (granted m module_name) m g m' g'.
Proof.
  unfold Aerogel.use_sensor. intros E. rinv E. destruct v1 as [denied g1].
  destruct (name_check_spec _ _ _ _ _ E1) as [Hu1 Hn].
  destruct denied; [simplify_eq; apply Hu1|]. rinv E. destruct v1 as [[denied m2] g2].
  pose proof (check_access_energy_spec _ _ _ _ _ _ E2) as Hp.
  pose proof (fun P => energy_uses P _ _ _ _ _ _ Hp) as Hu2.
  destruct denied; [simplify_eq; eapply uses_trans; [apply Hu1|apply Hu2]|].
  rinv E. destruct v1 as [denied g3].
  pose proof (concurrency_check_spec _ _ _ _ _ (max_access_range _ _ _ E0) E3) as Hu3.
  destruct denied.
  { simplify_eq. eapply uses_trans; [apply Hu1|]. eapply uses_trans; [apply Hu2|apply Hu3]. }
  destruct (freq s =? 0); [done|]. destruct (1000000 / freq s =? 0); [done|].
  destruct (clock g3) as [start g4] eqn:E4. rinv E. destruct v1 as [[vs m5] g5].
  rinv E. destruct v1 as [m6 g6]. simplify_eq.
  apply clock_eq in E4 as (T4 & _ & C4). apply (uses_granted _ _ _ _ _ _ Hn).
  eapply uses_trans; [apply Hu1|]. eapply uses_trans; [apply Hu2|]. eapply uses_trans; [apply Hu3|].
  eapply uses_trans; [apply uses_refl; [exact T4|by apply counters_same]|].
  eapply uses_trans; [|by eapply account_cpu_uses].
  eapply uses_weaken; [by eapply sample_sensor_uses|]. intros x [-> Ha]. split; [done|].
  by apply (authorised_rights _ _ _ (ep_rights _ _ _ _ _ _ Hp)).
Qed.

Lemma use_actuators_uses module_name l m g m' g' :
  use_actuators module_name l m g = Ok (m', g') -> uses (granted m module_name) m g m' g'.
Proof.
  revert m g. induction l as [|a l IH]; intros m g; cbn; intros E.
  { simplify_eq. apply uses_refl; [done|by apply counters_same]. }
  rinv E. destruct v as [m1 g1]. pose proof (use_actuator_uses _ _ _ _ _ _ E0) as Hu.
  eapply uses_trans; [exact Hu|]. eapply uses_weaken; [by apply IH|].
  intros x. apply granted_rights, (u_rights _ _ _ _ _ Hu).
Qed.

Lemma use_sensors_uses module_name l m g vs m' g' :
  use_sensors module_name l m g = Ok (vs, m', g') -> uses (granted m module_name) m g m' g'.
Proof.
  revert m g vs. induction l as [|s l IH]; intros m g vs; cbn; intros E.
  { simplify_eq. apply uses_refl; [done|by apply counters_same]. }
  rinv E. destruct v as [[v m1] g1]. rinv E. destruct v0 as [[vs1 m2] g2]. simplify_eq.
  pose proof (use_sensor_uses _ _ _ _ _ _ _ E0) as Hu.
  eapply uses_trans; [exact Hu|]. eapply uses_weaken; [by eapply IH|].
  intros x. apply granted_rights, (u_rights _ _ _ _ _ Hu).
Qed.


(** ** Concurrency counters *)

(** Checks of one peripheral one after the other. *)
Fixpoint concurrency_checks (n : nat) (name : string) (max : Z) (g : Globals) : res (list bool) :=
  match n with
  | O => Ok []
  | S n => rlet '(d, g) := check_access_concurrency name max g in
           rlet ds := concurrency_checks n name max g in Ok (d :: ds)
  end.

Lemma concurrency_step name max g i c :
  peripheral_index sensor_index_mapping name = Some i ->
  sensor_actuator_concurrent_access g !! i = Some c -> 0 <= c -> 0 <= max < 2 ^ 32 ->
  exists g', check_access_concurrency name max g = Ok (max <=? c, g') /\ trace g' = trace g /\
    sensor_actuator_concurrent_access g' !! i = Some (if max <=? c then c else c + 1).
Proof.
  intros Hi Hc H0 Hm. unfold check_access_concurrency. rewrite Hon.
  destruct (clock g) as [start g1] eqn:E1. apply clock_eq in E1 as (T1 & _ & C1).
  rewrite Hi, C1, Hc. destruct (Z.ltb_spec c max).
  - cbn [res_bind]. rewrite (proj2 (Z.leb_gt _ _)) by lia.
    destruct (clock (set_sensor_actuator_concurrent_access _ g1)) as [end_ g3] eqn:E3.
    apply clock_eq in E3 as (T3 & _ & C3). eexists. split; [done|]. cbn in *. split; [congruence|].
    rewrite C3, uwrap_id by (unfold in_u; lia). apply list_lookup_insert_eq. by eapply lookup_lt_Some.
  - cbn [res_bind]. rewrite (proj2 (Z.leb_le _ _)) by lia.
    destruct (clock g1) as [end_ g3] eqn:E3. apply clock_eq in E3 as (T3 & _ & C3).
    eexists. split; [done|]. cbn. split; [congruence|]. by rewrite C3, C1.
Qed.

Lemma concurrency_checks_from n name max g i c :
  peripheral_index sensor_index_mapping name = Some i ->
  sensor_actuator_concurrent_access g !! i = Some c -> 0 <= c -> 0 <= max < 2 ^ 32 ->
  concurrency_checks n name max g = Ok (map (fun k => max <=? c + Z.of_nat k) (seq 0 n)).
Proof.
  intros Hi Hc H0 Hm. revert g c Hc H0. induction n as [|n IH]; intros g c Hc H0; [done|].
  cbn [concurrency_checks seq map]. rewrite <- seq_shift, map_map.
  destruct (concurrency_step name max g i c Hi Hc H0 Hm) as (g' & -> & _ & Hc').
  cbn [res_bind]. rewrite (IH g' _ Hc') by (destruct (max <=? c); lia). cbn [res_bind].
  do 2 f_equal; [f_equal; lia|]. apply map_ext. intros k. zcmp; lia || done.
Qed.

(** C15: the concurrency limit is a limit on the number of accesses ever
    made.  Of any number of checks of a peripheral whose counter is 0 the
    first [max] are granted and all later ones denied: granted accesses take
    a slot and nothing gives one back. *)
Theorem concurrency_slots_run_out n name max g i :
  peripheral_index sensor_index_mapping name = Some i ->
  sensor_actuator_concurrent_access g !! i = Some 0 -> 0 <= max < 2 ^ 32 ->
  concurrency_checks n name max g = Ok (map (fun k => max <=? Z.of_nat k) (seq 0 n)).
Proof. intros Hi Hc Hm. by rewrite (concurrency_checks_from n name max g i 0). Qed.

(** ** Results of the sensor native *)

(** All rounds of a sensor produced data. *)
Definition complete (s : aerogel_sensor) (v : option aerogel_val) (rounds : list (list Z)) : Prop :=
  v = Some (mkVal (sensor_name s) (map Some rounds)) /\
  freq s <> 0 /\ 1000000 / freq s <> 0 /\
  length rounds = Z.to_nat (duration s / (1000000 / freq s)).

Lemma flatten_rounds_spec l words :
  flatten_rounds l = Ok words -> exists rounds, l = map Some rounds /\ words = concat rounds.
Proof.
  revert words. induction l as [|[v|] l IH]; intros words; cbn [flatten_rounds]; [|intros E; rinv E|done].
  - intros E. simplify_eq. by exists [].
  - simplify_eq. destruct (IH _ E0) as (rounds & -> & ->). by exists (v :: rounds).
Qed.

Lemma sample_sensor_length n s m g vs m' g' :
  sample_sensor renju_rand n s m g = Ok (vs, m', g') -> length vs = n.
Proof.
  revert m g vs. induction n as [|n IH]; intros m g vs; cbn [sample_sensor]; intros E; [by simplify_eq|].
  rinv E. destruct v as [[denied m1] g1]. destruct (if denied then _ else _) as [w g2].
  rinv E. destruct v as [[vs1 m2] g3]. simplify_eq. cbn. f_equal. by eapply IH.
Qed.

Lemma use_sensor_shape module_name s m g v m' g' :
  use_sensor module_name s m g = Ok (Some v, m', g') ->
  val_name v = sensor_name s /\ freq s <> 0 /\ 1000000 / freq s <> 0 /\
  length (val_value v) = Z.to_nat (duration s / (1000000 / freq s)).
Proof.
  unfold Aerogel.use_sensor. intros E. rinv E. destruct v1 as [[] g1]; [done|].
  rinv E. destruct v1 as [[[] m2] g2]; [done|]. rinv E. destruct v1 as [[] g3]; [done|].
  destruct (Z.eqb_spec (freq s) 0); [done|]. destruct (Z.eqb_spec (1000000 / freq s) 0); [done|].
  destruct (clock g3) as [start g4]. rinv E. destruct v1 as [[vs m5] g5]. rinv E.
  destruct v1 as [m6 g6]. simplify_eq. repeat split; try done. cbn. by eapply sample_sensor_length.
Qed.

Lemma flatten_spec module_name l m g vs m' g' words :
  use_sensors module_name l m g = Ok (vs, m', g') -> aerogel_flatten_ret_val vs = Ok words ->
  exists results, Forall3 complete l vs results /\ words = concat (map (@concat Z) results).
Proof.
  revert m g vs words. induction l as [|s l IH]; intros m g vs words; cbn; intros E Ew.
  { simplify_eq. exists []. cbn in Ew. simplify_eq. split; [constructor|done]. }
  rinv E. destruct v as [[v m1] g1]. rinv E. destruct v0 as [[vs1 m2] g2]. simplify_eq.
  cbn in Ew. destruct v as [v|]; [|done]. rinv Ew. simplify_eq.
  destruct (flatten_rounds_spec _ _ E) as (rounds & Hr & ->).
  destruct (IH _ _ _ _ E1 E2) as (results & Hf & ->).
  exists (rounds :: results). split; [|done]. constructor; [|done].
  destruct (use_sensor_shape _ _ _ _ _ _ _ E0) as (Hn & Hz & Hp & Hl). rewrite Hr, length_map in Hl.
  split; [|done]. destruct v as [nm vv]. cbn in *. by rewrite <- Hn, Hr.
Qed.


End Facts.

(** ** Reading the device lists back *)

Definition digit_char (d : Z) : ascii := ascii_of_nat (Z.to_nat (48 + d)).
Definition is_digit (d : Z) : Prop := 0 <= d < 10.
Fixpoint decimal (ds : list Z) : string :=
  match ds with [] => "" | d :: ds => String (digit_char d) (decimal ds) end.
Fixpoint decimal_value (acc : Z) (ds : list Z) : Z :=
  match ds with [] => acc | d :: ds => decimal_value (10 * acc + d) ds end.

Lemma digit_val_char d : is_digit d -> digit_val (digit_char d) = Some d.
Proof.
  intros Hd. assert (Hin : d = 0 \/ d = 1 \/ d = 2 \/ d = 3 \/ d = 4 \/ d = 5 \/ d = 6 \/ d = 7
    \/ d = 8 \/ d = 9) by (unfold is_digit in Hd; lia).
  repeat destruct Hin as [->|Hin]; try reflexivity. by subst.
Qed.

Lemma digits_decimal ds acc :
  Forall is_digit ds -> digits 10 digit_val acc (decimal ds) = decimal_value acc ds.
Proof.
  intros Hf. revert acc. induction Hf as [|d ds Hd _ IH]; intros acc; [done|].
  cbn [decimal digits decimal_value]. by rewrite digit_val_char, IH.
Qed.

Lemma decimal_value_bound ds acc :
  Forall is_digit ds -> 0 <= acc ->
  0 <= decimal_value acc ds < (acc + 1) * 10 ^ Z.of_nat (length ds).
Proof.
  intros Hf. revert acc. induction Hf as [|d ds Hd _ IH]; intros acc Ha; cbn [decimal_value length].
  - cbn. lia.
  - unfold is_digit in Hd. specialize (IH (10 * acc + d) ltac:(lia)).
    rewrite Nat2Z.inj_succ, Z.pow_succ_r by lia. nia.
Qed.

Lemma atoi_decimal ds :
  Forall is_digit ds -> (length ds < 10)%nat -> atoi (decimal ds) = Ok (decimal_value 0 ds).
Proof.
  intros Hf Hl. pose proof (decimal_value_bound ds 0 Hf ltac:(lia)) as Hb.
  pose proof (Z.pow_le_mono_r 10 (Z.of_nat (length ds)) 9 ltac:(lia) ltac:(lia)).
  assert (Hs : signed_digits (digits 10 digit_val 0) (decimal ds) = decimal_value 0 ds).
  { rewrite <- digits_decimal by done. destruct Hf as [|d ds Hd Hf]; [done|].
    assert (Hin : d = 0 \/ d = 1 \/ d = 2 \/ d = 3 \/ d = 4 \/ d = 5 \/ d = 6 \/ d = 7
      \/ d = 8 \/ d = 9) by (unfold is_digit in Hd; lia).
    repeat destruct Hin as [->|Hin]; try reflexivity. by subst. }
  unfold atoi. rewrite Hs. destruct (Z.leb_spec (- 2 ^ 31) (decimal_value 0 ds)); [|lia].
  destruct (Z.ltb_spec (decimal_value 0 ds) (2 ^ 31)); [done|lia].
Qed.

#[local] Arguments String.append !_ _ /.

Lemma string_app_assoc a b c : ((a ++ b) ++ c)%string = (a ++ b ++ c)%string.
Proof. induction a as [|x a IH]; cbn; [done|]. by rewrite IH. Qed.
Lemma string_app_nil a : (a ++ "")%string = a.
Proof. induction a as [|x a IH]; cbn; [done|]. by rewrite IH. Qed.
Lemma string_app_length a b : String.length (a ++ b)%string = (String.length a + String.length b)%nat.
Proof. induction a as [|x a IH]; cbn; [done|]. by rewrite IH. Qed.
Lemma decimal_length ds : String.length (decimal ds) = length ds.
Proof. induction ds as [|d ds IH]; cbn; [done|]. by rewrite IH. Qed.

(** A character does not occur. *)
Fixpoint without (c : ascii) (s : string) : Prop :=
  match s with EmptyString => True | String d s => d <> c /\ without c s end.

Section Roundtrip.
Context (device_spec : string) (uninit_word : Z).
Abbreviation parse_from := (parse_list_from device_spec uninit_word).
Abbreviation parse_info := (parse_sensor_actuator_info device_spec uninit_word).

(** "name-number" entries separated by periods. *)
Definition entry : Type := string * list Z.
Definition entry_ok (e : entry) : Prop :=
  without "-"%char (fst e) /\ (String.length (fst e) < 20)%nat /\
  Forall is_digit (snd e) /\ (length (snd e) < 10)%nat.
Definition print_entry (e : entry) : string := (fst e ++ "-" ++ decimal (snd e))%string.
Fixpoint print_list (e : entry) (l : list entry) : string :=
  match l with
  | [] => print_entry e
  | e' :: l => (print_entry e ++ "." ++ print_list e' l)%string
  end.

Lemma parse_name name acc num infos rest :
  without "-"%char name -> (String.length acc + String.length name < 20)%nat ->
  parse_from (name ++ "-" ++ rest)%string (mkListParser false acc num infos) =
    parse_from rest (mkListParser true (acc ++ name)%string "" infos).
Proof.
  revert acc. induction name as [|c name IH]; intros acc Hw Hl; cbn in Hw, Hl.
  - cbn. by rewrite string_app_nil.
  - destruct Hw as [Hc Hw]. change (String c name ++ "-" ++ rest)%string with (String c (name ++ "-" ++ rest)%string).
    cbn [parse_list_from]. unfold list_parser_step. cbn [lp_num].
    destruct (Ascii.eqb_spec c "-"%char); [done|]. unfold append_char. cbn [lp_name].
    destruct (Nat.ltb_spec (String.length acc) 20); [|lia]. cbn [res_bind].
    cbn [lp_number lp_infos]. rewrite IH; [|done|rewrite string_app_length; cbn; lia].
    by rewrite string_app_assoc.
Qed.

Lemma parse_number ds name acc infos rest :
  Forall is_digit ds -> (String.length acc + length ds < 10)%nat ->
  parse_from (decimal ds ++ rest)%string (mkListParser true name acc infos) =
    parse_from rest (mkListParser true name (acc ++ decimal ds)%string infos).
Proof.
  intros Hf. revert acc. induction Hf as [|d ds Hd _ IH]; intros acc Hl.
  - cbn. by rewrite string_app_nil.
  - cbn [decimal length] in *.
    change (String (digit_char d) (decimal ds) ++ rest)%string
      with (String (digit_char d) (decimal ds ++ rest)%string).
    cbn [parse_list_from]. unfold list_parser_step. cbn [lp_num].
    assert (Hdot : Ascii.eqb (digit_char d) "."%char = false).
    { destruct (Ascii.eqb_spec (digit_char d) "."%char) as [E|]; [|done].
      pose proof (digit_val_char d Hd) as Hv. rewrite E in Hv. discriminate. }
    rewrite Hdot. unfold append_char. cbn [lp_number].
    destruct (Nat.ltb_spec (String.length acc) 10); [|lia]. cbn [res_bind lp_name lp_infos].
    rewrite IH by (rewrite string_app_length; cbn; lia). by rewrite string_app_assoc.
Qed.

Lemma step_dot name number infos :
  list_parser_step device_spec uninit_word "."%char (mkListParser true name number infos) =
    rlet r := parse_entry device_spec uninit_word (mkListParser true name number infos) in
    Ok (mkListParser false "" number r).
Proof. done. Qed.

(** What the table gets for an entry. *)
Definition entry_info (e : entry) : res (option SensorActuatorInfo) :=
  parse_info (fst e) (decimal_value 0 (snd e)).

Lemma parse_entry_eq e infos :
  entry_ok e -> (length infos < 10)%nat ->
  parse_entry device_spec uninit_word (mkListParser true (fst e) (decimal (snd e)) infos) =
    rlet i := entry_info e in Ok (infos ++ [i]).
Proof.
  intros (Hw & Hl & Hd & Hn) Hi. unfold parse_entry. cbn [lp_name lp_number lp_infos].
  rewrite decimal_length. destruct (Nat.ltb_spec (String.length (fst e)) 20); [|lia].
  destruct (Nat.ltb_spec (length (snd e)) 10); [|lia]. destruct (Nat.ltb_spec (length infos) 10); [|lia].
  cbn [andb]. rewrite atoi_decimal by done. cbn [res_bind]. unfold entry_info.
  pose proof (decimal_value_bound (snd e) 0 Hd ltac:(lia)) as Hb.
  pose proof (Z.pow_le_mono_r 10 (Z.of_nat (length (snd e))) 9 ltac:(lia) ltac:(lia)).
  rewrite uwrap_id by (unfold in_u; lia). done.
Qed.

Fixpoint infos_of (l : list entry) : res (list (option SensorActuatorInfo)) :=
  match l with
  | [] => Ok []
  | e :: l => rlet i := entry_info e in rlet r := infos_of l in Ok (i :: r)
  end.

Lemma parse_list_from_print e l num infos :
  Forall entry_ok (e :: l) -> (length infos + length (e :: l) <= 10)%nat ->
  parse_from (print_list e l) (mkListParser false "" num infos) =
    rlet r := infos_of (e :: l) in Ok (infos ++ r).
Proof.
  revert e num infos. induction l as [|e' l IH]; intros e num infos Hf Hl;
    apply Forall_cons_1 in Hf as [He Hf]; pose proof He as (Hw & Hn & Hd & Hk); cbn [length] in Hl.
  - cbn [print_list]. unfold print_entry. rewrite parse_name by (done || (cbn; lia)).
    rewrite <- (string_app_nil (decimal (snd e))), parse_number by (done || (cbn; lia)).
    cbn [parse_list_from]. cbn [String.append]. rewrite parse_entry_eq by (done || lia).
    cbn [infos_of]. by destruct (entry_info e).
  - cbn [print_list]. unfold print_entry. rewrite !string_app_assoc.
    rewrite parse_name by (done || (cbn; lia)). rewrite parse_number by (done || (cbn; lia)).
    cbn [String.append parse_list_from]. rewrite step_dot, parse_entry_eq by (done || lia).
    cbn [infos_of lp_number].
    destruct (entry_info e) as [i|msg|]; [|done|done]. cbn [res_bind].
    rewrite IH; [|done|rewrite length_app; cbn; lia]. cbn [infos_of].
    destruct (entry_info e') as [i'|msg|]; [|done|done]. cbn [res_bind].
    destruct (infos_of l) as [r|msg|]; [|done|done]. cbn [res_bind]. by rewrite <- app_assoc.
Qed.

(** C17: the device list of a row is read back.  A list of up to ten
    "name-allowance" entries, names of fewer than twenty characters without
    a dash and allowances of fewer than ten digits, parses to exactly those
    entries in order, each with its allowance and the data of the device
    sheet. *)
Theorem device_list_roundtrip (e : entry) (l : list entry) :
  Forall entry_ok (e :: l) -> (length (e :: l) <= 10)%nat ->
  parse_sensor_actuator_info_list device_spec uninit_word (print_list e l) = infos_of (e :: l).
Proof.
  intros Hf Hl. unfold parse_sensor_actuator_info_list.
  rewrite parse_list_from_print by done. by destruct (infos_of (e :: l)).
Qed.

End Roundtrip.

(** The device list of the first row of the sheet. *)
Lemma device_list_roundtrip_witness :
  parse_sensor_actuator_info_list device_spec 77 "camera-1000000.speaker-30000" =
    Ok [Some (mkSensorActuatorInfo 1 0x8ffffffc 2 500 1000000 0 77);
        Some (mkSensorActuatorInfo 4 0x8FFFFFE4 1 400 30000 0 77)].
Proof.
  etransitivity; [apply (device_list_roundtrip device_spec 77 ("camera", [1; 0; 0; 0; 0; 0; 0])
    [("speaker", [3; 0; 0; 0; 0])])|].
  - repeat constructor; cbn; try lia; done.
  - cbn. lia.
  - vm_compute. reflexivity.
Defined.

(** ** The sheets of the source *)

(** The first three rows. *)
Definition small_module_spec : string := String.substring 0 280 module_spec.

Definition sample_table (w : Z) : list AccessControlModule :=
  let camera n := Some (mkSensorActuatorInfo 1 0x8ffffffc 2 500 n 0 w) in
  [mkAccessControlModule "regular1"
     [camera 1000000; Some (mkSensorActuatorInfo 4 0x8FFFFFE4 1 400 30000 0 w)] 2 9000 200000;
   mkAccessControlModule "regular2"
     [Some (mkSensorActuatorInfo 0 0x90000000 50 10 10000 0 w);
      Some (mkSensorActuatorInfo 2 0x8ffffff0 65 20 9000 0 w); camera 10000000;
      Some (mkSensorActuatorInfo 4 0x8FFFFFE4 1 400 20000 0 w);
      Some (mkSensorActuatorInfo 6 0x8FFFFFC0 1 350 5000 0 w);
      Some (mkSensorActuatorInfo 5 0x8FFFFFE0 1 300 100000 0 w)] 6 1000000 200000;
   mkAccessControlModule "regular3"
     [camera 1000000; Some (mkSensorActuatorInfo 3 0x8FFFFFEC 3 100 5000 0 w)] 2 9000 200000].


(** ** A run *)

Definition sample_globals : Globals := mkGlobals sample_world (replicate 20 0) 10 0 0 0 0 [].
Definition sample_aerogel_module : WASMModuleInstance :=
  set_access_control (Some (mkAccessControl (sample_table 0) 3 0 1)) sample_module.
Definition sample_renju (n : nat) : Z := Z.of_nat n.

Abbreviation sample_run := (@aerogel_sensor_module (sample_platform false) device_spec
  small_module_spec "" sample_renju sample_aerogel_module "regular1"
  [mkSensor "imu" 100 30000; mkSensor "camera" 100 30000] [mkActuator "speaker" [7] 2 10]
  sample_globals).


Lemma concurrency_slots_run_out_witness :
  @concurrency_checks (sample_platform false) 4 "camera" 2 sample_globals =
    Ok [false; false; true; true].
Proof.
  rewrite (@concurrency_slots_run_out (sample_platform false) eq_refl 4 "camera" 2 sample_globals 1);
    [vm_compute; reflexivity|vm_compute; reflexivity|reflexivity|lia].
Defined.

Abbreviation sample_native := (@aerogel_sensor_native (sample_platform false) device_spec
  small_module_spec "" sample_renju sample_aerogel_module "regular1" "camera" [1000] [2000]
  sample_globals).

