(* ===== verification/Calls.v ===== *)
(** * Calls and returns

    What [WASM_OP_CALL] builds for a callee in bytecode - frame, arguments,
    zeroed locals, function block - and what a return gives back to the
    caller ([call_func_from_interp], [call_func_from_entry] and
    [return_func] of [core/iwasm/interpreter/wasm_interp_classic.c]). *)

From S2P Require Import Prelude Numeric Leb Opcode BlockAddr Float Instance Machine Interp.
From S2P Require Import MachineFacts.
#[local] Open Scope Z_scope.

(** ** Copies of cells *)

Fixpoint copy_cells (c : gmap Z Z) (dest src : Z) (n : nat) : gmap Z Z :=
  match n with
  | O => c
  | S n => copy_cells (<[dest := u32 (default 0 (c !! src))]> c) (dest + 4) (src + 4) n
  end.

Definition with_cells (f : gmap Z Z -> gmap Z Z) (s : St) : St :=
  upd_env (fun e => set_cells (f (cells e)) e) s.

Lemma word_copy_eq n dest src s :
  word_copy dest src n s = Some (tt, with_cells (fun c => copy_cells c dest src n) s).
Proof.
  revert dest src s. induction n as [|n IH]; intros dest src s; cbn [word_copy copy_cells].
  - unfold mret, with_cells, upd_env. by destruct s as [? ? ? ? ? ? ? ? ? ? ? [] ? ?].
  - unfold read_cell, write_cell, mbind, get, modify. by rewrite IH.
Qed.

Lemma copy_cells_other c dest src n p :
  p < dest \/ dest + 4 * Z.of_nat n <= p -> copy_cells c dest src n !! p = c !! p.
Proof.
  revert c dest src. induction n as [|n IH]; intros c dest src Hp; [done|].
  cbn [copy_cells]. rewrite IH by lia. by rewrite lookup_insert_ne by lia.
Qed.

Lemma copy_cells_at c dest src n k :
  src + 4 * Z.of_nat n <= dest \/ dest <= src -> (k < n)%nat ->
  copy_cells c dest src n !! (dest + 4 * Z.of_nat k) = Some (u32 (default 0 (c !! (src + 4 * Z.of_nat k)))).
Proof.
  revert c dest src k. induction n as [|n IH]; intros c dest src k Hd Hk; [lia|].
  cbn [copy_cells]. destruct k as [|k].
  - rewrite copy_cells_other by lia. rewrite Z.mul_0_r, !Z.add_0_r. by rewrite lookup_insert_eq.
  - replace (dest + 4 * Z.of_nat (S k)) with (dest + 4 + 4 * Z.of_nat k) by lia.
    rewrite IH by lia. replace (src + 4 + 4 * Z.of_nat k) with (src + 4 * Z.of_nat (S k)) by lia.
    by rewrite lookup_insert_ne by lia.
Qed.

(** Locals start out as zero. *)
Definition zero_cells (lo hi : Z) (c : gmap Z Z) : gmap Z Z :=
  filter (fun '(k, _) => ~ (lo <= k < hi)) c.

Lemma zero_cells_in lo hi c p : lo <= p < hi -> zero_cells lo hi c !! p = None.
Proof.
  intros Hp. unfold zero_cells. apply map_lookup_filter_None. right. intros x _. cbn. tauto.
Qed.
Lemma zero_cells_out lo hi c p : ~ (lo <= p < hi) -> zero_cells lo hi c !! p = c !! p.
Proof.
  intros Hp. unfold zero_cells. destruct (c !! p) as [x|] eqn:E.
  - by apply map_lookup_filter_Some.
  - apply map_lookup_filter_None. by left.
Qed.

(** ** Labels that end in the next dispatch *)

Section Calls.
Context `{Platform} `{Natives}.

Lemma goto_via l s s' :
  goto1 l s = Some (op_end, s') -> instruction_start_time s' <> 0 ->
  exists s'', goto l s = Some (fetch, s'') /\ erase s'' = erase s'.
Proof.
  intros E Hn. unfold goto. rewrite (mbind_eq _ _ _ _ _ E).
  change (let* l := goto1 op_end in let* l := goto1 l in goto1 l) with
    (let* l := goto1 op_end in let* l := goto1 l in goto1 l).
  unfold goto1 at 1, HANDLE_OP_END, mbind, get.
  destruct (Z.eqb_spec (instruction_start_time s') 0); [done|]. cbn. eauto.
Qed.

Lemma goto_via2 l l' s s1 s' :
  goto1 l s = Some (l', s1) -> goto1 l' s1 = Some (op_end, s') -> instruction_start_time s' <> 0 ->
  exists s'', goto l s = Some (fetch, s'') /\ erase s'' = erase s'.
Proof.
  intros E E' Hn. unfold goto. rewrite (mbind_eq _ _ _ _ _ E), (mbind_eq _ _ _ _ _ E').
  unfold goto1 at 1, HANDLE_OP_END, mbind, get.
  destruct (Z.eqb_spec (instruction_start_time s') 0); [done|]. cbn. eauto.
Qed.

(** One opcode whose handler leaves through label [l] to the next dispatch. *)
Lemma step_through s b rest op h (P : St -> Prop) :
  clock_runs -> unlimited (module s) ->
  code_at s (frame_ip s) = b :: rest -> dispatch b = Ok op ->
  handler op = Some h -> op <> WASM_OP_UNREACHABLE ->
  (forall s1, erase s1 = erase (set_frame_ip (frame_ip s + 1) s) -> instruction_start_time s1 <> 0 ->
     exists l s2 s3, h s1 = Some (l, s2) /\ goto l s2 = Some (fetch, s3) /\ P s3) ->
  exists s', step s = Some (true, s') /\ P s'.
Proof.
  intros Hclk Hu Hc Hd Hh Hop HP. unfold step.
  destruct (fetch_unlimited s b rest op Hu Hc Hd) as (s0 & E0 & He0).
  rewrite (mbind_eq _ _ _ _ _ E0).
  assert (Ex : exec_op op = let* _ := start_instruction in h)
    by (unfold exec_op; rewrite Hh; by destruct op).
  destruct (start_eq s0) as (s1 & E1 & He1 & Ht).
  destruct (HP s1) as (l & s2 & s3 & E2 & E3 & Hpost); [by rewrite He1|rewrite Ht; apply Hclk|].
  exists s3. split; [|done].
  unfold mbind at 1. rewrite Ex. unfold mbind at 1. rewrite E1, E2.
  by rewrite (mbind_eq _ _ _ _ _ E3).
Qed.

(** ** Entering a callee *)

Definition frame_cells (f : WASMFunctionInstance) : Z :=
  param_cell_num f + local_cell_num f + max_stack_cell_num f + max_block_num f * sizeof_branch_block / 4.
Definition frame_size (f : WASMFunctionInstance) : Z := wasm_interp_interp_frame_size (u32 (frame_cells f)).
Definition return_ty (f : WASMFunctionInstance) : option Z :=
  if (ty_result_count (func_type f) =? 0)%nat then Some VALUE_TYPE_VOID
  else param_types f !! ty_param_count (func_type f).

(** A function in bytecode that can be called in state [s]. *)
Record callable (s : St) (i : nat) (f : WASMFunctionInstance) (ty : Z) : Prop := {
  ca_func : functions (module s) !! i = Some f;
  ca_bytecode : is_import_func f = false;
  ca_params : 0 <= param_cell_num f;
  ca_locals : 0 <= local_cell_num f;
  ca_cells : frame_cells f < UINT32_MAX;
  ca_blocks : 1 <= max_block_num f;
  ca_type : return_ty f = Some ty;
  ca_room : stack_top (exec_env s) + u32 (frame_size f * 2) <= top_boundary (exec_env s);
  ca_above : frame_sp s <= lp_of (stack_top (exec_env s));
  ca_fresh : stack_top (exec_env s) <> frame s
}.

(** The callee's activation, [ret] being where the caller goes on. *)
Record entered (s : St) (i : nat) (f : WASMFunctionInstance) (ty ret : Z) (s' : St) : Prop := {
  en_frame : frame s' = stack_top (exec_env s);
  en_ip : frame_ip s' = func_code f;
  en_lp : frame_lp s' = lp_of (stack_top (exec_env s));
  en_sp : frame_sp s' = frame_lp s' + 4 * (param_cell_num f + local_cell_num f);
  en_csp : frame_csp s' = [mkBranchBlock BLOCK_TYPE_FUNCTION ty
                             (func_code f + func_code_size f - 1) (frame_sp s')];
  en_func : cur_func s' = i;
  en_prev : prev_frame s' = frame s;
  en_params : forall k, (k < Z.to_nat (param_cell_num f))%nat ->
    cell_at s' (frame_lp s' + 4 * Z.of_nat k) =
    cell_at s (frame_sp s - 4 * param_cell_num f + 4 * Z.of_nat k);
  en_locals : forall p, frame_lp s' + 4 * param_cell_num f <= p < frame_sp s' -> cell_at s' p = 0;
  en_others : forall p, p < frame_lp s' \/ frame_sp s' <= p -> cell_at s' p = cell_at s p;
  en_top : stack_top (exec_env s') = stack_top (exec_env s) + frame_size f;
  en_cur : cur_frame (exec_env s') = frame s';
  en_header : frames (exec_env s') !! frame s' =
    Some (mkFrame (frame s) (Some i) 0 0 [] (max_block_num f));
  en_caller : forall fr, frames (exec_env s) !! frame s = Some fr ->
    frames (exec_env s') !! frame s =
      Some (mkFrame (fr_prev_frame fr) (fr_function fr) ret
              (frame_sp s - 4 * param_cell_num f) (frame_csp s) (fr_block_num fr));
  en_module : erase_m (module s') = erase_m (module s)
}.

Lemma entered_erase s i f ty ret s1 s2 :
  erase s1 = erase s2 -> entered s i f ty ret s1 -> entered s i f ty ret s2.
Proof.
  intros E [H1 H2 H3 H4 H5 H6 H7 H8 H9 H10 H11 H12 H13 H14 H15].
  pose proof (erase_fields _ _ E) as (X1 & X2 & X3 & X4).
  assert (Y1 : frame s1 = frame s2) by exact (f_equal frame E).
  assert (Y2 : frame_lp s1 = frame_lp s2) by exact (f_equal frame_lp E).
  assert (Y3 : frame_csp s1 = frame_csp s2) by exact (f_equal frame_csp E).
  assert (Y4 : cur_func s1 = cur_func s2) by exact (f_equal cur_func E).
  assert (Y5 : prev_frame s1 = prev_frame s2) by exact (f_equal prev_frame E).
  assert (Y6 : forall p, cell_at s1 p = cell_at s2 p) by (intros p; unfold cell_at; by rewrite X1).
  constructor; rewrite <- ?X1, <- ?X2, <- ?X3, <- ?Y1, <- ?Y2, <- ?Y3, <- ?Y4, <- ?Y5, <- ?X4; try done.
  all: intros; rewrite <- Y6; auto.
Qed.

(** The state in which the callee is entered: header of the caller saved,
    arguments copied. *)
Definition sync_frame (s : St) (fr : WASMInterpFrame) : WASMInterpFrame :=
  mkFrame (fr_prev_frame fr) (fr_function fr) (frame_ip s) (frame_sp s) (frame_csp s) (fr_block_num fr).
Definition call_args (n : Z) (s : St) : St :=
  let s1 := set_frame_sp (frame_sp s - 4 * n) s in
  let s2 := upd_env (fun e => set_frames (alter (sync_frame s1) (frame s) (frames e)) e) s1 in
  set_prev_frame (frame s)
    (with_cells (fun c => copy_cells c (lp_of (stack_top (exec_env s))) (frame_sp s1) (Z.to_nat n)) s2).

Lemma do_call_func_from_interp_eq s f :
  functions (module s) !! cur_func s = Some f ->
  do_call_func_from_interp s = Some (call_func_from_entry, call_args (param_cell_num f) s).
Proof.
  intros Hf. unfold do_call_func_from_interp, get_func.
  unfold mbind at 1 2 3 4 5, get, POP, move_sp, modify. rewrite Hf.
  unfold SYNC_ALL_TO_FRAME, upd_frame, modify, mbind.
  rewrite word_copy_eq. unfold call_args, mret.
  replace (frame_sp s + 4 * - param_cell_num f) with (frame_sp s - 4 * param_cell_num f) by lia. done.
Qed.

Definition enter_state (i : nat) (f : WASMFunctionInstance) (ty : Z) (s : St) : St :=
  let top := stack_top (exec_env s) in
  let lp := lp_of top in
  let sp := lp + 4 * (param_cell_num f + local_cell_num f) in
  let fr := mkFrame (prev_frame s) (Some i) 0 0 [] (max_block_num f) in
  let e := exec_env s in
  mkSt top (func_code f) lp sp
    [mkBranchBlock BLOCK_TYPE_FUNCTION ty (func_code f + func_code_size f - 1) sp]
    (cur_func s) (prev_frame s) (total_mem_size s) (cached_global_data s) (prev_timestamp s)
    (instruction_start_time s)
    (mkExecEnv (zero_cells (lp + 4 * param_cell_num f) sp (cells e)) (<[top := fr]> (frames e))
       (stack_bottom e) (top + frame_size f) (top_boundary e) top (block_addr_cache e))
    (module s) (world s).

Lemma enter_bytecode_eq s i f ty :
  frame_cells f < UINT32_MAX -> 1 <= max_block_num f -> return_ty f = Some ty ->
  stack_top (exec_env s) + u32 (frame_size f * 2) <= top_boundary (exec_env s) ->
  enter_bytecode i f s = Some (op_end, enter_state i f ty s).
Proof.
  intros Hc Hb Ht Hr. destruct s as [fr fip flp fsp fcsp cf pf tm cg pt it [ce frs sb st tb cu ba] md wo].
  cbn [exec_env stack_top top_boundary] in Hr.
  unfold enter_bytecode, mbind, get, modify, lift, ALLOC_FRAME, wasm_exec_env_alloc_wasm_frame.
  fold (frame_cells f). fold (frame_size f). fold (return_ty f). rewrite Ht.
  destruct (Z.leb_spec UINT32_MAX (frame_cells f)); [lia|].
  cbn [prev_frame exec_env stack_top top_boundary].
  destruct (Z.ltb_spec tb (st + u32 (frame_size f * 2))); [lia|].
  unfold PUSH_CSP, get_frame, mbind, get. cbn -[Z.mul Z.add Z.sub Z.leb Z.ltb zero_cells filter].
  rewrite alter_insert_eq, lookup_insert_eq. cbn -[Z.mul Z.add Z.sub Z.leb Z.ltb zero_cells filter].
  rewrite (proj2 (Z.ltb_lt _ _)) by lia. unfold modify, mret.
  assert (E : <[st := mkFrame pf (Some i) 0 0 [] (max_block_num f)]> frs =
    alter (fun r => set_fr_function (Some i) (set_fr_block_num (max_block_num f) r)) st
      (<[st := new_frame pf]> frs)) by (by rewrite alter_insert_eq).
  unfold enter_state. cbn [exec_env stack_top prev_frame frames]. rewrite E. reflexivity.
Qed.

Lemma do_call_func_from_entry_eq s f ty :
  callable s (cur_func s) f ty ->
  do_call_func_from_entry (call_args (param_cell_num f) s) =
    Some (op_end, enter_state (cur_func s) f ty (call_args (param_cell_num f) s)).
Proof.
  intros [C1 C2 C3 C4 C5 C6 C7 C8 C9 C10]. unfold do_call_func_from_entry, get_func, mbind, get.
  change (cur_func (call_args (param_cell_num f) s)) with (cur_func s).
  change (functions (module (call_args (param_cell_num f) s))) with (functions (module s)).
  rewrite C1, C2. by apply enter_bytecode_eq.
Qed.

Lemma enter_state_entered s f ty :
  cells_ok s -> callable s (cur_func s) f ty ->
  entered s (cur_func s) f ty (frame_ip s) (enter_state (cur_func s) f ty (call_args (param_cell_num f) s)).
Proof.
  intros Hs [C1 C2 C3 C4 C5 C6 C7 C8 C9 C10]. set (n := param_cell_num f) in *.
  set (lp := lp_of (stack_top (exec_env s))). set (sp := frame_sp s - 4 * n).
  set (s' := enter_state _ _ _ _).
  assert (Hcell : forall p, cell_at s' p = default 0 (zero_cells (lp + 4 * n) (lp + 4 * (n + local_cell_num f))
    (copy_cells (cells (exec_env s)) lp sp (Z.to_nat n)) !! p)) by reflexivity.
  constructor; try reflexivity.
  - intros k Hk. rewrite Hcell. change (frame_lp s') with lp.
    rewrite zero_cells_out by lia. rewrite copy_cells_at by lia. apply uwrap_id, Hs.
  - intros p Hp. rewrite Hcell. change (frame_lp s') with lp in Hp.
    change (frame_sp s') with (lp + 4 * (n + local_cell_num f)) in Hp. by rewrite zero_cells_in.
  - intros p Hp. rewrite Hcell. change (frame_lp s') with lp in Hp.
    change (frame_sp s') with (lp + 4 * (n + local_cell_num f)) in Hp.
    rewrite zero_cells_out by lia. rewrite copy_cells_other by lia. done.
  - change (frames (exec_env s')) with (<[stack_top (exec_env s) := mkFrame (frame s) (Some (cur_func s)) 0 0 []
      (max_block_num f)]> (alter (sync_frame (set_frame_sp sp s)) (frame s) (frames (exec_env s)))).
    change (frame s') with (stack_top (exec_env s)). by rewrite lookup_insert_eq.
  - intros fr Hfr. change (frames (exec_env s')) with (<[stack_top (exec_env s) := mkFrame (frame s)
      (Some (cur_func s)) 0 0 [] (max_block_num f)]>
      (alter (sync_frame (set_frame_sp sp s)) (frame s) (frames (exec_env s)))).
    rewrite lookup_insert_ne by done. rewrite lookup_alter_eq, Hfr. done.
Qed.

Lemma erase_enter s1 s2 i f ty n :
  erase s1 = erase s2 ->
  erase (enter_state i f ty (call_args n s1)) = erase (enter_state i f ty (call_args n s2)).
Proof.
  intros E. change (enter_state i f ty (call_args n (erase s1)) = enter_state i f ty (call_args n (erase s2))).
  by rewrite E.
Qed.

Lemma callable_erase s1 s2 i f ty :
  erase s1 = erase s2 -> callable s1 i f ty -> callable s2 i f ty.
Proof.
  intros E [C1 C2 C3 C4 C5 C6 C7 C8 C9 C10]. pose proof (erase_fields _ _ E) as (X1 & _ & X3 & _).
  constructor; rewrite <- ?X1, <- ?X3; try done.
  - by rewrite <- (f_equal (fun s => functions (module s)) E : functions (module s1) = functions (module s2)).
  - by rewrite <- (f_equal frame E : frame s1 = frame s2).
Qed.

(** C6: a call enters the callee.  When [WASM_OP_CALL] meets the index of a
    bytecode function and the WASM stack has room, one opcode later the
    callee is the running function: its frame on top of the stack, its
    parameters the cells the caller pushed, its other locals zero, its
    operand stack empty, its body's function block the only block, while
    the caller's header keeps where to go on, its operands below the
    arguments and its blocks, and no other cell of the stack has changed. *)
Theorem call_enters_callee (s : St) i f ty rest :
  clock_runs -> unlimited (module s) -> cells_ok s -> ip_ok s ->
  code_at s (frame_ip s) = opcode_val WASM_OP_CALL :: encode_uleb 5 (Z.of_nat i) ++ rest ->
  in_u 32 (Z.of_nat i) -> callable s i f ty ->
  exists s', step s = Some (true, s') /\
    entered s i f ty (frame_ip s + 1 + Z.of_nat (length (encode_uleb 5 (Z.of_nat i)))) s'.
Proof.
  intros Hclk Hu Hs Hip Hc Hi Hf. set (ret := frame_ip s + 1 + _).
  apply (step_through s _ _ WASM_OP_CALL op_call) with (2 := Hu) (3 := Hc); try done.
  intros s1 E1 Hst. pose proof (erase_fields _ _ E1) as (X1 & X2 & X3 & X4). cbn in X2.
  assert (Hc1 : code_at s1 (frame_ip s1) = encode_uleb 5 (Z.of_nat i) ++ rest).
  { rewrite (code_at_erase _ _ _ E1), X2. apply (code_at_app s [_] _ Hip Hc). }
  pose proof (read_u32_enc s1 _ _ Hi Hc1) as Hr. rewrite X2 in Hr. fold ret in Hr.
  set (s2 := set_cur_func i (set_frame_ip ret s1)).
  set (s2' := set_cur_func i (set_frame_ip ret s)).
  assert (E2 : erase s2' = erase s2).
  { change (set_cur_func i (set_frame_ip ret (erase (set_frame_ip (frame_ip s + 1) s))) =
      set_cur_func i (set_frame_ip ret (erase s1))). by rewrite E1. }
  assert (Hf2 : callable s2' (cur_func s2') f ty).
  { destruct Hf as [C1 C2 C3 C4 C5 C6 C7 C8 C9 C10]. by constructor. }
  pose proof (callable_erase _ _ _ _ _ E2 Hf2) as Hf2'.
  destruct (goto_via2 call_func_from_interp call_func_from_entry s2 (call_args (param_cell_num f) s2)
    (enter_state i f ty (call_args (param_cell_num f) s2))) as (s3 & E3 & He3).
  - cbn [goto1]. apply do_call_func_from_interp_eq. apply (ca_func _ _ _ _ Hf2').
  - exact (do_call_func_from_entry_eq s2 f ty Hf2').
  - exact Hst.
  - exists call_func_from_interp, s2, s3. split; [|split; [exact E3|]].
    + unfold op_call. rewrite (mbind_eq _ _ _ _ _ Hr). rewrite Nat2Z.id.
      unfold get_func, mbind. cbn [module set_frame_ip].
      by rewrite (ca_func _ _ _ _ Hf2' : functions (module s1) !! i = Some f).
    + eapply entered_erase; [symmetry; exact He3|]. eapply entered_erase; [apply erase_enter, E2|].
      pose proof (enter_state_entered s2' f ty Hs Hf2) as [N1 N2 N3 N4 N5 N6 N7 N8 N9 N10 N11 N12 N13 N14 N15].
      by constructor.
Qed.

(** ** Returning *)

Definition with_results (prev : Z) (fr : WASMInterpFrame) (src : Z) (n : nat) (s : St) : St :=
  upd_env (fun e => set_cells (copy_cells (cells e) (fr_sp fr) src n)
    (set_frames (<[prev := set_fr_sp (fr_sp fr + 4 * Z.of_nat n) fr]> (frames e)) e)) s.

Lemma copy_results_eq n src fr s :
  frames (exec_env s) !! prev_frame s = Some fr ->
  copy_results src n s = Some (tt, with_results (prev_frame s) fr src n s).
Proof.
  revert src fr s. induction n as [|n IH]; intros src fr s Hf; cbn [copy_results].
  - unfold with_results, mret, upd_env. rewrite Z.mul_0_r, Z.add_0_r. cbn [copy_cells].
    assert (E : <[prev_frame s := set_fr_sp (fr_sp fr) fr]> (frames (exec_env s)) = frames (exec_env s))
      by (apply insert_id; rewrite Hf; by destruct fr).
    rewrite E. by destruct s as [? ? ? ? ? ? ? ? ? ? ? [] ? ?].
  - unfold mbind, get, get_frame. rewrite Hf. unfold read_cell, get, write_cell, upd_frame, modify.
    match goal with |- copy_results _ _ ?x = _ => set (s1 := x) end.
    rewrite (IH _ (set_fr_sp (fr_sp fr + 4) fr) s1).
    + unfold with_results, upd_env. cbn [fr_sp set_fr_sp]. do 2 f_equal.
      change (prev_frame s1) with (prev_frame s).
      change (frames (exec_env s1)) with (alter (fun f => set_fr_sp (fr_sp f + 4) f) (prev_frame s) (frames (exec_env s))).
      rewrite insert_alter_eq. cbn [copy_cells].
      replace (fr_sp fr + 4 + 4 * Z.of_nat n) with (fr_sp fr + 4 * Z.of_nat (S n)) by lia. reflexivity.
    + change (prev_frame s1) with (prev_frame s).
      change (frames (exec_env s1)) with (alter (fun f => set_fr_sp (fr_sp f + 4) f) (prev_frame s) (frames (exec_env s))).
      by rewrite lookup_alter_eq, Hf.
Qed.

(** A caller in bytecode that can be returned to. *)
Record returnable (s : St) (f : WASMFunctionInstance) (fr : WASMInterpFrame) (j : nat) : Prop := {
  rt_func : functions (module s) !! cur_func s = Some f;
  rt_results : 0 <= ret_cell_num f;
  rt_caller : frames (exec_env s) !! prev_frame s = Some fr;
  rt_bytecode : fr_ip fr <> 0;
  rt_function : fr_function fr = Some j;
  rt_below : fr_sp fr <= frame_sp s - 4 * ret_cell_num f
}.

(** The caller's activation after the return. *)
Record resumed (s : St) (f : WASMFunctionInstance) (fr : WASMInterpFrame) (j : nat) (s' : St) : Prop := {
  rs_frame : frame s' = prev_frame s;
  rs_ip : frame_ip s' = fr_ip fr;
  rs_lp : frame_lp s' = lp_of (prev_frame s);
  rs_sp : frame_sp s' = fr_sp fr + 4 * ret_cell_num f;
  rs_csp : frame_csp s' = fr_csp fr;
  rs_func : cur_func s' = j;
  rs_prev : prev_frame s' = fr_prev_frame fr;
  rs_results : forall k, (k < Z.to_nat (ret_cell_num f))%nat ->
    cell_at s' (fr_sp fr + 4 * Z.of_nat k) =
    cell_at s (frame_sp s - 4 * ret_cell_num f + 4 * Z.of_nat k);
  rs_others : forall p, p < fr_sp fr \/ frame_sp s' <= p -> cell_at s' p = cell_at s p;
  rs_top : stack_top (exec_env s') = frame s;
  rs_cur : cur_frame (exec_env s') = prev_frame s;
  rs_module : erase_m (module s') = erase_m (module s)
}.

Definition return_state (f : WASMFunctionInstance) (fr : WASMInterpFrame) (j : nat) (s : St) : St :=
  let n := ret_cell_num f in
  let sp := frame_sp s - 4 * n in
  let s1 := with_results (prev_frame s) fr sp (Z.to_nat n) (set_frame_sp sp s) in
  let e := set_cur_frame (prev_frame s) (set_stack_top (frame s) (exec_env s1)) in
  mkSt (prev_frame s) (fr_ip fr) (lp_of (prev_frame s)) (fr_sp fr + 4 * n) (fr_csp fr) j
    (fr_prev_frame fr) (total_mem_size s) (cached_global_data s) (prev_timestamp s)
    (instruction_start_time s) e (module s) (world s).

Lemma op_return_eq s f fr j :
  returnable s f fr j ->
  op_return s = Some (return_func, with_results (prev_frame s) fr (frame_sp s - 4 * ret_cell_num f)
    (Z.to_nat (ret_cell_num f)) (set_frame_sp (frame_sp s - 4 * ret_cell_num f) s)).
Proof.
  intros [R1 R2 R3 R4 R5 R6]. unfold op_return, get_func, mbind, get, move_sp, modify. rewrite R1.
  replace (frame_sp s + 4 * - ret_cell_num f) with (frame_sp s - 4 * ret_cell_num f) by lia.
  by rewrite (copy_results_eq _ _ fr).
Qed.

Lemma do_return_func_eq s f fr j :
  returnable s f fr j ->
  do_return_func (with_results (prev_frame s) fr (frame_sp s - 4 * ret_cell_num f)
    (Z.to_nat (ret_cell_num f)) (set_frame_sp (frame_sp s - 4 * ret_cell_num f) s)) =
  Some (op_end, return_state f fr j s).
Proof.
  intros [R1 R2 R3 R4 R5 R6].
  destruct s as [sf fip flp fsp fcsp cf pf tm cg pt it [ce frs sb st tb cu ba] md wo].
  cbn [prev_frame frame_sp exec_env frames] in *.
  unfold do_return_func, mbind, get, FREE_FRAME, wasm_exec_env_set_cur_frame, modify, get_frame.
  cbn -[Z.mul Z.add Z.sub Z.eqb copy_cells]. rewrite lookup_insert_eq.
  cbn -[Z.mul Z.add Z.sub Z.eqb copy_cells]. destruct (Z.eqb_spec (fr_ip fr) 0); [done|].
  unfold RECOVER_CONTEXT, mbind, get_frame, lift. cbn -[Z.mul Z.add Z.sub Z.eqb copy_cells].
  rewrite lookup_insert_eq. cbn -[Z.mul Z.add Z.sub Z.eqb copy_cells]. rewrite R5.
  unfold modify, mret, return_state, with_results. cbn [ret_cell_num].
  rewrite Z2Nat.id by done. reflexivity.
Qed.

Lemma return_state_resumed s f fr j :
  cells_ok s -> returnable s f fr j -> resumed s f fr j (return_state f fr j s).
Proof.
  intros Hs [R1 R2 R3 R4 R5 R6]. set (n := ret_cell_num f) in *.
  set (s' := return_state f fr j s).
  assert (Hcell : forall p, cell_at s' p =
    default 0 (copy_cells (cells (exec_env s)) (fr_sp fr) (frame_sp s - 4 * n) (Z.to_nat n) !! p)) by reflexivity.
  constructor; try reflexivity.
  - intros k Hk. rewrite Hcell, copy_cells_at by lia. apply uwrap_id, Hs.
  - intros p Hp. change (frame_sp s') with (fr_sp fr + 4 * n) in Hp.
    rewrite Hcell, copy_cells_other by lia. done.
Qed.

Lemma erase_return s1 s2 f fr j :
  erase s1 = erase s2 -> erase (return_state f fr j s1) = erase (return_state f fr j s2).
Proof.
  intros E. change (return_state f fr j (erase s1) = return_state f fr j (erase s2)). by rewrite E.
Qed.

Lemma resumed_erase s f fr j s1 s2 :
  erase s1 = erase s2 -> resumed s f fr j s1 -> resumed s f fr j s2.
Proof.
  intros E [H1 H2 H3 H4 H5 H6 H7 H8 H9 H10 H11 H12].
  pose proof (erase_fields _ _ E) as (X1 & X2 & X3 & X4).
  assert (Y1 : frame s1 = frame s2) by exact (f_equal frame E).
  assert (Y2 : frame_lp s1 = frame_lp s2) by exact (f_equal frame_lp E).
  assert (Y3 : frame_csp s1 = frame_csp s2) by exact (f_equal frame_csp E).
  assert (Y4 : cur_func s1 = cur_func s2) by exact (f_equal cur_func E).
  assert (Y5 : prev_frame s1 = prev_frame s2) by exact (f_equal prev_frame E).
  assert (Y6 : forall p, cell_at s1 p = cell_at s2 p) by (intros p; unfold cell_at; by rewrite X1).
  constructor; rewrite <- ?X1, <- ?X2, <- ?X3, <- ?Y1, <- ?Y2, <- ?Y3, <- ?Y4, <- ?Y5, <- ?X4; try done.
  all: intros; rewrite <- Y6; auto.
Qed.

(** C7: a return resumes the caller.  [return], or the [end] of the
    function's own block, pops the frame and makes the caller the running
    function again, where its call left it - instruction pointer, locals,
    blocks - with the callee's results pushed on its operand stack and
    every other cell untouched. *)
Theorem return_resumes_caller (s : St) op f fr j rest :
  clock_runs -> unlimited (module s) -> cells_ok s ->
  op = WASM_OP_RETURN \/ (op = WASM_OP_END /\ (length (frame_csp s) <= 1)%nat) ->
  code_at s (frame_ip s) = opcode_val op :: rest ->
  returnable s f fr j ->
  exists s', step s = Some (true, s') /\ resumed s f fr j s'.
Proof.
  intros Hclk Hu Hs Hop Hc Hr.
  assert (Hd : dispatch (opcode_val op) = Ok op) by (unfold dispatch; by rewrite handle_table_val).
  apply (step_through s _ _ op (if decide (op = WASM_OP_RETURN) then op_return else op_endblock))
    with (2 := Hu) (3 := Hc); try done.
  { destruct Hop as [->|[-> _]]; reflexivity. }
  { by destruct Hop as [->|[-> _]]. }
  intros s1 E1 Hst. pose proof (erase_fields _ _ E1) as (X1 & _ & X3 & _).
  assert (Hr1 : returnable s1 f fr j).
  { destruct Hr as [R1 R2 R3 R4 R5 R6]. cbn in X1, X3. constructor; rewrite ?X1, ?X3; try done.
    - rewrite (f_equal cur_func E1 : cur_func s1 = cur_func s).
      by rewrite (f_equal (fun s => functions (module s)) E1 : functions (module s1) = functions (module s)).
    - by rewrite (f_equal prev_frame E1 : prev_frame s1 = prev_frame s). }
  assert (Eh : (if decide (op = WASM_OP_RETURN) then op_return else op_endblock) s1 = op_return s1).
  { destruct Hop as [->|[-> Hl]]; [done|]. rewrite decide_False by done.
    unfold op_endblock, mbind at 1, get. rewrite (f_equal frame_csp E1 : frame_csp s1 = frame_csp s).
    by destruct (Nat.ltb_spec 1 (length (frame_csp s))); [lia|]. }
  rewrite Eh, (op_return_eq _ _ _ _ Hr1).
  destruct (goto_via return_func _ _ (do_return_func_eq _ _ _ _ Hr1) Hst) as (s3 & E3 & He3).
  eexists _, _, s3. split; [done|]. split; [exact E3|].
  eapply resumed_erase; [symmetry; exact He3|]. eapply resumed_erase; [apply erase_return; symmetry; exact E1|].
  assert (Hr2 : returnable (set_frame_ip (frame_ip s + 1) s) f fr j) by (destruct Hr; by constructor).
  destruct (return_state_resumed (set_frame_ip (frame_ip s + 1) s) f fr j Hs Hr2). by constructor.
Qed.

End Calls.

(** ** A call and a return *)

Definition sample_caller : WASMFunctionInstance :=
  mkFunction false 0 0 0 1 0 [] [0x7f] [] (mkType 0 1 [0x7f]) 1000 8 6 4 true.
(** One parameter, a 64-bit local. *)
Definition sample_callee : WASMFunctionInstance :=
  mkFunction false 1 1 1 1 2 [0; 1] [0x7f; 0x7f] [0x7e] (mkType 1 1 [0x7f; 0x7f]) 1010 5 4 2 true.
Definition sample_call_state : St :=
  set_module (sample_code_module [0x10; 1; 0x0b] [sample_caller; sample_callee])
    (upd_env (fun e => set_stack_top 7000
        (set_frames {[5000 := mkFrame 4900 (Some 0%nat) 0 0 [] 4]} e))
      (sample_state [0x10; 1; 0x0b] [5])).

Lemma call_enters_callee_witness :
  exists s', @step (sample_platform true) sample_natives sample_call_state = Some (true, s') /\
    frame_ip s' = 1010 /\ cell_at s' (frame_lp s') = 5 /\ cell_at s' (frame_lp s' + 4) = 0.
Proof.
  destruct (@call_enters_callee (sample_platform true) sample_natives sample_call_state 1 sample_callee
    0x7f [0x0b]) as (s' & Es & Hen).
  - apply sample_clock_runs.
  - by left.
  - by apply (cells_ok_sample _ 6000 [5]).
  - split; vm_compute; congruence.
  - vm_compute. reflexivity.
  - by split.
  - constructor; try reflexivity; try (vm_compute; congruence).
  - exists s'. split; [exact Es|]. destruct Hen as [N1 N2 N3 N4 N5 N6 N7 N8 N9 N10 N11 N12 N13 N14 N15].
    split; [exact N2|]. split.
    + pose proof (N8 0%nat ltac:(vm_compute; lia)) as Hk. rewrite Z.add_0_r in Hk. rewrite Hk. reflexivity.
    + apply N9. rewrite N4. cbn. lia.
Defined.

Definition sample_return_state : St :=
  set_cur_func 1 (set_prev_frame 5000 (set_frame 5500
    (set_module (sample_code_module [0x10; 1; 0x0f] [sample_caller; sample_callee])
      (upd_env (set_frames {[5000 := mkFrame 4900 (Some 0%nat) 1002 5400 [] 4]})
        (set_frame_ip 1002 (sample_state [0x10; 1; 0x0f] [42])))))).

Lemma return_resumes_caller_witness :
  exists s', @step (sample_platform true) sample_natives sample_return_state = Some (true, s') /\
    frame s' = 5000 /\ frame_sp s' = 5404 /\ cell_at s' 5400 = 42.
Proof.
  destruct (@return_resumes_caller (sample_platform true) sample_natives sample_return_state
    WASM_OP_RETURN sample_callee (mkFrame 4900 (Some 0%nat) 1002 5400 [] 4) 0%nat [])
    as (s' & Es & [N1 N2 N3 N4 N5 N6 N7 N8 N9 N10 N11 N12]).
  - apply sample_clock_runs.
  - by left.
  - by apply (cells_ok_sample _ 6000 [42]).
  - by left.
  - vm_compute. reflexivity.
  - constructor; try reflexivity; try (vm_compute; congruence).
  - exists s'. split; [exact Es|]. split; [exact N1|]. split; [exact N4|].
    exact (N8 0%nat ltac:(vm_compute; lia)).
Defined.

(** ** Branches *)

Section Branches.
Context `{Platform} `{Natives}.

(** The operand a branch carries to its target. *)
Definition carried (b : WASMBranchBlock) : option bool :=
  if is_32 (return_type b) then Some false else if is_64 (return_type b) then Some true else None.

Definition branch_state (b : WASMBranchBlock) (r : list WASMBranchBlock) (s : St) : St :=
  let s1 := set_frame_csp (b :: r) (set_frame_ip (target_addr b) (set_frame_sp (block_frame_sp b) s)) in
  match carried b with Some w => push_st w (top_val w s) s1 | None => s1 end.

Lemma POP_CSP_N_eq n s b r :
  drop (Z.to_nat n) (frame_csp s) = b :: r -> POP_CSP_N n s = Some (tt, branch_state b r s).
Proof.
  intros Hd. unfold POP_CSP_N, mbind, get. rewrite Hd. unfold modify, branch_state, carried.
  by destruct (is_32 (return_type b)); [|destruct (is_64 (return_type b))].
Qed.

(** C25: where a branch goes.  [br] with an immediate [d] unwinds to the
    [d]-th enclosing block: its target, its blocks, the operand stack it was
    entered with - and on top of that the block's result, for loops too,
    although a branch to a loop starts it over: a loop with a result type
    gains its cells with every iteration. *)
Theorem branch_unwinds (s : St) d b r rest :
  in_u 32 d -> code_at s (frame_ip s) = encode_uleb 5 d ++ rest ->
  drop (Z.to_nat d) (frame_csp s) = b :: r ->
  exists s', op_br s = Some (op_end, s') /\ frame_ip s' = target_addr b /\ frame_csp s' = b :: r /\
    frame_sp s' = block_frame_sp b + 4 * default 0 (ncells <$> carried b) /\
    (forall w, carried b = Some w -> val_at w s' (block_frame_sp b) = uwrap (width w) (top_val w s)) /\
    (forall p, p < block_frame_sp b -> cell_at s' p = cell_at s p).
Proof.
  intros Hd Hc Hb. set (s1 := set_frame_ip (frame_ip s + Z.of_nat (length (encode_uleb 5 d))) s).
  exists (branch_state b r s1). unfold op_br.
  rewrite (mbind_eq _ _ _ _ _ (read_u32_enc s d rest Hd Hc)). fold s1.
  rewrite (mbind_eq _ _ _ _ _ (POP_CSP_N_eq d s1 b r Hb)). unfold branch_state.
  assert (Ht : forall w, top_val w s1 = top_val w s) by (by intros []).
  destruct (carried b) as [w|] eqn:Ew; cbn [fmap option_fmap option_map default].
  - split; [done|]. split; [by destruct w|]. split; [by destruct w|].
    split; [|split].
    + by destruct w.
    + intros w' E. injection E as <-. unfold push_st. rewrite val_at_add_sp.
      cbn [frame_sp set_frame_csp set_frame_ip set_frame_sp]. by rewrite val_at_put_val, Ht.
    + intros p Hp. rewrite cell_at_push by (cbn; lia). done.
  - split; [done|]. split; [done|]. split; [done|]. split; [cbn; lia|]. by split.
Qed.

End Branches.

Lemma branch_unwinds_witness :
  exists s', op_br
      (set_frame_csp [mkBranchBlock BLOCK_TYPE_LOOP 0x7f 1000 6000] (sample_state [0; 0x0b] [3; 9])) =
    Some (op_end, s') /\ frame_ip s' = 1000 /\ frame_sp s' = 6004.
Proof.
  destruct (@branch_unwinds
    (set_frame_csp [mkBranchBlock BLOCK_TYPE_LOOP 0x7f 1000 6000] (sample_state [0; 0x0b] [3; 9]))
    0 (mkBranchBlock BLOCK_TYPE_LOOP 0x7f 1000 6000) [] [0x0b]) as (s' & E & H1 & _ & H2 & _).
  - by split.
  - vm_compute. reflexivity.
  - reflexivity.
  - exists s'. split; [exact E|]. split; [exact H1|exact H2].
Defined.

(** ** A loop with a result

    [100 + (loop (result i32) 7; (if the parameter is 0, set it to 1 and
    branch to the loop); drop; 5 end)]. *)
Definition loop_code : list Z :=
  [0x41; 0xe4; 0; 0x03; 0x7f; 0x41; 7; 0x20; 0; 0x45; 0x41; 1; 0x21; 0; 0x0d; 0; 0x1a; 0x41; 5;
   0x0b; 0x6a; 0x0b].
Definition loop_function : WASMFunctionInstance :=
  mkFunction false 1 0 1 1 0 [0] [0x7f; 0x7f] [] (mkType 1 1 [0x7f; 0x7f]) 1000 22 6 2 true.
Abbreviation call_loop n := (@wasm_interp_call_wasm (sample_platform true) sample_natives 100
  (sample_code_module loop_code [loop_function]) (sample_env []) sample_world 0 [n]).
Definition result_of (r : res (option (list Z) * WASMModuleInstance * WASMExecEnv * World))
    : option (list Z) :=
  match r with Ok (v, _, _, _) => v | _ => None end.

