(* ===== verification/Validator.v ===== *)
(** * Validation and preparation of function bodies

    [wasm_loader_prepare_bytecode] of
    [core/iwasm/interpreter/wasm_loader.c] in the build for the classic
    interpreter ([WASM_ENABLE_FAST_INTERP], [WASM_ENABLE_JIT] and
    [WASM_ENABLE_WAMR_COMPILER] 0): it walks over the body of a function
    with a stack of value types and a stack of blocks, rejects what does not
    type, rewrites accesses to locals, [drop] and [select] in place, and
    records how much operand and block stack a frame of the function needs.

    The value types lie in an array that is only ever grown: lowering
    [stack_cell_num] leaves the cells above it, and the code may raise it
    again over them.  Addresses are [Z]; the bytes from [func->code] to the
    end of the module file are a list. *)

From S2P Require Import Prelude Leb Opcode BlockAddr Instance Machine.
#[local] Open Scope Z_scope.

(** ** Data *)

(** [BranchBlock] *)
Record BranchBlock := mkBlock {
  bb_block_type : Z;
  bb_return_type : Z;
  bb_reachable : bool;
  bb_start_addr : Z;
  bb_else_addr : Z;
  bb_end_addr : Z;
  bb_stack_cell_num : Z
}.

Definition bb_set_reachable (b : BranchBlock) : BranchBlock :=
  mkBlock (bb_block_type b) (bb_return_type b) true (bb_start_addr b) (bb_else_addr b)
    (bb_end_addr b) (bb_stack_cell_num b).
Definition bb_set_addrs (e n : Z) (b : BranchBlock) : BranchBlock :=
  mkBlock (bb_block_type b) (bb_return_type b) (bb_reachable b) (bb_start_addr b) e n
    (bb_stack_cell_num b).

(** What the checks read of [WASMModule] and of the [WASMFunction]; the
    types of imported and defined functions and globals in index order. *)
Record WASMModule := mkModule {
  wm_types : list WASMType;
  wm_import_functions : list WASMType;
  wm_functions : list WASMType;
  wm_import_globals : list Z;
  wm_globals : list Z;
  wm_memory_count : Z;
  wm_import_memory_count : Z;
  wm_table_count : Z;
  wm_import_table_count : Z
}.

Record WASMFunction := mkWASMFunction {
  wf_func_type : WASMType;
  wf_local_types : list Z;
  wf_local_offsets : list Z;
  wf_code : Z;
  wf_code_size : Z
}.

(** [WASMLoaderContext] and the local variables of the walk.  [lc_frame_ref]
    is the whole array, [lc_stack_cell_num] of its cells are in use;
    [lc_frame_csp] holds the open blocks, innermost first, and
    [lc_csp_free] the entries above them in the same array, nearest first;
    [lc_allocs] counts the allocations. *)
Record LoaderState := mkLoader {
  lc_frame_ref : list Z;
  lc_stack_cell_num : Z;
  lc_max_stack_cell_num : Z;
  lc_frame_csp : list BranchBlock;
  lc_csp_free : list BranchBlock;
  lc_max_csp_num : Z;
  lc_p : Z;
  lc_buf : list Z;
  lc_cache : list (BlockAddr * BlockAddr);
  lc_is_i32_const : bool;
  lc_i32_const : Z;
  lc_has_func_call : bool;
  lc_has_memory_grow : bool;
  lc_allocs : nat
}.

Definition lc_set_ref (r : list Z) (n mx : Z) (s : LoaderState) : LoaderState :=
  mkLoader r n mx (lc_frame_csp s) (lc_csp_free s) (lc_max_csp_num s) (lc_p s) (lc_buf s)
    (lc_cache s) (lc_is_i32_const s) (lc_i32_const s) (lc_has_func_call s)
    (lc_has_memory_grow s) (lc_allocs s).
Definition lc_set_csp (l fr : list BranchBlock) (mx : Z) (s : LoaderState) : LoaderState :=
  mkLoader (lc_frame_ref s) (lc_stack_cell_num s) (lc_max_stack_cell_num s) l fr mx (lc_p s)
    (lc_buf s) (lc_cache s) (lc_is_i32_const s) (lc_i32_const s) (lc_has_func_call s)
    (lc_has_memory_grow s) (lc_allocs s).
Definition lc_set_p (p : Z) (s : LoaderState) : LoaderState :=
  mkLoader (lc_frame_ref s) (lc_stack_cell_num s) (lc_max_stack_cell_num s) (lc_frame_csp s)
    (lc_csp_free s) (lc_max_csp_num s) p (lc_buf s) (lc_cache s) (lc_is_i32_const s)
    (lc_i32_const s) (lc_has_func_call s) (lc_has_memory_grow s) (lc_allocs s).
Definition lc_set_buf (b : list Z) (s : LoaderState) : LoaderState :=
  mkLoader (lc_frame_ref s) (lc_stack_cell_num s) (lc_max_stack_cell_num s) (lc_frame_csp s)
    (lc_csp_free s) (lc_max_csp_num s) (lc_p s) b (lc_cache s) (lc_is_i32_const s)
    (lc_i32_const s) (lc_has_func_call s) (lc_has_memory_grow s) (lc_allocs s).
Definition lc_set_cache (c : list (BlockAddr * BlockAddr)) (s : LoaderState) : LoaderState :=
  mkLoader (lc_frame_ref s) (lc_stack_cell_num s) (lc_max_stack_cell_num s) (lc_frame_csp s)
    (lc_csp_free s) (lc_max_csp_num s) (lc_p s) (lc_buf s) c (lc_is_i32_const s)
    (lc_i32_const s) (lc_has_func_call s) (lc_has_memory_grow s) (lc_allocs s).
Definition lc_set_const (b : bool) (v : Z) (s : LoaderState) : LoaderState :=
  mkLoader (lc_frame_ref s) (lc_stack_cell_num s) (lc_max_stack_cell_num s) (lc_frame_csp s)
    (lc_csp_free s) (lc_max_csp_num s) (lc_p s) (lc_buf s) (lc_cache s) b v
    (lc_has_func_call s) (lc_has_memory_grow s) (lc_allocs s).
Definition lc_set_flags (fc mg : bool) (s : LoaderState) : LoaderState :=
  mkLoader (lc_frame_ref s) (lc_stack_cell_num s) (lc_max_stack_cell_num s) (lc_frame_csp s)
    (lc_csp_free s) (lc_max_csp_num s) (lc_p s) (lc_buf s) (lc_cache s) (lc_is_i32_const s)
    (lc_i32_const s) fc mg (lc_allocs s).
Definition lc_set_allocs (n : nat) (s : LoaderState) : LoaderState :=
  mkLoader (lc_frame_ref s) (lc_stack_cell_num s) (lc_max_stack_cell_num s) (lc_frame_csp s)
    (lc_csp_free s) (lc_max_csp_num s) (lc_p s) (lc_buf s) (lc_cache s) (lc_is_i32_const s)
    (lc_i32_const s) (lc_has_func_call s) (lc_has_memory_grow s) n.

(** Whether the [n]-th allocation of the walk, of [size] bytes, succeeds. *)
Class LoaderHeap := {
  heap_grants : nat -> Z -> bool;
  sizeof_BranchBlock : Z;
  sizeof_WASMLoaderContext : Z
}.

(** ** The monad: [goto fail] is [Err] *)

Definition L (A : Type) : Type := LoaderState -> res (A * LoaderState).
Definition lret {A} (a : A) : L A := fun s => Ok (a, s).
Definition lbind {A B} (m : L A) (k : A -> L B) : L B :=
  fun s => match m s with Ok (a, s') => k a s' | Err e => Err e | Undef => Undef end.
Definition fail {A} (e : string) : L A := fun _ => Err e.
Definition lundef {A} : L A := fun _ => Undef.
Definition lget {A} (f : LoaderState -> A) : L A := fun s => Ok (f s, s).
Definition lmod (f : LoaderState -> LoaderState) : L unit := fun s => Ok (tt, f s).

Declare Scope loader_scope.
Delimit Scope loader_scope with loader.
Notation "'llet' x ':=' m 'in' k" := (lbind m (fun x => k))
  (at level 10, x name, m at level 100, k at level 200) : loader_scope.
Notation "'ldo' m 'in' k" := (lbind m (fun _ => k))
  (at level 10, m at level 100, k at level 200) : loader_scope.
#[local] Open Scope loader_scope.

Section Validator.
Context `{LoaderHeap}.
Variable module : WASMModule.
Variable func : WASMFunction.

Definition p_end : Z := wf_code func + wf_code_size func.

(** ** Stacks *)

Definition alloc (size : Z) : L bool :=
  llet n := lget lc_allocs in
  ldo lmod (lc_set_allocs (S n)) in lret (heap_grants n size).

(** [memory_realloc]; without assertions a new size that is not larger
    makes it copy and clear out of bounds. *)
Definition memory_realloc (size_old size_new : Z) : L unit :=
  llet ok := alloc size_new in
  if ok then (if size_old <? size_new then lret tt else lundef)
  else fail "WASM loader prepare bytecode failed: allocate memory failed.".

Definition check_stack_push : L unit :=
  llet r := lget lc_frame_ref in llet n := lget lc_stack_cell_num in
  let size := Z.of_nat (length r) in
  if size <=? n then
    ldo memory_realloc size (u32 (size + 16)) in
    llet mx := lget lc_max_stack_cell_num in
    lmod (lc_set_ref (r ++ replicate 16 0) n mx)
  else lret tt.

(** One cell: [*ctx->frame_ref++ = type] and the counters. *)
Definition push_cell (type : Z) : L unit :=
  ldo check_stack_push in
  llet r := lget lc_frame_ref in llet n := lget lc_stack_cell_num in
  llet mx := lget lc_max_stack_cell_num in
  lmod (lc_set_ref (<[Z.to_nat n := type]> r) (n + 1) (Z.max mx (n + 1))).

Definition wasm_loader_push_frame_ref (type : Z) : L unit :=
  if type =? VALUE_TYPE_VOID then lret tt else
  ldo push_cell type in
  if is_32 type then lret tt else push_cell type.

(** [*(ctx->frame_ref - k)] *)
Definition frame_ref_top (k : Z) : L Z :=
  llet r := lget lc_frame_ref in llet n := lget lc_stack_cell_num in
  if n - k <? 0 then lundef else
  match r !! Z.to_nat (n - k) with Some t => lret t | None => lundef end.

Definition type_mismatch {A} : L A := fail "WASM module load failed: type mismatch".

Definition check_stack_pop (type : Z) : L unit :=
  llet n := lget lc_stack_cell_num in
  if (is_32 type && (n <? 1)) || (is_64 type && (n <? 2)) then
    fail "WASM module load failed: type mismatch: expect data but stack was empty"
  else if is_32 type then
    llet t := frame_ref_top 1 in if t =? type then lret tt else type_mismatch
  else if is_64 type then
    llet t2 := frame_ref_top 2 in
    if negb (t2 =? type) then type_mismatch else
    llet t1 := frame_ref_top 1 in if t1 =? type then lret tt else type_mismatch
  else lret tt.

(** The name of the type is taken from an array of four before the check. *)
Definition wasm_loader_pop_frame_ref (type : Z) : L unit :=
  if type =? VALUE_TYPE_VOID then lret tt else
  if negb (is_32 type || is_64 type) then lundef else
  ldo check_stack_pop type in
  lmod (fun s => lc_set_ref (lc_frame_ref s)
    (lc_stack_cell_num s - (if is_32 type then 1 else 2)) (lc_max_stack_cell_num s) s).

Definition null_block : BranchBlock := mkBlock 0 0 false 0 0 0 0.

(** The entry above the last open block: room for it is made when the array
    is full; it is overwritten. *)
Definition wasm_loader_push_frame_csp (type ret_type start : Z) : L unit :=
  llet l := lget lc_frame_csp in llet fr := lget lc_csp_free in
  llet mx := lget lc_max_csp_num in llet n := lget lc_stack_cell_num in
  let num := Z.of_nat (length l) in
  llet fr :=
    match fr with
    | [] =>
        let size := num * sizeof_BranchBlock in
        ldo memory_realloc size (u32 (size + 8 * sizeof_BranchBlock)) in
        lret (replicate 8 null_block)
    | _ => lret fr
    end in
  lmod (lc_set_csp (mkBlock type ret_type false start 0 0 n :: l) (tail fr) (Z.max mx (num + 1))).

Definition wasm_loader_pop_frame_csp : L BranchBlock :=
  llet l := lget lc_frame_csp in
  match l with
  | [] => fail "WASM module load failed: type mismatch: expect data but block stack was empty"
  | b :: l' =>
      ldo lmod (fun s => lc_set_csp l' (b :: lc_csp_free s) (lc_max_csp_num s) s) in lret b
  end.

(** [*(frame_csp - (depth + 1))], the index computed in 32 bits: for the
    largest [depth] it is the entry above the stack. *)
Definition get_block (depth : Z) : L BranchBlock :=
  llet l := lget lc_frame_csp in llet fr := lget lc_csp_free in
  let k := u32 (depth + 1) in
  match (if k =? 0 then fr !! 0%nat else l !! Z.to_nat (k - 1)) with
  | Some b => lret b
  | None => lundef
  end.
Definition upd_block (depth : Z) (f : BranchBlock -> BranchBlock) : L unit :=
  let k := u32 (depth + 1) in
  lmod (fun s =>
    if k =? 0 then lc_set_csp (lc_frame_csp s) (alter f 0%nat (lc_csp_free s)) (lc_max_csp_num s) s
    else lc_set_csp (alter f (Z.to_nat (k - 1)) (lc_frame_csp s)) (lc_csp_free s)
           (lc_max_csp_num s) s).

(** The top of the stack carries a value of type [t]; no pop. *)
Definition result_on_top (t : Z) : L bool :=
  llet n := lget lc_stack_cell_num in
  if is_32 t then
    if n <? 1 then lret false else llet t1 := frame_ref_top 1 in lret (t1 =? t)
  else if is_64 t then
    if n <? 2 then lret false else
    llet t2 := frame_ref_top 2 in
    if negb (t2 =? t) then lret false else llet t1 := frame_ref_top 1 in lret (t1 =? t)
  else lret true.

Definition wasm_loader_check_br (depth : Z) : L unit :=
  llet l := lget lc_frame_csp in
  if Z.of_nat (length l) <? u32 (depth + 1) then
    fail "WASM module load failed: type mismatch: unexpected end of section or function"
  else
    llet b := get_block depth in
    if bb_block_type b =? BLOCK_TYPE_LOOP then lret tt else
    llet ok := result_on_top (bb_return_type b) in
    if ok then upd_block depth bb_set_reachable
    else fail "WASM module load failed: type mismatch: expect data but stack was empty or other type".

(** ** Reading the code *)

(** The bytes from [a] to [p_end]. *)
Definition code_from (buf : list Z) (a : Z) : list Z :=
  drop (Z.to_nat (a - wf_code func)) (take (Z.to_nat (wf_code_size func)) buf).

Definition read_with (r : list Z -> res (Z * Z)) : L Z := fun s =>
  match r (code_from (lc_buf s) (lc_p s)) with
  | Ok (v, k) => Ok (v, lc_set_p (lc_p s + k) s)
  | Err e => Err e
  | Undef => Undef
  end.
Definition leb_u32 : L Z := read_with (read_leb_uint32 true).
Definition leb_s32 : L Z := read_with (read_leb_int32 true).
Definition leb_s64 : L Z := read_with (read_leb_int64 true).

(** [*p++], not compared with [p_end]. *)
Definition read_byte : L Z := fun s =>
  match lc_buf s !! Z.to_nat (lc_p s - wf_code func) with
  | Some b => Ok (b, lc_set_p (lc_p s + 1) s)
  | None => Undef
  end.
Definition skip_bytes (k : Z) : L unit := lmod (fun s => lc_set_p (lc_p s + k) s).

(** [*q = b] for a [q] inside the function. *)
Definition write_code (q b : Z) : L unit :=
  lmod (fun s => lc_set_buf (<[Z.to_nat (q - wf_code func) := b]> (lc_buf s)) s).

(** [while (q < p) *q++ = WASM_OP_NOP], [n] bytes. *)
Fixpoint fill_nops (n : nat) (q : Z) : L unit :=
  match n with
  | O => lret tt
  | S n' => ldo write_code q (opcode_val WASM_OP_NOP) in fill_nops n' (q + 1)
  end.

(** ** Blocks that cannot be reached *)

(** [else_addr] and [end_addr] of a block from the cache or the scanner;
    the scanner leaves [else_addr] alone when it finds none. *)
Definition find_addrs (b : BranchBlock) : L BranchBlock := fun s =>
  let start := bb_start_addr b in
  let scanned :=
    match wasm_loader_find_block_addr (lc_cache s) true start (code_from (lc_buf s) start)
            (bb_block_type b) with
    | Ok (e, n, cache) =>
        Ok (bb_set_addrs (if e =? 0 then bb_else_addr b else e) n b, lc_set_cache cache s)
    | Err e => Err e
    | Undef => Undef
    end in
  match lc_cache s !! cache_line start with
  | None => Undef
  | Some (c0, c1) =>
      if BlockAddr.start_addr c0 =? start then Ok (bb_set_addrs (BlockAddr.else_addr c0) (BlockAddr.end_addr c0) b, s)
      else if BlockAddr.start_addr c1 =? start then Ok (bb_set_addrs (BlockAddr.else_addr c1) (BlockAddr.end_addr c1) b, s)
      else scanned
  end.

(** Number of blocks inside the innermost reachable one. *)
Fixpoint unreachable_blocks (l : list BranchBlock) : nat :=
  match l with
  | [] => 0
  | b :: l' => if bb_reachable b then 0 else S (unreachable_blocks l')
  end.

Definition set_stack_cell_num (n : Z) : L unit :=
  lmod (fun s => lc_set_ref (lc_frame_ref s) n (lc_max_stack_cell_num s) s).
(** [frame_csp -= k], the entries stay in the array. *)
Definition set_frame_csp_top (b : BranchBlock) (k : nat) : L unit :=
  lmod (fun s => lc_set_csp (b :: drop (S k) (lc_frame_csp s))
    ((rev (take k (lc_frame_csp s)) ++ lc_csp_free s)%list) (lc_max_csp_num s) s).

Definition handle_next_reachable_block : L unit :=
  llet l := lget lc_frame_csp in
  let k := unreachable_blocks l in
  match l !! k with
  | None => lundef
  | Some b =>
      llet b := find_addrs b in
      ldo set_stack_cell_num (bb_stack_cell_num b) in
      ldo set_frame_csp_top b k in
      llet p := lget lc_p in
      if (bb_block_type b =? BLOCK_TYPE_IF) && negb (bb_else_addr b =? 0)
         && (p <=? bb_else_addr b) then
        lmod (lc_set_p (bb_else_addr b + 1))
      else
        ldo lmod (lc_set_p (bb_end_addr b)) in
        wasm_loader_push_frame_ref (bb_return_type b)
  end.

(** ** Instructions *)

Definition pop_all (l : list Z) : L unit :=
  foldr (fun t k => ldo wasm_loader_pop_frame_ref t in k) (lret tt) l.
Definition push_all (l : list Z) : L unit :=
  foldr (fun t k => ldo wasm_loader_push_frame_ref t in k) (lret tt) l.

(** [is_i32_const] is cleared by every opcode but [WASM_OP_I32_CONST]. *)
Definition clear_const : L unit := lmod (fun s => lc_set_const false (lc_i32_const s) s).

Definition op_open_block (type : Z) : L unit :=
  llet ret := read_byte in llet p := lget lc_p in wasm_loader_push_frame_csp type ret p.

(** A constant condition of an [if] decides which branch is checked. *)
Definition op_if_checked : L unit :=
  ldo wasm_loader_pop_frame_ref VALUE_TYPE_I32 in
  ldo op_open_block BLOCK_TYPE_IF in
  llet is_const := lget lc_is_i32_const in llet v := lget lc_i32_const in
  if negb is_const then upd_block 0 bb_set_reachable
  else if negb (v =? 0) then lret tt
  else
    llet b := get_block 0 in
    llet b := find_addrs b in
    ldo upd_block 0 (fun _ => b) in
    if negb (bb_else_addr b =? 0) then lmod (lc_set_p (bb_else_addr b + 1))
    else lmod (lc_set_p (bb_end_addr b)).

Definition op_else_checked : L unit :=
  llet l := lget lc_frame_csp in
  match l with
  | b :: _ :: _ =>
      if bb_block_type b =? BLOCK_TYPE_IF then
        llet p := lget lc_p in
        ldo upd_block 0 (fun b => bb_set_addrs (p - 1) (bb_end_addr b) b) in
        set_stack_cell_num (bb_stack_cell_num b)
      else fail "WASM loader prepare bytecode failed: opcode else found without matched opcode if"
  | _ => fail "WASM loader prepare bytecode failed: opcode else found without matched opcode if"
  end.

(** The entry popped is still written to. *)
Definition op_end_checked : L unit :=
  llet b := wasm_loader_pop_frame_csp in
  ldo wasm_loader_pop_frame_ref (bb_return_type b) in
  ldo wasm_loader_push_frame_ref (bb_return_type b) in
  llet l := lget lc_frame_csp in llet p := lget lc_p in
  match l with
  | [] => lmod (lc_set_p p_end)
  | _ => lmod (fun s => lc_set_csp (lc_frame_csp s)
           (alter (fun b => bb_set_addrs (bb_else_addr b) (p - 1) b) 0%nat (lc_csp_free s))
           (lc_max_csp_num s) s)
  end.

Definition op_br_checked : L unit :=
  llet depth := leb_u32 in
  ldo wasm_loader_check_br depth in handle_next_reachable_block.

Definition op_br_if_checked : L unit :=
  llet depth := leb_u32 in
  ldo wasm_loader_pop_frame_ref VALUE_TYPE_I32 in
  ldo wasm_loader_check_br depth in
  llet is_const := lget lc_is_i32_const in llet v := lget lc_i32_const in
  if negb is_const then upd_block depth bb_set_reachable
  else if v =? 0 then lret tt else handle_next_reachable_block.

(** [for (i = 0; i <= count; i++)]: every label takes a byte of the code. *)
Fixpoint check_labels (fuel : nat) (i count : Z) : L unit :=
  if count <? i then lret tt else
  match fuel with
  | O => lundef
  | S f =>
      llet depth := leb_u32 in
      ldo wasm_loader_check_br depth in check_labels f (i + 1) count
  end.

Definition op_br_table_checked : L unit :=
  llet count := leb_u32 in
  ldo wasm_loader_pop_frame_ref VALUE_TYPE_I32 in
  ldo check_labels (S (Z.to_nat (wf_code_size func))) 0 count in
  handle_next_reachable_block.

(** [VALUE_TYPE_VOID] for a type without result; a type list that is too
    short is read out of bounds. *)
Definition result_type (t : WASMType) : L Z :=
  if (ty_result_count t =? 0)%nat then lret VALUE_TYPE_VOID
  else match ty_types t !! ty_param_count t with Some r => lret r | None => lundef end.
Definition call_type (t : WASMType) : L unit :=
  if (length (ty_types t) <? ty_param_count t)%nat then lundef else
  ldo pop_all (rev (take (ty_param_count t) (ty_types t))) in
  llet r := result_type t in
  ldo wasm_loader_push_frame_ref r in
  lmod (fun s => lc_set_flags true (lc_has_memory_grow s) s).

Definition op_return_checked : L unit :=
  llet r := result_type (wf_func_type func) in
  ldo wasm_loader_pop_frame_ref r in
  ldo wasm_loader_push_frame_ref r in
  ldo clear_const in handle_next_reachable_block.

Definition op_call_checked : L unit :=
  llet idx := leb_u32 in
  match (wm_import_functions module ++ wm_functions module)%list !! Z.to_nat idx with
  | None => fail "WASM loader prepare bytecode failed: function index out of range"
  | Some t => call_type t
  end.

Definition op_call_indirect_checked : L unit :=
  if (wm_table_count module =? 0) && (wm_import_table_count module =? 0) then
    fail "WASM loader prepare bytecode failed: call indirect without default table" else
  llet idx := leb_u32 in
  llet zero := read_byte in
  if negb (zero =? 0) then fail "WASM loader prepare bytecode failed: zero flag expected" else
  ldo wasm_loader_pop_frame_ref VALUE_TYPE_I32 in
  match wm_types module !! Z.to_nat idx with
  | None => fail "WASM loader prepare bytecode failed: function index out of range"
  | Some t => call_type t
  end.

Definition op_drop_checked : L unit :=
  llet n := lget lc_stack_cell_num in
  if n <=? 0 then fail "WASM loader prepare bytecode failed: opcode drop was found but stack was empty"
  else
    llet t := frame_ref_top 1 in
    if is_32 t then set_stack_cell_num (n - 1)
    else if n <=? 1 then
      fail "WASM loader prepare bytecode failed: opcode drop was found but stack was empty"
    else
      ldo set_stack_cell_num (n - 2) in
      llet p := lget lc_p in write_code (p - 1) (opcode_val WASM_OP_DROP_64).

Definition op_select_checked : L unit :=
  ldo wasm_loader_pop_frame_ref VALUE_TYPE_I32 in
  llet n := lget lc_stack_cell_num in
  if n <=? 0 then fail "WASM loader prepare bytecode failed: opcode select was found but stack was empty"
  else
    llet t := frame_ref_top 1 in
    llet p := lget lc_p in
    ldo (if is_64 t then write_code (p - 1) (opcode_val WASM_OP_SELECT_64) else lret tt) in
    ldo wasm_loader_pop_frame_ref t in
    ldo wasm_loader_pop_frame_ref t in
    wasm_loader_push_frame_ref t.

(** [GET_LOCAL_INDEX_TYPE_AND_OFFSET] *)
Definition local_index_type_and_offset : L (Z * Z) :=
  llet idx := leb_u32 in
  let ft := wf_func_type func in
  let all := (take (ty_param_count ft) (ty_types ft) ++ wf_local_types func)%list in
  match all !! Z.to_nat idx, wf_local_offsets func !! Z.to_nat idx with
  | Some t, Some o => lret (t, o)
  | None, _ => fail "WASM module load failed: local index out of range"
  | Some _, None => lundef
  end.

(** The access becomes a two-byte one padded with [nop]s when the offset
    fits in seven bits. *)
Definition rewrite_local (p_org : Z) (ext : WASMOpcode) (t offset : Z) : L unit :=
  if offset <? 0x80 then
    llet p := lget lc_p in
    ldo write_code p_org (opcode_val ext) in
    ldo write_code (p_org + 1) (if is_32 t then u8 offset else u8 (Z.lor offset 0x80)) in
    fill_nops (Z.to_nat (p - (p_org + 2))) (p_org + 2)
  else lret tt.

Definition op_local_checked (ext : WASMOpcode) (pop push : bool) : L unit :=
  llet p := lget lc_p in
  llet to := local_index_type_and_offset in
  let '(t, offset) := to in
  ldo (if pop then wasm_loader_pop_frame_ref t else lret tt) in
  ldo (if push then wasm_loader_push_frame_ref t else lret tt) in
  rewrite_local (p - 1) ext t offset.

Definition global_type : L Z :=
  llet idx := leb_u32 in
  match (wm_import_globals module ++ wm_globals module)%list !! Z.to_nat idx with
  | None => fail "WASM loader prepare bytecode failed: global index out of range"
  | Some t => lret t
  end.

Definition check_memory : L unit :=
  if (wm_memory_count module =? 0) && (wm_import_memory_count module =? 0)
  then fail "WASM module load failed: load or store in module without default memory"
  else lret tt.

(** Types popped, in this order, and pushed by the loads and stores. *)
Definition memory_sig (op : WASMOpcode) : option (list Z * list Z) :=
  match op with
  | WASM_OP_I32_LOAD | WASM_OP_I32_LOAD8_S | WASM_OP_I32_LOAD8_U
  | WASM_OP_I32_LOAD16_S | WASM_OP_I32_LOAD16_U => Some ([VALUE_TYPE_I32], [VALUE_TYPE_I32])
  | WASM_OP_I64_LOAD | WASM_OP_I64_LOAD8_S | WASM_OP_I64_LOAD8_U
  | WASM_OP_I64_LOAD16_S | WASM_OP_I64_LOAD16_U
  | WASM_OP_I64_LOAD32_S | WASM_OP_I64_LOAD32_U => Some ([VALUE_TYPE_I32], [VALUE_TYPE_I64])
  | WASM_OP_F32_LOAD => Some ([VALUE_TYPE_I32], [VALUE_TYPE_F32])
  | WASM_OP_F64_LOAD => Some ([VALUE_TYPE_I32], [VALUE_TYPE_F64])
  | WASM_OP_I32_STORE | WASM_OP_I32_STORE8 | WASM_OP_I32_STORE16 =>
      Some ([VALUE_TYPE_I32; VALUE_TYPE_I32], [])
  | WASM_OP_I64_STORE | WASM_OP_I64_STORE8 | WASM_OP_I64_STORE16 | WASM_OP_I64_STORE32 =>
      Some ([VALUE_TYPE_I64; VALUE_TYPE_I32], [])
  | WASM_OP_F32_STORE => Some ([VALUE_TYPE_F32; VALUE_TYPE_I32], [])
  | WASM_OP_F64_STORE => Some ([VALUE_TYPE_F64; VALUE_TYPE_I32], [])
  | _ => None
  end.

Definition op_memory_access (pops pushes : list Z) : L unit :=
  ldo check_memory in
  llet align := leb_u32 in llet mem_offset := leb_u32 in
  ldo pop_all pops in push_all pushes.

Definition op_memory_size_grow (grow : bool) : L unit :=
  ldo check_memory in
  llet zero := read_byte in
  if negb (zero =? 0) then fail "WASM loader prepare bytecode failed: zero flag expected" else
  ldo (if grow then wasm_loader_pop_frame_ref VALUE_TYPE_I32 else lret tt) in
  ldo wasm_loader_push_frame_ref VALUE_TYPE_I32 in
  if grow then lmod (fun s => lc_set_flags (lc_has_func_call s) true s) else lret tt.

(** Types popped and pushed by the numeric opcodes, in the order of the
    source. *)
Definition numeric_sig (op : WASMOpcode) : option (list Z * Z) :=
  match op with
  | WASM_OP_I32_EQZ => Some ([VALUE_TYPE_I32], VALUE_TYPE_I32)
  | WASM_OP_I32_EQ | WASM_OP_I32_NE | WASM_OP_I32_LT_S | WASM_OP_I32_LT_U
  | WASM_OP_I32_GT_S | WASM_OP_I32_GT_U | WASM_OP_I32_LE_S | WASM_OP_I32_LE_U
  | WASM_OP_I32_GE_S | WASM_OP_I32_GE_U => Some ([VALUE_TYPE_I32; VALUE_TYPE_I32], VALUE_TYPE_I32)
  | WASM_OP_I64_EQZ => Some ([VALUE_TYPE_I64], VALUE_TYPE_I32)
  | WASM_OP_I64_EQ | WASM_OP_I64_NE | WASM_OP_I64_LT_S | WASM_OP_I64_LT_U
  | WASM_OP_I64_GT_S | WASM_OP_I64_GT_U | WASM_OP_I64_LE_S | WASM_OP_I64_LE_U
  | WASM_OP_I64_GE_S | WASM_OP_I64_GE_U => Some ([VALUE_TYPE_I64; VALUE_TYPE_I64], VALUE_TYPE_I32)
  | WASM_OP_F32_EQ | WASM_OP_F32_NE | WASM_OP_F32_LT | WASM_OP_F32_GT
  | WASM_OP_F32_LE | WASM_OP_F32_GE => Some ([VALUE_TYPE_F32; VALUE_TYPE_F32], VALUE_TYPE_I32)
  | WASM_OP_F64_EQ | WASM_OP_F64_NE | WASM_OP_F64_LT | WASM_OP_F64_GT
  | WASM_OP_F64_LE | WASM_OP_F64_GE => Some ([VALUE_TYPE_F64; VALUE_TYPE_F64], VALUE_TYPE_I32)
  | WASM_OP_I32_CLZ | WASM_OP_I32_CTZ | WASM_OP_I32_POPCNT => Some ([VALUE_TYPE_I32], VALUE_TYPE_I32)
  | WASM_OP_I32_ADD | WASM_OP_I32_SUB | WASM_OP_I32_MUL | WASM_OP_I32_DIV_S
  | WASM_OP_I32_DIV_U | WASM_OP_I32_REM_S | WASM_OP_I32_REM_U | WASM_OP_I32_AND
  | WASM_OP_I32_OR | WASM_OP_I32_XOR | WASM_OP_I32_SHL | WASM_OP_I32_SHR_S
  | WASM_OP_I32_SHR_U | WASM_OP_I32_ROTL | WASM_OP_I32_ROTR =>
      Some ([VALUE_TYPE_I32; VALUE_TYPE_I32], VALUE_TYPE_I32)
  | WASM_OP_I64_CLZ | WASM_OP_I64_CTZ | WASM_OP_I64_POPCNT => Some ([VALUE_TYPE_I64], VALUE_TYPE_I64)
  | WASM_OP_I64_ADD | WASM_OP_I64_SUB | WASM_OP_I64_MUL | WASM_OP_I64_DIV_S
  | WASM_OP_I64_DIV_U | WASM_OP_I64_REM_S | WASM_OP_I64_REM_U | WASM_OP_I64_AND
  | WASM_OP_I64_OR | WASM_OP_I64_XOR | WASM_OP_I64_SHL | WASM_OP_I64_SHR_S
  | WASM_OP_I64_SHR_U | WASM_OP_I64_ROTL | WASM_OP_I64_ROTR =>
      Some ([VALUE_TYPE_I64; VALUE_TYPE_I64], VALUE_TYPE_I64)
  | WASM_OP_F32_ABS | WASM_OP_F32_NEG | WASM_OP_F32_CEIL | WASM_OP_F32_FLOOR
  | WASM_OP_F32_TRUNC | WASM_OP_F32_NEAREST | WASM_OP_F32_SQRT => Some ([VALUE_TYPE_F32], VALUE_TYPE_F32)
  | WASM_OP_F32_ADD | WASM_OP_F32_SUB | WASM_OP_F32_MUL | WASM_OP_F32_DIV
  | WASM_OP_F32_MIN | WASM_OP_F32_MAX | WASM_OP_F32_COPYSIGN =>
      Some ([VALUE_TYPE_F32; VALUE_TYPE_F32], VALUE_TYPE_F32)
  | WASM_OP_F64_ABS | WASM_OP_F64_NEG | WASM_OP_F64_CEIL | WASM_OP_F64_FLOOR
  | WASM_OP_F64_TRUNC | WASM_OP_F64_NEAREST | WASM_OP_F64_SQRT => Some ([VALUE_TYPE_F64], VALUE_TYPE_F64)
  | WASM_OP_F64_ADD | WASM_OP_F64_SUB | WASM_OP_F64_MUL | WASM_OP_F64_DIV
  | WASM_OP_F64_MIN | WASM_OP_F64_MAX | WASM_OP_F64_COPYSIGN =>
      Some ([VALUE_TYPE_F64; VALUE_TYPE_F64], VALUE_TYPE_F64)
  | WASM_OP_I32_WRAP_I64 => Some ([VALUE_TYPE_I64], VALUE_TYPE_I32)
  | WASM_OP_I32_TRUNC_S_F32 | WASM_OP_I32_TRUNC_U_F32 => Some ([VALUE_TYPE_F32], VALUE_TYPE_I32)
  | WASM_OP_I32_TRUNC_S_F64 | WASM_OP_I32_TRUNC_U_F64 => Some ([VALUE_TYPE_F64], VALUE_TYPE_I32)
  | WASM_OP_I64_EXTEND_S_I32 | WASM_OP_I64_EXTEND_U_I32 => Some ([VALUE_TYPE_I32], VALUE_TYPE_I64)
  | WASM_OP_I64_TRUNC_S_F32 | WASM_OP_I64_TRUNC_U_F32 => Some ([VALUE_TYPE_F32], VALUE_TYPE_I64)
  | WASM_OP_I64_TRUNC_S_F64 | WASM_OP_I64_TRUNC_U_F64 => Some ([VALUE_TYPE_F64], VALUE_TYPE_I64)
  | WASM_OP_F32_CONVERT_S_I32 | WASM_OP_F32_CONVERT_U_I32 => Some ([VALUE_TYPE_I32], VALUE_TYPE_F32)
  | WASM_OP_F32_CONVERT_S_I64 | WASM_OP_F32_CONVERT_U_I64 => Some ([VALUE_TYPE_I64], VALUE_TYPE_F32)
  | WASM_OP_F32_DEMOTE_F64 => Some ([VALUE_TYPE_F64], VALUE_TYPE_F32)
  | WASM_OP_F64_CONVERT_S_I32 | WASM_OP_F64_CONVERT_U_I32 => Some ([VALUE_TYPE_I32], VALUE_TYPE_F64)
  | WASM_OP_F64_CONVERT_S_I64 | WASM_OP_F64_CONVERT_U_I64 => Some ([VALUE_TYPE_I64], VALUE_TYPE_F64)
  | WASM_OP_F64_PROMOTE_F32 => Some ([VALUE_TYPE_F32], VALUE_TYPE_F64)
  | WASM_OP_I32_REINTERPRET_F32 => Some ([VALUE_TYPE_F32], VALUE_TYPE_I32)
  | WASM_OP_I64_REINTERPRET_F64 => Some ([VALUE_TYPE_F64], VALUE_TYPE_I64)
  | WASM_OP_F32_REINTERPRET_I32 => Some ([VALUE_TYPE_I32], VALUE_TYPE_F32)
  | WASM_OP_F64_REINTERPRET_I64 => Some ([VALUE_TYPE_I64], VALUE_TYPE_F64)
  | _ => None
  end.

Definition invalid_opcode {A} : L A := fail "WASM module load failed: invalid opcode".

(** The [switch]: the cursor is behind the opcode. *)
Definition check_op (op : WASMOpcode) : L unit :=
  match op with
  | WASM_OP_UNREACHABLE => handle_next_reachable_block
  | WASM_OP_NOP => lret tt
  | WASM_OP_BLOCK => op_open_block BLOCK_TYPE_BLOCK
  | WASM_OP_LOOP => op_open_block BLOCK_TYPE_LOOP
  | WASM_OP_IF => op_if_checked
  | WASM_OP_ELSE => op_else_checked
  | WASM_OP_END => op_end_checked
  | WASM_OP_BR => op_br_checked
  | WASM_OP_BR_IF => op_br_if_checked
  | WASM_OP_BR_TABLE => op_br_table_checked
  | WASM_OP_RETURN => op_return_checked
  | WASM_OP_CALL => op_call_checked
  | WASM_OP_CALL_INDIRECT => op_call_indirect_checked
  | WASM_OP_DROP | WASM_OP_DROP_64 => op_drop_checked
  | WASM_OP_SELECT | WASM_OP_SELECT_64 => op_select_checked
  | WASM_OP_GET_LOCAL => op_local_checked EXT_OP_GET_LOCAL_FAST false true
  | WASM_OP_SET_LOCAL => op_local_checked EXT_OP_SET_LOCAL_FAST true false
  | WASM_OP_TEE_LOCAL => op_local_checked EXT_OP_TEE_LOCAL_FAST true true
  | WASM_OP_GET_GLOBAL => llet t := global_type in wasm_loader_push_frame_ref t
  | WASM_OP_SET_GLOBAL => llet t := global_type in wasm_loader_pop_frame_ref t
  | WASM_OP_MEMORY_SIZE => op_memory_size_grow false
  | WASM_OP_MEMORY_GROW => op_memory_size_grow true
  | WASM_OP_I32_CONST =>
      llet v := leb_s32 in
      ldo lmod (lc_set_const true v) in wasm_loader_push_frame_ref VALUE_TYPE_I32
  | WASM_OP_I64_CONST => llet v := leb_s64 in wasm_loader_push_frame_ref VALUE_TYPE_I64
  | WASM_OP_F32_CONST => ldo skip_bytes 4 in wasm_loader_push_frame_ref VALUE_TYPE_F32
  | WASM_OP_F64_CONST => ldo skip_bytes 8 in wasm_loader_push_frame_ref VALUE_TYPE_F64
  | _ =>
      match memory_sig op, numeric_sig op with
      | Some (pops, pushes), _ => op_memory_access pops pushes
      | None, Some (pops, push) => ldo pop_all pops in wasm_loader_push_frame_ref push
      | None, None => invalid_opcode
      end
  end.

Definition check_step : L unit :=
  llet opcode := read_byte in
  match handle_table !! Z.to_nat opcode with
  | None => invalid_opcode
  | Some op =>
      ldo check_op op in
      if bool_decide (op = WASM_OP_I32_CONST) then lret tt else clear_const
  end.

(** [while (p < p_end)], at most [fuel] iterations; [false] when they do
    not reach the end. *)
Fixpoint check_loop (fuel : nat) : L bool :=
  llet p := lget lc_p in
  if p_end <=? p then lret true else
  match fuel with
  | O => lret false
  | S f => ldo check_step in check_loop f
  end.

(** [wasm_loader_ctx_init] *)
Definition wasm_loader_ctx_init (buf : list Z) : LoaderState :=
  mkLoader (replicate 32 0) 0 0 [] (replicate 8 null_block) 0 (wf_code func) buf
    (replicate 64 (null_block_addr, null_block_addr)) false 0 false false 0.

(** What a function gains by being prepared. *)
Record Prepared := mkPrepared {
  pr_max_stack_cell_num : Z;
  pr_max_block_num : Z;
  pr_has_op_func_call : bool;
  pr_has_op_memory_grow : bool;
  pr_buf : list Z
}.

(** The whole function on the bytes [buf] from [func->code] on, with the
    empty cache its caller passes; [Ok None] when [fuel] is too small. *)
Definition wasm_loader_prepare_bytecode (fuel : nat) (buf : list Z) : res (option Prepared) :=
  let run : L (option Prepared) :=
    llet ok := alloc sizeof_WASMLoaderContext in
    llet ok2 := (if (ok : bool) then alloc 32 else lret false) in
    llet ok3 := (if (ok2 : bool) then alloc (8 * sizeof_BranchBlock) else lret false) in
    if negb ok3 then fail "WASM loader prepare bytecode failed: allocate memory failed" else
    llet ret := result_type (wf_func_type func) in
    ldo wasm_loader_push_frame_csp BLOCK_TYPE_FUNCTION ret (wf_code func) in
    ldo upd_block 0 bb_set_reachable in
    llet done := check_loop fuel in
    if negb done then lret None else
    llet l := lget lc_frame_csp in
    match l with
    | _ :: _ => fail "WASM module load failed: function body must end with END opcode."
    | [] => fun s => Ok (Some (mkPrepared (lc_max_stack_cell_num s) (lc_max_csp_num s)
                          (lc_has_func_call s) (lc_has_memory_grow s) (lc_buf s)), s)
    end in
  match run (wasm_loader_ctx_init buf) with
  | Ok (r, _) => Ok r
  | Err e => Err e
  | Undef => Undef
  end.

End Validator.

Arguments wasm_loader_prepare_bytecode {_} module func fuel buf.

(** ** A concrete loader

    A heap that grants every allocation, a module of functions without
    parameters that return an [i32] and have one local, and the function
    instance that results from preparing a body at an address. *)

Definition sample_heap : LoaderHeap := {|
  heap_grants := fun _ _ => true;
  sizeof_BranchBlock := 40;
  sizeof_WASMLoaderContext := 64
|}.
Definition sample_type : WASMType := mkType 0 1 [VALUE_TYPE_I32].
Definition sample_wasm_module : WASMModule :=
  mkModule [sample_type] [] [sample_type; sample_type] [] [] 1 0 0 0.
Definition sample_wasm_function (start : Z) (body : list Z) : WASMFunction :=
  mkWASMFunction sample_type [VALUE_TYPE_I32] [0] start (Z.of_nat (length body)).
Definition sample_prepare (start : Z) (body : list Z) : res (option Prepared) :=
  @wasm_loader_prepare_bytecode sample_heap sample_wasm_module (sample_wasm_function start body)
    (length body) body.
Definition sample_prepared (start : Z) (body : list Z) : Prepared :=
  match sample_prepare start body with
  | Ok (Some p) => p
  | _ => mkPrepared 0 0 false false []
  end.
Definition sample_function_instance (start : Z) (body : list Z) : WASMFunctionInstance :=
  let p := sample_prepared start body in
  mkFunction false 0 1 0 1 1 [0] [VALUE_TYPE_I32] [VALUE_TYPE_I32] sample_type start
    (Z.of_nat (length body)) (pr_max_stack_cell_num p) (pr_max_block_num p) true.
