(* ===== verification/Walk.v ===== *)
(** * Instruction boundaries

    Which positions of a function body start an instruction, and how deep
    blocks nest there - the common ground of the block address scanner and
    the validator of [core/iwasm/interpreter/wasm_loader.c].  Nothing is
    assumed of the body: the scanner's results are described for every byte
    string it accepts, and the description survives the in-place rewriting
    of instructions. *)

From S2P Require Import Prelude Leb Opcode BlockAddr.
#[local] Open Scope Z_scope.

(** ** One instruction

    Length and effect on the nesting depth of the instruction [l] starts
    with, as the scanner skips it. *)

Definition instr (l : list Z) : option (nat * Z) :=
  match l with
  | [] => None
  | b :: r =>
      op ← handle_table !! Z.to_nat b;
      match op with
      | WASM_OP_BLOCK | WASM_OP_LOOP | WASM_OP_IF =>
          if bool_decide (1 <= length r)%nat then Some (2%nat, 1) else None
      | WASM_OP_ELSE => Some (1%nat, 0)
      | WASM_OP_END => Some (1%nat, -1)
      | _ => match imm_of op with
             | ImmInvalid => None
             | kind => match skip_imm true kind r with
                       | Ok k => Some (S (Z.to_nat k), 0)
                       | _ => None
                       end
             end
      end
  end.

(** [path c x d]: an instruction of [c] starts at [x], at depth [d]. *)
Inductive path (c : list Z) : nat -> Z -> Prop :=
| path_start : path c 0 0
| path_next x d n e : path c x d -> instr (drop x c) = Some (n, e) -> path c (x + n) (d + e).

(** ** Readers depend on the bytes they consume *)

Lemma skip_leb_local chk l l' mb c k :
  skip_leb chk l mb c = Ok k -> c <= k /\
  (length l' = length l -> take (Z.to_nat (k - c)) l' = take (Z.to_nat (k - c)) l ->
   skip_leb chk l' mb c = Ok k).
Proof.
  revert l' c. induction l as [|b l IH]; intros l' c; cbn [skip_leb].
  - destruct (_ <? _); [done|]. by destruct chk.
  - destruct (Z.ltb_spec (max_leb_bytes mb) (c + 1)) as [|Hmb]; [done|].
    destruct (Z.land b 0x80 =? 0) eqn:Eb.
    + intros E. simplify_eq. split; [lia|]. intros Hl Ht.
      destruct l' as [|b' l']; [done|]. replace (c + 1 - c) with 1 in Ht by lia.
      cbn in Ht. simplify_eq. cbn [skip_leb]. rewrite (proj2 (Z.ltb_ge _ _)) by lia. by rewrite Eb.
    + intros E. destruct (IH (tail l') _ E) as [Hk Hloc]. split; [lia|]. intros Hl Ht.
      destruct l' as [|b' l']; [done|].
      replace (Z.to_nat (k - c)) with (S (Z.to_nat (k - (c + 1)))) in Ht by lia.
      cbn in Ht. simplify_eq. cbn [skip_leb]. rewrite (proj2 (Z.ltb_ge _ _)) by lia.
      rewrite Eb. apply Hloc; [simpl in *; lia|done].
Qed.

Lemma leb_loop_local chk l l' mb r sh c v :
  leb_loop chk l mb r sh c = Ok v -> let k := v.2 in
  c < k /\ skip_leb chk l mb c = Ok k /\
  (length l' = length l -> take (Z.to_nat (k - c)) l' = take (Z.to_nat (k - c)) l ->
   leb_loop chk l' mb r sh c = Ok v).
Proof.
  revert l' r sh c. induction l as [|b l IH]; intros l' r sh c; cbn [leb_loop skip_leb].
  - destruct (_ <? _); [done|]. by destruct chk.
  - destruct (Z.ltb_spec (max_leb_bytes mb) (c + 1)) as [|Hmb]; [done|].
    destruct (Z.land b 0x80 =? 0) eqn:Eb.
    + intros E. simplify_eq. cbn. split; [lia|]. split; [done|]. intros Hl Ht.
      destruct l' as [|b' l']; [done|]. replace (c + 1 - c) with 1 in Ht by lia.
      cbn in Ht. simplify_eq. cbn [leb_loop]. rewrite (proj2 (Z.ltb_ge _ _)) by lia. by rewrite Eb.
    + intros E. destruct (IH (tail l') _ _ _ E) as (Hk & Hs & Hloc). cbn zeta in *.
      split; [lia|]. split; [done|]. intros Hl Ht.
      destruct l' as [|b' l']; [done|].
      replace (Z.to_nat (v.2 - c)) with (S (Z.to_nat (v.2 - (c + 1)))) in Ht by lia.
      cbn in Ht. simplify_eq. cbn [leb_loop]. rewrite (proj2 (Z.ltb_ge _ _)) by lia.
      rewrite Eb. apply Hloc; [simpl in *; lia|done].
Qed.

(** A reader that returns [(v, k)] consumed [k] bytes, those the skipper
    would skip, and looked at no other. *)
Definition reader_ok (mb : Z) (r : list Z -> res (Z * Z)) : Prop :=
  forall l v k, r l = Ok (v, k) ->
    1 <= k /\ skip_leb true l mb 0 = Ok k /\
    (forall l', length l' = length l -> take (Z.to_nat k) l' = take (Z.to_nat k) l -> r l' = Ok (v, k)).

Lemma read_leb_offset chk l mb sign v :
  read_leb chk l mb sign = Ok v ->
  exists t, leb_loop chk l mb 0 0 0 = Ok t /\ t.2 = v.2 /\
    forall l', leb_loop chk l' mb 0 0 0 = Ok t -> read_leb chk l' mb sign = Ok v.
Proof.
  unfold read_leb. intros E. apply res_bind_ok in E as ([[[byte r] sh] off] & El & E).
  exists (byte, r, sh, off). split; [done|]. split; [|intros l' ->; done].
  cbn in E |- *. unfold integer_too_large in E.
  repeat match type of E with (if ?b then _ else _) = _ => destruct b end; by simplify_eq.
Qed.

Lemma read_leb_fast_ok mb sign fast conv :
  1 <= max_leb_bytes mb ->
  reader_ok mb (read_leb_fast fast conv (fun p => read_leb true p mb sign)).
Proof.
  intros Hmb l v k. unfold read_leb_fast.
  assert (Hslow : forall l, (rlet '(r, off) := read_leb true l mb sign in Ok (conv r, off)) = Ok (v, k) ->
    1 <= k /\ skip_leb true l mb 0 = Ok k /\
    (forall l', length l' = length l -> take (Z.to_nat k) l' = take (Z.to_nat k) l ->
     (rlet '(r, off) := read_leb true l' mb sign in Ok (conv r, off)) = Ok (v, k))).
  { intros m E. apply res_bind_ok in E as ([r off] & E & Eq). injection Eq as E1 E2. subst off.
    apply read_leb_offset in E as (t & Et & Ht & Hl). cbn in Ht.
    pose proof (leb_loop_local true m m mb 0 0 0 t Et) as (Hk & Hs & _). cbn zeta in *.
    rewrite Ht in Hk, Hs. split; [lia|]. split; [done|]. intros l' Hlen Htk.
    rewrite (Hl l'); [by rewrite <- E1|].
    apply (leb_loop_local true m l' mb 0 0 0 t Et); [done|]. rewrite Ht.
    by replace (k - 0) with k by lia. }
  destruct l as [|b l].
  { intros E. destruct (Hslow _ E) as (H1 & H2 & H3). split; [done|]. split; [done|].
    intros l' Hlen Ht. destruct l'; [by apply H3|done]. }
  destruct (Z.land b 0x80 =? 0) eqn:Eb.
  - intros E. simplify_eq. split; [lia|]. cbn [skip_leb].
    rewrite (proj2 (Z.ltb_ge _ _)), Eb by lia. split; [done|]. intros l' Hlen Ht.
    destruct l' as [|b' l']; [done|]. cbn in Ht. simplify_eq. by rewrite Eb.
  - intros E. destruct (Hslow _ E) as (H1 & H2 & H3). split; [done|]. split; [done|].
    intros l' Hlen Ht. destruct l' as [|b' l']; [done|].
    assert (b' = b) as -> by (destruct (Z.to_nat k) eqn:?; [lia|]; cbn in Ht; congruence).
    rewrite Eb. by apply H3.
Qed.

Lemma read_u32_ok : reader_ok 32 (read_leb_uint32 true).
Proof. by apply read_leb_fast_ok. Qed.
Lemma read_s32_ok : reader_ok 32 (read_leb_int32 true).
Proof. by apply read_leb_fast_ok. Qed.
Lemma read_s64_ok : reader_ok 64 (read_leb_int64 true).
Proof. by apply read_leb_fast_ok. Qed.

(** A skipper of immediates that returns [k] looked at [k - acc] bytes. *)
Definition local_at (l : list Z) (n : Z) (P : list Z -> Prop) : Prop :=
  forall l', length l' = length l -> take (Z.to_nat n) l' = take (Z.to_nat n) l -> P l'.

Lemma take_le_eq {A} (n m : nat) (l l' : list A) :
  (n <= m)%nat -> take m l' = take m l -> take n l' = take n l.
Proof. intros Hn E. apply (f_equal (take n)) in E. by rewrite !take_take, Nat.min_l in E by lia. Qed.

Lemma take_drop_eq {A} (n m : nat) (l l' : list A) :
  take (n + m) l' = take (n + m) l -> take m (drop n l') = take m (drop n l).
Proof. intros E. apply (f_equal (drop n)) in E.
  by rewrite !skipn_firstn_comm, Nat.add_sub_swap, Nat.sub_diag in E by lia. Qed.

Lemma skip_leb_n_local (fuel : nat) l n acc k :
  skip_leb_n fuel true l n acc = Ok k -> acc <= k /\
  local_at l (k - acc) (fun l' => skip_leb_n fuel true l' n acc = Ok k).
Proof.
  revert l n acc. induction fuel as [|f IH]; intros l n acc; cbn [skip_leb_n].
  - destruct (Z.leb_spec n 0); [|done]. intros E. simplify_eq. split; [lia|]. by intros l' _ _.
  - destruct (Z.leb_spec n 0).
    + intros E. simplify_eq. split; [lia|]. by intros l' _ _.
    + intros E. apply res_bind_ok in E as (j & Ej & E).
      destruct (skip_leb_local true l l 32 0 j Ej) as [Hj _].
      destruct (IH _ _ _ E) as [Hk Hloc]. split; [lia|]. intros l' Hlen Ht.
      unfold skip_leb_uint32 in Ej |- *.
      rewrite (proj2 (skip_leb_local true l l' 32 0 j Ej)).
      2: done.
      2: { eapply take_le_eq, Ht. lia. }
      cbn [res_bind]. apply Hloc; [by rewrite !length_drop, Hlen|].
      apply take_drop_eq. replace (Z.to_nat j + Z.to_nat (k - (acc + j)))%nat with (Z.to_nat (k - acc)) by lia.
      done.
Qed.

Lemma skip_imm_local kind l k :
  skip_imm true kind l = Ok k -> 0 <= k /\
  local_at l k (fun l' => skip_imm true kind l' = Ok k).
Proof.
  assert (Hleb : forall mb l k, skip_leb true l mb 0 = Ok k ->
    0 <= k /\ local_at l k (fun l' => skip_leb true l' mb 0 = Ok k)).
  { intros mb m j E. destruct (skip_leb_local true m m mb 0 j E) as [H0 _]. split; [lia|].
    intros l' Hlen Ht. apply (skip_leb_local true m l' mb 0 j E); [done|].
    by replace (j - 0) with j by lia. }
  destruct kind; cbn [skip_imm]; try (intros E; simplify_eq; split; [lia|]; by intros l' _ _).
  - unfold check_buf. case_bool_decide; cbn; intros E; simplify_eq. split; [lia|].
    intros l' Hlen _. cbn [skip_imm]. unfold check_buf. rewrite bool_decide_true by lia. done.
  - apply Hleb.
  - intros E. apply res_bind_ok in E as (j & E1 & E). apply res_bind_ok in E as (j2 & E2 & E).
    simplify_eq. destruct (Hleb _ _ _ E1) as [H1 L1]. destruct (Hleb _ _ _ E2) as [H2 L2].
    split; [lia|]. intros l' Hlen Ht. cbn [skip_imm]. unfold skip_leb_uint32 in *.
    rewrite L1; [cbn [res_bind]|done|eapply take_le_eq, Ht; lia].
    rewrite L2; [done|by rewrite !length_drop, Hlen|]. apply take_drop_eq.
    by replace (Z.to_nat j + Z.to_nat j2)%nat with (Z.to_nat (j + j2)) by lia.
  - apply Hleb.
  - apply Hleb.
  - intros E. apply res_bind_ok in E as ([count j] & E1 & E).
    destruct (read_u32_ok _ _ _ E1) as (H1 & _ & L1). destruct (skip_leb_n_local _ _ _ _ _ E) as [H2 L2].
    split; [lia|]. intros l' Hlen Ht. cbn [skip_imm].
    rewrite L1; [cbn [res_bind]|done|eapply take_le_eq, Ht; lia].
    rewrite Hlen. apply L2; [by rewrite !length_drop, Hlen|]. apply take_drop_eq.
    by replace (Z.to_nat j + Z.to_nat (k - j))%nat with (Z.to_nat k) by lia.
  - intros E. apply res_bind_ok in E as (j & E1 & E). apply res_bind_ok in E as (u & E2 & E).
    simplify_eq. destruct (Hleb _ _ _ E1) as [H1 L1]. split; [lia|]. intros l' Hlen Ht.
    cbn [skip_imm]. unfold skip_leb_uint32 in *.
    rewrite L1; [cbn [res_bind]|done|eapply take_le_eq, Ht; lia].
    unfold check_buf in *. rewrite length_drop, Hlen, <- length_drop.
    destruct (bool_decide _); [done|]. by destruct u.
Qed.

(** The opcodes without a block structure of their own. *)
Definition plain_instr (op : WASMOpcode) (r : list Z) : option (nat * Z) :=
  match imm_of op with
  | ImmInvalid => None
  | kind => match skip_imm true kind r with
            | Ok k => Some (S (Z.to_nat k), 0)
            | _ => None
            end
  end.

Lemma instr_op b r op :
  handle_table !! Z.to_nat b = Some op ->
  instr (b :: r) =
    match imm_of op with
    | ImmStructured =>
        if bool_decide (op = WASM_OP_END) then Some (1%nat, -1)
        else if bool_decide (op = WASM_OP_ELSE) then Some (1%nat, 0)
        else if bool_decide (1 <= length r)%nat then Some (2%nat, 1) else None
    | _ => plain_instr op r
    end.
Proof. intros E. cbn [instr]. rewrite E. clear E. unfold plain_instr. destruct op; reflexivity. Qed.

Lemma plain_instr_local op r n e :
  plain_instr op r = Some (n, e) -> (1 <= n)%nat /\ e = 0 /\
  forall r', length r' = length r -> take (n - 1) r' = take (n - 1) r -> plain_instr op r' = Some (n, e).
Proof.
  unfold plain_instr. destruct (imm_of op); [..|done];
    (destruct (skip_imm true _ r) as [k| |] eqn:Es; [|done..]; intros E; injection E as <- <-;
     destruct (skip_imm_local _ _ _ Es) as [Hk Hloc]; split; [lia|]; split; [done|];
     intros r' Hlen Ht; rewrite Hloc; [done|done|];
     by replace (Z.to_nat k) with (S (Z.to_nat k) - 1)%nat by lia).
Qed.

Lemma instr_local l n e :
  instr l = Some (n, e) -> (1 <= n)%nat /\ -1 <= e <= 1 /\
  forall l', length l' = length l -> take n l' = take n l -> instr l' = Some (n, e).
Proof.
  destruct l as [|b r]; [done|]. destruct (handle_table !! Z.to_nat b) as [op|] eqn:Eop;
    [|cbn [instr]; by rewrite Eop].
  assert (Hhead : forall l', (1 <= n)%nat -> length l' = length (b :: r) -> take n l' = take n (b :: r) ->
    exists r', l' = b :: r' /\ length r' = length r /\ take (n - 1) r' = take (n - 1) r).
  { intros l' Hn Hlen Ht. destruct l' as [|b' r']; [done|]. destruct n as [|n]; [lia|].
    cbn in Ht. simplify_eq. exists r'. split; [done|]. split; [simpl in Hlen; lia|].
    by replace (S n - 1)%nat with n by lia. }
  rewrite (instr_op b r op Eop). intros E.
  assert (Hn : (1 <= n)%nat /\ -1 <= e <= 1).
  { destruct (imm_of op);
      try (destruct (plain_instr_local _ _ _ _ E) as (? & -> & _); split; [done|lia]).
    repeat case_bool_decide; simplify_eq; split; lia. }
  split; [apply Hn|]. split; [apply Hn|]. intros l' Hlen Ht.
  destruct (Hhead l') as (r' & -> & Hl' & Ht'); [apply Hn|done|done|].
  rewrite (instr_op b r' op Eop).
  destruct (imm_of op); try (by apply (plain_instr_local _ _ _ _ E)).
  by rewrite Hl'.
Qed.

(** ** Boundaries *)

(** The [k]-th boundary. *)
Fixpoint boundary (c : list Z) (k : nat) : option (nat * Z) :=
  match k with
  | O => Some (0%nat, 0)
  | S k => '(x, d) ← boundary c k; '(n, e) ← instr (drop x c); Some ((x + n)%nat, d + e)
  end.

Lemma path_boundary c x d : path c x d <-> exists k, boundary c k = Some (x, d).
Proof.
  split.
  - induction 1 as [|x d n e _ [k Hk] Hi]; [by exists 0%nat|].
    exists (S k). cbn [boundary]. rewrite Hk. cbn. by rewrite Hi.
  - intros [k Hk]. revert x d Hk. induction k as [|k IH]; intros x d Hk; cbn in Hk.
    + simplify_eq. constructor.
    + destruct (boundary c k) as [[y dy]|]; cbn in Hk; [|done].
      destruct (instr (drop y c)) as [[n e]|] eqn:Ei; cbn in Hk; [|done]. simplify_eq.
      apply path_next; auto.
Qed.

Lemma boundary_S c k x d :
  boundary c (S k) = Some (x, d) -> exists y dy n e, boundary c k = Some (y, dy) /\
    instr (drop y c) = Some (n, e) /\ x = (y + n)%nat /\ d = dy + e /\ (1 <= n)%nat.
Proof.
  cbn. destruct (boundary c k) as [[y dy]|]; cbn; [|done].
  destruct (instr (drop y c)) as [[n e]|] eqn:Ei; cbn; [|done]. intros ?; simplify_eq.
  destruct (instr_local _ _ _ Ei) as (? & _). by exists y, dy, n, e.
Qed.

Lemma boundary_mono c j k x d y d' :
  boundary c j = Some (x, d) -> boundary c k = Some (y, d') -> (j < k)%nat ->
  exists n e, instr (drop x c) = Some (n, e) /\ (x + n <= y)%nat /\ (x < y)%nat.
Proof.
  intros Hj. revert y d'. induction k as [|k IH]; intros y d' Hk Hlt; [lia|].
  apply boundary_S in Hk as (z & dz & n & e & Hz & Hi & -> & -> & Hn).
  destruct (decide (j = k)) as [->|].
  - rewrite Hj in Hz. simplify_eq. exists n, e. repeat split; auto; lia.
  - destruct (IH _ _ Hz) as (n' & e' & ? & ? & ?); [lia|]. exists n', e'. repeat split; auto; lia.
Qed.

Lemma path_det c x d d' : path c x d -> path c x d' -> d = d'.
Proof.
  rewrite !path_boundary. intros [j Hj] [k Hk]. destruct (lt_eq_lt_dec j k) as [[?| ->]|?].
  - destruct (boundary_mono _ _ _ _ _ _ _ Hj Hk) as (? & ? & ? & ? & ?); lia.
  - rewrite Hj in Hk. by simplify_eq.
  - destruct (boundary_mono _ _ _ _ _ _ _ Hk Hj) as (? & ? & ? & ? & ?); lia.
Qed.

(** From a boundary before another the walk goes on without overtaking it. *)
Lemma path_towards c x d y d' :
  path c x d -> path c y d' -> (x < y)%nat ->
  exists n e, instr (drop x c) = Some (n, e) /\ (x + n <= y)%nat.
Proof.
  rewrite !path_boundary. intros [j Hj] [k Hk] Hlt. destruct (lt_eq_lt_dec j k) as [[?| ->]|?].
  - destruct (boundary_mono _ _ _ _ _ _ _ Hj Hk) as (n & e & ? & ? & ?); [lia|]. by exists n, e.
  - rewrite Hj in Hk. simplify_eq. lia.
  - destruct (boundary_mono _ _ _ _ _ _ _ Hk Hj) as (? & ? & ? & ? & ?); lia.
Qed.

(** No boundary lies inside an instruction. *)
Lemma path_gap c x d n e y d' :
  path c x d -> instr (drop x c) = Some (n, e) -> path c y d' -> (x < y)%nat -> (x + n <= y)%nat.
Proof.
  intros Hx Hi Hy Hlt. destruct (path_towards _ _ _ _ _ Hx Hy Hlt) as (n' & e' & ? & ?).
  by simplify_eq.
Qed.

(** ** Blocks

    [floor c a x d]: between the boundaries [a] and [x] nesting never falls
    below [d].  A block with body at [a] ends where it would. *)

Definition floor (c : list Z) (a x : nat) (d : Z) : Prop :=
  forall y d', path c y d' -> (a <= y <= x)%nat -> d <= d'.

Record block_from (c : list Z) (a x : nat) (d k : Z) : Prop := {
  bf_start : path c a d;
  bf_here : path c x (d + k);
  bf_le : (a <= x)%nat;
  bf_floor : floor c a x d
}.

Lemma block_from_start c a d : path c a d -> block_from c a a d 0.
Proof.
  intros Ha. split; [done|by rewrite Z.add_0_r|lia|]. intros y d' Hy ?.
  assert (y = a) as -> by lia. by rewrite (path_det _ _ _ _ Ha Hy).
Qed.

Lemma block_from_step c a x d k n e :
  block_from c a x d k -> instr (drop x c) = Some (n, e) -> 0 <= k + e ->
  block_from c a (x + n) d (k + e).
Proof.
  intros [Ha Hx Hle Hf] Hi Hk. pose proof (path_next _ _ _ _ _ Hx Hi) as Hn.
  replace (d + k + e) with (d + (k + e)) in Hn by lia. split; [done|done|lia|].
  intros y d' Hy Hr. destruct (decide (y <= x)%nat); [apply (Hf y); [done|lia]|].
  pose proof (path_gap _ _ _ _ _ _ _ Hx Hi Hy ltac:(lia)).
  assert (y = (x + n)%nat) as -> by lia. rewrite (path_det _ _ _ _ Hy Hn). lia.
Qed.

(** ** What the scanner finds *)

Definition is_end (c : list Z) (x : nat) : Prop := instr (drop x c) = Some (1%nat, -1).
Definition is_plain1 (c : list Z) (x : nat) : Prop := instr (drop x c) = Some (1%nat, 0).

Section Scanner.
Context (base : Z) (c : list Z).

(** [v] is no [else], or one of the block at [a] before [x]. *)
Definition else_sound (a x : nat) (d v : Z) : Prop :=
  v = 0 \/ exists e, v = base + Z.of_nat e /\ (a <= e < x)%nat /\ path c e d /\ is_plain1 c e.

Definition block_sound (a n : nat) (d v : Z) : Prop :=
  block_from c a n d 0 /\ is_end c n /\ else_sound a n d v.

Definition entry_sound (b : BlockAddr) : Prop :=
  start_addr b = 0 \/ exists a n d, start_addr b = base + Z.of_nat a /\
    end_addr b = base + Z.of_nat n /\ block_sound a n d (else_addr b).

Definition cache_sound (cache : list (BlockAddr * BlockAddr)) : Prop :=
  Forall (fun '(b0, b1) => entry_sound b0 /\ entry_sound b1) cache.

Lemma else_sound_mono a x y d v : else_sound a x d v -> (x <= y)%nat -> else_sound a y d v.
Proof. intros [->|(e & -> & ? & ?)] ?; [by left|right; exists e; split; [done|split; [lia|done]]]. Qed.

(** The remembered blocks at position [x], [dep] of them open, the
    outermost one at depth [d0]. *)
Definition open_entry (d0 : Z) (dep x j : nat) (b : BlockAddr) : Prop :=
  exists a, start_addr b = base + Z.of_nat a /\
    block_from c a x (d0 + Z.of_nat j) (Z.of_nat dep - 1 - Z.of_nat j) /\
    else_sound a x (d0 + Z.of_nat j) (else_addr b).

Definition stack_sound (d0 : Z) (dep x : nat) (st : list BlockAddr) : Prop :=
  length st = BLOCK_STACK_SIZE /\
  forall j b, st !! j = Some b ->
    if decide (j < dep)%nat then open_entry d0 dep x j b else entry_sound b.

Lemma open_entry_step d0 dep x j b n e :
  open_entry d0 dep x j b -> (j < dep)%nat -> instr (drop x c) = Some (n, e) ->
  (j < Z.to_nat (Z.of_nat dep + e))%nat ->
  open_entry d0 (Z.to_nat (Z.of_nat dep + e)) (x + n) j b.
Proof.
  intros (a & Hs & Hb & He) Hj Hi Hlt. exists a. split; [done|]. split.
  - replace (Z.of_nat (Z.to_nat (Z.of_nat dep + e)) - 1 - Z.of_nat j)
      with (Z.of_nat dep - 1 - Z.of_nat j + e) by lia.
    apply block_from_step; [done..|lia].
  - eapply else_sound_mono; [done|lia].
Qed.

Lemma stack_sound_plain d0 dep x st n :
  stack_sound d0 dep x st -> instr (drop x c) = Some (n, 0) -> stack_sound d0 dep (x + n) st.
Proof.
  intros [Hl Hst] Hi. split; [done|]. intros j b Hj. specialize (Hst j b Hj).
  destruct (decide _) as [Hd|]; [|done].
  pose proof (open_entry_step d0 dep x j b n 0 Hst Hd Hi) as Ho.
  replace (Z.to_nat (Z.of_nat dep + 0)) with dep in Ho by lia. by apply Ho.
Qed.

Lemma stack_sound_open d0 dep x st :
  stack_sound d0 dep x st -> instr (drop x c) = Some (2%nat, 1) ->
  path c x (d0 + Z.of_nat dep - 1) ->
  stack_sound d0 (S dep) (x + 2) (set_stack_start dep (base + Z.of_nat x + 2) st).
Proof.
  intros [Hl Hst] Hi Hp. split; [by unfold set_stack_start; rewrite length_alter|].
  intros j b Hj. unfold set_stack_start in Hj. destruct (decide (j = dep)) as [->|Hne].
  - rewrite list_lookup_alter_eq in Hj. destruct (st !! dep) as [b0|]; [|done]. cbn in Hj. simplify_eq.
    destruct (decide _); [|lia]. exists (x + 2)%nat. cbn. split; [lia|]. split; [|by left].
    replace (Z.of_nat (S dep) - 1 - Z.of_nat dep) with 0 by lia. apply block_from_start.
    pose proof (path_next _ _ _ _ _ Hp Hi) as Hn.
    by replace (d0 + Z.of_nat dep - 1 + 1) with (d0 + Z.of_nat dep) in Hn by lia.
  - rewrite list_lookup_alter_ne in Hj by done. specialize (Hst j b Hj).
    destruct (decide (j < dep)%nat) as [Hd|], (decide (j < S dep)%nat); try lia; [|done].
    pose proof (open_entry_step d0 dep x j b 2 1 Hst Hd Hi) as Ho.
    replace (Z.to_nat (Z.of_nat dep + 1)) with (S dep) in Ho by lia. apply Ho. lia.
Qed.

Lemma stack_sound_else d0 dep x st :
  (1 <= dep)%nat -> stack_sound d0 dep x st -> is_plain1 c x ->
  path c x (d0 + Z.of_nat dep - 1) ->
  stack_sound d0 dep (x + 1) (set_stack_else (dep - 1) (base + Z.of_nat x) st).
Proof.
  intros Hdep Hst Hi Hp. destruct (stack_sound_plain _ _ _ _ _ Hst Hi) as [Hl Hst'].
  split; [by unfold set_stack_else; rewrite length_alter|].
  intros j b Hj. unfold set_stack_else in Hj. destruct (decide (j = dep - 1)%nat) as [->|Hne].
  - rewrite list_lookup_alter_eq in Hj. destruct (st !! (dep - 1)%nat) as [b0|] eqn:E0; [|done].
    cbn in Hj. simplify_eq. specialize (Hst' _ _ E0). destruct Hst as [_ Hst]. specialize (Hst _ _ E0).
    destruct (decide _); [|lia]. destruct Hst' as (a & Hs & Hb & _). destruct Hst as (a' & Hs' & Hb' & _).
    assert (a' = a) as -> by lia. exists a. cbn. split; [done|]. split; [done|]. right. exists x.
    split; [done|]. split; [pose proof (bf_le _ _ _ _ _ Hb'); lia|]. split; [|done].
    by replace (d0 + Z.of_nat (dep - 1)) with (d0 + Z.of_nat dep - 1) by lia.
  - rewrite list_lookup_alter_ne in Hj by done. by apply Hst'.
Qed.

(** Closing the innermost block files a sound entry. *)
Lemma close_entry d0 dep x b :
  (1 <= dep)%nat -> open_entry d0 dep x (dep - 1) b -> is_end c x ->
  entry_sound (mkBlockAddr (start_addr b) (else_addr b) (base + Z.of_nat x)).
Proof.
  intros Hdep (a & Hs & Hb & He) Hi. right. exists a, x, (d0 + Z.of_nat (dep - 1)). cbn.
  split; [done|]. split; [done|]. split; [|by split].
  by replace (Z.of_nat dep - 1 - Z.of_nat (dep - 1)) with 0 in Hb by lia.
Qed.

Lemma stack_sound_end d0 dep x st :
  (1 <= dep)%nat -> stack_sound d0 dep x st -> is_end c x ->
  stack_sound d0 (dep - 1) (x + 1) (set_stack_end (dep - 1) (base + Z.of_nat x) st).
Proof.
  intros Hdep [Hl Hst] Hi. split; [by unfold set_stack_end; rewrite length_alter|].
  intros j b Hj. unfold set_stack_end in Hj. destruct (decide (j = dep - 1)%nat) as [->|Hne].
  - rewrite list_lookup_alter_eq in Hj. destruct (st !! (dep - 1)%nat) as [b0|] eqn:E0; [|done].
    cbn in Hj. simplify_eq. specialize (Hst _ _ E0).
    destruct (decide (dep - 1 < dep)%nat); [|lia]. destruct (decide _); [lia|].
    by apply (close_entry d0 dep).
  - rewrite list_lookup_alter_ne in Hj by done. specialize (Hst j b Hj).
    destruct (decide (j < dep)%nat) as [Hd|], (decide (j < dep - 1)%nat); try lia; [|done].
    pose proof (open_entry_step d0 dep x j b 1 (-1) Hst Hd Hi) as Ho.
    replace (Z.to_nat (Z.of_nat dep + -1)) with (dep - 1)%nat in Ho by lia. apply Ho. lia.
Qed.

(** ** The scan *)

(** A state of the scanner at position [x] of a block at [a]. *)
Record scan_at (a : nat) (d0 : Z) (x : nat) (s : ScanState) : Prop := {
  sa_p : sc_p s = base + Z.of_nat x;
  sa_buf : sc_buf s = drop x c;
  sa_depth : (1 <= sc_depth s)%nat;
  sa_block : block_from c a x d0 (Z.of_nat (sc_depth s) - 1);
  sa_else : else_sound a x d0 (sc_else s);
  sa_stack : stack_sound d0 (sc_depth s) x (sc_stack s)
}.

Lemma buf_advance (s : ScanState) x n :
  sc_buf s = drop x c -> sc_buf (advance (Z.of_nat n) s) = drop (x + n) c.
Proof. intros E. cbn. by rewrite E, drop_drop, Nat2Z.id. Qed.

Lemma scan_plain a d0 x s op b r k :
  scan_at a d0 x s -> drop x c = b :: r -> instr (b :: r) = plain_instr op r ->
  imm_of op <> ImmInvalid -> skip_imm true (imm_of op) r = Ok k ->
  scan_at a d0 (x + S (Z.to_nat k)) (advance k (advance 1 s)).
Proof.
  intros [Hp Hb Hdep Hblk Hel Hst] Hr Hi Hv Ek.
  destruct (skip_imm_local _ _ _ Ek) as [Hk _].
  assert (Hik : instr (drop x c) = Some (S (Z.to_nat k), 0)).
  { rewrite Hr, Hi. unfold plain_instr. clear -Hv Ek. revert Hv Ek.
    destruct (imm_of op); intros Hv Ek; first [done|by rewrite Ek]. }
  split; cbn.
  - lia.
  - rewrite Hb, !drop_drop. f_equal; lia.
  - done.
  - replace (Z.of_nat (sc_depth s) - 1) with (Z.of_nat (sc_depth s) - 1 + 0) by lia.
    apply block_from_step; [done|done|lia].
  - eapply else_sound_mono; [done|lia].
  - by apply stack_sound_plain.
Qed.

Lemma scan_open a d0 x s st :
  scan_at a d0 x s -> instr (drop x c) = Some (2%nat, 1) ->
  st = set_stack_start (sc_depth s) (sc_p s + 2) (sc_stack s) ->
  scan_at a d0 (x + 2) (mkScan (sc_p s + 2) (drop (x + 2) c) (sc_else s) (S (sc_depth s)) st).
Proof.
  intros [Hp Hb Hdep Hblk Hel Hst] Hi ->. split; cbn [sc_p sc_buf sc_else sc_depth sc_stack].
  - lia.
  - done.
  - lia.
  - replace (Z.of_nat (S (sc_depth s)) - 1) with (Z.of_nat (sc_depth s) - 1 + 1) by lia.
    apply block_from_step; [done|done|lia].
  - eapply else_sound_mono; [done|lia].
  - rewrite Hp. apply stack_sound_open; [done..|].
    pose proof (bf_here _ _ _ _ _ Hblk) as Hh.
    by replace (d0 + Z.of_nat (sc_depth s) - 1) with (d0 + (Z.of_nat (sc_depth s) - 1)) by lia.
Qed.

Lemma scan_else a d0 x s bt st :
  scan_at a d0 x s -> is_plain1 c x ->
  st = set_stack_else (sc_depth s - 1) (sc_p s) (sc_stack s) ->
  scan_at a d0 (x + 1) (mkScan (sc_p s + 1) (drop (x + 1) c)
    (if (bt =? BLOCK_TYPE_IF) && (sc_depth s =? 1)%nat then sc_p s else sc_else s) (sc_depth s) st).
Proof.
  intros [Hp Hb Hdep Hblk Hel Hst] Hi ->.
  assert (Hx : path c x (d0 + Z.of_nat (sc_depth s) - 1)).
  { pose proof (bf_here _ _ _ _ _ Hblk) as Hh.
    by replace (d0 + Z.of_nat (sc_depth s) - 1) with (d0 + (Z.of_nat (sc_depth s) - 1)) by lia. }
  split; cbn [sc_p sc_buf sc_else sc_depth sc_stack].
  - lia.
  - done.
  - lia.
  - replace (Z.of_nat (sc_depth s) - 1) with (Z.of_nat (sc_depth s) - 1 + 0) by lia.
    apply block_from_step; [done|done|lia].
  - destruct (Nat.eqb_spec (sc_depth s) 1) as [E1|];
      [|rewrite andb_false_r; eapply else_sound_mono; [done|lia]].
    rewrite andb_true_r. destruct (bt =? BLOCK_TYPE_IF); [|eapply else_sound_mono; [done|lia]].
    right. exists x. rewrite E1 in Hx. replace (d0 + Z.of_nat 1 - 1) with d0 in Hx by lia.
    split; [done|]. split; [pose proof (bf_le _ _ _ _ _ Hblk); lia|done].
  - rewrite Hp. by apply stack_sound_else.
Qed.

Lemma scan_close a d0 x s st :
  scan_at a d0 x s -> is_end c x -> sc_depth s <> 1%nat ->
  st = set_stack_end (sc_depth s - 1) (sc_p s) (sc_stack s) ->
  scan_at a d0 (x + 1) (mkScan (sc_p s + 1) (drop (x + 1) c) (sc_else s) (sc_depth s - 1) st).
Proof.
  intros [Hp Hb Hdep Hblk Hel Hst] Hi Hne ->. split; cbn [sc_p sc_buf sc_else sc_depth sc_stack].
  - lia.
  - done.
  - lia.
  - replace (Z.of_nat (sc_depth s - 1) - 1) with (Z.of_nat (sc_depth s) - 1 + -1) by lia.
    apply block_from_step; [done|done|lia].
  - eapply else_sound_mono; [done|lia].
  - rewrite Hp. by apply stack_sound_end.
Qed.

(** The end of the outermost block. *)
Lemma scan_done a d0 x s :
  scan_at a d0 x s -> is_end c x -> sc_depth s = 1%nat ->
  block_sound a x d0 (sc_else s) /\
  Forall entry_sound (set_stack_end 0 (sc_p s) (sc_stack s)).
Proof.
  intros [Hp Hb Hdep Hblk Hel Hst] Hi E1. split.
  - split; [|by split]. by replace (Z.of_nat (sc_depth s) - 1) with 0 in Hblk by lia.
  - rewrite Hp, E1 in *. destruct (stack_sound_end d0 1 x (sc_stack s)) as [_ H]; [done..|].
    apply Forall_lookup. intros j b Hj. specialize (H j b Hj). destruct (decide _); [lia|done].
Qed.

Definition scan_good (a : nat) (d0 : Z) (x : nat) (r : scan_result) : Prop :=
  match r with
  | ScanMore s' => exists n, scan_at a d0 (x + n) s'
  | ScanEnd s' => sc_p s' = base + Z.of_nat x + 1 /\ block_sound a x d0 (sc_else s') /\
      Forall entry_sound (sc_stack s')
  end.

(** What an opcode is to the scanner. *)
Lemma scan_step_op bt b r op s :
  sc_buf s = b :: r -> handle_table !! Z.to_nat b = Some op -> length (sc_stack s) = BLOCK_STACK_SIZE ->
  scan_step true bt s =
    match imm_of op with
    | ImmStructured =>
        if bool_decide (op = WASM_OP_END) then
          if (sc_depth s =? 1)%nat then
            Ok (ScanEnd (mkScan (sc_p s + 1) r (sc_else s) (sc_depth s)
              (set_stack_end 0 (sc_p s) (sc_stack s))))
          else Ok (ScanMore (mkScan (sc_p s + 1) r (sc_else s) (sc_depth s - 1)
              (set_stack_end (sc_depth s - 1) (sc_p s) (sc_stack s))))
        else if bool_decide (op = WASM_OP_ELSE) then
          Ok (ScanMore (mkScan (sc_p s + 1) r
            (if (bt =? BLOCK_TYPE_IF) && (sc_depth s =? 1)%nat then sc_p s else sc_else s)
            (sc_depth s) (set_stack_else (sc_depth s - 1) (sc_p s) (sc_stack s))))
        else
          rlet _ := check_buf true r 1 in
          Ok (ScanMore (mkScan (sc_p s + 2) (drop 1 r) (sc_else s) (S (sc_depth s))
            (set_stack_start (sc_depth s) (sc_p s + 2) (sc_stack s))))
    | ImmInvalid => Err "WASM loader find block addr failed: invalid opcode"
    | kind => rlet k := skip_imm true kind r in Ok (ScanMore (advance k (advance 1 s)))
    end.
Proof.
  intros Hb Hop Hl. unfold scan_step. rewrite Hb.
  assert (Hd1 : sc_buf (advance 1 s) = r) by (cbn; by rewrite Hb).
  rewrite Hop, Hd1.
  assert (H1 : sc_p (advance 1 s) - 1 = sc_p s) by (cbn; lia).
  assert (H2 : sc_p (advance 1 (advance 1 s)) = sc_p s + 2) by (cbn; lia).
  assert (H3 : sc_buf (advance 1 (advance 1 s)) = drop 1 r) by (cbn; by rewrite Hb).
  rewrite H1, H2, H3. unfold set_stack_start, set_stack_else, set_stack_end.
  rewrite !set_stack_guard by done.
  destruct op; reflexivity.
Qed.

Lemma drop_S_cons x b r : drop x c = b :: r -> drop (x + 1) c = r.
Proof. intros E. by rewrite <- drop_drop, E. Qed.

Lemma scan_step_good bt a d0 x s r :
  scan_at a d0 x s -> scan_step true bt s = Ok r -> scan_good a d0 x r.
Proof.
  intros Hs E. pose proof (sa_buf _ _ _ _ Hs) as Hbuf.
  destruct (drop x c) as [|b l] eqn:Hx; [unfold scan_step in E; by rewrite Hbuf in E|].
  destruct (handle_table !! Z.to_nat b) as [op|] eqn:Hop;
    [|unfold scan_step in E; by rewrite Hbuf, Hop in E].
  rewrite (scan_step_op bt b l op s Hbuf Hop) in E by apply (sa_stack _ _ _ _ Hs).
  pose proof (instr_op b l op Hop) as Hi.
  assert (Hplain : imm_of op <> ImmStructured -> scan_good a d0 x r).
  { intros Hns. assert (Hi' : instr (b :: l) = plain_instr op l) by (by destruct (imm_of op)).
    assert (exists k, skip_imm true (imm_of op) l = Ok k /\ r = ScanMore (advance k (advance 1 s)) /\
      imm_of op <> ImmInvalid) as (k & Ek & -> & Hv).
    { destruct (imm_of op); try done;
        (apply res_bind_ok in E as (k & Ek & E); exists k; by simplify_eq). }
    exists (S (Z.to_nat k)). by apply (scan_plain a d0 x s op b l). }
  destruct (imm_of op) eqn:Ek; try (by apply Hplain). clear Hplain.
  pose proof (drop_S_cons _ _ _ Hx) as Hl.
  case_bool_decide as He; [|case_bool_decide as Hel].
  - assert (Hend : is_end c x) by (unfold is_end; by rewrite Hx).
    destruct (Nat.eqb_spec (sc_depth s) 1) as [E1|E1]; simplify_eq; cbn [scan_good].
    + cbn [sc_p sc_else sc_stack]. split; [rewrite (sa_p _ _ _ _ Hs); lia|].
      by apply scan_done.
    + exists 1%nat. by apply scan_close.
  - assert (Hpl : is_plain1 c x) by (unfold is_plain1; by rewrite Hx).
    simplify_eq. exists 1%nat. by apply scan_else.
  - apply res_bind_ok in E as (u & Eu & E). unfold check_buf in Eu.
    case_bool_decide as Hlen; [|done]. injection E as <-. exists 2%nat.
    replace (drop 1 l) with (drop (x + 2) c)
      by (rewrite <- Hl, drop_drop; f_equal; lia).
    apply scan_open; [done| |done]. by rewrite Hx, Hi.
Qed.

Lemma scan_sound (fuel : nat) bt a d0 x s s' :
  scan_at a d0 x s -> scan fuel true bt s = Ok s' ->
  exists n, sc_p s' = base + Z.of_nat n + 1 /\ (x <= n)%nat /\
    block_sound a n d0 (sc_else s') /\ Forall entry_sound (sc_stack s').
Proof.
  revert x s. induction fuel as [|f IH]; intros x s Hs E; cbn [scan] in E; [done|].
  apply res_bind_ok in E as (r & Er & E).
  pose proof (scan_step_good _ _ _ _ _ _ Hs Er) as Hg. destruct r as [s1|s1]; cbn in Hg.
  - destruct Hg as [n Hg]. destruct (IH _ _ Hg E) as (m & ? & ? & ?). exists m. split; [done|]. split; [lia|done].
  - simplify_eq. destruct Hg as (? & ? & ?). exists x. by split_and!.
Qed.

Lemma cache_insert_sound cache b :
  cache_sound cache -> entry_sound b -> cache_sound (cache_insert cache b).
Proof.
  intros Hc Hb. unfold cache_sound, cache_insert in *. apply Forall_lookup. intros i [b0 b1] Hi.
  destruct (decide (i = cache_line (start_addr b))) as [->|].
  - rewrite list_lookup_alter_eq in Hi. destruct (cache !! _) as [[c0 c1]|] eqn:E; [|done]. cbn in Hi.
    pose proof (Forall_lookup_1 _ _ _ _ Hc E) as [H0 H1].
    destruct (start_addr c0 =? 0); [by simplify_eq|].
    destruct (start_addr c1 =? 0); by simplify_eq.
  - rewrite list_lookup_alter_ne in Hi by done. apply (Forall_lookup_1 _ _ _ _ Hc Hi).
Qed.

Lemma cache_insert_all_sound st cache :
  cache_sound cache -> Forall entry_sound st -> cache_sound (cache_insert_all cache st).
Proof.
  intros Hc Hst. revert cache Hc. induction Hst as [|b st Hb _ IH]; intros cache Hc; [done|].
  cbn [cache_insert_all]. destruct (_ =? 0); [done|]. apply IH. by apply cache_insert_sound.
Qed.

(** Whatever the code is: when the scanner succeeds on the body at [a], it
    returns the end of that block, an [else] of it or 0, and files sound
    entries. *)
Lemma find_block_addr_sound cache a d0 bt e n cache' :
  cache_sound cache -> path c a d0 ->
  wasm_loader_find_block_addr cache true (base + Z.of_nat a) (drop a c) bt = Ok (e, n, cache') ->
  cache_sound cache' /\ exists m, n = base + Z.of_nat m /\ block_sound a m d0 e.
Proof.
  intros Hc Ha E. unfold wasm_loader_find_block_addr in E.
  apply res_bind_ok in E as (s & Es & E). simplify_eq.
  match type of Es with scan _ _ _ ?s0 = _ => assert (Hs0 : scan_at a d0 a s0) end.
  { split; cbn [sc_p sc_buf sc_else sc_depth sc_stack]; try done; try lia.
    - by apply block_from_start.
    - by left.
    - split; [done|]. intros [|j] b Hj; cbn in Hj.
      * simplify_eq. destruct (decide _); [|lia]. exists a. cbn. split; [done|].
        rewrite Z.add_0_r. split; [by apply block_from_start|by left].
      * destruct (decide _); [lia|]. change (replicate (BLOCK_STACK_SIZE - 1) null_block_addr !! j = Some b) in Hj.
        apply lookup_replicate in Hj as [-> _]. by left. }
  destruct (scan_sound _ _ _ _ _ _ _ Hs0 Es) as (m & Hp & _ & Hb & Hf).
  split; [by apply cache_insert_all_sound|]. exists m. split; [lia|done].
Qed.

End Scanner.

(** ** Rewriting in place

    [c'] is [c] with the instruction at [x], of [n] bytes, replaced by a
    run of instructions of the same total length that open and close
    nothing. *)

Inductive flat_run (c : list Z) : nat -> nat -> Prop :=
| flat_stop x : flat_run c x x
| flat_more x n y : instr (drop x c) = Some (n, 0) -> flat_run c (x + n) y -> flat_run c x y.

Lemma flat_run_le c x y : flat_run c x y -> (x <= y)%nat.
Proof.
  induction 1 as [|x n y Hi _ IH]; [lia|]. destruct (instr_local _ _ _ Hi) as (? & _). lia.
Qed.

Lemma flat_run_path c x y d z : flat_run c x z -> path c x d -> flat_run c y z -> path c y d ->
  path c z d.
Proof. intros _ _ Hy. induction Hy as [|y n z Hi _ IH]; [done|]. intros Hp. apply IH.
  rewrite <- (Z.add_0_r d). by apply path_next. Qed.

Record rewritten (c c' : list Z) (x n : nat) (d : Z) : Prop := {
  rw_len : length c' = length c;
  rw_at : path c x d;
  rw_instr : instr (drop x c) = Some (n, 0);
  rw_run : flat_run c' x (x + n);
  rw_before : take x c' = take x c;
  rw_after : drop (x + n) c' = drop (x + n) c
}.

Section Rewritten.
Context (c c' : list Z) (x n : nat) (d : Z) (R : rewritten c c' x n d).

Lemma rw_instr_before y m e :
  (y + m <= x)%nat -> instr (drop y c) = Some (m, e) -> instr (drop y c') = Some (m, e).
Proof.
  intros Hle Hi. apply (proj2 (proj2 (instr_local _ _ _ Hi))).
  - by rewrite !length_drop, (rw_len _ _ _ _ _ R).
  - apply take_drop_eq. eapply take_le_eq, (rw_before _ _ _ _ _ R). lia.
Qed.

Lemma rw_instr_before' y m e :
  (y + m <= x)%nat -> instr (drop y c') = Some (m, e) -> instr (drop y c) = Some (m, e).
Proof.
  intros Hle Hi. apply (proj2 (proj2 (instr_local _ _ _ Hi))).
  - by rewrite !length_drop, (rw_len _ _ _ _ _ R).
  - symmetry. apply take_drop_eq. eapply take_le_eq, (rw_before _ _ _ _ _ R). lia.
Qed.

Lemma rw_drop_after y : (x + n <= y)%nat -> drop y c' = drop y c.
Proof.
  intros Hle. replace y with (x + n + (y - (x + n)))%nat by lia.
  by rewrite <- (drop_drop c' _ (x + n)), <- (drop_drop c _ (x + n)), (rw_after _ _ _ _ _ R).
Qed.

Lemma rw_path_x : path c' x d.
Proof.
  pose proof (rw_at _ _ _ _ _ R) as Hx.
  assert (forall y e, path c y e -> (y <= x)%nat -> path c' y e) as H; [|by apply H].
  intros y e Hy. induction Hy as [|y e m f Hy IH Hi]; intros Hle; [constructor|].
  destruct (instr_local _ _ _ Hi) as (Hm & _ & _).
  apply path_next; [apply IH; lia|]. by apply rw_instr_before.
Qed.

Lemma rw_path_xn : path c' (x + n) d.
Proof. eapply flat_run_path; [apply R|apply rw_path_x|apply R|apply rw_path_x]. Qed.

(** Boundaries of [c] outside the instruction stay, at their depth. *)
Lemma rw_path y e : path c y e -> (y <= x \/ x + n <= y)%nat -> path c' y e.
Proof.
  intros Hy. pose proof (rw_at _ _ _ _ _ R) as Hx. pose proof (rw_instr _ _ _ _ _ R) as Hxi.
  destruct (instr_local _ _ _ Hxi) as (Hn & _ & _).
  induction Hy as [|y e m f Hy IH Hi]; intros Hor; [constructor|].
  destruct (instr_local _ _ _ Hi) as (Hm & _ & _).
  destruct (decide (y < x)%nat) as [Hlt|Hge].
  - destruct (path_towards _ _ _ _ _ Hy Hx Hlt) as (m' & e' & Hi' & Hle). rewrite Hi in Hi'. simplify_eq.
    apply path_next; [apply IH; lia|]. by apply rw_instr_before.
  - destruct (decide (y = x)) as [Ey|Hne].
    + subst y. rewrite Hxi in Hi. injection Hi as <- <-. rewrite (path_det _ _ _ _ Hy Hx), Z.add_0_r. apply rw_path_xn.
    + pose proof (path_gap _ _ _ _ _ _ _ Hx Hxi Hy ltac:(lia)).
      apply path_next; [apply IH; lia|]. by rewrite rw_drop_after.
Qed.

(** Boundaries of [c'] are boundaries of [c], or lie inside the
    instruction, at its depth. *)
Lemma rw_path_inv y e :
  path c' y e -> path c y e \/ (e = d /\ (x < y < x + n)%nat /\ flat_run c' y (x + n)).
Proof.
  pose proof (rw_at _ _ _ _ _ R) as Hx. pose proof (rw_instr _ _ _ _ _ R) as Hxi.
  assert (Hxn : path c (x + n) d) by (rewrite <- (Z.add_0_r d); by apply path_next).
  assert (Hrun : forall y m f, flat_run c' y (x + n) -> (y < x + n)%nat -> (x <= y)%nat ->
    instr (drop y c') = Some (m, f) ->
    path c (y + m) (d + f) \/ (d + f = d /\ (x < y + m < x + n)%nat /\ flat_run c' (y + m) (x + n))).
  { intros z m f Hr Hlt Hle Hi. inversion Hr as [|z' k w Hk Hr']; subst; [lia|].
    rewrite Hi in Hk. simplify_eq. rewrite Z.add_0_r. destruct (instr_local _ _ _ Hi) as (Hm & _ & _).
    pose proof (flat_run_le _ _ _ Hr').
    destruct (decide (z + k = x + n)%nat) as [->|]; [by left|right]. split; [done|]. split; [lia|done]. }
  induction 1 as [|y e m f Hy IH Hi]; [left; constructor|].
  destruct (instr_local _ _ _ Hi) as (Hm & _ & _).
  destruct IH as [Hc|(-> & Hin & Hr)]; [|apply Hrun; [done|lia|lia|done]].
  destruct (decide (y < x)%nat) as [Hlt|Hge].
  - left. destruct (path_towards _ _ _ _ _ Hc Hx Hlt) as (m' & e' & Hi' & Hle').
    pose proof (rw_instr_before _ _ _ Hle' Hi') as Hi2. rewrite Hi in Hi2. simplify_eq.
    by apply path_next.
  - destruct (decide (y = x)) as [Ey|Hne].
    + subst y. rewrite (path_det _ _ _ _ Hc Hx). destruct (instr_local _ _ _ Hxi) as (Hn & _ & _).
      apply Hrun; [apply R|lia|lia|done].
    + left. destruct (instr_local _ _ _ Hxi) as (Hn & _ & _).
      pose proof (path_gap _ _ _ _ _ _ _ Hx Hxi Hc ltac:(lia)).
      apply path_next; [done|]. by rewrite <- rw_drop_after.
Qed.

Lemma rw_floor a z k :
  floor c a z k -> ~ (x < a < x + n)%nat -> ~ (x < z < x + n)%nat -> floor c' a z k.
Proof.
  intros Hf Ha Hz y e Hy Hr. destruct (rw_path_inv _ _ Hy) as [Hc|(-> & Hin & _)]; [by apply (Hf y)|].
  apply (Hf x); [apply R|lia].
Qed.

Lemma rw_not_inside y e : path c y e -> ~ (x < y < x + n)%nat.
Proof.
  intros Hy [H1 H2]. pose proof (path_gap _ _ _ _ _ _ _ (rw_at _ _ _ _ _ R) (rw_instr _ _ _ _ _ R) Hy H1). lia.
Qed.

Lemma rw_block a z k j : block_from c a z k j -> block_from c' a z k j.
Proof.
  intros [Ha Hz Hle Hf]. pose proof (rw_not_inside _ _ Ha). pose proof (rw_not_inside _ _ Hz).
  split; [apply rw_path; [done|lia]|apply rw_path; [done|lia]|done|by apply rw_floor].
Qed.

(** One-byte instructions stay one-byte instructions. *)
Lemma rw_marker y k e : path c y k -> instr (drop y c) = Some (1%nat, e) ->
  instr (drop y c') = Some (1%nat, e).
Proof.
  intros Hy Hi. pose proof (rw_not_inside _ _ Hy). pose proof (rw_instr _ _ _ _ _ R) as Hxi.
  destruct (instr_local _ _ _ Hxi) as (Hn & _ & _).
  destruct (decide (y = x)) as [Ey|].
  - subst y. rewrite Hi in Hxi. injection Hxi as En Ee. pose proof (rw_run _ _ _ _ _ R) as Hr.
    rewrite <- En in Hr. inversion Hr as [|z m w Hm Hr' Ez Ew]; [lia|].
    pose proof (flat_run_le _ _ _ Hr'). destruct (instr_local _ _ _ Hm) as (? & _).
    rewrite Ee. by replace m with 1%nat in Hm by lia.
  - destruct (decide (y < x)%nat); [apply rw_instr_before; [lia|done]|].
    by rewrite rw_drop_after by lia.
Qed.

Lemma rw_else_sound base a z k v : else_sound base c a z k v -> else_sound base c' a z k v.
Proof.
  intros [->|(e & -> & Hle & Hp & Hm)]; [by left|right]. exists e. split; [done|]. split; [done|].
  pose proof (rw_not_inside _ _ Hp). split; [apply rw_path; [done|lia]|]. by eapply rw_marker.
Qed.

Lemma rw_cache_sound base cache : cache_sound base c cache -> cache_sound base c' cache.
Proof.
  assert (He : forall b, entry_sound base c b -> entry_sound base c' b).
  { intros b [?|(a & z & k & Hs & Hn & Hb & Hend & Hel)]; [by left|right]. exists a, z, k.
    split; [done|]. split; [done|]. split; [by apply rw_block|]. split; [|by apply rw_else_sound].
    eapply rw_marker, Hend. apply Hb. }
  intros Hc. eapply Forall_impl; [exact Hc|]. intros [b0 b1] [? ?]. split; by apply He.
Qed.

End Rewritten.
