(* ===== verification/LoaderTotal.v ===== *)
(** * The validator terminates

    [wasm_loader_prepare_bytecode] of
    [core/iwasm/interpreter/wasm_loader.c] jumps over code that cannot be
    reached with the help of the block address scanner and its cache, and
    rewrites the code it walks over.  For every body - valid or not - each
    iteration of its loop moves the cursor forward. *)

From S2P Require Import Prelude Leb Opcode BlockAddr Instance Machine Validator Walk.
#[local] Open Scope Z_scope.
#[local] Open Scope loader_scope.

Section Total.
Context `{LoaderHeap}.
Variable module : WASMModule.
Variable func : WASMFunction.
Context (Hbase : 0 < wf_code func) (Hsize : 0 <= wf_code_size func).

Abbreviation base := (wf_code func).
Abbreviation size := (Z.to_nat (wf_code_size func)).

(** ** What most of the steps leave alone *)

Definition key (b : BranchBlock) : Z * Z := (bb_start_addr b, bb_else_addr b).
Definition core (s : LoaderState) : list (Z * Z) * Z * list Z * list (BlockAddr * BlockAddr) :=
  (map key (lc_frame_csp s), lc_p s, lc_buf s, lc_cache s).
Definition code (s : LoaderState) : list Z := take size (lc_buf s).

Definition keeps {A} (m : L A) : Prop := forall s a s', m s = Ok (a, s') -> core s' = core s.

Lemma lbind_ok {A B} (m : L A) (k : A -> L B) s b s' :
  lbind m k s = Ok (b, s') <-> exists a s1, m s = Ok (a, s1) /\ k a s1 = Ok (b, s').
Proof.
  unfold lbind. split.
  - destruct (m s) as [[a s1]| |]; [|done..]. eauto.
  - by intros (a & s1 & -> & ?).
Qed.

Lemma keeps_bind {A B} (m : L A) (k : A -> L B) :
  keeps m -> (forall a, keeps (k a)) -> keeps (lbind m k).
Proof.
  intros Hm Hk s b s' E. apply lbind_ok in E as (a & s1 & E1 & E2).
  by rewrite (Hk _ _ _ _ E2), (Hm _ _ _ E1).
Qed.
Lemma keeps_ret {A} (a : A) : keeps (lret a).
Proof. intros s b s' E. unfold lret in E. by simplify_eq. Qed.
Lemma keeps_fail {A} e : keeps (@fail A e).
Proof. done. Qed.
Lemma keeps_undef {A} : keeps (@lundef A).
Proof. done. Qed.
Lemma keeps_get {A} (f : LoaderState -> A) : keeps (lget f).
Proof. intros s b s' E. unfold lget in E. by simplify_eq. Qed.
Lemma keeps_mod f : (forall s, core (f s) = core s) -> keeps (lmod f).
Proof. intros Hf s b s' E. cbv [lmod] in E. by simplify_eq. Qed.
Lemma keeps_mod_ref r n mx : keeps (lmod (lc_set_ref r n mx)).
Proof. by apply keeps_mod. Qed.
Lemma keeps_if {A} (b : bool) (m k : L A) : keeps m -> keeps k -> keeps (if b then m else k).
Proof. by destruct b. Qed.
Lemma keeps_match_option {A B} (o : option B) (f : B -> L A) (k : L A) :
  (forall b, keeps (f b)) -> keeps k -> keeps (match o with Some b => f b | None => k end).
Proof. by destruct o. Qed.

Create HintDb keeps.
#[local] Hint Resolve keeps_bind keeps_ret keeps_fail keeps_undef keeps_get keeps_mod_ref keeps_if
  keeps_match_option : keeps.

Ltac keep := repeat (intros; first [apply keeps_bind | apply keeps_if | apply keeps_match_option
  | solve [auto with keeps] | apply keeps_mod; reflexivity]).

Lemma keeps_alloc n : keeps (alloc n).
Proof. unfold alloc. keep. Qed.
#[local] Hint Resolve keeps_alloc : keeps.
Lemma keeps_realloc a b : keeps (memory_realloc a b).
Proof. unfold memory_realloc. keep. Qed.
#[local] Hint Resolve keeps_realloc : keeps.
Lemma keeps_check_push : keeps check_stack_push.
Proof. unfold check_stack_push. keep. Qed.
#[local] Hint Resolve keeps_check_push : keeps.
Lemma keeps_push_cell t : keeps (push_cell t).
Proof. unfold push_cell. keep. Qed.
#[local] Hint Resolve keeps_push_cell : keeps.
Lemma keeps_push t : keeps (wasm_loader_push_frame_ref t).
Proof. unfold wasm_loader_push_frame_ref. keep. Qed.
Lemma keeps_top k : keeps (frame_ref_top k).
Proof. unfold frame_ref_top. keep. Qed.
Lemma keeps_mismatch {A} : keeps (@type_mismatch A).
Proof. done. Qed.
#[local] Hint Resolve keeps_push keeps_top keeps_mismatch : keeps.
Lemma keeps_check_pop t : keeps (check_stack_pop t).
Proof. unfold check_stack_pop. keep. Qed.
#[local] Hint Resolve keeps_check_pop : keeps.
Lemma keeps_pop t : keeps (wasm_loader_pop_frame_ref t).
Proof. unfold wasm_loader_pop_frame_ref. keep. Qed.
#[local] Hint Resolve keeps_pop : keeps.
Lemma keeps_pop_all l : keeps (pop_all l).
Proof. induction l; cbn; keep. Qed.
Lemma keeps_push_all l : keeps (push_all l).
Proof. induction l; cbn; keep. Qed.
Lemma keeps_get_block d : keeps (get_block d).
Proof. unfold get_block. keep. Qed.
Lemma map_key_alter f k (l : list BranchBlock) :
  (forall b, key (f b) = key b) -> map key (alter f k l) = map key l.
Proof.
  intros Hf. revert k. induction l as [|b l IH]; intros [|k]; cbn; [done..| |].
  - by rewrite Hf.
  - f_equal. apply IH.
Qed.
Lemma keeps_upd_block d f : (forall b, key (f b) = key b) -> keeps (upd_block d f).
Proof.
  intros Hf. apply keeps_mod. intros s. unfold core. destruct (_ =? 0); cbn; [done|].
  by rewrite map_key_alter.
Qed.
Lemma keeps_reachable d : keeps (upd_block d bb_set_reachable).
Proof. by apply keeps_upd_block. Qed.
Lemma keeps_result t : keeps (result_on_top t).
Proof. unfold result_on_top. keep. Qed.
#[local] Hint Resolve keeps_pop_all keeps_push_all keeps_get_block keeps_reachable keeps_result : keeps.
Lemma keeps_check_br d : keeps (wasm_loader_check_br d).
Proof. unfold wasm_loader_check_br. keep. Qed.
Lemma keeps_set_num n : keeps (set_stack_cell_num n).
Proof. by apply keeps_mod. Qed.
Lemma keeps_clear : keeps clear_const.
Proof. by apply keeps_mod. Qed.
Lemma keeps_result_type t : keeps (result_type t).
Proof. unfold result_type. keep. Qed.
#[local] Hint Resolve keeps_check_br keeps_set_num keeps_clear keeps_result_type : keeps.
Lemma keeps_call_type t : keeps (call_type t).
Proof. unfold call_type. keep. Qed.
Lemma keeps_check_memory : keeps (check_memory module).
Proof. unfold check_memory. keep. Qed.
#[local] Hint Resolve keeps_call_type keeps_check_memory : keeps.

(** ** Reading immediates *)

Abbreviation rest_of s := (code_from func (lc_buf s) (lc_p s)).

Lemma read_with_moves {mb r} s v s' :
  reader_ok mb r -> read_with func r s = Ok (v, s') ->
  exists k, 1 <= k /\ r (rest_of s) = Ok (v, k) /\ skip_leb true (rest_of s) mb 0 = Ok k /\
    s' = lc_set_p (lc_p s + k) s.
Proof.
  intros Hr E. unfold read_with in E. destruct (r _) as [[v' k]| |] eqn:Er; [|done..]. simplify_eq.
  destruct (Hr _ _ _ Er) as (? & ? & _). by exists k.
Qed.

Lemma read_byte_moves s v s' :
  read_byte func s = Ok (v, s') ->
  lc_buf s !! Z.to_nat (lc_p s - base) = Some v /\ s' = lc_set_p (lc_p s + 1) s.
Proof. unfold read_byte. destruct (_ !! _); [|done]. intros ?. by simplify_eq. Qed.

Lemma code_from_move s k :
  base <= lc_p s -> 0 <= k ->
  code_from func (lc_buf s) (lc_p s + k) = drop (Z.to_nat k) (rest_of s).
Proof. intros Hp Hk. unfold code_from. rewrite drop_drop. f_equal. lia. Qed.

Lemma rest_of_length s : base <= lc_p s -> p_end func <= base + Z.of_nat (length (lc_buf s)) ->
  Z.of_nat (length (rest_of s)) = Z.max 0 (p_end func - lc_p s).
Proof. intros Hp Hl. unfold code_from, p_end in *. rewrite length_drop, length_take. lia. Qed.

(** A byte read before [p_end] is in the rest of the code. *)
Lemma rest_of_byte s v :
  base <= lc_p s < p_end func -> lc_buf s !! Z.to_nat (lc_p s - base) = Some v ->
  exists r, rest_of s = v :: r.
Proof.
  intros Hp Hv. unfold code_from, p_end in *.
  assert (Hl : take size (lc_buf s) !! Z.to_nat (lc_p s - base) = Some v)
    by (rewrite lookup_take_lt by lia; done).
  eexists. by rewrite (drop_S _ _ _ Hl).
Qed.

(** The step of an opcode that only moves the cursor over its immediates. *)
Definition plain_from (kind : imm_kind) (s s' : LoaderState) : Prop :=
  exists k, 0 <= k /\ core s' = (map key (lc_frame_csp s), lc_p s + k, lc_buf s, lc_cache s) /\
    skip_imm true kind (rest_of s) = Ok k.

(** The byte of [memory.size], [memory.grow] and [call_indirect] may be read
    behind the end. *)
Definition plain_or_over (kind : imm_kind) (s s' : LoaderState) : Prop :=
  (lc_p s <= lc_p s' /\ p_end func < lc_p s') \/ plain_from kind s s'.

Lemma plain_keeps {A} (m : L A) s a s' :
  keeps m -> m s = Ok (a, s') -> plain_from ImmNone s s'.
Proof.
  intros Hm E. exists 0. split; [lia|]. split; [|done]. rewrite (Hm _ _ _ E). unfold core.
  by rewrite Z.add_0_r.
Qed.

Lemma core_set_p s p : core (lc_set_p p s) = (map key (lc_frame_csp s), p, lc_buf s, lc_cache s).
Proof. done. Qed.

Lemma plain_leb32 {A} (m : Z -> L A) s a s' :
  (forall v, keeps (m v)) -> (llet v := leb_u32 func in m v) s = Ok (a, s') -> plain_from ImmLeb32 s s'.
Proof.
  intros Hm E. apply lbind_ok in E as (v & s1 & E1 & E2).
  apply (read_with_moves _ _ _ read_u32_ok) in E1 as (k & Hk & _ & Hs & ->).
  exists k. split; [lia|]. split; [|done]. by rewrite (Hm _ _ _ _ E2).
Qed.

Lemma plain_sleb32 {A} (m : Z -> L A) s a s' :
  (forall v, keeps (m v)) -> (llet v := leb_s32 func in m v) s = Ok (a, s') -> plain_from ImmSLeb32 s s'.
Proof.
  intros Hm E. apply lbind_ok in E as (v & s1 & E1 & E2).
  apply (read_with_moves _ _ _ read_s32_ok) in E1 as (k & Hk & _ & Hs & ->).
  exists k. split; [lia|]. split; [|done]. by rewrite (Hm _ _ _ _ E2).
Qed.

Lemma plain_sleb64 {A} (m : Z -> L A) s a s' :
  (forall v, keeps (m v)) -> (llet v := leb_s64 func in m v) s = Ok (a, s') -> plain_from ImmSLeb64 s s'.
Proof.
  intros Hm E. apply lbind_ok in E as (v & s1 & E1 & E2).
  apply (read_with_moves _ _ _ read_s64_ok) in E1 as (k & Hk & _ & Hs & ->).
  exists k. split; [lia|]. split; [|done]. by rewrite (Hm _ _ _ _ E2).
Qed.

Lemma plain_skip {A} (m : L A) n kind s a s' :
  keeps m -> 0 <= n -> (forall l, skip_imm true kind l = Ok n) ->
  (ldo skip_bytes n in m) s = Ok (a, s') -> plain_from kind s s'.
Proof.
  intros Hm Hn Hs E. apply lbind_ok in E as (v & s1 & E1 & E2). unfold skip_bytes, lmod in E1.
  simplify_eq. exists n. split; [done|]. split; [|done]. by rewrite (Hm _ _ _ E2).
Qed.

Lemma plain_memory_access pops pushes s s' :
  base <= lc_p s -> op_memory_access module func pops pushes s = Ok (tt, s') -> plain_from ImmLeb32x2 s s'.
Proof.
  intros Hp E. unfold op_memory_access in E. apply lbind_ok in E as ([] & s1 & E1 & E).
  apply lbind_ok in E as (al & s2 & E2 & E). apply lbind_ok in E as (o & s3 & E3 & E4).
  apply keeps_check_memory in E1. unfold core in E1. injection E1 as K1 K2 K3 K4.
  apply (read_with_moves _ _ _ read_u32_ok) in E2 as (k & Hk & _ & Hs & ->).
  apply (read_with_moves _ _ _ read_u32_ok) in E3 as (k2 & Hk2 & _ & Hs2 & ->).
  cbn in Hs2. rewrite K3, K2 in Hs, Hs2. rewrite code_from_move in Hs2 by lia.
  exists (k + k2). split; [lia|]. split.
  - assert (Hkp : keeps (ldo pop_all pops in push_all pushes)) by keep.
    rewrite (Hkp _ _ _ E4), core_set_p. cbn. rewrite K1, K2, K3, K4. do 3 f_equal. lia.
  - cbn [skip_imm]. unfold skip_leb_uint32. rewrite Hs. cbn [res_bind]. by rewrite Hs2.
Qed.

Lemma plain_memory_size grow s s' :
  base <= lc_p s -> op_memory_size_grow module func grow s = Ok (tt, s') -> plain_or_over ImmLeb32 s s'.
Proof.
  intros Hp E. unfold op_memory_size_grow in E. apply lbind_ok in E as ([] & s1 & E1 & E).
  apply lbind_ok in E as (z & s2 & E2 & E). apply keeps_check_memory in E1.
  unfold core in E1. injection E1 as K1 K2 K3 K4.
  apply read_byte_moves in E2 as [Hb ->]. rewrite K2, K3 in Hb.
  destruct (Z.eqb_spec z 0) as [->|]; [|done]. cbn [negb] in E.
  match type of E with ?m _ = _ => assert (Hkp : keeps m) by (destruct grow; keep) end.
  apply Hkp in E. rewrite core_set_p, K1, K2, K3, K4 in E.
  destruct (decide (p_end func < lc_p s + 1)) as [Hov|Hle].
  { left. unfold core in E. injection E as _ -> _ _. lia. }
  right. exists 1. split; [lia|]. split; [done|].
  destruct (rest_of_byte s 0) as [r ->]; [lia|done|done].
Qed.

Lemma plain_call_indirect s s' :
  base <= lc_p s -> op_call_indirect_checked module func s = Ok (tt, s') ->
  plain_or_over ImmCallIndirect s s'.
Proof.
  intros Hp E. unfold op_call_indirect_checked in E. destruct (_ && _); [done|].
  apply lbind_ok in E as (idx & s1 & E1 & E). apply lbind_ok in E as (z & s2 & E2 & E).
  apply (read_with_moves _ _ _ read_u32_ok) in E1 as (k & Hk & _ & Hs & ->).
  apply read_byte_moves in E2 as [Hb ->]. destruct (negb (z =? 0)); [done|].
  match type of E with ?m _ = _ => assert (Hkp : keeps m) by keep end.
  apply Hkp in E. rewrite core_set_p in E. cbn [lc_set_p lc_p lc_buf lc_cache lc_frame_csp] in E.
  replace (lc_p s + k + 1) with (lc_p s + (k + 1)) in E by lia.
  destruct (decide (p_end func < lc_p s + (k + 1))) as [Hov|Hle].
  { left. unfold core in E. injection E as _ -> _ _. lia. }
  right. exists (k + 1). split; [lia|]. split; [done|]. cbn [skip_imm]. unfold skip_leb_uint32. rewrite Hs. cbn [res_bind].
    destruct (rest_of_byte (lc_set_p (lc_p s + k) s) z) as [r Er]; [cbn; lia|done|].
    cbn in Er. rewrite code_from_move in Er by lia. by rewrite Er.
Qed.

Lemma skip_leb_len chk l mb c k : skip_leb chk l mb c = Ok k -> k - c <= Z.of_nat (length l).
Proof.
  revert c. induction l as [|b l IH]; intros c; cbn [skip_leb length].
  - destruct (_ <? _); [done|]. by destruct chk.
  - destruct (_ <? _); [done|]. destruct (_ =? 0); [intros ?; simplify_eq; lia|].
    intros E. apply IH in E. lia.
Qed.

Lemma check_labels_moves (f : nat) i count s s' :
  base <= lc_p s -> 0 <= i -> check_labels func f i count s = Ok (tt, s') ->
  exists k, 0 <= k /\ core s' = (map key (lc_frame_csp s), lc_p s + k, lc_buf s, lc_cache s) /\
    forall (g : nat) acc, (length (rest_of s) <= g)%nat ->
      skip_leb_n g true (rest_of s) (count + 1 - i) acc = Ok (acc + k).
Proof.
  revert i s. induction f as [|f IH]; intros i s Hp Hi E; cbn [check_labels] in E.
  - destruct (Z.ltb_spec count i); [|done]. unfold lret in E. simplify_eq. exists 0.
    split; [lia|]. unfold core. rewrite !Z.add_0_r. split; [done|]. intros [|g] acc _; cbn [skip_leb_n];
    rewrite (proj2 (Z.leb_le _ _)) by lia; f_equal; lia.
  - destruct (Z.ltb_spec count i).
    + unfold lret in E. simplify_eq. exists 0.
      split; [lia|]. unfold core. rewrite !Z.add_0_r. split; [done|]. intros [|g] acc _; cbn [skip_leb_n];
      rewrite (proj2 (Z.leb_le _ _)) by lia; f_equal; lia.
    + apply lbind_ok in E as (d & s1 & E1 & E). apply lbind_ok in E as ([] & s2 & E2 & E).
      apply (read_with_moves _ _ _ read_u32_ok) in E1 as (k & Hk & _ & Hs & ->).
      apply keeps_check_br in E2. rewrite core_set_p in E2. unfold core in E2. injection E2 as K1 K2 K3 K4.
      apply IH in E as (k2 & Hk2 & Hc & Hskip); [|lia..]. exists (k + k2). split; [lia|].
      split; [rewrite Hc, K1, K2, K3, K4; do 3 f_equal; lia|]. intros g acc Hg.
      rewrite K2, K3, code_from_move in Hskip by lia. pose proof (skip_leb_len _ _ _ _ _ Hs).
      destruct g as [|g]; [lia|]. cbn [skip_leb_n]. rewrite (proj2 (Z.leb_gt _ _)) by lia.
      unfold skip_leb_uint32. rewrite Hs. cbn [res_bind].
      replace (count + 1 - i - 1) with (count + 1 - (i + 1)) by lia.
      rewrite Hskip by (rewrite length_drop; lia). f_equal. lia.
Qed.

(** The part of [br_table] before the jump. *)
Lemma br_table_prefix_moves s s' :
  base <= lc_p s ->
  (llet count := leb_u32 func in
   ldo wasm_loader_pop_frame_ref VALUE_TYPE_I32 in
   check_labels func (S size) 0 count) s = Ok (tt, s') -> plain_from ImmBrTable s s'.
Proof.
  intros Hp E. apply lbind_ok in E as (count & s1 & E1 & E). apply lbind_ok in E as ([] & s2 & E2 & E).
  apply (read_with_moves _ _ _ read_u32_ok) in E1 as (k & Hk & Hr & Hs & ->).
  apply keeps_pop in E2. rewrite core_set_p in E2. unfold core in E2. injection E2 as K1 K2 K3 K4.
  apply check_labels_moves in E as (k2 & Hk2 & Hc & Hskip); [|lia..].
  exists (k + k2). split; [lia|]. split; [rewrite Hc, K1, K2, K3, K4; do 3 f_equal; lia|].
  cbn [skip_imm]. rewrite Hr. cbn [res_bind]. rewrite K2, K3, code_from_move in Hskip by lia.
  rewrite Z.sub_0_r in Hskip. apply Hskip. rewrite length_drop. lia.
Qed.

(** ** The invariant

    [l] are the keys of the open blocks, innermost first, at position [x]
    of the body [c]. *)

Definition blocks_ok (c : list Z) (l : list (Z * Z)) (x : nat) : Prop :=
  forall k b, l !! k = Some b -> exists a, b.1 = base + Z.of_nat a /\
    block_from c a x (Z.of_nat (length l) - 1 - Z.of_nat k) (Z.of_nat k) /\ b.2 < base + Z.of_nat x.

Definition here (s : LoaderState) (x : nat) : Prop :=
  lc_p s = base + Z.of_nat x /\ cache_sound base (code s) (lc_cache s) /\
  lc_frame_csp s <> [] /\ blocks_ok (code s) (map key (lc_frame_csp s)) x.

Definition inv (s : LoaderState) : Prop := p_end func <= lc_p s \/ exists x, here s x.

Lemma rest_of_drop s x : lc_p s = base + Z.of_nat x -> rest_of s = drop x (code s).
Proof. intros ->. unfold code_from, code. f_equal. lia. Qed.

Lemma blocks_ok_step c l x n e :
  blocks_ok c l x -> instr (drop x c) = Some (n, e) -> e = 0 -> blocks_ok c l (x + n).
Proof.
  intros Hl Hi -> k b Hk. destruct (Hl k b Hk) as (a & Ha & Hb & Hlt). exists a. split; [done|].
  split; [|lia].
  pose proof (block_from_step _ _ _ _ _ _ _ Hb Hi ltac:(lia)) as Hs. by rewrite Z.add_0_r in Hs.
Qed.

Lemma blocks_ok_path c l x : blocks_ok c l x -> l <> [] -> path c x (Z.of_nat (length l) - 1).
Proof.
  intros Hl Hne. destruct l as [|b l]; [done|]. destruct (Hl 0%nat b eq_refl) as (a & _ & Hb & _).
  pose proof (bf_here _ _ _ _ _ Hb) as Hh. by replace (Z.of_nat (length (b :: l)) - 1)
    with (Z.of_nat (length (b :: l)) - 1 - Z.of_nat 0 + Z.of_nat 0) by lia.
Qed.

(** Entering a block whose body starts at [x + 2]. *)
Lemma blocks_ok_open c l x e :
  blocks_ok c l x -> l <> [] -> instr (drop x c) = Some (2%nat, 1) -> e < base + Z.of_nat (x + 2) ->
  blocks_ok c ((base + Z.of_nat (x + 2), e) :: l) (x + 2).
Proof.
  intros Hl Hne Hi He [|k] b Hk; cbn in Hk.
  - simplify_eq. exists (x + 2)%nat. split; [done|]. split; [|exact He]. cbn [length].
    apply block_from_start. pose proof (path_next _ _ _ _ _ (blocks_ok_path _ _ _ Hl Hne) Hi) as Hp.
    by replace (Z.of_nat (S (length l)) - 1 - Z.of_nat 0) with (Z.of_nat (length l) - 1 + 1) by lia.
  - destruct (Hl k b Hk) as (a & Ha & Hb & Hlt). exists a. split; [done|]. split; [|lia].
    replace (Z.of_nat (S k)) with (Z.of_nat k + 1) by lia. cbn [length].
    replace (Z.of_nat (S (length l)) - 1 - (Z.of_nat k + 1)) with (Z.of_nat (length l) - 1 - Z.of_nat k) by lia.
    apply block_from_step; [done..|lia].
Qed.

(** Leaving the innermost block at its [end]. *)
Lemma blocks_ok_close c b l x :
  blocks_ok c (b :: l) x -> is_end c x -> blocks_ok c l (x + 1).
Proof.
  intros Hl Hi k b' Hk. destruct (Hl (S k) b' Hk) as (a & Ha & Hb & Hlt). exists a. split; [done|].
  split; [|lia]. cbn [length] in Hb.
  pose proof (block_from_step _ _ _ _ _ _ _ Hb Hi ltac:(lia)) as Hs.
  replace (Z.of_nat (S k) + -1) with (Z.of_nat k) in Hs by lia.
  by replace (Z.of_nat (S (length l)) - 1 - Z.of_nat (S k)) with (Z.of_nat (length l) - 1 - Z.of_nat k)
    in Hs by lia.
Qed.

(** ** Jumps *)

Lemma scan_nil f bt p e d st s : scan f true bt (mkScan p [] e d st) <> Ok s.
Proof. by destruct f. Qed.

Lemma find_addrs_sound b s b' s' a d :
  cache_sound base (code s) (lc_cache s) -> find_addrs func b s = Ok (b', s') ->
  bb_start_addr b = base + Z.of_nat a -> path (code s) a d \/ drop a (code s) = [] ->
  core s' = (map key (lc_frame_csp s), lc_p s, lc_buf s, lc_cache s') /\
  lc_frame_csp s' = lc_frame_csp s /\
  cache_sound base (code s) (lc_cache s') /\ bb_start_addr b' = bb_start_addr b /\
  bb_block_type b' = bb_block_type b /\
  exists m, bb_end_addr b' = base + Z.of_nat m /\ block_from (code s) a m d 0 /\ is_end (code s) m /\
    (else_sound base (code s) a m d (bb_else_addr b') \/ bb_else_addr b' = bb_else_addr b).
Proof.
  intros Hc E Ha Hpath. unfold find_addrs in E.
  destruct (lc_cache s !! cache_line (bb_start_addr b)) as [[c0 c1]|] eqn:El; [|done].
  assert (Hfrom : code_from func (lc_buf s) (bb_start_addr b) = drop a (code s)).
  { rewrite Ha. unfold code_from, code. f_equal. lia. }
  assert (Hhit : forall ce, entry_sound base (code s) ce -> BlockAddr.start_addr ce = bb_start_addr b ->
    Ok (bb_set_addrs (BlockAddr.else_addr ce) (BlockAddr.end_addr ce) b, s) = Ok (b', s') ->
    core s' = (map key (lc_frame_csp s), lc_p s, lc_buf s, lc_cache s') /\
    lc_frame_csp s' = lc_frame_csp s /\
    cache_sound base (code s) (lc_cache s') /\ bb_start_addr b' = bb_start_addr b /\
    bb_block_type b' = bb_block_type b /\
    exists m, bb_end_addr b' = base + Z.of_nat m /\ block_from (code s) a m d 0 /\ is_end (code s) m /\
      (else_sound base (code s) a m d (bb_else_addr b') \/ bb_else_addr b' = bb_else_addr b)).
  { intros ce Hce Hst Eq. injection Eq as <- <-. split_and!; [done..|]. cbn.
    destruct Hce as [H0|(a' & m & d' & Hs & Hn & Hb & Hend & Hel)]; [lia|].
    assert (a' = a) as -> by lia. destruct Hpath as [Hpath|Hnil].
    - assert (d' = d) as -> by (apply (path_det (code s) a); [apply Hb|done]).
      exists m. split_and!; [done..|]. by left.
    - pose proof (bf_le _ _ _ _ _ Hb). unfold is_end in Hend.
      replace m with (a + (m - a))%nat in Hend by lia.
      by rewrite <- (drop_drop (code s) _ a), Hnil, drop_nil in Hend. }
  pose proof (Forall_lookup_1 _ _ _ _ Hc El) as [H0 H1].
  destruct (Z.eqb_spec (BlockAddr.start_addr c0) (bb_start_addr b)); [by apply (Hhit c0)|].
  destruct (Z.eqb_spec (BlockAddr.start_addr c1) (bb_start_addr b)); [by apply (Hhit c1)|].
  clear Hhit. rewrite Hfrom in E.
  destruct (wasm_loader_find_block_addr _ _ _ _ _) as [[[e en] cache]| |] eqn:Ef; [|done..].
  injection E as <- <-.
  destruct Hpath as [Hpath|Hnil].
  - rewrite Ha in Ef. destruct (find_block_addr_sound base (code s) _ a d _ _ _ _ Hc Hpath Ef)
      as (Hc' & m & -> & Hb & Hend & Hel).
    split_and!; [done..|]. exists m. split_and!; [done..|]. cbn.
    destruct (Z.eqb_spec e 0); [by right|by left].
  - rewrite Hnil in Ef. unfold wasm_loader_find_block_addr in Ef.
    apply res_bind_ok in Ef as (sc & Es & _). by apply scan_nil in Es.
Qed.

(** A jump within the [i]-th open block, forward: the blocks inside it are
    left. *)
Lemma blocks_ok_jump c l i b a y t v :
  blocks_ok c l y -> l !! i = Some b -> b.1 = base + Z.of_nat a ->
  block_from c a t (Z.of_nat (length l) - 1 - Z.of_nat i) 0 -> (y <= t)%nat ->
  v < base + Z.of_nat t ->
  blocks_ok c ((b.1, v) :: drop (S i) l) t.
Proof.
  intros Hl Hi Ha Hbt Hyt Hv. pose proof (lookup_lt_Some _ _ _ Hi) as Hlen.
  destruct (Hl i b Hi) as (a' & Ha' & Hb & _). assert (a' = a) as -> by lia. clear Ha'.
  pose proof (bf_le _ _ _ _ _ Hb).
  intros [|k] b' Hk; cbn [lookup list_lookup] in Hk.
  - simplify_eq. exists a. split; [done|]. split; [|exact Hv]. cbn [length]. rewrite length_drop.
    replace (Z.of_nat (S (length l - S i)) - 1 - Z.of_nat 0)
      with (Z.of_nat (length l) - 1 - Z.of_nat i) by lia. done.
  - change (drop (S i) l !! k = Some b') in Hk. rewrite lookup_drop in Hk.
    destruct (Hl _ _ Hk) as (a' & Ha' & Hb' & Hlt). exists a'. split; [done|]. split; [|lia].
    cbn [length]. rewrite length_drop.
    replace (Z.of_nat (S (length l - S i)) - 1 - Z.of_nat (S k))
      with (Z.of_nat (length l) - 1 - Z.of_nat (S i + k)) by lia.
    destruct Hb' as [Hp1 Hp2 Hle Hf]. pose proof (bf_here _ _ _ _ _ Hbt) as Ht.
    split; [done| |lia|].
    + by replace (Z.of_nat (length l) - 1 - Z.of_nat (S i + k) + Z.of_nat (S k))
        with (Z.of_nat (length l) - 1 - Z.of_nat i + 0) by lia.
    + intros z e Hz Hr. destruct (decide (z <= y)%nat); [apply (Hf z); [done|lia]|].
      pose proof (bf_floor _ _ _ _ _ Hbt z e Hz ltac:(lia)). lia.
Qed.

(** The end of an open block is not behind the cursor. *)
Lemma block_end_ahead c l i b a y m :
  blocks_ok c l y -> l !! i = Some b -> b.1 = base + Z.of_nat a ->
  block_from c a m (Z.of_nat (length l) - 1 - Z.of_nat i) 0 -> is_end c m -> (y <= m)%nat.
Proof.
  intros Hl Hi Ha Hbm Hend. destruct (Hl i b Hi) as (a' & Ha' & Hb & _).
  assert (a' = a) as -> by lia. pose proof (bf_here _ _ _ _ _ Hbm) as Hm. rewrite Z.add_0_r in Hm.
  destruct (decide (y <= m)%nat) as [|Hlt]; [done|exfalso].
  pose proof (path_next _ _ _ _ _ Hm Hend) as Hn. pose proof (bf_le _ _ _ _ _ Hbm).
  destruct (path_towards _ _ _ _ _ Hm (bf_here _ _ _ _ _ Hb)) as (n & e & Hi' & Hle); [lia|].
  unfold is_end in Hend. rewrite Hend in Hi'. simplify_eq.
  pose proof (bf_floor _ _ _ _ _ Hb (m + 1)%nat _ Hn ltac:(lia)). lia.
Qed.

Lemma block_behind_else c a m e d :
  block_from c a m d 0 -> (a <= e < m)%nat -> path c e d -> is_plain1 c e ->
  block_from c a (e + 1) d 0.
Proof.
  intros [Ha Hm Hle Hf] He Hp Hpl. pose proof (path_next _ _ _ _ _ Hp Hpl) as Hn.
  rewrite Z.add_0_r in Hn. split; [done|by rewrite Z.add_0_r|lia|].
  intros z k Hz Hr. apply (Hf z); [done|lia].
Qed.

(** Fields of a state with a given core. *)
Lemma core_eq s l p buf cache :
  core s = (l, p, buf, cache) ->
  map key (lc_frame_csp s) = l /\ lc_p s = p /\ lc_buf s = buf /\ lc_cache s = cache.
Proof. unfold core. intros E. by simplify_eq. Qed.

Lemma here_intro s l x buf cache :
  core s = (l, base + Z.of_nat x, buf, cache) -> cache_sound base (take size buf) cache ->
  l <> [] -> blocks_ok (take size buf) l x -> here s x.
Proof.
  intros E Hc Hne Hb. apply core_eq in E as (<- & Hp & <- & <-). split; [done|].
  split; [done|]. split; [|done]. by destruct (lc_frame_csp s).
Qed.

Lemma keys_lookup (l : list BranchBlock) k b : l !! k = Some b -> map key l !! k = Some (key b).
Proof. intros E. by rewrite list_lookup_fmap, E. Qed.

(** Both ways a jump out of unreachable code ends. *)
Lemma jump_inv s s1 b b' i x k s2 :
  here s x -> lc_frame_csp s !! i = Some b -> find_addrs func b s = Ok (b', s1) ->
  map key (lc_frame_csp s2) = key b' :: drop (S i) (map key (lc_frame_csp s)) ->
  lc_buf s2 = lc_buf s -> lc_cache s2 = lc_cache s1 -> lc_p s2 = k ->
  k = bb_end_addr b' \/
    (bb_else_addr b' <> 0 /\ k = bb_else_addr b' + 1 /\ (bb_else_addr b' = bb_else_addr b -> lc_p s <= bb_else_addr b) /\
     (lc_p s <= bb_else_addr b' \/ bb_start_addr b = lc_p s)) ->
  lc_p s <= k /\ exists y, here s2 y.
Proof.
  intros (Hp & Hc & Hne & Hbl) Hi Hf Hkeys Hbuf Hcache Hk Hor.
  pose proof (keys_lookup _ _ _ Hi) as Hki.
  destruct (Hbl i _ Hki) as (a & Ha & Hb & Helse). cbn in Ha, Helse.
  set (d := Z.of_nat (length (map key (lc_frame_csp s))) - 1 - Z.of_nat i) in *.
  destruct (find_addrs_sound _ _ _ _ a d Hc Hf Ha (or_introl (bf_start _ _ _ _ _ Hb)))
    as (_ & _ & Hc1 & Hs1 & _ & m & Hm & Hbm & Hend & Hel).
  pose proof (block_end_ahead _ _ _ _ _ _ _ Hbl Hki Ha Hbm Hend) as Hxm.
  assert (Hfin : forall t, block_from (code s) a t d 0 -> (x <= t)%nat -> bb_else_addr b' < base + Z.of_nat t ->
    k = base + Z.of_nat t -> lc_p s <= k /\ exists y, here s2 y).
  { intros t Hbt Hxt Hlt ->. split; [lia|]. exists t.
    apply (here_intro s2 (key b' :: drop (S i) (map key (lc_frame_csp s))) t (lc_buf s) (lc_cache s1));
      [unfold core; by rewrite Hkeys, Hbuf, Hcache, Hk|done|done|].
    unfold key at 1. rewrite Hs1. by apply (blocks_ok_jump _ _ _ (key b) a x). }
  destruct Hor as [->|(Hnz & -> & Hold & Hahead)].
  - apply (Hfin m); [done|done| |done].
    destruct Hel as [[->|(e & -> & ? & _)]| ->]; lia.
  - destruct Hel as [[?|(e & He & Hem & Hpe & Hple)]|Hsame]; [done| |].
    + apply (Hfin (e + 1)%nat); [by eapply block_behind_else| | |lia]; [|lia].
      destruct Hahead; [lia|]. lia.
    + specialize (Hold Hsame). lia.
Qed.

Definition forward (s s' : LoaderState) : Prop := lc_p s <= lc_p s' /\ inv s'.

Lemma lmod_ok f s u s' : lmod f s = Ok (u, s') -> s' = f s.
Proof. unfold lmod. intros E. by simplify_eq. Qed.
Lemma lget_ok {A} (f : LoaderState -> A) s a s' : lget f s = Ok (a, s') -> a = f s /\ s' = s.
Proof. unfold lget. intros E. by simplify_eq. Qed.

Lemma find_addrs_else b s b' s1 :
  find_addrs func b s = Ok (b', s1) -> lc_p s1 = lc_p s /\ lc_frame_csp s1 = lc_frame_csp s /\
  lc_buf s1 = lc_buf s.
Proof.
  unfold find_addrs. destruct (_ !! _) as [[c0 c1]|]; [|done].
  destruct (_ =? _); [intros ?; by simplify_eq|]. destruct (_ =? _); [intros ?; by simplify_eq|].
  destruct (wasm_loader_find_block_addr _ _ _ _ _) as [[[? ?] ?]| |]; [|done..]. intros ?. by simplify_eq.
Qed.

Lemma map_key_drop n (l : list BranchBlock) : map key (drop n l) = drop n (map key l).
Proof. by rewrite fmap_drop. Qed.

Lemma handle_next_forward s s' x :
  here s x -> handle_next_reachable_block func s = Ok (tt, s') -> forward s s'.
Proof.
  intros Hh E. unfold handle_next_reachable_block in E. apply lbind_ok in E as (l & s0 & E0 & E).
  apply lget_ok in E0 as [-> ->]. set (i := unreachable_blocks _) in *.
  destruct (lc_frame_csp s !! i) as [b|] eqn:Hi; [|done].
  apply lbind_ok in E as (b' & s1 & Ef & E). pose proof (find_addrs_else _ _ _ _ Ef) as (Hp1 & Hcsp1 & Hbuf1).
  apply lbind_ok in E as ([] & s2 & E2 & E). apply lbind_ok in E as ([] & s3 & E3 & E).
  apply lmod_ok in E2. apply lmod_ok in E3. apply lbind_ok in E as (p & s4 & E4 & E).
  apply lget_ok in E4 as [-> ->].
  assert (Hk3 : core s3 = (key b' :: drop (S i) (map key (lc_frame_csp s)), lc_p s, lc_buf s, lc_cache s1)).
  { rewrite E3, E2. unfold core. cbn [lc_set_csp lc_set_ref lc_frame_csp lc_p lc_buf lc_cache].
    rewrite Hp1, Hcsp1, Hbuf1. cbn [map]. by rewrite map_key_drop. }
  apply core_eq in Hk3 as (Hkeys & Hp3 & Hbuf3 & Hcache3).
  destruct ((bb_block_type b' =? BLOCK_TYPE_IF) && _ && _) eqn:Ecase.
  - apply lmod_ok in E. apply andb_prop in Ecase as [Ec Ele]. apply andb_prop in Ec as [_ Enz].
    apply negb_true_iff, Z.eqb_neq in Enz. apply Z.leb_le in Ele. rewrite Hp3 in Ele.
    destruct (jump_inv s s1 b b' i x (bb_else_addr b' + 1) s') as [? [y Hy]]; [done..|by subst s'|
      by subst s'|by subst s'|by subst s'|right|by subst s'; split; [|right; exists y]].
    split; [done|]. split; [done|]. split; [intros; lia|by left].
  - apply lbind_ok in E as ([] & s5 & E5 & E). apply lmod_ok in E5. apply keeps_push in E.
    subst s5. rewrite core_set_p in E. apply core_eq in E as (? & ? & ? & ?).
    destruct (jump_inv s s1 b b' i x (bb_end_addr b') s') as [? [y Hy]]; [done|done|done|congruence..|by left|].
    split; [lia|right; by exists y].
Qed.

(** ** Opcodes *)

(** The state behind the opcode byte of an instruction at [x]. *)
Record at_op (s : LoaderState) (x : nat) (op : WASMOpcode) : Prop := {
  ao_p : lc_p s = base + Z.of_nat x + 1;
  ao_lt : (x < size)%nat;
  ao_byte : exists b r, drop x (code s) = b :: r /\ handle_table !! Z.to_nat b = Some op;
  ao_cache : cache_sound base (code s) (lc_cache s);
  ao_open : lc_frame_csp s <> [];
  ao_blocks : blocks_ok (code s) (map key (lc_frame_csp s)) x
}.

Lemma at_op_rest s x op b r : at_op s x op -> drop x (code s) = b :: r -> rest_of s = r.
Proof.
  intros Hs Hx. rewrite (rest_of_drop s (x + 1)) by (rewrite (ao_p _ _ _ Hs); lia).
  by apply (drop_S_cons _ _ b).
Qed.

Lemma at_op_base s x op : at_op s x op -> base <= lc_p s.
Proof. intros Hs. rewrite (ao_p _ _ _ Hs). lia. Qed.

Lemma plain_instr_of s x op :
  at_op s x op -> imm_of op <> ImmStructured -> imm_of op <> ImmInvalid ->
  forall k, 0 <= k -> skip_imm true (imm_of op) (rest_of s) = Ok k ->
  instr (drop x (code s)) = Some (S (Z.to_nat k), 0).
Proof.
  intros Hs Hns Hv k Hk Hsk. destruct (ao_byte _ _ _ Hs) as (b & r & Hx & Hop).
  rewrite (at_op_rest s x op b r Hs Hx) in Hsk. rewrite Hx, (instr_op b r op Hop).
  unfold plain_instr. destruct (imm_of op); try done; by rewrite Hsk.
Qed.

Lemma plain_here s s' x op :
  at_op s x op -> imm_of op <> ImmStructured -> imm_of op <> ImmInvalid ->
  plain_from (imm_of op) s s' -> lc_p s <= lc_p s' /\ exists y, here s' y.
Proof.
  intros Hs Hns Hv (k & Hk & Hc & Hsk).
  pose proof (plain_instr_of s x op Hs Hns Hv k Hk Hsk) as Hi.
  pose proof (core_eq _ _ _ _ _ Hc) as (_ & Hp' & _). split; [lia|]. exists (x + S (Z.to_nat k))%nat.
  apply (here_intro s' (map key (lc_frame_csp s)) _ (lc_buf s) (lc_cache s)).
  - rewrite Hc. do 3 f_equal. rewrite (ao_p _ _ _ Hs). lia.
  - apply Hs.
  - pose proof (ao_open _ _ _ Hs). by destruct (lc_frame_csp s).
  - by apply (blocks_ok_step _ _ _ _ 0); [apply Hs|..].
Qed.

Lemma plain_forward s s' x op :
  at_op s x op -> imm_of op <> ImmStructured -> imm_of op <> ImmInvalid ->
  plain_or_over (imm_of op) s s' -> forward s s'.
Proof.
  intros Hs Hns Hv [[? ?]|Hp]; [split; [done|left; lia]|].
  destruct (plain_here s s' x op Hs Hns Hv Hp) as [? Hy]. split; [done|by right].
Qed.

(** A jump after the immediates of its opcode. *)
Lemma jump_forward (m : L unit) s s' x op :
  at_op s x op -> imm_of op <> ImmStructured -> imm_of op <> ImmInvalid ->
  (forall s1, m s = Ok (tt, s1) -> plain_from (imm_of op) s s1) ->
  (ldo m in handle_next_reachable_block func) s = Ok (tt, s') -> forward s s'.
Proof.
  intros Hs Hns Hv Hm E. apply lbind_ok in E as ([] & s1 & E1 & E).
  destruct (plain_here s s1 x op Hs Hns Hv (Hm _ E1)) as [Hle [y Hy]].
  destruct (handle_next_forward s1 s' y Hy E) as [? ?]. split; [lia|done].
Qed.

Lemma lbind_assoc {A B C} (m : L A) (f : A -> L B) (g : B -> L C) s :
  lbind (lbind m f) g s = lbind m (fun a => lbind (f a) g) s.
Proof. unfold lbind. by destruct (m s) as [[? ?]| |]. Qed.

(** Opening a block. *)
Lemma push_csp_moves type ret start s s' :
  wasm_loader_push_frame_csp type ret start s = Ok (tt, s') ->
  lc_frame_csp s' = mkBlock type ret false start 0 0 (lc_stack_cell_num s) :: lc_frame_csp s /\
  core s' = ((start, 0) :: map key (lc_frame_csp s), lc_p s, lc_buf s, lc_cache s).
Proof.
  intros E. unfold wasm_loader_push_frame_csp in E.
  do 4 (apply lbind_ok in E as (? & ? & E2 & E); apply lget_ok in E2 as [-> ->]).
  apply lbind_ok in E as (fr & s3 & E3 & E). apply lmod_ok in E.
  assert (Hk : core s3 = core s).
  { match type of E3 with ?m _ = _ => assert (Hkp : keeps m) by (destruct (lc_csp_free _); keep) end.
    by apply Hkp in E3. }
  apply core_eq in Hk as (_ & Hk2 & Hk3 & Hk4). subst s'. split; [done|].
  unfold core. cbn [lc_set_csp lc_frame_csp lc_p lc_buf lc_cache map]. by rewrite Hk2, Hk3, Hk4.
Qed.

Lemma open_block_moves type s s' :
  op_open_block func type s = Ok (tt, s') -> exists t fr,
    lc_buf s !! Z.to_nat (lc_p s - base) = Some t /\
    core s' = ((lc_p s + 1, 0) :: map key (lc_frame_csp s), lc_p s + 1, lc_buf s, lc_cache s) /\
    lc_frame_csp s' = mkBlock type t false (lc_p s + 1) 0 0 fr :: lc_frame_csp s.
Proof.
  intros E. unfold op_open_block in E. apply lbind_ok in E as (t & s1 & E1 & E).
  apply read_byte_moves in E1 as [Ht ->]. apply lbind_ok in E as (p & s2 & E2 & E).
  apply lget_ok in E2 as [-> ->]. apply push_csp_moves in E as [Hcsp Hc]. eexists t, _. by split_and!.
Qed.

(** A block opened at [x], its body at [x + 2] inside the code. *)
Lemma open_here s x op type s' :
  at_op s x op -> op = WASM_OP_BLOCK \/ op = WASM_OP_LOOP \/ op = WASM_OP_IF ->
  op_open_block func type s = Ok (tt, s') ->
  lc_p s' = lc_p s + 1 /\ ((x + 2 <= size)%nat -> here s' (x + 2)).
Proof.
  intros Hs Hop E. apply open_block_moves in E as (t & fr & Ht & Hc & Hcsp).
  apply core_eq in Hc as (Hk & Hp & Hbuf & Hcache). split; [done|]. intros Hle.
  destruct (ao_byte _ _ _ Hs) as (b & r & Hx & Hb). pose proof (at_op_rest s x op b r Hs Hx) as Hr.
  assert (Hlen : (1 <= length r)%nat).
  { destruct (rest_of_byte s t) as [r' Er]; [|done|].
    - rewrite (ao_p _ _ _ Hs). unfold p_end. lia.
    - rewrite Er in Hr. subst r. simpl. lia. }
  assert (Hi : instr (drop x (code s)) = Some (2%nat, 1)).
  { rewrite Hx, (instr_op b r op Hb). rewrite (bool_decide_true (1 <= length r)%nat) by done.
    by destruct Hop as [->|[-> | ->]]. }
  assert (Hpx : lc_p s + 1 = base + Z.of_nat (x + 2)) by (rewrite (ao_p _ _ _ Hs); lia).
  apply (here_intro s' ((base + Z.of_nat (x + 2), 0) :: map key (lc_frame_csp s)) _ (lc_buf s) (lc_cache s)).
  - unfold core. rewrite Hk, Hp, Hbuf, Hcache, Hpx. done.
  - apply Hs.
  - done.
  - apply blocks_ok_open; [apply Hs| |done|lia]. pose proof (ao_open _ _ _ Hs). by destruct (lc_frame_csp s).
Qed.

Lemma open_forward s x op type s' :
  at_op s x op -> op = WASM_OP_BLOCK \/ op = WASM_OP_LOOP \/ op = WASM_OP_IF ->
  op_open_block func type s = Ok (tt, s') -> forward s s'.
Proof.
  intros Hs Hop E. destruct (open_here _ _ _ _ _ Hs Hop E) as [Hp Hh]. split; [lia|].
  destruct (decide (x + 2 <= size)%nat) as [Hle|]; [right; by eexists; apply Hh|left].
  rewrite Hp, (ao_p _ _ _ Hs). unfold p_end. lia.
Qed.

Lemma keys_nil (l l' : list BranchBlock) : map key l = map key l' -> l' <> [] -> l <> [].
Proof. by destruct l, l'. Qed.

Lemma at_op_core s s' x op : core s' = core s -> at_op s x op -> at_op s' x op.
Proof.
  intros E Hs. apply core_eq in E as (Hk & Hp & Hb & Hc). destruct Hs as [H1 H2 H3 H4 H5 H6].
  unfold code in *. split; unfold code; rewrite ?Hp, ?Hb, ?Hc, ?Hk; try done.
  by eapply keys_nil.
Qed.

Lemma forward_core s s1 s' : lc_p s1 = lc_p s -> forward s1 s' -> forward s s'.
Proof. intros Hp [? ?]. split; [lia|done]. Qed.

Lemma inv_core s s' : core s' = core s -> inv s -> inv s'.
Proof.
  intros E [Hp|(x & Hp & Hc & Hne & Hb)]; apply core_eq in E as (Ek & Ep & Eb & Ec).
  - left. lia.
  - right. exists x. unfold here, code in *. rewrite Ek, Ep, Eb, Ec. split_and!; try done.
    by eapply keys_nil.
Qed.

Lemma if_forward s x s' :
  at_op s x WASM_OP_IF -> op_if_checked func s = Ok (tt, s') -> forward s s'.
Proof.
  intros Hs E. unfold op_if_checked in E. apply lbind_ok in E as ([] & s1 & E1 & E).
  apply keeps_pop in E1. pose proof (at_op_core _ _ _ _ E1 Hs) as Hs1.
  apply core_eq in E1 as (_ & Hp1 & _). apply (forward_core _ s1); [done|]. clear Hp1 Hs s.
  rename s1 into s, Hs1 into Hs. apply lbind_ok in E as ([] & s1 & E1 & E).
  pose proof (open_forward _ _ _ _ _ Hs ltac:(tauto) E1) as Hfw.
  destruct (open_here _ _ _ _ _ Hs ltac:(tauto) E1) as [Hp1 Hh1].
  apply open_block_moves in E1 as (t & fr & Ht & Hc1 & Hcsp1).
  apply lbind_ok in E as (ic & s2 & E2 & E). apply lget_ok in E2 as [-> ->].
  apply lbind_ok in E as (v & s2 & E2 & E). apply lget_ok in E2 as [-> ->].
  assert (Hdone : core s' = core s1 -> forward s s').
  { intros Ec. destruct Hfw as [Hle Hinv]. split; [apply core_eq in Ec as (_ & -> & _); done|].
    by apply (inv_core s1). }
  destruct (negb (lc_is_i32_const s1)); [apply Hdone; by apply keeps_reachable in E|].
  destruct (negb (lc_i32_const s1 =? 0)).
  { unfold lret in E. simplify_eq. by apply Hdone. }
  clear Hdone Hfw.
  (* a branch known not to be taken *)
  apply lbind_ok in E as (b & s2 & E2 & E).
  assert (b = mkBlock BLOCK_TYPE_IF t false (lc_p s + 1) 0 0 fr /\ s2 = s1) as [-> ->].
  { unfold get_block in E2. apply lbind_ok in E2 as (l & s3 & E3 & E2). apply lget_ok in E3 as [-> ->].
    apply lbind_ok in E2 as (l & s3 & E3 & E2). apply lget_ok in E3 as [-> ->].
    rewrite Hcsp1 in E2. change (u32 (0 + 1)) with 1 in E2. change (Z.to_nat (1 - 1)) with 0%nat in E2.
    cbn in E2. unfold lret in E2. by simplify_eq. }
  apply lbind_ok in E as (b' & s2 & Ef & E). pose proof (find_addrs_else _ _ _ _ Ef) as (Hp2 & Hcsp2 & Hbuf2).
  apply lbind_ok in E as ([] & s3 & E3 & E). apply lmod_ok in E3.
  change (u32 (0 + 1)) with 1 in E3. change (Z.to_nat (1 - 1)) with 0%nat in E3. cbn [Z.eqb] in E3.
  apply core_eq in Hc1 as (Hk1 & _ & Hbuf1 & Hcache1).
  assert (Hx : (x + 2 <= size)%nat).
  { destruct (decide (x + 2 <= size)%nat) as [|Hgt]; [done|exfalso].
    assert (Hnil : drop (x + 2) (code s1) = []).
    { apply drop_ge. unfold code. rewrite length_take. lia. }
    destruct (find_addrs_sound _ _ _ _ (x + 2)%nat 0 ltac:(unfold code; rewrite Hbuf1, Hcache1; apply Hs) Ef)
      as (_ & _ & _ & _ & _ & m & _ & Hbm & Hend & _).
    - cbn. rewrite (ao_p _ _ _ Hs). lia.
    - by right.
    - pose proof (bf_le _ _ _ _ _ Hbm). unfold is_end in Hend.
      replace m with (x + 2 + (m - (x + 2)))%nat in Hend by lia.
      by rewrite <- (drop_drop (code s1) _ (x + 2)), Hnil, drop_nil in Hend. }
  specialize (Hh1 Hx).
  assert (Hk3 : map key (lc_frame_csp s3) = key b' :: drop 1 (map key (lc_frame_csp s1)) /\
    lc_buf s3 = lc_buf s1 /\ lc_cache s3 = lc_cache s2).
  { subst s3. cbn [lc_set_csp lc_frame_csp lc_buf lc_cache]. rewrite Hcsp2, Hbuf2, Hcsp1. done. }
  destruct Hk3 as (Hk3 & Hbuf3 & Hcache3).
  assert (Hgo : forall k, s' = lc_set_p k s3 ->
    (k = bb_end_addr b' \/ (bb_else_addr b' <> 0 /\ k = bb_else_addr b' + 1)) -> forward s s').
  { intros k -> Hk. destruct (jump_inv s1 s2 _ b' 0 (x + 2) k (lc_set_p k s3) Hh1
      ltac:(by rewrite Hcsp1) Ef Hk3 Hbuf3 Hcache3 eq_refl) as [? [y Hy]].
    - destruct Hk as [->|[Hnz ->]]; [by left|right]. cbn. split_and!; [done|done|lia|right; lia].
    - split; [cbn; lia|right; by exists y]. }
  destruct (negb (bb_else_addr b' =? 0)) eqn:Enz; apply lmod_ok in E; eapply Hgo; try exact E.
  - right. apply negb_true_iff, Z.eqb_neq in Enz. done.
  - by left.
Qed.

Lemma else_forward s x s' :
  at_op s x WASM_OP_ELSE -> op_else_checked s = Ok (tt, s') -> forward s s'.
Proof.
  intros Hs E. unfold op_else_checked in E. apply lbind_ok in E as (l & s1 & E1 & E).
  apply lget_ok in E1 as [-> ->]. destruct (lc_frame_csp s) as [|b [|b2 l]] eqn:Hl; [done..|].
  destruct (_ =? _); [|done]. apply lbind_ok in E as (p & s1 & E1 & E). apply lget_ok in E1 as [-> ->].
  apply lbind_ok in E as ([] & s1 & E1 & E). apply lmod_ok in E1. apply keeps_set_num in E.
  change (u32 (0 + 1)) with 1 in E1. change (Z.to_nat (1 - 1)) with 0%nat in E1. cbn [Z.eqb] in E1.
  assert (Hc : core s' = ((bb_start_addr b, lc_p s - 1) :: map key (b2 :: l), lc_p s, lc_buf s, lc_cache s)).
  { rewrite E, E1. unfold core. cbn [lc_set_csp lc_frame_csp lc_p lc_buf lc_cache]. by rewrite Hl. }
  destruct (ao_byte _ _ _ Hs) as (by_ & r & Hx & Hb).
  assert (Hi : instr (drop x (code s)) = Some (1%nat, 0)) by (by rewrite Hx, (instr_op _ _ _ Hb)).
  pose proof (ao_blocks _ _ _ Hs) as Hbl. rewrite Hl in Hbl.
  split; [apply core_eq in Hc as (_ & -> & _); lia|]. right. exists (x + 1)%nat.
  apply (here_intro _ ((bb_start_addr b, lc_p s - 1) :: map key (b2 :: l)) _ (lc_buf s) (lc_cache s)).
  - rewrite Hc. do 3 f_equal. rewrite (ao_p _ _ _ Hs). lia.
  - apply Hs.
  - done.
  - pose proof (blocks_ok_step _ _ _ _ 0 Hbl Hi eq_refl) as Hst. intros [|k] b' Hk; cbn in Hk.
    + simplify_eq. destruct (Hst 0%nat (key b) eq_refl) as (a & Ha & Hb' & _). exists a.
      split; [done|]. split; [done|]. cbn. rewrite (ao_p _ _ _ Hs). lia.
    + by apply (Hst (S k)).
Qed.

Lemma end_forward s x s' :
  at_op s x WASM_OP_END -> op_end_checked func s = Ok (tt, s') -> forward s s'.
Proof.
  intros Hs E. unfold op_end_checked in E. apply lbind_ok in E as (b & s1 & E1 & E).
  unfold wasm_loader_pop_frame_csp in E1. apply lbind_ok in E1 as (l & s2 & E2 & E1).
  apply lget_ok in E2 as [-> ->]. destruct (lc_frame_csp s) as [|b0 l] eqn:Hl; [done|].
  apply lbind_ok in E1 as ([] & s2 & E2 & E1). apply lmod_ok in E2. unfold lret in E1. injection E1 as <- <-.
  apply lbind_ok in E as ([] & s3 & E3 & E). apply lbind_ok in E as ([] & s4 & E4 & E).
  apply keeps_pop in E3. apply keeps_push in E4. rewrite E3 in E4. clear E3.
  assert (Hc : core s4 = (map key l, lc_p s, lc_buf s, lc_cache s)) by (by rewrite E4, E2).
  apply lbind_ok in E as (l4 & s5 & E5 & E). apply lget_ok in E5 as [-> ->].
  apply lbind_ok in E as (p & s5 & E5 & E). apply lget_ok in E5 as [-> ->].
  pose proof (core_eq _ _ _ _ _ Hc) as (Hk4 & Hp4 & Hbuf4 & Hc4).
  pose proof (ao_p _ _ _ Hs) as Hp. pose proof (ao_lt _ _ _ Hs) as Hlt.
  destruct (lc_frame_csp s4) as [|b4 l4] eqn:H4.
  - apply lmod_ok in E. subst s'. split; cbn; [unfold p_end; lia|left; cbn; lia].
  - apply lmod_ok in E.
    assert (Hc' : core s' = (map key l, lc_p s, lc_buf s, lc_cache s)).
    { rewrite E. unfold core in *. cbn [lc_set_csp lc_frame_csp lc_p lc_buf lc_cache]. by rewrite Hc. }
    split; [apply core_eq in Hc' as (_ & -> & _); lia|]. right. exists (x + 1)%nat.
    destruct (ao_byte _ _ _ Hs) as (by_ & r & Hx & Hb).
    apply (here_intro _ (map key l) _ (lc_buf s) (lc_cache s)).
    + rewrite Hc'. do 3 f_equal. lia.
    + apply Hs.
    + destruct l; [by cbn in Hk4|done].
    + pose proof (ao_blocks _ _ _ Hs) as Hbl. rewrite Hl in Hbl.
      apply (blocks_ok_close (code s) (key b0)); [done|]. unfold is_end. by rewrite Hx, (instr_op _ _ _ Hb).
Qed.

(** ** Rewriting *)

Lemma write_code_ok q b s s' : write_code func q b s = Ok (tt, s') ->
  s' = lc_set_buf (<[Z.to_nat (q - base) := b]> (lc_buf s)) s.
Proof. intros E. by apply lmod_ok in E. Qed.

(** What a run of writes to [\[x, x + n)] leaves. *)
Definition wrote (s s' : LoaderState) (x n : nat) : Prop :=
  map key (lc_frame_csp s') = map key (lc_frame_csp s) /\ lc_p s' = lc_p s /\ lc_cache s' = lc_cache s /\
  length (lc_buf s') = length (lc_buf s) /\
  forall j, (j < x \/ x + n <= j)%nat -> lc_buf s' !! j = lc_buf s !! j.

Lemma fill_nops_ok n q s s' :
  base <= q -> (Z.to_nat (q - base) + n <= length (lc_buf s))%nat -> fill_nops func n q s = Ok (tt, s') ->
  wrote s s' (Z.to_nat (q - base)) n /\
  forall j, (Z.to_nat (q - base) <= j < Z.to_nat (q - base) + n)%nat -> lc_buf s' !! j = Some (opcode_val WASM_OP_NOP).
Proof.
  revert q s. induction n as [|n IH]; intros q s Hq Hle E; cbn [fill_nops] in E.
  - unfold lret in E. simplify_eq. split; [done|]. lia.
  - apply lbind_ok in E as ([] & s1 & E1 & E). apply write_code_ok in E1. subst s1.
    apply IH in E as [(Hk & Hp & Hc & Hl & Hsame) Hn]; [|lia|].
    2: { cbn. rewrite length_insert. lia. }
    replace (Z.to_nat (q + 1 - base)) with (S (Z.to_nat (q - base))) in * by lia.
    cbn [lc_set_buf lc_buf lc_frame_csp lc_p lc_cache] in *. rewrite length_insert in Hl. split.
    + split_and!; [done..|]. intros j Hj. rewrite Hsame by lia. rewrite list_lookup_insert_ne by lia. done.
    + intros j Hj. destruct (decide (j = Z.to_nat (q - base))) as [->|]; [|apply Hn; lia].
      rewrite Hsame by lia. apply list_lookup_insert_eq. lia.
Qed.

Lemma take_size_same (buf buf' : list Z) x :
  (forall j, (j < x)%nat -> buf' !! j = buf !! j) ->
  take x (take size buf') = take x (take size buf).
Proof.
  intros Hsame. apply list_eq. intros j. destruct (decide (j < x)%nat).
  - rewrite !(lookup_take_lt _ x) by done. destruct (decide (j < size)%nat).
    + rewrite !lookup_take_lt by done. by apply Hsame.
    + by rewrite !lookup_take_ge by lia.
  - by rewrite !(lookup_take_ge _ x) by lia.
Qed.

Lemma drop_size_same (buf buf' : list Z) x :
  (forall j, (x <= j)%nat -> buf' !! j = buf !! j) ->
  drop x (take size buf') = drop x (take size buf).
Proof.
  intros Hsame. apply list_eq. intros j. rewrite !lookup_drop. destruct (decide (x + j < size)%nat).
  - rewrite !lookup_take_lt by done. apply Hsame. lia.
  - by rewrite !lookup_take_ge by lia.
Qed.

(** After an instruction was rewritten the invariant holds behind it. *)
Lemma rewrite_forward s s0 s' x op k :
  at_op s x op -> imm_of op <> ImmStructured -> imm_of op <> ImmInvalid ->
  0 <= k -> skip_imm true (imm_of op) (rest_of s) = Ok k ->
  core s0 = (map key (lc_frame_csp s), lc_p s + k, lc_buf s, lc_cache s) ->
  wrote s0 s' x (S (Z.to_nat k)) -> flat_run (code s') x (x + S (Z.to_nat k)) ->
  forward s s'.
Proof.
  intros Hs Hns Hv Hk Hsk Hc (Wk & Wp & Wc & Wl & Wsame) Hrun.
  pose proof (plain_instr_of s x op Hs Hns Hv k Hk Hsk) as Hi.
  pose proof (core_eq _ _ _ _ _ Hc) as (Hk0 & Hp0 & Hb0 & Hc0). rewrite Hk0 in Wk. rewrite Hp0 in Wp.
  rewrite Hc0 in Wc. rewrite Hb0 in Wl, Wsame.
  split; [lia|]. right. exists (x + S (Z.to_nat k))%nat.
  pose proof (ao_open _ _ _ Hs) as Hne.
  assert (Hne' : map key (lc_frame_csp s) <> []) by (by destruct (lc_frame_csp s)).
  assert (R : rewritten (code s) (code s') x (S (Z.to_nat k)) (Z.of_nat (length (map key (lc_frame_csp s))) - 1)).
  { split; [unfold code; rewrite !length_take; lia| |done|done| |].
    - apply blocks_ok_path; [apply Hs|done].
    - unfold code. apply take_size_same. intros j Hj. apply Wsame. lia.
    - unfold code. apply drop_size_same. intros j Hj. apply Wsame. lia. }
  apply (here_intro s' (map key (lc_frame_csp s)) _ (lc_buf s') (lc_cache s)).
  - unfold core. rewrite Wk, Wp, Wc. do 3 f_equal. rewrite (ao_p _ _ _ Hs). lia.
  - eapply rw_cache_sound; [exact R|apply Hs].
  - done.
  - pose proof (blocks_ok_step _ _ _ _ 0 (ao_blocks _ _ _ Hs) Hi eq_refl) as Hbl.
    intros j b Hj. destruct (Hbl j b Hj) as (a & Ha & Hb & Hlt). exists a. split; [done|].
    split; [|done]. by eapply rw_block.
Qed.

Lemma wrote_core s0 s1 s2 x n : wrote s0 s1 x n -> core s2 = core s1 -> wrote s0 s2 x n.
Proof.
  intros (Wk & Wp & Wc & Wl & Ws) E. apply core_eq in E as (Ek & Ep & Eb & Ec).
  unfold wrote. by rewrite Ek, Ep, Eb, Ec.
Qed.

Lemma wrote_one s0 i b : wrote s0 (lc_set_buf (<[i := b]> (lc_buf s0)) s0) i 1.
Proof.
  unfold wrote. cbn. split_and!; [done..|by rewrite length_insert|].
  intros j Hj. by rewrite list_lookup_insert_ne by lia.
Qed.

Lemma instr_byte (c : list Z) x op n :
  c !! x = Some (opcode_val op) ->
  (imm_of op = ImmNone /\ n = 1%nat) \/ (imm_of op = ImmByte /\ n = 2%nat /\ (x + 2 <= length c)%nat) ->
  instr (drop x c) = Some (n, 0).
Proof.
  intros Hx Hor. rewrite (drop_S _ _ _ Hx), (instr_op _ _ op (handle_table_val op)).
  unfold plain_instr. destruct Hor as [[-> ->]|(-> & -> & Hl)]; [done|].
  cbn [skip_imm]. unfold check_buf. rewrite bool_decide_true; [done|]. rewrite length_drop. lia.
Qed.

Lemma code_lookup s j v : (j < size)%nat -> lc_buf s !! j = Some v -> code s !! j = Some v.
Proof. intros Hj E. unfold code. by rewrite lookup_take_lt. Qed.

(** [drop] and [select] rewritten to their 64-bit form. *)
Lemma mark_forward s s0 s' x op ext :
  at_op s x op -> imm_of op = ImmNone -> imm_of ext = ImmNone ->
  core s0 = core s -> core s' = core (lc_set_buf (<[x := opcode_val ext]> (lc_buf s0)) s0) -> forward s s'.
Proof.
  intros Hs Hop Hext Hc0 Hc'. pose proof (core_eq _ _ _ _ _ Hc0) as (_ & _ & Hb0 & _).
  assert (Hx : (x < length (lc_buf s))%nat).
  { destruct (ao_byte _ _ _ Hs) as (b & r & Hx & _). apply (f_equal length) in Hx.
    unfold code in Hx. rewrite length_drop, length_take in Hx. simpl in Hx. lia. }
  apply (rewrite_forward s s0 s' x op 0); rewrite ?Hop; try done.
  - rewrite Hc0. unfold core. by rewrite Z.add_0_r.
  - eapply wrote_core, Hc'. apply wrote_one.
  - eapply flat_more; [|apply flat_stop]. apply (instr_byte _ _ ext); [|by left].
    apply code_lookup; [apply Hs|]. apply core_eq in Hc' as (_ & _ & -> & _). cbn.
    apply list_lookup_insert_eq. by rewrite Hb0.
Qed.

Lemma p_index s x op s0 : at_op s x op -> core s0 = core s -> Z.to_nat (lc_p s0 - 1 - base) = x.
Proof. intros Hs E. apply core_eq in E as (_ & -> & _). rewrite (ao_p _ _ _ Hs). lia. Qed.

Lemma plain_core s s' : core s' = core s -> plain_from ImmNone s s'.
Proof. intros E. exists 0. split; [lia|]. split; [|done]. rewrite E. unfold core. by rewrite Z.add_0_r. Qed.

Lemma keep_forward s s' x op :
  at_op s x op -> imm_of op = ImmNone -> core s' = core s -> forward s s'.
Proof.
  intros Hs Hop E. apply (plain_forward s s' x op Hs); rewrite Hop; [done..|right].
  by apply plain_core.
Qed.

Lemma drop_forward s x op s' :
  at_op s x op -> imm_of op = ImmNone -> op_drop_checked func s = Ok (tt, s') -> forward s s'.
Proof.
  intros Hs Hop E. unfold op_drop_checked in E.
  apply lbind_ok in E as (n & s1 & E1 & E). apply lget_ok in E1 as [-> ->].
  destruct (_ <=? 0); [done|]. apply lbind_ok in E as (t & s1 & E1 & E). apply keeps_top in E1.
  destruct (is_32 t).
  { apply keeps_set_num in E. apply (keep_forward _ _ _ _ Hs Hop). by rewrite E. }
  destruct (_ <=? 1); [done|]. apply lbind_ok in E as ([] & s2 & E2 & E). apply keeps_set_num in E2.
  apply lbind_ok in E as (p & s3 & E3 & E). apply lget_ok in E3 as [-> ->].
  rewrite E1 in E2. apply write_code_ok in E. rewrite (p_index _ _ _ _ Hs E2) in E.
  apply (mark_forward s s2 s' x op WASM_OP_DROP_64 Hs Hop); [done|done|by rewrite E].
Qed.

Lemma select_forward s x op s' :
  at_op s x op -> imm_of op = ImmNone -> op_select_checked func s = Ok (tt, s') -> forward s s'.
Proof.
  intros Hs Hop E. unfold op_select_checked in E. apply lbind_ok in E as ([] & s0 & E0 & E).
  apply keeps_pop in E0. apply lbind_ok in E as (n & s1 & E1 & E). apply lget_ok in E1 as [-> ->].
  destruct (_ <=? 0); [done|]. apply lbind_ok in E as (t & s1 & E1 & E). apply keeps_top in E1.
  apply lbind_ok in E as (p & s2 & E2 & E). apply lget_ok in E2 as [-> ->].
  rewrite E0 in E1. apply lbind_ok in E as ([] & s2 & E2 & E).
  match type of E with ?m _ = _ => assert (Hkp : keeps m) by keep end. apply Hkp in E.
  destruct (is_64 t).
  - apply write_code_ok in E2. rewrite (p_index _ _ _ _ Hs E1) in E2.
    apply (mark_forward s s1 s' x op WASM_OP_SELECT_64 Hs Hop); [done|done|by rewrite E, E2].
  - unfold lret in E2. injection E2 as <-. apply (keep_forward _ _ _ _ Hs Hop). by rewrite E.
Qed.

Lemma local_index_moves s r s' :
  local_index_type_and_offset func s = Ok (r, s') ->
  exists k, 1 <= k /\ skip_leb true (rest_of s) 32 0 = Ok k /\ s' = lc_set_p (lc_p s + k) s.
Proof.
  intros E. unfold local_index_type_and_offset in E. apply lbind_ok in E as (i & s1 & E1 & E).
  apply (read_with_moves _ _ _ read_u32_ok) in E1 as (k & Hk & _ & Hs & ->). exists k.
  split; [done|]. split; [done|]. destruct (_ !! Z.to_nat i); [|done].
  destruct (_ !! Z.to_nat i); [|done]. unfold lret in E. by simplify_eq.
Qed.

(** The two-byte form and its padding. *)
Lemma local_run (c : list Z) x n ext v :
  imm_of ext = ImmByte -> (2 <= n)%nat -> c !! x = Some (opcode_val ext) -> c !! (x + 1)%nat = Some v ->
  (forall j, (x + 2 <= j < x + n)%nat -> c !! j = Some (opcode_val WASM_OP_NOP)) ->
  flat_run c x (x + n).
Proof.
  intros Hext Hn Hx Hv Hnop. apply (flat_more _ _ 2).
  - apply (instr_byte _ _ ext); [done|right]. apply lookup_lt_Some in Hv. split_and!; [done..|lia].
  - assert (forall m y, (y + m = x + n)%nat -> (x + 2 <= y)%nat -> flat_run c y (x + n)) as Hr;
      [|apply (Hr (n - 2)%nat); lia].
    induction m as [|m IH]; intros y Hy Hle.
    + replace y with (x + n)%nat by lia. apply flat_stop.
    + apply (flat_more _ _ 1); [|apply IH; lia].
      apply (instr_byte _ _ WASM_OP_NOP); [apply Hnop; lia|by left].
Qed.

Lemma local_forward s x op ext pop push s' :
  at_op s x op -> imm_of op = ImmLeb32 -> imm_of ext = ImmByte ->
  op_local_checked func ext pop push s = Ok (tt, s') -> forward s s'.
Proof.
  intros Hs Hop Hext E. unfold op_local_checked in E.
  apply lbind_ok in E as (p & s1 & E1 & E). apply lget_ok in E1 as [-> ->].
  apply lbind_ok in E as ([t offset] & s1 & E1 & E).
  apply local_index_moves in E1 as (k & Hk & Hsk & ->).
  apply lbind_ok in E as ([] & s2 & E2 & E). apply lbind_ok in E as ([] & s3 & E3 & E).
  assert (core s3 = (map key (lc_frame_csp s), lc_p s + k, lc_buf s, lc_cache s)) as Hc3.
  { assert (Hpop : keeps (if pop then wasm_loader_pop_frame_ref t else lret tt)) by keep.
    assert (Hpush : keeps (if push then wasm_loader_push_frame_ref t else lret tt)) by keep.
    by rewrite (Hpush _ _ _ E3), (Hpop _ _ _ E2). }
  clear E2 E3. pose proof (core_eq _ _ _ _ _ Hc3) as (Hk3 & Hp3 & Hb3 & _).
  unfold rewrite_local in E. destruct (offset <? 0x80).
  2: { unfold lret in E. simplify_eq. apply (plain_forward s s' x op Hs); rewrite ?Hop; [done..|right].
       exists k. split; [lia|]. split; [done|]. done. }
  apply lbind_ok in E as (p & s4 & E4 & E). apply lget_ok in E4 as [-> ->].
  apply lbind_ok in E as ([] & s4 & E4 & E). apply lbind_ok in E as ([] & s5 & E5 & E).
  apply write_code_ok in E4. apply write_code_ok in E5.
  pose proof (ao_p _ _ _ Hs) as Hp. pose proof (ao_lt _ _ _ Hs) as Hlt.
  assert (Hlen : (x + 1 + Z.to_nat k <= length (lc_buf s))%nat /\ (x + 1 + Z.to_nat k <= size)%nat).
  { apply skip_leb_len in Hsk. unfold code_from in Hsk. rewrite length_drop, length_take in Hsk. lia. }
  replace (Z.to_nat (lc_p s - 1 - base)) with x in E4 by lia.
  replace (Z.to_nat (lc_p s - 1 + 1 - base)) with (x + 1)%nat in E5 by lia.
  assert (Hl5 : length (lc_buf s5) = length (lc_buf s)).
  { subst s5 s4. cbn. by rewrite !length_insert, Hb3. }
  apply fill_nops_ok in E as [(Wk & Wp & Wc & Wl & Wsame) Hnop]; [|lia|rewrite Hl5, Hp3; lia].
  replace (Z.to_nat (lc_p s - 1 + 2 - base)) with (x + 2)%nat in * by lia.
  rewrite Hp3 in Wsame, Hnop.
  replace (Z.to_nat (lc_p s + k - (lc_p s - 1 + 2))) with (Z.to_nat k - 1)%nat in * by lia.
  assert (Hb5 : forall j, j <> x -> j <> (x + 1)%nat -> lc_buf s5 !! j = lc_buf s !! j).
  { intros j Hj1 Hj2. subst s5 s4. cbn. by rewrite !list_lookup_insert_ne, Hb3 by done. }
  assert (Hb5x : lc_buf s5 !! x = Some (opcode_val ext)).
  { subst s5 s4. cbn. rewrite list_lookup_insert_ne, list_lookup_insert_eq by lia || (rewrite ?Hb3; lia). done. }
  assert (exists v, lc_buf s5 !! (x + 1)%nat = Some v) as [v Hb5v].
  { eexists. subst s5 s4. cbn. apply list_lookup_insert_eq. rewrite length_insert, Hb3. lia. }
  apply (rewrite_forward s s3 s' x op k Hs); rewrite ?Hop; try done; [lia| |].
  - unfold wrote. rewrite Wk, Wp, Wc, Wl, Hl5, Hb3. subst s5 s4. split_and!; [done..|].
    intros j Hj. rewrite Wsame by lia. apply Hb5; lia.
  - apply (local_run _ _ _ ext v Hext); [lia|..].
    + apply code_lookup; [lia|]. by rewrite Wsame by lia.
    + apply code_lookup; [lia|]. by rewrite Wsame by lia.
    + intros j Hj. apply code_lookup; [lia|]. apply Hnop. lia.
Qed.

(** ** Every opcode moves forward *)

Ltac keepm E := match type of E with ?m _ = _ => let K := fresh "K" in assert (K : keeps m) by keep end.

Lemma br_if_forward s x s' :
  at_op s x WASM_OP_BR_IF -> op_br_if_checked func s = Ok (tt, s') -> forward s s'.
Proof.
  intros Hs E. unfold op_br_if_checked in E.
  apply lbind_ok in E as (d & s1 & E1 & E). apply (read_with_moves _ _ _ read_u32_ok) in E1 as (k & Hk & _ & Hsk & ->).
  apply lbind_ok in E as ([] & s2 & E2 & E). apply lbind_ok in E as ([] & s3 & E3 & E).
  apply keeps_pop in E2. apply keeps_check_br in E3. rewrite E2, core_set_p in E3. clear E2.
  apply lbind_ok in E as (ic & s4 & E4 & E). apply lget_ok in E4 as [-> ->].
  apply lbind_ok in E as (v & s4 & E4 & E). apply lget_ok in E4 as [-> ->].
  assert (Hpl : forall s4, core s4 = core s3 -> plain_from (imm_of WASM_OP_BR_IF) s s4).
  { intros s4 E4. exists k. split; [lia|]. split; [by rewrite E4|done]. }
  destruct (negb (lc_is_i32_const s3)).
  - apply keeps_reachable in E. apply (plain_forward s s' x _ Hs); [done|done|right]. by apply Hpl.
  - destruct (_ =? 0).
    + unfold lret in E. injection E as <-. apply (plain_forward s s3 x _ Hs); [done|done|right]. by apply Hpl.
    + destruct (plain_here s s3 x _ Hs) as [Hle [y Hy]]; [done|done|by apply Hpl|].
      destruct (handle_next_forward s3 s' y Hy E) as [? ?]. split; [lia|done].
Qed.

Lemma jump_op_forward s x s' op :
  at_op s x op -> check_op module func op s = Ok (tt, s') ->
  op = WASM_OP_UNREACHABLE \/ op = WASM_OP_BR \/ op = WASM_OP_BR_TABLE \/ op = WASM_OP_RETURN ->
  forward s s'.
Proof.
  intros Hs E [->|[->|[-> | ->]]]; cbn [check_op] in E.
  - apply (jump_forward (lret tt) s s' x _ Hs); [done|done| |done].
    intros s1 E1. by apply (plain_keeps (lret tt) s tt); [apply keeps_ret|].
  - unfold op_br_checked in E. rewrite <- lbind_assoc in E.
    apply (jump_forward _ s s' x _ Hs) in E; [done|done|done|].
    intros s1 E1. eapply plain_leb32, E1. intros v. keep.
  - unfold op_br_table_checked in E.
    apply (jump_forward (llet count := leb_u32 func in
      ldo wasm_loader_pop_frame_ref VALUE_TYPE_I32 in check_labels func (S size) 0 count) s s' x _ Hs);
      [done|done| |].
    + intros s1 E1. apply br_table_prefix_moves; [by eapply at_op_base|done].
    + rewrite lbind_assoc. unfold lbind in E |- *. destruct (leb_u32 func s) as [[c s1]| |]; [|done..].
      destruct (wasm_loader_pop_frame_ref _ s1) as [[u s2]| |]; done.
  - unfold op_return_checked in E.
    apply (jump_forward (llet r := result_type (wf_func_type func) in
      ldo wasm_loader_pop_frame_ref r in ldo wasm_loader_push_frame_ref r in clear_const) s s' x _ Hs);
      [done|done| |].
    + intros s1 E1. eapply (plain_keeps _ s tt); [|exact E1]. keep.
    + rewrite lbind_assoc. unfold lbind in E |- *.
      destruct (result_type _ s) as [[c s1]| |]; [|done..].
      destruct (wasm_loader_pop_frame_ref _ s1) as [[u s2]| |]; [|done..].
      destruct (wasm_loader_push_frame_ref _ s2) as [[u' s3]| |]; done.
Qed.

(** The opcodes of the last branch of the [switch]. *)
Definition tail_op (op : WASMOpcode) : L unit :=
  match memory_sig op, numeric_sig op with
  | Some (pops, pushes), _ => op_memory_access module func pops pushes
  | None, Some (pops, push) => ldo pop_all pops in wasm_loader_push_frame_ref push
  | None, None => invalid_opcode
  end.

Lemma memory_sig_imm op pops pushes : memory_sig op = Some (pops, pushes) -> imm_of op = ImmLeb32x2.
Proof. by destruct op. Qed.
Lemma numeric_sig_imm op pops push : numeric_sig op = Some (pops, push) -> imm_of op = ImmNone.
Proof. by destruct op. Qed.

Lemma tail_forward s x op s' : at_op s x op -> tail_op op s = Ok (tt, s') -> forward s s'.
Proof.
  intros Hs E. unfold tail_op in E. destruct (memory_sig op) as [[pops pushes]|] eqn:Em.
  - apply memory_sig_imm in Em. apply (plain_forward s s' x op Hs); rewrite Em; [done..|right].
    eapply plain_memory_access, E. by eapply at_op_base.
  - destruct (numeric_sig op) as [[pops push]|] eqn:En; [|done].
    apply numeric_sig_imm in En. keepm E. apply K in E. by apply (keep_forward s s' x op).
Qed.

Lemma check_op_forward s x op s' :
  at_op s x op -> check_op module func op s = Ok (tt, s') -> forward s s'.
Proof.
  intros Hs E.
  assert (Hb : base <= lc_p s) by (by eapply at_op_base).
  assert (Hleb : imm_of op = ImmLeb32 -> plain_from ImmLeb32 s s' -> forward s s').
  { intros Hi Hp. apply (plain_forward s s' x op Hs); rewrite Hi; [done..|by right]. }
  destruct op; try (apply (tail_forward s x _ s' Hs); exact E).
  - eapply jump_op_forward; [done..|tauto].
  - apply (keep_forward s s' x _ Hs); [done|]. keepm E. by apply K in E.
  - eapply open_forward; [done|tauto|exact E].
  - eapply open_forward; [done|tauto|exact E].
  - by eapply if_forward.
  - by eapply else_forward.
  - by eapply end_forward.
  - eapply jump_op_forward; [done..|tauto].
  - by eapply br_if_forward.
  - eapply jump_op_forward; [done..|tauto].
  - eapply jump_op_forward; [done..|tauto].
  - apply Hleb; [done|]. eapply plain_leb32, E. intros v. keep.
  - apply (plain_forward s s' x _ Hs); [done..|]. by apply plain_call_indirect.
  - by eapply drop_forward.
  - by eapply select_forward.
  - cbn [check_op] in E. by eapply local_forward, E.
  - cbn [check_op] in E. by eapply local_forward, E.
  - cbn [check_op] in E. by eapply local_forward, E.
  - apply Hleb; [done|]. cbn [check_op] in E. unfold global_type in E. rewrite lbind_assoc in E.
    eapply plain_leb32, E. intros v. keep.
  - apply Hleb; [done|]. cbn [check_op] in E. unfold global_type in E. rewrite lbind_assoc in E.
    eapply plain_leb32, E. intros v. keep.
  - apply (plain_forward s s' x _ Hs); [done..|]. by apply (plain_memory_size false).
  - apply (plain_forward s s' x _ Hs); [done..|]. by apply (plain_memory_size true).
  - apply (plain_forward s s' x _ Hs); [done..|right]. eapply plain_sleb32, E. intros v.
    apply keeps_bind; [by apply keeps_mod|keep].
  - apply (plain_forward s s' x _ Hs); [done..|right]. eapply plain_sleb64, E. intros v. keep.
  - apply (plain_forward s s' x _ Hs); [done..|right]. eapply (plain_skip _ 4), E; [keep|lia|done].
  - apply (plain_forward s s' x _ Hs); [done..|right]. eapply (plain_skip _ 8), E; [keep|lia|done].
  - by eapply drop_forward.
  - by eapply select_forward.
Qed.

Lemma check_step_forward s s' :
  inv s -> lc_p s < p_end func -> check_step module func s = Ok (tt, s') ->
  lc_p s < lc_p s' /\ inv s'.
Proof.
  intros [Hov|(x & Hp & Hc & Hne & Hb)] Hlt E; [lia|]. unfold check_step in E.
  apply lbind_ok in E as (b & s1 & E1 & E). apply read_byte_moves in E1 as [Hbyte ->].
  destruct (handle_table !! Z.to_nat b) as [op|] eqn:Hop; [|done].
  apply lbind_ok in E as ([] & s2 & E2 & E).
  assert (Hs : at_op (lc_set_p (lc_p s + 1) s) x op).
  { split; cbn; try done; [lia|unfold p_end in Hlt; lia|].
    destruct (rest_of_byte s b) as [r Er]; [lia|done|]. rewrite (rest_of_drop s x Hp) in Er.
    by exists b, r. }
  destruct (check_op_forward _ _ _ _ Hs E2) as [Hle Hi]. cbn in Hle.
  assert (Ec : core s' = core s2).
  { keepm E. by apply K in E. }
  split; [|by apply (inv_core s2)]. apply core_eq in Ec as (_ & -> & _). lia.
Qed.

Lemma check_loop_done (fuel : nat) s b s' :
  inv s -> p_end func - lc_p s <= Z.of_nat fuel -> check_loop module func fuel s = Ok (b, s') -> b = true.
Proof.
  revert s. induction fuel as [|f IH]; intros s Hi Hf E; cbn [check_loop] in E;
    apply lbind_ok in E as (p & s1 & E1 & E); apply lget_ok in E1 as [-> ->];
    destruct (p_end func <=? lc_p s) eqn:El; try (unfold lret in E; by simplify_eq);
    apply Z.leb_gt in El; [lia|].
  apply lbind_ok in E as ([] & s2 & E2 & E).
  destruct (check_step_forward _ _ Hi El E2) as [Hlt Hi2]. eapply IH; [exact Hi2|lia|exact E].
Qed.

(** More fuel does not change a result. *)
Lemma check_loop_more (f g : nat) s :
  (f <= g)%nat -> (forall s', check_loop module func f s <> Ok (false, s')) ->
  check_loop module func g s = check_loop module func f s.
Proof.
  revert g s. induction f as [|f IH]; intros g s Hle Hd.
  - destruct g; [done|]. cbn in *. unfold lbind, lget in *. destruct (_ <=? _); [done|].
    by destruct (Hd s).
  - destruct g as [|g]; [lia|]. cbn [check_loop] in *. unfold lbind, lget in *.
    destruct (_ <=? _); [done|]. destruct (check_step module func s) as [[u s1]| |]; [|done..].
    by apply IH; [lia|].
Qed.

(** The state in front of the loop. *)
Lemma entry_inv ret s s' :
  lc_p s = base -> lc_frame_csp s = [] ->
  lc_cache s = replicate 64 (null_block_addr, null_block_addr) ->
  (ldo wasm_loader_push_frame_csp BLOCK_TYPE_FUNCTION ret base in upd_block 0 bb_set_reachable) s =
    Ok (tt, s') -> inv s' /\ lc_p s' = base.
Proof.
  intros Hp Hl Hc E. apply lbind_ok in E as ([] & s1 & E1 & E). apply push_csp_moves in E1 as [_ E1].
  apply keeps_reachable in E. rewrite E1, Hp, Hl, Hc in E.
  split; [|by apply core_eq in E as (_ & -> & _)]. right. exists 0%nat.
  apply (here_intro _ [(base, 0)] _ (lc_buf s) (replicate 64 (null_block_addr, null_block_addr))).
  - rewrite E. cbn [map Z.of_nat]. by rewrite Z.add_0_r.
  - apply Forall_replicate. split; by left.
  - done.
  - intros [|k] b Hk; [|done]. cbn in Hk. simplify_eq. exists 0%nat. split; [cbn; lia|].
    split; [apply block_from_start, path_start|cbn; lia].
Qed.

Lemma entry_loop (fuel : nat) ret s b s' :
  lc_p s = base -> lc_frame_csp s = [] ->
  lc_cache s = replicate 64 (null_block_addr, null_block_addr) -> (size <= fuel)%nat ->
  (ldo wasm_loader_push_frame_csp BLOCK_TYPE_FUNCTION ret base in
   ldo upd_block 0 bb_set_reachable in check_loop module func fuel) s = Ok (b, s') -> b = true.
Proof.
  intros Hp Hl Hc Hf E. rewrite <- lbind_assoc in E. apply lbind_ok in E as ([] & s1 & E1 & E).
  destruct (entry_inv _ _ _ Hp Hl Hc E1) as [Hi Hp1].
  eapply (check_loop_done fuel), E; [done|]. rewrite Hp1. unfold p_end. lia.
Qed.

Lemma lbind_ext {A B} (m : L A) (k1 k2 : A -> L B) s :
  (forall a s1, m s = Ok (a, s1) -> k1 a s1 = k2 a s1) -> lbind m k1 s = lbind m k2 s.
Proof. unfold lbind. destruct (m s) as [[a s1]| |]; auto. Qed.

Lemma start_core s :
  core s = core (wasm_loader_ctx_init func (lc_buf s)) ->
  lc_p s = base /\ lc_frame_csp s = [] /\
  lc_cache s = replicate 64 (null_block_addr, null_block_addr).
Proof.
  intros E. apply core_eq in E as (Hk & -> & _ & ->). split; [done|]. split; [|done].
  by destruct (lc_frame_csp s).
Qed.

(** The walk of the loop from the entry of the function. *)
Lemma loop_fuel (fuel : nat) ret s s1 s2 :
  core s = core (wasm_loader_ctx_init func (lc_buf s)) -> (size <= fuel)%nat ->
  wasm_loader_push_frame_csp BLOCK_TYPE_FUNCTION ret base s = Ok (tt, s1) ->
  upd_block 0 bb_set_reachable s1 = Ok (tt, s2) ->
  check_loop module func fuel s2 = check_loop module func size s2 /\
  forall s3, check_loop module func fuel s2 <> Ok (false, s3).
Proof.
  intros Hc Hf E1 E2. destruct (start_core s Hc) as (Hp & Hl & Hca).
  assert (Hent : forall f, (size <= f)%nat -> forall s3, check_loop module func f s2 <> Ok (false, s3)).
  { intros f Hle s3 E. enough (false = true) by done.
    apply (entry_loop f ret s false s3 Hp Hl Hca Hle). unfold lbind. by rewrite E1, E2. }
  split; [|by apply Hent]. apply check_loop_more; [done|]. by apply Hent.
Qed.

Lemma alloc_core n s b s' : alloc n s = Ok (b, s') -> core s' = core s.
Proof. apply keeps_alloc. Qed.

Lemma prepare_fuel (fuel : nat) buf :
  (size <= fuel)%nat ->
  wasm_loader_prepare_bytecode module func fuel buf <> Ok None /\
  wasm_loader_prepare_bytecode module func fuel buf = wasm_loader_prepare_bytecode module func size buf.
Proof.
  intros Hf. unfold wasm_loader_prepare_bytecode. split.
  - match goal with |- match ?m with _ => _ end <> _ => destruct m as [[r s]| |] eqn:E; [|done..] end.
    intros Er. simplify_eq. set (s0 := wasm_loader_ctx_init func buf) in E.
    apply lbind_ok in E as (ok & s1 & E1 & E). apply lbind_ok in E as (ok2 & s2 & E2 & E).
    apply lbind_ok in E as (ok3 & s3 & E3 & E). destruct (negb ok3); [done|].
    apply lbind_ok in E as (ret & s4 & E4 & E).
    assert (Hc : core s4 = core s0).
    { apply keeps_result_type in E4. rewrite E4.
      assert (K3 : keeps (if ok2 then alloc (8 * sizeof_BranchBlock) else lret false)) by keep.
      assert (K2 : keeps (if ok then alloc 32 else lret false)) by keep.
      by rewrite (K3 _ _ _ E3), (K2 _ _ _ E2), (alloc_core _ _ _ _ E1). }
    apply lbind_ok in E as ([] & s5 & E5 & E). apply lbind_ok in E as ([] & s6 & E6 & E).
    apply lbind_ok in E as (b & s7 & E7 & E).
    assert (Hbuf : lc_buf s4 = buf) by (by apply core_eq in Hc as (_ & _ & -> & _)).
    destruct (loop_fuel fuel ret s4 s5 s6) as [_ Hd]; [by rewrite Hbuf|done|done|done|].
    destruct b; [|by destruct (Hd s7)]. cbn [negb] in E.
    apply lbind_ok in E as (l & s8 & E8 & E). destruct l; [|done]. by simplify_eq.
  - match goal with |- match ?m1 with _ => _ end = match ?m2 with _ => _ end =>
      assert (m1 = m2) as ->; [|done] end.
    apply lbind_ext. intros ok s1 E1. apply lbind_ext. intros ok2 s2 E2. apply lbind_ext. intros ok3 s3 E3.
    destruct (negb ok3); [done|]. apply lbind_ext. intros ret s4 E4.
    assert (Hc : core s4 = core (wasm_loader_ctx_init func buf)).
    { apply keeps_result_type in E4. rewrite E4.
      assert (K3 : keeps (if ok2 then alloc (8 * sizeof_BranchBlock) else lret false)) by keep.
      assert (K2 : keeps (if ok then alloc 32 else lret false)) by keep.
      by rewrite (K3 _ _ _ E3), (K2 _ _ _ E2), (alloc_core _ _ _ _ E1). }
    apply lbind_ext. intros [] s5 E5. apply lbind_ext. intros [] s6 E6.
    assert (Hbuf : lc_buf s4 = buf) by (by apply core_eq in Hc as (_ & _ & -> & _)).
    destruct (loop_fuel fuel ret s4 s5 s6) as [Heq _]; [by rewrite Hbuf|done|done|done|].
    unfold lbind at 1 3. by rewrite Heq.
Qed.

End Total.

(** ** The property *)

(** C3: the validator terminates on every byte string.  Whatever the module,
    the function body [buf] - valid or not - and the outcome of its
    allocations, as many iterations of its loop as the body has bytes are
    enough: it returns (accepting, rejecting or undefined), never out of
    fuel, and more fuel gives the same result.  The jumps over unreachable
    code, computed from the block address scanner and a cache that outlives
    the rewriting of instructions, always go forward. *)
Theorem loader_terminates `{LoaderHeap} (module : WASMModule) (func : WASMFunction) (fuel : nat)
    (buf : list Z) :
  0 < wf_code func -> 0 <= wf_code_size func -> (Z.to_nat (wf_code_size func) <= fuel)%nat ->
  wasm_loader_prepare_bytecode module func fuel buf <> Ok None /\
  wasm_loader_prepare_bytecode module func fuel buf =
    wasm_loader_prepare_bytecode module func (Z.to_nat (wf_code_size func)) buf.
Proof. intros Hb Hs Hf. by apply prepare_fuel. Qed.

(** A body whose first instruction makes the rest unreachable up to the
    [else] of the enclosing [if], with a [drop] in the dead code:
    [local.get 0; if; br 0; i64.const 1; drop; else; nop; end; i32.const 5; end]. *)
Definition jumping_body : list Z :=
  [0x20; 0; 0x04; 0x40; 0x0c; 0; 0x42; 1; 0x1a; 0x05; 0x01; 0x0b; 0x41; 5; 0x0b].

Lemma loader_terminates_witness :
  wasm_loader_prepare_bytecode (H := sample_heap) sample_wasm_module (sample_wasm_function 1000 jumping_body)
    20 jumping_body <> Ok None /\
  wasm_loader_prepare_bytecode (H := sample_heap) sample_wasm_module (sample_wasm_function 1000 jumping_body)
    20 jumping_body =
    Ok (Some (mkPrepared 1 2 false false
      [0xc2; 0; 0x04; 0x40; 0x0c; 0; 0x42; 1; 0x1a; 0x05; 0x01; 0x0b; 0x41; 5; 0x0b])).
Proof.
  destruct (loader_terminates (H := sample_heap) sample_wasm_module
    (sample_wasm_function 1000 jumping_body) 20 jumping_body) as [H1 H2].
  - vm_compute. reflexivity.
  - vm_compute. discriminate.
  - vm_compute. lia.
  - split; [exact H1|]. rewrite H2. vm_compute. reflexivity.
Defined.
