(* ===== verification/Ems.v ===== *)
(** * The heap allocator

    The allocator of [core/shared/mem-alloc/ems] ([ems_alloc.c],
    [ems_kfc.c], [ems_gc_internal.h]) behind [wasm_runtime_malloc] and the
    heap of every module instance, in the build without [BH_ENABLE_GC_VERIFY]
    and with the assertions compiled out, for 64-bit pointers.

    A heap is one block of bytes: the structure [gc_heap_t] - whose list
    heads and tree root are read and written like chunks - and after it the
    chunks, tiling the rest.  A chunk starts with a 32-bit header; a free
    one ends with its size; free chunks under 248 bytes are linked in lists
    of one size each, the others form a search tree.  Everything lies in one
    byte memory, so that what the code overlaps overlaps here. *)

From S2P Require Import Prelude Instance.
#[local] Open Scope Z_scope.

(** ** Headers *)

Definition HMU_VO : Z := 2.
Definition HMU_FC : Z := 1.

Definition GETBIT (v offset : Z) : Z :=
  if Z.land v (Z.shiftl 1 offset) =? 0 then 0 else 1.
Definition SETBIT (v offset : Z) : Z := Z.lor v (Z.shiftl 1 offset).
Definition CLRBIT (v offset : Z) : Z := Z.land v (u32 (Z.lnot (Z.shiftl 1 offset))).
Definition GETBITS (v offset size : Z) : Z :=
  Z.shiftr (Z.land v (u32 (Z.shiftl (Z.shiftl 1 size - 1) offset))) offset.
Definition SETBITS (v offset size value : Z) : Z :=
  Z.lor (Z.land v (u32 (Z.lnot (Z.shiftl (Z.shiftl 1 size - 1) offset))))
    (u32 (Z.shiftl value offset)).

(** On the header itself. *)
Definition hdr_ut (v : Z) : Z := GETBITS v 30 2.
Definition hdr_set_ut (v type : Z) : Z := SETBITS v 30 2 type.
Definition hdr_pinuse (v : Z) : Z := GETBIT v 29.
Definition hdr_mark_pinuse (v : Z) : Z := SETBIT v 29.
Definition hdr_unmark_pinuse (v : Z) : Z := CLRBIT v 29.
Definition hdr_vo_freed (v : Z) : Z := GETBIT v 28.
Definition hdr_unfree_vo (v : Z) : Z := CLRBIT v 28.
Definition hdr_size (v : Z) : Z := u32 (Z.shiftl (GETBITS v 0 27) 3).
Definition hdr_set_size (v size : Z) : Z := SETBITS v 0 27 (Z.shiftr size 3).

Definition HMU_SIZE : Z := 4.
Definition GC_ALIGN_8 (s : Z) : Z := Z.land (u32 (s + 7)) (u32 (Z.lnot 7)).
Definition GC_SMALLEST_SIZE : Z := GC_ALIGN_8 (HMU_SIZE + 8).
Definition HMU_NORMAL_NODE_CNT : Z := 32.
Definition HMU_FC_NORMAL_MAX_SIZE : Z := Z.shiftl (HMU_NORMAL_NODE_CNT - 1) 3.
Definition HMU_IS_FC_NORMAL (size : Z) : bool := size <? HMU_FC_NORMAL_MAX_SIZE.
Definition GC_HEAD_PADDING : Z := 4.

(** ** State *)

(** Where the compiler puts the list heads and the tree root in
    [gc_heap_t], and its size. *)
Class HeapLayout := {
  off_normal_list : Z;
  off_tree_root : Z;
  sizeof_gc_heap : Z
}.

(** The structure is at [hp_addr]; the block that holds it and the chunks
    ends at [hp_end]. *)
Record gc_heap := mkHeap {
  hp_addr : Z;
  hp_end : Z;
  heap_id : Z;
  base_addr : Z;
  current_size : Z;
  highmark_size : Z;
  total_free_size : Z;
  hp_mem : gmap Z Z
}.

Definition hp_set_mem (m : gmap Z Z) (h : gc_heap) : gc_heap :=
  mkHeap (hp_addr h) (hp_end h) (heap_id h) (base_addr h) (current_size h) (highmark_size h)
    (total_free_size h) m.
Definition hp_set_sizes (highmark free : Z) (h : gc_heap) : gc_heap :=
  mkHeap (hp_addr h) (hp_end h) (heap_id h) (base_addr h) (current_size h) highmark free (hp_mem h).
Definition hp_set_place (id base : Z) (h : gc_heap) : gc_heap :=
  mkHeap (hp_addr h) (hp_end h) id base (current_size h) (highmark_size h) (total_free_size h)
    (hp_mem h).

(** ** The monad *)

Definition E (A : Type) : Type := gc_heap -> res (A * gc_heap).
Definition eret {A} (a : A) : E A := fun h => Ok (a, h).
Definition ebind {A B} (m : E A) (k : A -> E B) : E B :=
  fun h => match m h with Ok (a, h') => k a h' | Err e => Err e | Undef => Undef end.
Definition eget {A} (f : gc_heap -> A) : E A := fun h => Ok (f h, h).
Definition emod (f : gc_heap -> gc_heap) : E unit := fun h => Ok (tt, f h).
Definition eundef {A} : E A := fun _ => Undef.

Declare Scope ems_scope.
Delimit Scope ems_scope with ems.
Notation "'elet' x ':=' m 'in' k" := (ebind m (fun x => k))
  (at level 10, x name, m at level 100, k at level 200) : ems_scope.
Notation "'edo' m 'in' k" := (ebind m (fun _ => k))
  (at level 10, m at level 100, k at level 200) : ems_scope.
#[local] Open Scope ems_scope.

(** [n]-byte little-endian accesses, undefined outside the block. *)
Definition rd (n : nat) (m : gmap Z Z) (a : Z) : Z := le_val (read_bytes m a n).
Definition wr (n : nat) (m : gmap Z Z) (a v : Z) : gmap Z Z := write_bytes m a (le_bytes n v).

Definition in_block (a n : Z) (h : gc_heap) : bool := (hp_addr h <=? a) && (a + n <=? hp_end h).

Definition load (n : nat) (a : Z) : E Z := fun h =>
  if in_block a (Z.of_nat n) h then Ok (rd n (hp_mem h) a, h) else Undef.
Definition store (n : nat) (a v : Z) : E unit := fun h =>
  if in_block a (Z.of_nat n) h then Ok (tt, hp_set_mem (wr n (hp_mem h) a v) h) else Undef.
Abbreviation load32 := (load 4).
Abbreviation store32 := (store 4).
Abbreviation load_ptr := (load 8).
Abbreviation store_ptr := (store 8).

(** [memset(a, 0, n)] *)
Definition clear (a n : Z) : E unit := fun h =>
  if in_block a n h then Ok (tt, hp_set_mem (zero_bytes (hp_mem h) a (a + n)) h) else Undef.
(** [bh_memcpy_s(dst, dst_size, src, n)] *)
Definition copy (dst dst_size src n : Z) : E unit := fun h =>
  if dst_size <? n then Ok (tt, h)
  else if in_block dst n h && in_block src n h
  then Ok (tt, hp_set_mem (write_bytes (hp_mem h) dst (read_bytes (hp_mem h) src (Z.to_nat n))) h)
  else Undef.

(** [hmu->header = f(hmu->header)] *)
Definition hmu_upd (hmu : Z) (f : Z -> Z) : E unit :=
  elet v := load32 hmu in store32 hmu (f v).
Definition hmu_get {A} (hmu : Z) (f : Z -> A) : E A :=
  elet v := load32 hmu in eret (f v).

(** As many iterations as the heap has bytes: more than it has chunks. *)
Definition heap_fuel (h : gc_heap) : nat := Z.to_nat (current_size h).

Section Ems.
Context `{HeapLayout}.

Definition hmu_is_in_heap (hmu : Z) : E bool :=
  elet b := eget base_addr in elet n := eget current_size in
  eret ((b <=? hmu) && (hmu <? b + n)).

(** ** Lists of free chunks of one size *)

(** [&heap->kfc_normal_list[i]] *)
Definition normal_list (i : Z) (h : gc_heap) : Z := hp_addr h + off_normal_list + 8 * i.

Definition get_hmu_normal_node_next (node : Z) : E Z :=
  elet off := load32 (node + 4) in
  let off := s32 off in
  eret (if off =? 0 then 0 else node + off).

Definition set_hmu_normal_node_next (node next : Z) : E unit :=
  if next =? 0 then store32 (node + 4) 0 else store32 (node + 4) (u32 (next - node)).

(** The walk of [unlink_hmu]; a chunk that is not in its list is reported
    and left alone. *)
Fixpoint unlink_normal (fuel : nat) (hmu node_prev node : Z) : E unit :=
  if node =? 0 then eret tt else
  match fuel with
  | O => eundef
  | S f =>
      elet next := get_hmu_normal_node_next node in
      if node =? hmu then set_hmu_normal_node_next node_prev next
      else unlink_normal f hmu node next
  end.

(** ** The tree of the large free chunks *)

Definition tree_size (p : Z) : Z := p + 4.
Definition tree_left (p : Z) : Z := p + 8.
Definition tree_right (p : Z) : Z := p + 16.
Definition tree_parent (p : Z) : Z := p + 24.
Definition kfc_tree_root (h : gc_heap) : Z := hp_addr h + off_tree_root.

(** [p->left = p->right = p->parent = NULL] *)
Definition clear_links (p : Z) : E unit :=
  edo store_ptr (tree_parent p) 0 in
  edo store_ptr (tree_right p) 0 in
  store_ptr (tree_left p) 0.

(** [while (q->right) q = q->right] *)
Fixpoint rightmost (fuel : nat) (q : Z) : E Z :=
  elet r := load_ptr (tree_right q) in
  if r =? 0 then eret q else
  match fuel with O => eundef | S f => rightmost f r end.

(** The recursion is one level deep: the predecessor has no right child. *)
Fixpoint remove_tree_node (depth : nat) (p : Z) : E unit :=
  elet parent := load_ptr (tree_parent p) in
  elet pr := load_ptr (tree_right parent) in
  let slot := if p =? pr then tree_right parent else tree_left parent in
  elet left := load_ptr (tree_left p) in
  elet right := load_ptr (tree_right p) in
  if left =? 0 then
    edo store_ptr slot right in
    edo (if negb (right =? 0) then
           elet parent := load_ptr (tree_parent p) in store_ptr (tree_parent right) parent
         else eret tt) in
    clear_links p
  else if right =? 0 then
    edo store_ptr slot left in
    elet parent := load_ptr (tree_parent p) in
    edo store_ptr (tree_parent left) parent in
    clear_links p
  else
    elet fuel := eget heap_fuel in
    elet q := rightmost fuel left in
    match depth with
    | O => eundef
    | S d =>
        edo remove_tree_node d q in
        edo store_ptr slot q in
        elet parent := load_ptr (tree_parent p) in
        edo store_ptr (tree_parent q) parent in
        elet left := load_ptr (tree_left p) in
        edo store_ptr (tree_left q) left in
        elet right := load_ptr (tree_right p) in
        edo store_ptr (tree_right q) right in
        edo (if negb (left =? 0) then store_ptr (tree_parent left) q else eret tt) in
        edo (if negb (right =? 0) then store_ptr (tree_parent right) q else eret tt) in
        clear_links p
    end.

(** ** Free chunks *)

Definition unlink_hmu (hmu : Z) : E unit :=
  elet size := hmu_get hmu hdr_size in
  if HMU_IS_FC_NORMAL size then
    elet head := eget (normal_list (Z.shiftr size 3)) in
    elet node := get_hmu_normal_node_next head in
    elet fuel := eget heap_fuel in
    unlink_normal fuel hmu head node
  else remove_tree_node 2 hmu.

Definition hmu_set_free_size (hmu : Z) : E unit :=
  elet size := hmu_get hmu hdr_size in
  store32 (hmu + size - 4) size.

(** The [while] of [gci_add_fc]. *)
Fixpoint insert_tree_node (fuel : nat) (tp node size : Z) : E unit :=
  elet tsize := load32 (tree_size tp) in
  let slot := if tsize <? size then tree_right tp else tree_left tp in
  elet child := load_ptr slot in
  if child =? 0 then
    edo store_ptr slot node in store_ptr (tree_parent node) tp
  else match fuel with O => eundef | S f => insert_tree_node f child node size end.

Definition gci_add_fc (hmu size : Z) : E unit :=
  edo hmu_upd hmu (fun v => hdr_set_ut v HMU_FC) in
  edo hmu_upd hmu (fun v => hdr_set_size v size) in
  edo hmu_set_free_size hmu in
  if HMU_IS_FC_NORMAL size then
    elet head := eget (normal_list (Z.shiftr size 3)) in
    elet next := get_hmu_normal_node_next head in
    edo set_hmu_normal_node_next hmu next in
    set_hmu_normal_node_next head hmu
  else
    edo store32 (tree_size hmu) size in
    edo clear_links hmu in
    elet root := eget kfc_tree_root in
    elet fuel := eget heap_fuel in
    insert_tree_node fuel root hmu size.

(** ** Allocation *)

(** A non-empty list from [node_idx] on. *)
Fixpoint find_normal (fuel : nat) (node_idx : Z) : E (option Z) :=
  if node_idx <? HMU_NORMAL_NODE_CNT then
    elet node := eget (normal_list node_idx) in
    elet next := get_hmu_normal_node_next node in
    if negb (next =? 0) then eret (Some node_idx) else
    match fuel with O => eundef | S f => find_normal f (node_idx + 1) end
  else eret None.

(** The smallest node of the tree that is large enough. *)
Fixpoint find_tree (fuel : nat) (size tp last_tp : Z) : E Z :=
  if tp =? 0 then eret last_tp else
  match fuel with
  | O => eundef
  | S f =>
      elet tsize := load32 (tree_size tp) in
      if tsize <? size then
        elet r := load_ptr (tree_right tp) in find_tree f size r last_tp
      else elet l := load_ptr (tree_left tp) in find_tree f size l tp
  end.

(** [total_free_size -= size] and the high mark. *)
Definition account_alloc (size : Z) : E unit :=
  emod (fun h =>
    let free := u32 (total_free_size h - size) in
    let used := u32 (current_size h - free) in
    hp_set_sizes (if highmark_size h <? used then used else highmark_size h) free h).

(** What both branches of [alloc_hmu] do with the chunk [p] of
    [chunk_size] bytes they took: cut it when [split] holds. *)
Definition take_chunk (p chunk_size size : Z) (split : bool) : E Z :=
  elet size :=
    (if split then
       let rest := p + size in
       edo gci_add_fc rest (u32 (chunk_size - size)) in
       edo hmu_upd rest hdr_mark_pinuse in eret size
     else
       let next := p + chunk_size in
       elet b := hmu_is_in_heap next in
       edo (if b then hmu_upd next hdr_mark_pinuse else eret tt) in eret chunk_size) in
  edo account_alloc size in
  edo hmu_upd p (fun v => hdr_set_size v size) in
  eret p.

Definition alloc_hmu (size : Z) : E Z :=
  let size := if size <? GC_SMALLEST_SIZE then GC_SMALLEST_SIZE else size in
  let init_node_idx := Z.shiftr size 3 in
  elet found := (if HMU_IS_FC_NORMAL size then find_normal 32 init_node_idx else eret None) in
  match found with
  | Some node_idx =>
      elet node := eget (normal_list node_idx) in
      elet p := get_hmu_normal_node_next node in
      elet next := get_hmu_normal_node_next p in
      edo set_hmu_normal_node_next node next in
      take_chunk p (Z.shiftl node_idx 3) size
        (negb (node_idx =? init_node_idx) && (u32 (size + GC_SMALLEST_SIZE) <=? Z.shiftl node_idx 3))
  | None =>
      elet root := eget kfc_tree_root in
      elet tp := load_ptr (tree_right root) in
      elet fuel := eget heap_fuel in
      elet last_tp := find_tree fuel size tp 0 in
      if last_tp =? 0 then eret 0 else
      edo remove_tree_node 2 last_tp in
      elet tsize := load32 (tree_size last_tp) in
      take_chunk last_tp tsize size (u32 (size + GC_SMALLEST_SIZE) <=? tsize)
  end.

Definition hmu_to_obj (hmu : Z) : Z := hmu + 4.
Definition obj_to_hmu (obj : Z) : Z := obj - 4.

(** [NULL] is 0. *)
Definition gc_alloc_vo (size : Z) : E Z :=
  let tot_size_unaligned := u32 (HMU_SIZE + size) in
  let tot_size := GC_ALIGN_8 tot_size_unaligned in
  if tot_size <? size then eret 0 else
  elet hmu := alloc_hmu tot_size in
  if hmu =? 0 then eret 0 else
  edo hmu_upd hmu (fun v => hdr_set_ut v HMU_VO) in
  edo hmu_upd hmu hdr_unfree_vo in
  let ret := hmu_to_obj hmu in
  edo (if tot_size_unaligned <? tot_size
       then clear (ret + size) (tot_size - tot_size_unaligned) else eret tt) in
  eret ret.

(** ** Release *)

Definition GC_SUCCESS : Z := 0.
Definition GC_ERROR : Z := -1.

(** [heap->total_free_size += size] *)
Definition account_free (size : Z) : E unit :=
  emod (fun h => hp_set_sizes (highmark_size h) (u32 (total_free_size h + size)) h).

(** The chunk before [hmu], if the footer in front of [hmu] leads to a free
    one. *)
Definition merge_prev (hmu size : Z) : E (Z * Z) :=
  elet pinuse := hmu_get hmu hdr_pinuse in
  if negb (pinuse =? 0) then eret (hmu, size) else
  elet k := load32 (hmu - 4) in
  let prev := hmu - s32 k in
  elet b := hmu_is_in_heap prev in
  if negb b then eret (hmu, size) else
  elet ut := hmu_get prev hdr_ut in
  if negb (ut =? HMU_FC) then eret (hmu, size) else
  elet psize := hmu_get prev hdr_size in
  edo unlink_hmu prev in
  eret (prev, u32 (size + psize)).

Definition merge_next (hmu size : Z) : E Z :=
  let next := hmu + size in
  elet b := hmu_is_in_heap next in
  if negb b then eret size else
  elet ut := hmu_get next hdr_ut in
  if negb (ut =? HMU_FC) then eret size else
  elet nsize := hmu_get next hdr_size in
  edo unlink_hmu next in
  eret (u32 (size + nsize)).

Definition gc_free_vo (obj : Z) : E Z :=
  if obj =? 0 then eret GC_SUCCESS else
  let hmu := obj_to_hmu obj in
  elet b := hmu_is_in_heap hmu in
  if negb b then eret GC_SUCCESS else
  elet ut := hmu_get hmu hdr_ut in
  if negb (ut =? HMU_VO) then eret GC_ERROR else
  elet freed := hmu_get hmu hdr_vo_freed in
  if negb (freed =? 0) then eret GC_ERROR else
  elet size := hmu_get hmu hdr_size in
  edo account_free size in
  elet hs := merge_prev hmu size in
  let '(hmu, size) := hs in
  elet size := merge_next hmu size in
  edo gci_add_fc hmu size in
  let next := hmu + size in
  elet b := hmu_is_in_heap next in
  edo (if b then hmu_upd next hdr_unmark_pinuse else eret tt) in
  eret GC_SUCCESS.

(** ** Reallocation *)

(** Growth into the free chunk behind; [false] when that is not possible. *)
Definition realloc_in_place (hmu_old tot_size_old tot_size : Z) : E bool :=
  let hmu_next := hmu_old + tot_size_old in
  elet b := hmu_is_in_heap hmu_next in
  if negb b then eret false else
  elet ut := hmu_get hmu_next hdr_ut in
  elet tot_size_next := hmu_get hmu_next hdr_size in
  if (ut =? HMU_FC) && (tot_size <=? u32 (tot_size_old + tot_size_next)) then
    edo unlink_hmu hmu_next in
    edo hmu_upd hmu_old (fun v => hdr_set_size v tot_size) in
    edo clear (hmu_old + tot_size_old) (tot_size - tot_size_old) in
    edo (if tot_size <? u32 (tot_size_old + tot_size_next) then
           gci_add_fc (hmu_old + tot_size) (u32 (tot_size_old + tot_size_next - tot_size))
         else eret tt) in
    eret true
  else eret false.

Definition gc_realloc_vo (ptr size : Z) : E Z :=
  let tot_size_unaligned := u32 (HMU_SIZE + size) in
  let tot_size := GC_ALIGN_8 tot_size_unaligned in
  if tot_size <? size then eret 0 else
  let hmu_old := obj_to_hmu ptr in
  elet tot_size_old := (if ptr =? 0 then eret 0 else hmu_get hmu_old hdr_size) in
  if negb (ptr =? 0) && (tot_size <=? tot_size_old) then eret ptr else
  elet grown := (if ptr =? 0 then eret false else realloc_in_place hmu_old tot_size_old tot_size) in
  if grown : bool then eret ptr else
  elet hmu := alloc_hmu tot_size in
  if hmu =? 0 then eret 0 else
  edo hmu_upd hmu (fun v => hdr_set_ut v HMU_VO) in
  edo hmu_upd hmu hdr_unfree_vo in
  let ret := hmu_to_obj hmu in
  let obj_size := u32 (tot_size - HMU_SIZE) in
  edo clear ret obj_size in
  if ptr =? 0 then eret ret else
  edo copy ret obj_size ptr (u32 (tot_size_old - HMU_SIZE)) in
  edo gc_free_vo ptr in
  eret ret.

(** ** Creation, migration, destruction *)

(** [for (i = 0; i < HMU_NORMAL_NODE_CNT; i++)]: the list heads look like
    free chunks. *)
Fixpoint init_normal_list (n : nat) (i : Z) : E unit :=
  match n with
  | O => eret tt
  | S n' =>
      elet p := eget (normal_list i) in
      edo clear p 8 in
      edo hmu_upd p (fun v => hdr_set_ut v HMU_FC) in
      edo hmu_upd p (fun v => hdr_set_size v 8) in
      init_normal_list n' (i + 1)
  end.

Definition init_tree : E unit :=
  elet root := eget kfc_tree_root in
  edo clear root 32 in
  edo store32 (tree_size root) 32 in
  edo hmu_upd root (fun v => hdr_set_ut v HMU_FC) in
  edo hmu_upd root (fun v => hdr_set_size v 32) in
  elet q := eget base_addr in
  elet n := eget current_size in
  edo clear q 32 in
  edo hmu_upd q (fun v => hdr_set_ut v HMU_FC) in
  edo hmu_upd q (fun v => hdr_set_size v n) in
  edo hmu_upd q hdr_mark_pinuse in
  edo store_ptr (tree_right root) q in
  edo store_ptr (tree_parent q) root in
  store32 (tree_size q) n.

Definition align_8 (a : Z) : Z := Z.land (u64 (a + 7)) (u64 (Z.lnot 7)).

(** [None] is [NULL]: the buffer is too small or the lock cannot be made. *)
Definition gc_init_with_pool (lock_ok : bool) (buf buf_size : Z) (m : gmap Z Z) :
    res (option gc_heap) :=
  let buf_end := buf + buf_size in
  let heap := align_8 buf in
  let base := align_8 (heap + sizeof_gc_heap) + GC_HEAD_PADDING in
  let heap_max_size := Z.land (u32 (buf_end - base)) (u32 (Z.lnot 7)) in
  if buf_size <? 1024 then Ok None else
  let start : E (option gc_heap) :=
    edo clear heap sizeof_gc_heap in
    edo clear base heap_max_size in
    if negb lock_ok then eret None else
    edo init_normal_list 32 0 in
    edo init_tree in
    eget Some in
  match start (mkHeap heap buf_end heap base heap_max_size 0 heap_max_size m) with
  | Ok (r, _) => Ok r
  | Err e => Err e
  | Undef => Undef
  end.

Definition gc_destroy_with_pool : E Z :=
  elet b := eget base_addr in elet n := eget current_size in
  edo clear b n in
  elet heap := eget hp_addr in
  edo clear heap sizeof_gc_heap in
  edo emod (fun h => mkHeap (hp_addr h) (hp_end h) 0 0 0 0 0 (hp_mem h)) in
  eret GC_SUCCESS.

Definition adjust_ptr (p offset : Z) : E unit :=
  elet v := load_ptr p in
  if v =? 0 then eret tt else store_ptr p (u64 (v + offset)).

Definition adjust_links (p offset : Z) : E unit :=
  edo adjust_ptr (tree_left p) offset in
  edo adjust_ptr (tree_right p) offset in
  adjust_ptr (tree_parent p) offset.

Fixpoint migrate_chunks (fuel : nat) (cur last offset : Z) : E unit :=
  if cur <? last then
    match fuel with
    | O => eundef
    | S f =>
        elet size := hmu_get cur hdr_size in
        edo (if negb (HMU_IS_FC_NORMAL size) then adjust_links cur offset else eret tt) in
        migrate_chunks f (cur + size) last offset
    end
  else eret tt.

(** The bytes of the heap have been copied to [hp_addr] from [handle_old],
    where the structure still points. *)
Definition gc_migrate (handle_old : Z) : E Z :=
  elet handle := eget hp_addr in
  let offset := handle - handle_old in
  if offset =? 0 then eret 0 else
  elet b := eget base_addr in
  edo emod (hp_set_place handle (b + offset)) in
  elet root := eget kfc_tree_root in
  edo adjust_links root offset in
  elet n := eget current_size in
  elet fuel := eget heap_fuel in
  edo migrate_chunks fuel (b + offset) (b + offset + n) offset in
  eret 0.

(** [gc_heap_stats]: total, free and high mark; further entries are left. *)
Definition gc_heap_stats (stats : list Z) (size : nat) : E (list Z) := fun h =>
  let vals := [current_size h; total_free_size h; highmark_size h] in
  Ok ((take (size `min` 3) vals ++ drop (size `min` 3) stats)%list, h).

End Ems.

(** ** The layout on x86-64 Linux, and a small heap *)

#[global] Instance x86_64_layout : HeapLayout := {|
  off_normal_list := 64;
  off_tree_root := 320;
  sizeof_gc_heap := 368
|}.

Definition run_heap {A} (m : E A) (h : gc_heap) : option A :=
  match m h with Ok (a, _) => Some a | _ => None end.

Definition sample_heap_state : gc_heap :=
  match gc_init_with_pool true 4096 2048 ∅ with
  | Ok (Some h) => h
  | _ => mkHeap 0 0 0 0 0 0 0 ∅
  end.
