(* ===== verification/EmsHeader.v ===== *)
(** * Headers and accesses of the allocator

    The bit fields of a chunk header do not interfere; loads and stores of
    the heap's bytes; how the operations of [Ems] run on a state. *)

From S2P Require Import Prelude Instance Ems.
#[local] Open Scope Z_scope.
#[local] Open Scope ems_scope.

(** ** Bit fields *)

Lemma testbit_shiftl_ones size off i :
  0 <= size -> 0 <= off -> 0 <= i ->
  Z.testbit (Z.shiftl (Z.shiftl 1 size - 1) off) i = (off <=? i) && (i <? off + size).
Proof.
  intros Hs Ho Hi. rewrite Z.shiftl_spec by lia.
  replace (Z.shiftl 1 size - 1) with (Z.ones size) by (unfold Z.ones; lia).
  destruct (Z.leb_spec off i); cbn [andb].
  - rewrite Z.testbit_ones_nonneg by lia. apply Bool.eq_iff_eq_true. rewrite !Z.ltb_lt. lia.
  - apply Z.testbit_neg_r. lia.
Qed.

Lemma testbit_GETBITS v off size i :
  0 <= off -> 0 <= size -> off + size <= 32 -> 0 <= i ->
  Z.testbit (GETBITS v off size) i = (i <? size) && Z.testbit v (i + off).
Proof.
  intros Ho Hs H32 Hi. unfold GETBITS.
  rewrite Z.shiftr_spec, Z.land_spec, uwrap_testbit, testbit_shiftl_ones by lia.
  zcmp; cbn [andb]; rewrite ?andb_true_r, ?andb_false_r; lia || done.
Qed.

Lemma testbit_SETBITS v off size value i :
  0 <= off -> 0 <= size -> off + size <= 32 -> in_u size value -> 0 <= i ->
  Z.testbit (SETBITS v off size value) i =
    if (off <=? i) && (i <? off + size) then Z.testbit value (i - off)
    else (i <? 32) && Z.testbit v i.
Proof.
  intros Ho Hs H32 Hv Hi. unfold SETBITS.
  rewrite Z.lor_spec, Z.land_spec, !uwrap_testbit, Z.lnot_spec, testbit_shiftl_ones,
    Z.shiftl_spec by lia.
  destruct ((off <=? i) && (i <? off + size)) eqn:Ein.
  - apply andb_true_iff in Ein as [?%Z.leb_le ?%Z.ltb_lt].
    rewrite andb_false_r, andb_false_r. replace (i <? 32) with true by (symmetry; apply Z.ltb_lt; lia).
    done.
  - assert (Z.testbit value (i - off) = false) as ->.
    { apply andb_false_iff in Ein as [?%Z.leb_gt|?%Z.ltb_ge].
      - apply Z.testbit_neg_r. lia.
      - eapply in_u_testbit; [exact Hv|lia]. }
    rewrite andb_false_r, orb_false_r. cbn [negb]. by rewrite andb_true_r, andb_comm.
Qed.

Lemma testbit_pow2_bit offset i : 0 <= offset -> 0 <= i -> Z.testbit (Z.shiftl 1 offset) i = (i =? offset).
Proof.
  intros. rewrite Z.shiftl_1_l by lia. rewrite Z.pow2_bits_eqb by lia. by rewrite Z.eqb_sym.
Qed.

Lemma testbit_SETBIT v offset i :
  0 <= offset -> 0 <= i -> Z.testbit (SETBIT v offset) i = (i =? offset) || Z.testbit v i.
Proof. intros. unfold SETBIT. rewrite Z.lor_spec, testbit_pow2_bit by lia. apply orb_comm. Qed.

Lemma testbit_CLRBIT v offset i :
  0 <= offset < 32 -> 0 <= i ->
  Z.testbit (CLRBIT v offset) i = negb (i =? offset) && ((i <? 32) && Z.testbit v i).
Proof.
  intros. unfold CLRBIT. rewrite Z.land_spec, uwrap_testbit, Z.lnot_spec, testbit_pow2_bit by lia.
  destruct (i =? offset), (i <? 32), (Z.testbit v i); done.
Qed.

Lemma GETBIT_testbit v offset :
  0 <= offset -> GETBIT v offset = if Z.testbit v offset then 1 else 0.
Proof.
  intros Ho. unfold GETBIT.
  destruct (Z.eqb_spec (Z.land v (Z.shiftl 1 offset)) 0) as [He|Hne].
  - assert (Hb : Z.testbit (Z.land v (Z.shiftl 1 offset)) offset = false)
      by (rewrite He; apply Z.testbit_0_l).
    rewrite Z.land_spec, testbit_pow2_bit, Z.eqb_refl, andb_true_r in Hb by lia. by rewrite Hb.
  - destruct (Z.testbit v offset) eqn:Eb; [done|]. destruct Hne. apply Z_bits_eq. intros i Hi.
    rewrite Z.land_spec, testbit_pow2_bit, Z.testbit_0_l by lia.
    destruct (Z.eqb_spec i offset) as [->|]; [by rewrite Eb|apply andb_false_r].
Qed.

(** ** Fields of a header *)

(** A size the 27 bits can hold. *)
Definition chunk_size (s : Z) : Prop := 0 <= s < 2 ^ 30 /\ s mod 8 = 0.

Lemma testbit_low3 s i : s mod 8 = 0 -> 0 <= i < 3 -> Z.testbit s i = false.
Proof.
  intros Hm Hi. rewrite <- (Z.mod_pow2_bits_low s 3 i) by lia.
  change (2 ^ 3) with 8. rewrite Hm. apply Z.testbit_0_l.
Qed.

Lemma shiftr3_in_u s : 0 <= s < 2 ^ 30 -> in_u 27 (Z.shiftr s 3).
Proof. intros. rewrite Z.shiftr_div_pow2 by lia. unfold in_u. split; [apply Z.div_pos; lia|apply Z.div_lt_upper_bound; lia]. Qed.

Lemma testbit_hdr_size v i :
  0 <= i -> Z.testbit (hdr_size v) i = (3 <=? i) && (i <? 30) && Z.testbit v (i - 3).
Proof.
  intros. unfold hdr_size. rewrite uwrap_testbit, Z.shiftl_spec by lia.
  destruct (Z.leb_spec 3 i); cbn [andb].
  - rewrite testbit_GETBITS, Z.add_0_r by lia. zcmp; cbn [andb]; lia || done.
  - rewrite Z.testbit_neg_r by lia. apply andb_false_r.
Qed.

Lemma testbit_set_size v s i :
  chunk_size s -> 0 <= i ->
  Z.testbit (hdr_set_size v s) i = if i <? 27 then Z.testbit s (i + 3) else (i <? 32) && Z.testbit v i.
Proof.
  intros [Hs _] Hi. unfold hdr_set_size. rewrite testbit_SETBITS by (try lia; by apply shiftr3_in_u).
  rewrite Z.shiftr_spec by lia. zcmp; cbn [andb]; try lia; f_equal; lia || done.
Qed.

Lemma testbit_set_ut v t i :
  in_u 2 t -> 0 <= i ->
  Z.testbit (hdr_set_ut v t) i = if (30 <=? i) && (i <? 32) then Z.testbit t (i - 30) else (i <? 32) && Z.testbit v i.
Proof. intros. unfold hdr_set_ut. by rewrite testbit_SETBITS by (done || lia). Qed.

Ltac hdr_bits_rw :=
  repeat (rewrite ?testbit_hdr_size, ?testbit_GETBITS, ?testbit_set_size, ?testbit_set_ut,
            ?testbit_SETBIT, ?testbit_CLRBIT by (assumption || lia || done)).
Ltac hdr_bits :=
  apply Z_bits_eq; intros i Hi; hdr_bits_rw; zcmp; cbn [andb orb negb]; try lia; try done;
  hdr_bits_rw; zcmp; cbn [andb orb negb]; rewrite ?Z.add_0_r; try lia; try done.

Section Fields.
Variable v : Z.

Lemma size_set_size s : chunk_size s -> hdr_size (hdr_set_size v s) = s.
Proof.
  intros Hs. hdr_bits.
  - f_equal. lia.
  - symmetry. apply testbit_low3; [apply Hs|lia].
  - symmetry. eapply (in_u_testbit 30); [apply Hs|lia].
Qed.
Lemma size_set_ut t : in_u 2 t -> hdr_size (hdr_set_ut v t) = hdr_size v.
Proof. intros. hdr_bits. Qed.
Lemma size_mark : hdr_size (hdr_mark_pinuse v) = hdr_size v.
Proof. unfold hdr_mark_pinuse. hdr_bits. Qed.
Lemma size_unmark : hdr_size (hdr_unmark_pinuse v) = hdr_size v.
Proof. unfold hdr_unmark_pinuse. hdr_bits. Qed.
Lemma size_unfree : hdr_size (hdr_unfree_vo v) = hdr_size v.
Proof. unfold hdr_unfree_vo. hdr_bits. Qed.

Lemma ut_set_ut t : in_u 2 t -> hdr_ut (hdr_set_ut v t) = t.
Proof.
  intros Ht. unfold hdr_ut. hdr_bits.
  - f_equal. lia.
  - symmetry. eapply in_u_testbit; [exact Ht|lia].
Qed.
Lemma ut_set_size s : chunk_size s -> hdr_ut (hdr_set_size v s) = hdr_ut v.
Proof. intros. unfold hdr_ut. hdr_bits. Qed.
Lemma ut_mark : hdr_ut (hdr_mark_pinuse v) = hdr_ut v.
Proof. unfold hdr_ut, hdr_mark_pinuse. hdr_bits. Qed.
Lemma ut_unmark : hdr_ut (hdr_unmark_pinuse v) = hdr_ut v.
Proof. unfold hdr_ut, hdr_unmark_pinuse. hdr_bits. Qed.
Lemma ut_unfree : hdr_ut (hdr_unfree_vo v) = hdr_ut v.
Proof. unfold hdr_ut, hdr_unfree_vo. hdr_bits. Qed.

Lemma pinuse_set_size s : chunk_size s -> hdr_pinuse (hdr_set_size v s) = hdr_pinuse v.
Proof. intros. unfold hdr_pinuse. by rewrite !GETBIT_testbit, testbit_set_size by (assumption || lia). Qed.
Lemma pinuse_set_ut t : in_u 2 t -> hdr_pinuse (hdr_set_ut v t) = hdr_pinuse v.
Proof. intros. unfold hdr_pinuse. by rewrite !GETBIT_testbit, testbit_set_ut by (assumption || lia). Qed.
Lemma pinuse_mark : hdr_pinuse (hdr_mark_pinuse v) = 1.
Proof. unfold hdr_pinuse, hdr_mark_pinuse. by rewrite GETBIT_testbit, testbit_SETBIT by lia. Qed.
Lemma pinuse_unmark : hdr_pinuse (hdr_unmark_pinuse v) = 0.
Proof. unfold hdr_pinuse, hdr_unmark_pinuse. by rewrite GETBIT_testbit, testbit_CLRBIT by lia. Qed.
Lemma pinuse_unfree : hdr_pinuse (hdr_unfree_vo v) = hdr_pinuse v.
Proof. unfold hdr_pinuse, hdr_unfree_vo. by rewrite !GETBIT_testbit, testbit_CLRBIT by lia. Qed.

Lemma freed_unfree : hdr_vo_freed (hdr_unfree_vo v) = 0.
Proof. unfold hdr_vo_freed, hdr_unfree_vo. by rewrite GETBIT_testbit, testbit_CLRBIT by lia. Qed.
Lemma freed_mark : hdr_vo_freed (hdr_mark_pinuse v) = hdr_vo_freed v.
Proof. unfold hdr_vo_freed, hdr_mark_pinuse. by rewrite !GETBIT_testbit, testbit_SETBIT by lia. Qed.
Lemma freed_unmark : hdr_vo_freed (hdr_unmark_pinuse v) = hdr_vo_freed v.
Proof. unfold hdr_vo_freed, hdr_unmark_pinuse. by rewrite !GETBIT_testbit, testbit_CLRBIT by lia. Qed.

End Fields.

(** A header stays a word. *)
Lemma in_u_SETBITS v off size value :
  in_u 32 v -> 0 <= off -> 0 <= size -> off + size <= 32 -> in_u size value ->
  in_u 32 (SETBITS v off size value).
Proof.
  intros Hv Ho Hs H32 Hval. apply in_u_of_testbit; [lia| |].
  - unfold SETBITS. rewrite Z.lor_nonneg. split; [apply Z.land_nonneg; left; apply Hv|].
    apply uwrap_range. lia.
  - intros i Hi. rewrite testbit_SETBITS by done || lia. zcmp; cbn [andb]; lia || done.
Qed.
Lemma in_u_set_size v s : in_u 32 v -> chunk_size s -> in_u 32 (hdr_set_size v s).
Proof. intros Hv Hs. apply in_u_SETBITS; try lia; [done|]. apply shiftr3_in_u, Hs. Qed.
Lemma in_u_set_ut v t : in_u 32 v -> in_u 2 t -> in_u 32 (hdr_set_ut v t).
Proof. intros Hv Ht. by apply in_u_SETBITS. Qed.
Lemma in_u_mark v : in_u 32 v -> in_u 32 (hdr_mark_pinuse v).
Proof.
  intros Hv. apply in_u_of_testbit; [lia| |].
  - unfold hdr_mark_pinuse, SETBIT. rewrite Z.lor_nonneg. split; [apply Hv|done].
  - intros i Hi. unfold hdr_mark_pinuse. rewrite testbit_SETBIT by lia.
    rewrite (in_u_testbit 32 v) by (done || lia). zcmp; lia || done.
Qed.
Lemma in_u_CLRBIT v k : in_u 32 v -> 0 <= k < 32 -> in_u 32 (CLRBIT v k).
Proof.
  intros Hv Hk. apply in_u_of_testbit; [lia| |].
  - unfold CLRBIT. apply Z.land_nonneg. left. apply Hv.
  - intros i Hi. rewrite testbit_CLRBIT by lia. zcmp; lia || by rewrite ?andb_false_r.
Qed.

(** ** Accesses *)

Lemma rd_wr_eq n m a v : rd n (wr n m a v) a = uwrap (8 * Z.of_nat n) v.
Proof.
  unfold rd, wr. pose proof (read_write_bytes m a (le_bytes n v)) as Hrw.
  rewrite length_le_bytes in Hrw. rewrite Hrw. apply le_val_bytes.
Qed.

Lemma mem_byte_wr n m a v k :
  k < a \/ a + Z.of_nat n <= k -> mem_byte (wr n m a v) k = mem_byte m k.
Proof.
  intros Hk. unfold wr. rewrite mem_byte_write_bytes, length_le_bytes.
  zcmp; cbn [andb]; lia || done.
Qed.

Lemma rd_ext n m m' a :
  (forall k, a <= k < a + Z.of_nat n -> mem_byte m k = mem_byte m' k) -> rd n m a = rd n m' a.
Proof. intros Hk. unfold rd. by rewrite (read_bytes_ext m m') by done. Qed.

Lemma rd_wr_ne n n' m a b v :
  a + Z.of_nat n <= b \/ b + Z.of_nat n' <= a -> rd n (wr n' m b v) a = rd n m a.
Proof. intros Hab. apply rd_ext. intros k Hk. apply mem_byte_wr. lia. Qed.

Lemma rd_range n m a : bytes_ok m -> in_u (8 * Z.of_nat n) (rd n m a).
Proof.
  intros Hm. pose proof (le_val_range _ (read_bytes_byte m a n Hm)) as Hr.
  by rewrite length_read_bytes in Hr.
Qed.

Lemma bytes_ok_wr n m a v : bytes_ok m -> bytes_ok (wr n m a v).
Proof. intros. apply bytes_ok_write; [done|apply le_bytes_byte]. Qed.

(** ** Running operations *)

Lemma hp_mem_set m h : hp_mem (hp_set_mem m h) = m.
Proof. done. Qed.
Lemma hp_set_set m m' h : hp_set_mem m (hp_set_mem m' h) = hp_set_mem m h.
Proof. done. Qed.

Lemma ebind_eq {A B} (m : E A) (k : A -> E B) h a h' :
  m h = Ok (a, h') -> ebind m k h = k a h'.
Proof. intros Hm. unfold ebind. by rewrite Hm. Qed.

Definition inside (h : gc_heap) (a n : Z) : Prop := hp_addr h <= a /\ a + n <= hp_end h.

Lemma load_eq n a h : inside h a (Z.of_nat n) -> load n a h = Ok (rd n (hp_mem h) a, h).
Proof.
  intros [H1 H2]. unfold load, in_block.
  by rewrite (proj2 (Z.leb_le _ _) H1), (proj2 (Z.leb_le _ _) H2).
Qed.
Lemma store_eq n a v h :
  inside h a (Z.of_nat n) -> store n a v h = Ok (tt, hp_set_mem (wr n (hp_mem h) a v) h).
Proof.
  intros [H1 H2]. unfold store, in_block.
  by rewrite (proj2 (Z.leb_le _ _) H1), (proj2 (Z.leb_le _ _) H2).
Qed.
Lemma clear_eq a n h :
  inside h a n -> clear a n h = Ok (tt, hp_set_mem (zero_bytes (hp_mem h) a (a + n)) h).
Proof.
  intros [H1 H2]. unfold clear, in_block.
  by rewrite (proj2 (Z.leb_le _ _) H1), (proj2 (Z.leb_le _ _) H2).
Qed.
Lemma hmu_get_eq {A} a (f : Z -> A) h :
  inside h a 4 -> hmu_get a f h = Ok (f (rd 4 (hp_mem h) a), h).
Proof. intros Ha. unfold hmu_get. by rewrite (ebind_eq _ _ _ _ _ (load_eq 4 _ _ Ha)). Qed.
Lemma hmu_upd_eq a f h :
  inside h a 4 ->
  hmu_upd a f h = Ok (tt, hp_set_mem (wr 4 (hp_mem h) a (f (rd 4 (hp_mem h) a))) h).
Proof.
  intros Ha. unfold hmu_upd. rewrite (ebind_eq _ _ _ _ _ (load_eq 4 _ _ Ha)).
  by apply (store_eq 4).
Qed.
