(* ===== verification/EmsTree.v ===== *)
(** * The tree of large free chunks

    [remove_tree_node] and the insertion of [gci_add_fc] on the tree their
    pointers describe: removal takes one node out of the in-order sequence,
    insertion puts one in, and both touch only link fields. *)

From stdpp Require Import functions sorting.
From S2P Require Import Prelude Instance Ems EmsHeader.
#[local] Open Scope Z_scope.
#[local] Open Scope ems_scope.

(** ** Trees in memory *)

Inductive tree :=
| Leaf
| Node (l : tree) (a : Z) (r : tree).

Definition root_of (t : tree) : Z := match t with Leaf => 0 | Node _ a _ => a end.

Fixpoint nodes (t : tree) : list Z :=
  match t with
  | Leaf => []
  | Node l a r => (nodes l ++ a :: nodes r)%list
  end.

(** [f] gives the pointers, [par] is the node above [t]. *)
Fixpoint trep (f : Z -> Z) (par : Z) (t : tree) : Prop :=
  match t with
  | Leaf => True
  | Node l a r =>
      f (tree_left a) = root_of l /\ f (tree_right a) = root_of r /\ f (tree_parent a) = par /\
      trep f a l /\ trep f a r
  end.

(** The tree hangs to the right of [kfc_tree_root]. *)
Definition whole (f : Z -> Z) (R : Z) (t : tree) : Prop :=
  f (tree_right R) = root_of t /\ trep f R t.

(** A tree with a hole: the hole is the left ([true]) or the right child of
    [a], whose other child is [s]. *)
Inductive ctx :=
| Top
| Down (c : ctx) (left : bool) (a : Z) (s : tree).

Definition mk_node (left : bool) (t : tree) (a : Z) (s : tree) : tree :=
  if left then Node t a s else Node s a t.
Fixpoint plug (c : ctx) (t : tree) : tree :=
  match c with
  | Top => t
  | Down c b a s => plug c (mk_node b t a s)
  end.

Definition side (left : bool) : Z := if left then 8 else 16.
Definition par (R : Z) (c : ctx) : Z := match c with Top => R | Down _ _ a _ => a end.
Definition slot (R : Z) (c : ctx) : Z :=
  match c with Top => R + 16 | Down _ b a _ => a + side b end.

Fixpoint before (c : ctx) : list Z :=
  match c with
  | Top => []
  | Down c b a s => before c ++ (if b then [] else nodes s ++ [a])
  end%list.
Fixpoint after (c : ctx) : list Z :=
  match c with
  | Top => []
  | Down c b a s => (if b then a :: nodes s else []) ++ after c
  end%list.

Lemma nodes_plug c t : nodes (plug c t) = (before c ++ nodes t ++ after c)%list.
Proof.
  revert t. induction c as [|c IH [] a s]; intros t; simpl; [by rewrite app_nil_r|..];
    rewrite IH; simpl; by rewrite <- ?(assoc_L (++)), ?app_nil_l.
Qed.

Fixpoint crep (f : Z -> Z) (R : Z) (c : ctx) : Prop :=
  match c with
  | Top => True
  | Down c b a s =>
      f (a + side (negb b)) = root_of s /\ f (tree_parent a) = par R c /\ trep f a s /\
      f (slot R c) = a /\ crep f R c
  end.

Lemma plug_rep f R c t :
  whole f R (plug c t) <-> crep f R c /\ f (slot R c) = root_of t /\ trep f (par R c) t.
Proof.
  revert t. induction c as [|c IH [] a s]; intros t; simpl; [unfold whole; tauto|..];
    rewrite IH; simpl; tauto.
Qed.

(** Every node has a context. *)
Lemma in_tree_plug t a : a ∈ nodes t -> exists c l r, t = plug c (Node l a r).
Proof.
  enough (H : forall c t, a ∈ nodes t -> exists c' l r, plug c t = plug c' (Node l a r)).
  { intros Ha. destruct (H Top t Ha) as (c & l & r & He). by exists c, l, r. }
  clear t. intros c t. revert c. induction t as [|l IHl b r IHr]; intros c; simpl.
  - by intros ?%elem_of_nil.
  - intros [Hl|[->|Hr]%elem_of_cons]%elem_of_app.
    + apply (IHl (Down c true b r) Hl).
    + by exists c, l, r.
    + apply (IHr (Down c false b l) Hr).
Qed.

(** ** What the pointers of a tree depend on *)

(** [k] picks a link field. *)
Definition link (k : Z) : Prop := k = 8 \/ k = 16 \/ k = 24.
Lemma link_left a : tree_left a = a + 8. Proof. done. Qed.
Lemma link_right a : tree_right a = a + 16. Proof. done. Qed.
Lemma link_parent a : tree_parent a = a + 24. Proof. done. Qed.

Lemma trep_ext f g p t :
  (forall a k, a ∈ nodes t -> link k -> f (a + k) = g (a + k)) -> trep f p t -> trep g p t.
Proof.
  revert p. induction t as [|l IHl a r IHr]; intros p He; [done|]. intros (H1 & H2 & H3 & H4 & H5).
  cbn [nodes] in He. simpl. unfold tree_left, tree_right, tree_parent in *.
  rewrite <- !He by (set_solver || (unfold link; lia)). split_and!; try done.
  - apply IHl; [|done]. intros. apply He; [set_solver|done].
  - apply IHr; [|done]. intros. apply He; [set_solver|done].
Qed.

(** The tree moves below another node. *)
Lemma trep_reparent f g p p' t :
  NoDup (nodes t) ->
  (forall a k, a ∈ nodes t -> link k -> (a <> root_of t \/ k <> 24) -> f (a + k) = g (a + k)) ->
  (t <> Leaf -> g (root_of t + 24) = p') -> trep f p t -> trep g p' t.
Proof.
  destruct t as [|l a r]; [done|]. intros Hnd He Hp (H1 & H2 & H3 & H4 & H5). simpl in *.
  apply NoDup_app in Hnd as (_ & Hl & Hr). apply NoDup_cons in Hr as [Hr _].
  unfold tree_left, tree_right, tree_parent in *.
  rewrite <- !He by (set_solver || (unfold link; lia)). split_and!; try done.
  - by apply Hp.
  - eapply trep_ext; [|done]. intros b k Hb Hk. apply He; [set_solver|done|].
    left. intros ->. by apply (Hl a Hb), list_elem_of_here.
  - eapply trep_ext; [|done]. intros b k Hb Hk. apply He; [set_solver|done|].
    left. by intros ->.
Qed.

Definition cnodes (c : ctx) : list Z := (before c ++ after c)%list.

Definition fields (l : list Z) : list Z := l ≫= fun a => [a + 8; a + 16; a + 24].
Lemma elem_of_fields b l : b ∈ fields l <-> exists a k, a ∈ l /\ link k /\ b = a + k.
Proof.
  unfold fields, link. rewrite list_elem_of_bind. setoid_rewrite elem_of_cons.
  setoid_rewrite elem_of_cons. setoid_rewrite list_elem_of_singleton. split.
  - intros (a & [->|[->| ->]] & Ha); exists a; eexists; (split; [done|]; split; [|reflexivity]); lia.
  - intros (a & k & Ha & [->|[->| ->]] & ->); exists a; tauto.
Qed.

Lemma link_side b : link (side b).
Proof. unfold link. destruct b; simpl; lia. Qed.

(** The addresses [crep] looks at. *)
Fixpoint cdeps (R : Z) (c : ctx) : list Z :=
  match c with
  | Top => []
  | Down c b a s => [a + side (negb b); a + 24; slot R c] ++ fields (nodes s) ++ cdeps R c
  end%list.

Lemma crep_ext f g R c :
  (forall b, b ∈ cdeps R c -> f b = g b) -> crep f R c -> crep g R c.
Proof.
  induction c as [|c IH b a s]; intros He; [done|]; cbn [crep cdeps] in *; unfold tree_parent.
  intros (H1 & H2 & H3 & H4 & H5). rewrite <- !He by set_solver. split_and!; try done.
  - eapply trep_ext; [|done]. intros. apply He. rewrite !elem_of_app, elem_of_fields. eauto 8.
  - apply IH; [|done]. intros. apply He. set_solver.
Qed.

(** Nodes lie 32 bytes apart. *)
Definition apart (D : list Z) : Prop :=
  forall x y, x ∈ D -> y ∈ D -> x <> y -> x + 32 <= y \/ y + 32 <= x.

#[export] Instance apart_perm : Proper ((≡ₚ) ==> iff) apart.
Proof.
  intros D D' HD. unfold apart. split; intros H x y; [rewrite <- !HD|rewrite !HD]; apply H.
Qed.
Lemma apart_sub D D' : D ⊆ D' -> apart D' -> apart D.
Proof. intros Hs H x y Hx Hy. apply H; by apply Hs. Qed.

Lemma apart_link D x y k j :
  apart D -> x ∈ D -> y ∈ D -> link k -> link j -> (x <> y \/ k <> j) -> x + k <> y + j.
Proof.
  unfold link. intros HD Hx Hy Hk Hj Hne. destruct (decide (x = y)) as [->|Hxy]; [lia|].
  specialize (HD x y Hx Hy Hxy). lia.
Qed.

Lemma cnodes_down c b a s : cnodes (Down c b a s) ≡ₚ a :: nodes s ++ cnodes c.
Proof. unfold cnodes. destruct b; simpl; solve_Permutation. Qed.

Lemma slot_link R c : exists a k, a ∈ R :: cnodes c /\ link k /\ slot R c = a + k.
Proof.
  destruct c as [|c b a s].
  - exists R, 16. unfold link. set_solver by lia.
  - exists a, (side b). rewrite cnodes_down. split; [set_solver|]. split; [apply link_side|done].
Qed.

Lemma cdeps_link R c b :
  b ∈ cdeps R c -> exists a k, a ∈ R :: cnodes c /\ link k /\ b = a + k.
Proof.
  induction c as [|c IH d a s]; cbn [cdeps]; [by intros ?%elem_of_nil|].
  setoid_rewrite cnodes_down. rewrite !elem_of_app, !elem_of_cons, elem_of_fields.
  intros [[->|[->|[->|Hb]]]|[(x & k & Hx & Hk & ->)|Hb]].
  - exists a, (side (negb d)). split; [set_solver|]. split; [apply link_side|done].
  - exists a, 24. unfold link. set_solver by lia.
  - destruct (slot_link R c) as (x & k & Hx & Hk & ->). exists x, k. set_solver.
  - by apply elem_of_nil in Hb.
  - exists x, k. set_solver.
  - destruct (IH Hb) as (x & k & Hx & Hk & ->). exists x, k. set_solver.
Qed.

Lemma cdeps_hole R c b :
  apart (R :: cnodes c) -> NoDup (R :: cnodes c) -> b ∈ cdeps R c -> b <> slot R c.
Proof.
  destruct c as [|c d a s]; [by intros _ _ ?%elem_of_nil|]. rewrite cnodes_down.
  intros Hap Hnd. cbn [cdeps slot].
  assert (Hin : forall x, x ∈ nodes s \/ x ∈ R :: cnodes c -> x ∈ R :: a :: nodes s ++ cnodes c /\ x <> a).
  { intros x Hx. split; [set_solver|]. intros ->.
    apply NoDup_cons in Hnd as [HR [Ha _]%NoDup_cons]. set_solver. }
  assert (Hother : forall x k, x ∈ nodes s \/ x ∈ R :: cnodes c -> link k -> x + k <> a + side d).
  { intros x k Hx Hk. destruct (Hin x Hx) as [Hx1 Hx2].
    apply (apart_link _ _ _ _ _ Hap Hx1); [set_solver|done|apply link_side|by left]. }
  rewrite !elem_of_app, !elem_of_cons, elem_of_fields.
  intros [[->|[->|[->|Hb]]]|[(x & k & Hx & Hk & ->)|Hb]].
  - destruct d; simpl; lia.
  - destruct d; simpl; lia.
  - destruct (slot_link R c) as (x & k & Hx & Hk & ->). apply Hother; [by right|done].
  - by apply elem_of_nil in Hb.
  - apply Hother; [by left|done].
  - destruct (cdeps_link _ _ _ Hb) as (x & k & Hx & Hk & ->). apply Hother; [by right|done].
Qed.

(** Another subtree in the hole. *)
Lemma splice f g R c t t' D :
  apart D -> R :: cnodes c ⊆ D -> NoDup (R :: cnodes c) ->
  whole f R (plug c t) ->
  (forall a k, a ∈ R :: cnodes c -> link k -> a + k <> slot R c -> f (a + k) = g (a + k)) ->
  g (slot R c) = root_of t' -> trep g (par R c) t' -> whole g R (plug c t').
Proof.
  intros HD Hin Hnd Hw Hg Hs Ht. apply plug_rep in Hw as (Hc & _ & _). apply plug_rep.
  split_and!; [|done..]. eapply crep_ext; [|exact Hc]. intros b Hb.
  assert (Hne : b <> slot R c).
  { apply cdeps_hole; [|done..]. intros x y Hx Hy. apply HD; by apply Hin. }
  destruct (cdeps_link _ _ _ Hb) as (a & k & Ha & Hk & ->). by apply Hg.
Qed.

(** ** Running on link fields *)

(** What an operation may change: bytes in [P]. *)
Definition same_out (P : Z -> Prop) (m m' : gmap Z Z) : Prop :=
  forall k, P k \/ mem_byte m' k = mem_byte m k.
Record moves (P : Z -> Prop) (h h' : gc_heap) : Prop := {
  mv_heap : h' = hp_set_mem (hp_mem h') h;
  mv_bytes : bytes_ok (hp_mem h) -> bytes_ok (hp_mem h');
  mv_same : same_out P (hp_mem h) (hp_mem h')
}.

Lemma moves_refl P h : moves P h h.
Proof. split; [by destruct h|done|]. intros k. by right. Qed.
Lemma moves_trans P h1 h2 h3 : moves P h1 h2 -> moves P h2 h3 -> moves P h1 h3.
Proof.
  intros [E1 B1 S1] [E2 B2 S2]. split; [by rewrite E2, E1|auto|].
  intros k. destruct (S1 k), (S2 k); [tauto..|]. right. congruence.
Qed.
Lemma moves_weaken (P Q : Z -> Prop) h h' : (forall k, P k -> Q k) -> moves P h h' -> moves Q h h'.
Proof. intros HPQ [E1 B1 S1]. split; [done..|]. intros k. destruct (S1 k); auto. Qed.
Lemma moves_store (P : Z -> Prop) h n a v :
  (forall k, a <= k < a + Z.of_nat n -> P k) -> moves P h (hp_set_mem (wr n (hp_mem h) a v) h).
Proof.
  intros HP. split; [done|intros; by apply bytes_ok_wr|]. intros k. simpl.
  destruct (decide (a <= k < a + Z.of_nat n)); [left; auto|right; apply mem_byte_wr; lia].
Qed.
Lemma moves_rd (P : Z -> Prop) h h' n a :
  moves P h h' -> (forall k, a <= k < a + Z.of_nat n -> ~ P k) ->
  rd n (hp_mem h') a = rd n (hp_mem h) a.
Proof. intros [_ _ S1] HP. apply rd_ext. intros k Hk. destruct (S1 k) as [Hp|]; [by destruct (HP k)|done]. Qed.
Lemma moves_inside P h h' a n : moves P h h' -> inside h a n -> inside h' a n.
Proof. by intros [-> _ _]. Qed.

Definition link_bytes (D : list Z) (k : Z) : Prop := exists a, a ∈ D /\ a + 8 <= k < a + 32.

(** Node addresses: apart, inside the block, not [NULL]. *)
Record node_set (D : list Z) (h : gc_heap) : Prop := {
  ns_apart : apart D;
  ns_inside : forall a, a ∈ D -> inside h a 32;
  ns_ptr : forall a, a ∈ D -> 0 < a < 2 ^ 64
}.

(** The link fields of the nodes [D], in a state that [h0] moved to. *)
Record links (D : list Z) (h0 : gc_heap) (f : Z -> Z) (h : gc_heap) : Prop := {
  lk_moves : moves (link_bytes D) h0 h;
  lk_rd : forall a k, a ∈ D -> link k -> rd 8 (hp_mem h) (a + k) = f (a + k)
}.

Lemma links_start D h : links D h (rd 8 (hp_mem h)) h.
Proof. split; [apply moves_refl|done]. Qed.

Section Links.
Context (D : list Z) (h0 : gc_heap).
Hypothesis HD : node_set D h0.

Lemma links_inside f h a k : links D h0 f h -> a ∈ D -> link k -> inside h (a + k) 8.
Proof.
  intros [Hm _] Ha Hk. eapply moves_inside; [exact Hm|].
  pose proof (ns_inside _ _ HD a Ha) as Hi. unfold inside, link in *. lia.
Qed.
Lemma links_load f h a k :
  links D h0 f h -> a ∈ D -> link k -> load_ptr (a + k) h = Ok (f (a + k), h).
Proof.
  intros Hl Ha Hk. rewrite load_eq by (change (Z.of_nat 8) with 8; by eapply links_inside).
  by rewrite (lk_rd _ _ _ _ Hl).
Qed.
Lemma links_store f h a k v :
  links D h0 f h -> a ∈ D -> link k -> in_u 64 v ->
  exists h', store_ptr (a + k) v h = Ok (tt, h') /\ links D h0 (<[a + k := v]> f) h'.
Proof.
  intros Hl Ha Hk Hv. eexists. split.
  { apply store_eq. change (Z.of_nat 8) with 8. by eapply links_inside. }
  split.
  - eapply moves_trans; [apply Hl|]. apply moves_store. intros j Hj. exists a. split; [done|].
    unfold link in Hk. lia.
  - intros b j Hb Hj. simpl. destruct (decide (a + k = b + j)) as [He|Hne].
    + rewrite <- He, fn_lookup_insert, rd_wr_eq. by apply uwrap_id.
    + rewrite fn_lookup_insert_ne by done. rewrite rd_wr_ne; [by apply (lk_rd _ _ _ _ Hl)|].
      change (Z.of_nat 8) with 8. destruct (decide (a = b)) as [->|Hab].
      * unfold link in *. lia.
      * pose proof (ns_apart _ _ HD a b Ha Hb Hab). unfold link in *. lia.
Qed.

Lemma ns_u64 a : a ∈ D -> in_u 64 a.
Proof. intros Ha. pose proof (ns_ptr _ _ HD a Ha). unfold in_u. lia. Qed.
End Links.

(** Two different links of a node set. *)
Lemma link_ne D h x y k j :
  node_set D h -> x ∈ D -> y ∈ D -> link k -> link j -> (x <> y \/ k <> j) -> x + k <> y + j.
Proof. intros [HD _ _]. by apply apart_link. Qed.

(** ** Removal *)

Fixpoint remove_max (l : tree) (a : Z) (r : tree) : tree * Z :=
  match r with
  | Leaf => (l, a)
  | Node l' a' r' => let '(r'', q) := remove_max l' a' r' in (Node l a r'', q)
  end.
(** The tree that takes the place of a node with these children. *)
Definition join (l r : tree) : tree :=
  match l, r with
  | Leaf, _ => r
  | _, Leaf => l
  | Node l1 a l2, _ => let '(l', q) := remove_max l1 a l2 in Node l' q r
  end.

Lemma nodes_remove_max l a r :
  nodes (remove_max l a r).1 ++ [(remove_max l a r).2] = nodes (Node l a r).
Proof.
  revert l a. induction r as [|l' _ a' r' IH]; intros l a; [done|]. cbn [remove_max].
  specialize (IH l' a'). destruct (remove_max l' a' r') as [r'' q]. cbn [fst snd nodes] in *.
  rewrite <- IH. by rewrite <- (assoc_L (++)).
Qed.
Lemma nodes_join l r : nodes (join l r) = (nodes l ++ nodes r)%list.
Proof.
  destruct l as [|l1 a l2]; [done|]. destruct r as [|r1 b r2]; [by rewrite app_nil_r|].
  unfold join. pose proof (nodes_remove_max l1 a l2) as H.
  destruct (remove_max l1 a l2) as [l' q]. cbn [fst snd] in H. rewrite <- H.
  change (nodes (Node l' q ?x)) with (nodes l' ++ q :: nodes x)%list. by rewrite <- (assoc_L (++)).
Qed.

(** The largest node has no right child. *)
Lemma remove_max_plug l a r c :
  exists c' l', plug c (Node l a r) = plug c' (Node l' (remove_max l a r).2 Leaf) /\
    plug c (remove_max l a r).1 = plug c' l'.
Proof.
  revert l a c. induction r as [|l' _ a' r' IH]; intros l a c; [by exists c, l|].
  cbn [remove_max]. destruct (IH l' a' (Down c false a l)) as (c' & l'' & H1 & H2).
  destruct (remove_max l' a' r') as [r'' q]. by exists c', l''.
Qed.

Section Remove.
Context (D : list Z) (h0 : gc_heap).
Hypothesis HD : node_set D h0.
Context (R : Z).

(** The tree [t] below [R], with its nodes in [D]. *)
Record tree_in (f : Z -> Z) (t : tree) : Prop := {
  ti_whole : whole f R t;
  ti_nodup : NoDup (R :: nodes t);
  ti_sub : R :: nodes t ⊆ D
}.

Lemma root_in t : t <> Leaf -> root_of t ∈ nodes t.
Proof. destruct t; [done|]. simpl. set_solver. Qed.
Lemma root_nonzero t : nodes t ⊆ D -> root_of t = 0 -> t = Leaf.
Proof.
  intros Ht Hr. destruct t as [|l a r]; [done|]. simpl in *. subst.
  assert (0 ∈ D) as Hz by (apply Ht; set_solver). apply (ns_ptr _ _ HD) in Hz. lia.
Qed.
Lemma root_u64 t : nodes t ⊆ D -> in_u 64 (root_of t).
Proof.
  intros Ht. destruct t as [|l a r]; [done|]. apply (ns_u64 _ _ HD), Ht. simpl. set_solver.
Qed.

Lemma nodes_plug_perm c t : nodes (plug c t) ≡ₚ nodes t ++ cnodes c.
Proof. rewrite nodes_plug. unfold cnodes. solve_Permutation. Qed.

Lemma par_in c : par R c ∈ R :: cnodes c.
Proof. destruct c; [set_solver|]. rewrite cnodes_down. simpl. set_solver. Qed.

(** What is known of a tree and one of its nodes. *)
Record at_node (f : Z -> Z) (c : ctx) (l : tree) (p : Z) (r : tree) : Prop := {
  an_rep : whole f R (plug c (Node l p r));
  an_nodup : NoDup (R :: p :: nodes l ++ nodes r ++ cnodes c);
  an_sub : R :: p :: nodes l ++ nodes r ++ cnodes c ⊆ D
}.

Lemma tree_in_at f c l p r : tree_in f (plug c (Node l p r)) <-> at_node f c l p r.
Proof.
  assert (Hp : nodes (plug c (Node l p r)) ≡ₚ p :: nodes l ++ nodes r ++ cnodes c).
  { rewrite nodes_plug_perm. simpl. solve_Permutation. }
  split; intros [H1 H2 H3]; (split; [done|..]).
  - by rewrite <- Hp.
  - intros x Hx. apply H3. by rewrite Hp.
  - by rewrite Hp.
  - intros x Hx. apply H3. by rewrite <- Hp.
Qed.

Section At.
Context (f : Z -> Z) (c : ctx) (l : tree) (p : Z) (r : tree).
Hypothesis Hat : at_node f c l p r.

Lemma at_p : p ∈ D. Proof. apply (an_sub _ _ _ _ _ Hat). set_solver. Qed.
Lemma at_ctx a : a ∈ R :: cnodes c -> a ∈ D /\ a <> p.
Proof.
  intros Ha. split; [apply (an_sub _ _ _ _ _ Hat); set_solver|]. intros ->.
  pose proof (an_nodup _ _ _ _ _ Hat) as Hnd. apply NoDup_cons in Hnd as [HR Hnd].
  apply NoDup_cons in Hnd as [Hp _]. set_solver.
Qed.
Lemma at_child a : a ∈ nodes l ++ nodes r -> a ∈ D /\ a <> p /\ a ∉ R :: cnodes c.
Proof.
  intros Ha. split; [apply (an_sub _ _ _ _ _ Hat); set_solver|].
  pose proof (an_nodup _ _ _ _ _ Hat) as Hnd. rewrite (assoc_L (++)) in Hnd.
  apply NoDup_cons in Hnd as [HR Hnd]. apply NoDup_cons in Hnd as [Hp Hnd].
  apply NoDup_app in Hnd as (_ & Hlc & _). split; [set_solver|]. specialize (Hlc a Ha). set_solver.
Qed.
Lemma at_rep : crep f R c /\ f (slot R c) = p /\ f (p + 8) = root_of l /\ f (p + 16) = root_of r /\
  f (p + 24) = par R c /\ trep f p l /\ trep f p r.
Proof. pose proof (an_rep _ _ _ _ _ Hat) as H. apply plug_rep in H. simpl in H. tauto. Qed.
Lemma at_ctx_nodup : NoDup (R :: cnodes c).
Proof.
  pose proof (an_nodup _ _ _ _ _ Hat) as Hnd. apply NoDup_cons in Hnd as [HR Hnd].
  apply NoDup_cons in Hnd as [Hp Hnd]. apply NoDup_app in Hnd as (_ & _ & Hnd).
  apply NoDup_app in Hnd as (_ & _ & Hnd). apply NoDup_cons. split; [set_solver|done].
Qed.
Lemma at_children_nodup : NoDup (nodes l) /\ NoDup (nodes r) /\ forall a, a ∈ nodes l -> a ∉ nodes r.
Proof.
  pose proof (an_nodup _ _ _ _ _ Hat) as Hnd. apply NoDup_cons in Hnd as [HR Hnd].
  apply NoDup_cons in Hnd as [Hp Hnd]. apply NoDup_app in Hnd as (Hl & Hlr & Hnd).
  apply NoDup_app in Hnd as (Hr & _ & _). split_and!; [done..|]. intros a Ha. specialize (Hlr a Ha). set_solver.
Qed.

(** [p == p->parent->right] finds the slot. *)
Lemma slot_found :
  (if p =? f (par R c + 16) then tree_right (par R c) else tree_left (par R c)) = slot R c.
Proof.
  destruct at_rep as (Hc & Hs & _). pose proof (ns_ptr _ _ HD p at_p) as Hp0.
  pose proof at_ctx as Hctx. destruct c as [|c' b a s]; simpl in Hc, Hs |- *.
  - by rewrite Hs, Z.eqb_refl.
  - destruct Hc as (Hsib & _). destruct b; simpl in Hsib, Hs |- *.
    + destruct (Z.eqb_spec p (f (a + 16))) as [He|]; [|done]. rewrite Hsib in He.
      destruct s as [|s1 x s2]; [simpl in He; lia|].
      destruct (Hctx p) as [_ []]; [|done]. rewrite cnodes_down. simpl in He |- *. set_solver.
    + by rewrite Hs, Z.eqb_refl.
Qed.
End At.

(** *** A node with at most one child *)

Definition clear_fun (f : Z -> Z) (p : Z) : Z -> Z := <[p + 8 := 0]> (<[p + 16 := 0]> (<[p + 24 := 0]> f)).
(** The parent of [t] becomes [q]. *)
Definition set_parent (t : tree) (q : Z) (f : Z -> Z) : Z -> Z :=
  match t with Leaf => f | Node _ a _ => <[a + 24 := q]> f end.
(** [t] takes the place of [p]. *)
Definition relink (f : Z -> Z) (c : ctx) (t : tree) : Z -> Z :=
  set_parent t (par R c) (<[slot R c := root_of t]> f).

Lemma clear_run f h p :
  links D h0 f h -> p ∈ D ->
  exists h', clear_links p h = Ok (tt, h') /\ links D h0 (clear_fun f p) h'.
Proof.
  intros Hl Hp. unfold clear_links.
  destruct (links_store D h0 HD f h p 24 0 Hl Hp) as (h1 & E1 & L1); [unfold link; lia|done|].
  rewrite (ebind_eq _ _ _ _ _ E1).
  destruct (links_store D h0 HD _ h1 p 16 0 L1 Hp) as (h2 & E2 & L2); [unfold link; lia|done|].
  rewrite (ebind_eq _ _ _ _ _ E2).
  destruct (links_store D h0 HD _ h2 p 8 0 L2 Hp) as (h3 & E3 & L3); [unfold link; lia|done|].
  by exists h3.
Qed.

Lemma clear_fun_ne f p a k :
  a ∈ D -> p ∈ D -> a <> p -> link k -> clear_fun f p (a + k) = f (a + k).
Proof.
  intros Ha Hp Hne Hk. unfold clear_fun.
  rewrite !fn_lookup_insert_ne; [done|eapply link_ne; try done; unfold link; auto..].
Qed.

Lemma slot_ne c x k :
  R :: cnodes c ⊆ D -> x ∈ D -> x ∉ R :: cnodes c -> link k -> slot R c <> x + k.
Proof.
  intros Hc Hx Hn Hk. destruct (slot_link R c) as (y & j & Hy & Hj & ->).
  eapply link_ne; try done; [by apply Hc|]. left. by intros ->.
Qed.

Lemma relink_fun f c l p r t :
  at_node f c l p r -> nodes t ⊆ nodes l ++ nodes r -> NoDup (nodes t) -> trep f p t ->
  whole (clear_fun (relink f c t) p) R (plug c t).
Proof.
  intros Hat Ht Hnd Hrep.
  pose proof (at_p _ _ _ _ _ Hat) as Hp. pose proof (at_ctx _ _ _ _ _ Hat) as Hctx.
  assert (Hc : R :: cnodes c ⊆ D) by (intros x Hx; by apply Hctx).
  assert (Hch : forall a, a ∈ nodes t -> a ∈ D /\ a <> p /\ a ∉ R :: cnodes c)
    by (intros a Ha; by apply (at_child _ _ _ _ _ Hat), Ht).
  assert (Hrel : forall a k, a ∈ D -> link k -> a + k <> slot R c ->
            (t = Leaf \/ a <> root_of t \/ k <> 24) -> relink f c t (a + k) = f (a + k)).
  { intros a k Ha Hk Hs Hr. unfold relink, set_parent. destruct t as [|t1 x t2]; [by rewrite fn_lookup_insert_ne by done|].
    rewrite !fn_lookup_insert_ne; [done|done|].
    eapply link_ne; try done; [apply Hch; simpl; set_solver|unfold link; auto|].
    destruct Hr as [|Hr]; [done|]. simpl in Hr. lia. }
  apply (splice f _ R c (Node l p r) t D);
    [apply (ns_apart _ _ HD)|done|by eapply at_ctx_nodup|apply (an_rep _ _ _ _ _ Hat)|..].
  - intros a k Ha Hk Hs. destruct (Hctx a Ha) as [HaD Hap].
    rewrite clear_fun_ne by done. symmetry. apply Hrel; try done.
    destruct t as [|t1 x t2]; [by left|]. right. left. intros ->.
    destruct (Hch (root_of (Node t1 x t2))) as (_ & _ & []); [simpl; set_solver|done].
  - destruct (slot_link R c) as (y & j & Hy & Hj & Hyj). rewrite Hyj.
    destruct (Hctx y Hy). rewrite clear_fun_ne by done. unfold relink, set_parent. rewrite Hyj.
    destruct t as [|t1 x t2]; [by rewrite fn_lookup_insert|].
    rewrite fn_lookup_insert_ne, fn_lookup_insert; [done|].
    destruct (Hch x) as (? & ? & Hn); [simpl; set_solver|].
    eapply link_ne; try done; [unfold link; auto|]. left. by intros ->.
  - eapply trep_reparent; [exact Hnd|..|exact Hrep].
    + intros a k Ha Hk Hr. destruct (Hch a Ha) as (HaD & Hap & Han).
      rewrite clear_fun_ne by done. symmetry. apply Hrel; try tauto.
      intros He. by apply (slot_ne c a k).
    + intros Hne. destruct (Hch (root_of t)) as (HaD & Hap & _); [by apply root_in|].
      rewrite clear_fun_ne by (done || unfold link; auto). unfold relink, set_parent.
      destruct t as [|t1 x t2]; [done|]. by rewrite fn_lookup_insert.
Qed.

(** The first loads of [remove_tree_node], up to the case distinction. *)
Lemma remove_start f h c l p r (k : Z -> Z -> Z -> E unit) :
  links D h0 f h -> at_node f c l p r ->
  (elet parent := load_ptr (tree_parent p) in
   elet pr := load_ptr (tree_right parent) in
   elet left := load_ptr (tree_left p) in
   elet right := load_ptr (tree_right p) in
   k (if p =? pr then tree_right parent else tree_left parent) left right) h =
  k (slot R c) (root_of l) (root_of r) h.
Proof.
  intros Hl Hat. pose proof (at_p _ _ _ _ _ Hat) as Hp.
  destruct (at_rep _ _ _ _ _ Hat) as (_ & _ & E8 & E16 & E24 & _).
  assert (Hpar : par R c ∈ D) by (apply (at_ctx _ _ _ _ _ Hat), par_in).
  rewrite (ebind_eq _ _ _ _ _ (links_load D h0 HD f h p 24 Hl Hp ltac:(unfold link; lia))), E24.
  rewrite (ebind_eq _ _ _ _ _ (links_load D h0 HD f h _ 16 Hl Hpar ltac:(unfold link; lia))).
  rewrite (ebind_eq _ _ _ _ _ (links_load D h0 HD f h p 8 Hl Hp ltac:(unfold link; lia))), E8.
  rewrite (ebind_eq _ _ _ _ _ (links_load D h0 HD f h p 16 Hl Hp ltac:(unfold link; lia))), E16.
  by rewrite (slot_found _ _ _ _ _ Hat).
Qed.

(** Both one-child cases: [t] moves up. *)
Definition move_up (slot p child : Z) : E unit :=
  edo store_ptr slot child in
  edo (if negb (child =? 0) then
         elet parent := load_ptr (tree_parent p) in store_ptr (tree_parent child) parent
       else eret tt) in
  clear_links p.

(** The third case: the predecessor [q], taken out by [rec], replaces [p]. *)
Definition replace_node (slot p q : Z) : E unit :=
  edo store_ptr slot q in
  elet parent := load_ptr (tree_parent p) in
  edo store_ptr (tree_parent q) parent in
  elet left := load_ptr (tree_left p) in
  edo store_ptr (tree_left q) left in
  elet right := load_ptr (tree_right p) in
  edo store_ptr (tree_right q) right in
  edo (if negb (left =? 0) then store_ptr (tree_parent left) q else eret tt) in
  edo (if negb (right =? 0) then store_ptr (tree_parent right) q else eret tt) in
  clear_links p.
Definition remove_case (p : Z) (rec : option (Z -> E unit)) (slot left right : Z) : E unit :=
  if left =? 0 then move_up slot p right
  else if right =? 0 then
    edo store_ptr slot left in
    elet parent := load_ptr (tree_parent p) in
    edo store_ptr (tree_parent left) parent in
    clear_links p
  else
    elet fuel := eget heap_fuel in
    elet q := rightmost fuel left in
    match rec with
    | None => eundef
    | Some rec => edo rec q in replace_node slot p q
    end.
Definition pred_depth (d : nat) : option (Z -> E unit) :=
  match d with O => None | S d => Some (remove_tree_node d) end.

Lemma remove_run f h c l p r d :
  links D h0 f h -> at_node f c l p r ->
  remove_tree_node d p h = remove_case p (pred_depth d) (slot R c) (root_of l) (root_of r) h.
Proof.
  intros Hl Hat. rewrite <- (remove_start f h c l p r) by done. by destruct d.
Qed.

Lemma move_up_run f h c l p r t :
  links D h0 f h -> at_node f c l p r -> nodes t ⊆ nodes l ++ nodes r ->
  exists h', move_up (slot R c) p (root_of t) h = Ok (tt, h') /\
    links D h0 (clear_fun (relink f c t) p) h'.
Proof.
  intros Hl Hat Ht. pose proof (at_p _ _ _ _ _ Hat) as Hp. pose proof (at_ctx _ _ _ _ _ Hat) as Hctx.
  assert (HtD : nodes t ⊆ D) by (intros a Ha; by apply (at_child _ _ _ _ _ Hat), Ht).
  destruct (at_rep _ _ _ _ _ Hat) as (_ & _ & _ & _ & E24 & _).
  destruct (slot_link R c) as (y & j & Hy & Hj & Hyj). destruct (Hctx y Hy) as [HyD Hyp].
  unfold move_up, relink, set_parent. rewrite Hyj.
  destruct (links_store D h0 HD f h y j (root_of t) Hl HyD Hj (root_u64 t HtD)) as (h1 & E1 & L1).
  rewrite (ebind_eq _ _ _ _ _ E1). destruct t as [|t1 x t2].
  - simpl. rewrite (ebind_eq (eret tt) _ _ tt h1) by done. by apply clear_run.
  - assert (Hx : x ∈ D) by (apply HtD; simpl; set_solver). cbn [root_of].
    destruct (Z.eqb_spec x 0) as [H0|_]; [pose proof (ns_ptr _ _ HD x Hx); lia|]. cbn [negb].
    assert (E2 : (elet parent := load_ptr (tree_parent p) in store_ptr (tree_parent x) parent) h1 =
                 store_ptr (x + 24) (par R c) h1).
    { rewrite (ebind_eq _ _ _ _ _ (links_load D h0 HD _ h1 p 24 L1 Hp ltac:(unfold link; lia))).
      rewrite fn_lookup_insert_ne, E24; [done|]. eapply link_ne; try done; [unfold link; auto|by left]. }
    destruct (links_store D h0 HD _ h1 x 24 (par R c) L1 Hx) as (h2 & E3 & L2);
      [unfold link; lia|apply (ns_u64 _ _ HD), Hctx, par_in|].
    unfold ebind at 1. rewrite E2, E3. by apply clear_run.
Qed.

Lemma remove_small f h c l p r d :
  links D h0 f h -> at_node f c l p r -> l = Leaf \/ r = Leaf ->
  exists h' f', remove_tree_node d p h = Ok (tt, h') /\ links D h0 f' h' /\
    whole f' R (plug c (join l r)) /\ (forall k, link k -> f' (p + k) = 0).
Proof.
  intros Hl Hat Hone. pose proof (at_p _ _ _ _ _ Hat) as Hp.
  destruct (at_rep _ _ _ _ _ Hat) as (_ & _ & _ & _ & _ & Tl & Tr).
  destruct (at_children_nodup _ _ _ _ _ Hat) as (Nl & Nr & _).
  assert (Hrun : forall t, (l = Leaf /\ t = r \/ l <> Leaf /\ r = Leaf /\ t = l) ->
            remove_tree_node d p h = move_up (slot R c) p (root_of t) h).
  { intros t Ht. rewrite (remove_run f h c l p r) by done. unfold remove_case.
    destruct Ht as [[-> ->]|(Hne & -> & ->)]; [done|].
    destruct (Z.eqb_spec (root_of l) 0) as [Hz|Hz].
    - destruct Hne. apply root_nonzero; [|done]. intros a Ha.
      destruct (at_child _ _ _ _ _ Hat a) as [HaD _]; [set_solver|exact HaD].
    - unfold move_up. rewrite (proj2 (Z.eqb_neq _ _) Hz). cbn [root_of Z.eqb negb].
      unfold ebind. destruct (store_ptr _ _ h) as [[u h1]| |]; [|done..].
      by destruct (load_ptr _ h1) as [[]| |]. }
  set (t := join l r).
  assert (Ht : l = Leaf /\ t = r \/ l <> Leaf /\ r = Leaf /\ t = l).
  { subst t. destruct Hone as [->| ->]; [by left|]. destruct l; [by left|by right]. }
  assert (Hts : nodes t ⊆ nodes l ++ nodes r) by (subst t; by rewrite nodes_join).
  destruct (move_up_run f h c l p r t Hl Hat Hts) as (h' & E & L).
  exists h', (clear_fun (relink f c t) p). rewrite (Hrun t Ht). split_and!; [done|done|..].
  - eapply relink_fun; [exact Hat|done|..]; destruct Ht as [[_ ->]|(_ & _ & ->)]; done.
  - intros k [->|[->| ->]]; unfold clear_fun.
    + by rewrite fn_lookup_insert.
    + rewrite fn_lookup_insert_ne, fn_lookup_insert by lia. done.
    + rewrite !fn_lookup_insert_ne, fn_lookup_insert by lia. done.
Qed.

(** *** A node with two children *)

Lemma set_parent_ne t q f a k :
  nodes t ⊆ D -> a ∈ D -> link k -> (t = Leaf \/ a <> root_of t \/ k <> 24) ->
  set_parent t q f (a + k) = f (a + k).
Proof.
  intros Ht Ha Hk Hne. destruct t as [|t1 x t2]; [done|]. simpl in *.
  rewrite fn_lookup_insert_ne; [done|].
  eapply link_ne; try done; [apply Ht; set_solver|unfold link; auto|]. destruct Hne as [|Hne]; [done|].
  destruct (decide (x = a)) as [->|]; [|by left]. destruct Hne; [done|right; lia].
Qed.

Lemma set_parent_run f h t q :
  links D h0 f h -> nodes t ⊆ D -> q ∈ D ->
  exists h', (if negb (root_of t =? 0) then store_ptr (tree_parent (root_of t)) q else eret tt) h =
      Ok (tt, h') /\ links D h0 (set_parent t q f) h'.
Proof.
  intros Hl Ht Hq. destruct t as [|t1 x t2]; [by exists h|].
  assert (Hx : x ∈ D) by (apply Ht; simpl; set_solver). cbn [root_of].
  destruct (Z.eqb_spec x 0) as [H0|_]; [pose proof (ns_ptr _ _ HD x Hx); lia|]. cbn [negb set_parent].
  apply (links_store D h0 HD f h x 24 q Hl Hx); [unfold link; lia|by apply (ns_u64 _ _ HD)].
Qed.

Definition replaced (f : Z -> Z) (c : ctx) (l : tree) (p q : Z) (r : tree) : Z -> Z :=
  set_parent r q (set_parent l q
    (<[q + 16 := root_of r]> (<[q + 8 := root_of l]> (<[q + 24 := par R c]> (<[slot R c := q]> f))))).

Lemma replace_run f h c l p r q :
  links D h0 f h -> at_node f c l p r -> q ∈ D -> q <> p ->
  exists h', replace_node (slot R c) p q h = Ok (tt, h') /\
    links D h0 (clear_fun (replaced f c l p q r) p) h'.
Proof.
  intros Hl Hat Hq Hqp. pose proof (at_p _ _ _ _ _ Hat) as Hp. pose proof (at_ctx _ _ _ _ _ Hat) as Hctx.
  assert (HlD : nodes l ⊆ D) by (intros a Ha; apply (an_sub _ _ _ _ _ Hat); set_solver).
  assert (HrD : nodes r ⊆ D) by (intros a Ha; apply (an_sub _ _ _ _ _ Hat); set_solver).
  destruct (at_rep _ _ _ _ _ Hat) as (_ & _ & E8 & E16 & E24 & _).
  destruct (slot_link R c) as (y & j & Hy & Hj & Hyj). destruct (Hctx y Hy) as [HyD Hyp].
  assert (L8 : link 8 /\ link 16 /\ link 24) by (unfold link; lia). destruct L8 as (L8 & L16 & L24).
  assert (Hne : forall k, link k -> y + j <> p + k).
  { intros k Hk. eapply link_ne; try done. by left. }
  assert (Hne' : forall k k', link k -> link k' -> q + k <> p + k').
  { intros k k' Hk Hk'. eapply link_ne; try done. by left. }
  unfold replace_node, replaced. rewrite Hyj.
  destruct (links_store D h0 HD f h y j q Hl HyD Hj (ns_u64 _ _ HD q Hq)) as (h1 & E1 & L1).
  rewrite (ebind_eq _ _ _ _ _ E1).
  rewrite (ebind_eq _ _ _ _ _ (links_load D h0 HD _ h1 p 24 L1 Hp L24)).
  rewrite fn_lookup_insert_ne, E24 by auto.
  destruct (links_store D h0 HD _ h1 q 24 (par R c) L1 Hq L24) as (h2 & E2 & L2);
    [apply (ns_u64 _ _ HD), Hctx, par_in|].
  rewrite (ebind_eq _ _ _ _ _ E2).
  rewrite (ebind_eq _ _ _ _ _ (links_load D h0 HD _ h2 p 8 L2 Hp L8)).
  rewrite !fn_lookup_insert_ne, E8 by auto.
  destruct (links_store D h0 HD _ h2 q 8 _ L2 Hq L8 (root_u64 l HlD)) as (h3 & E3 & L3).
  rewrite (ebind_eq _ _ _ _ _ E3).
  rewrite (ebind_eq _ _ _ _ _ (links_load D h0 HD _ h3 p 16 L3 Hp L16)).
  rewrite !fn_lookup_insert_ne, E16 by auto.
  destruct (links_store D h0 HD _ h3 q 16 _ L3 Hq L16 (root_u64 r HrD)) as (h4 & E4 & L4).
  rewrite (ebind_eq _ _ _ _ _ E4).
  destruct (set_parent_run _ h4 l q L4 HlD Hq) as (h5 & E5 & L5). rewrite (ebind_eq _ _ _ _ _ E5).
  destruct (set_parent_run _ h5 r q L5 HrD Hq) as (h6 & E6 & L6). rewrite (ebind_eq _ _ _ _ _ E6).
  by apply clear_run.
Qed.

Lemma replaced_fun f c l p r q :
  at_node f c l p r -> q ∈ D -> q ∉ R :: p :: nodes l ++ nodes r ++ cnodes c ->
  whole (clear_fun (replaced f c l p q r) p) R (plug c (Node l q r)).
Proof.
  intros Hat Hq Hqn. pose proof (at_p _ _ _ _ _ Hat) as Hp. pose proof (at_ctx _ _ _ _ _ Hat) as Hctx.
  assert (HlD : nodes l ⊆ D) by (intros a Ha; apply (an_sub _ _ _ _ _ Hat); set_solver).
  assert (HrD : nodes r ⊆ D) by (intros a Ha; apply (an_sub _ _ _ _ _ Hat); set_solver).
  assert (HcD : R :: cnodes c ⊆ D) by (intros x Hx; by apply Hctx).
  destruct (at_rep _ _ _ _ _ Hat) as (_ & _ & _ & _ & _ & Tl & Tr).
  destruct (at_children_nodup _ _ _ _ _ Hat) as (Nl & Nr & Hlr).
  assert (Hch : forall a, a ∈ nodes l \/ a ∈ nodes r -> a ∈ D /\ a <> p /\ a ∉ R :: cnodes c)
    by (intros a Ha; apply (at_child _ _ _ _ _ Hat); set_solver).
  assert (L8 : link 8 /\ link 16 /\ link 24) by (unfold link; lia). destruct L8 as (L8 & L16 & L24).
  set (f4 := <[q + 16 := root_of r]> (<[q + 8 := root_of l]> (<[q + 24 := par R c]> (<[slot R c := q]> f)))).
  (* the links of the other nodes *)
  assert (Hf4 : forall a k, a ∈ D -> link k -> a <> q -> a + k <> slot R c -> f4 (a + k) = f (a + k)).
  { intros a k Ha Hk Haq Hs. subst f4. rewrite !fn_lookup_insert_ne; [done|done|..];
      (eapply link_ne; try done; by left). }
  assert (Hg : forall a k, a ∈ D -> link k -> a <> p ->
            ((l = Leaf \/ a <> root_of l) /\ (r = Leaf \/ a <> root_of r) \/ k <> 24) ->
            clear_fun (replaced f c l p q r) p (a + k) = f4 (a + k)).
  { intros a k Ha Hk Hap Hk24. rewrite clear_fun_ne by done. unfold replaced. fold f4.
    rewrite !set_parent_ne; tauto. }
  assert (Hnotroot : forall a t, a ∉ nodes t -> t = Leaf \/ a <> root_of t).
  { intros a t Ht. destruct t as [|t1 x t2]; [by left|right]. intros ->. simpl in Ht. set_solver. }
  apply (splice f _ R c (Node l p r) _ D);
    [apply (ns_apart _ _ HD)|done|by eapply at_ctx_nodup|apply (an_rep _ _ _ _ _ Hat)|..].
  - intros a k Ha Hk Hs. destruct (Hctx a Ha) as [HaD Hap].
    assert (a ∉ nodes l /\ a ∉ nodes r) as [Hal Har].
    { split; intros Hin; destruct (Hch a) as (_ & _ & []); auto. }
    rewrite Hg by (try done; left; auto). rewrite Hf4; [done..| |done]. intros ->. set_solver.
  - destruct (slot_link R c) as (y & j & Hy & Hj & Hyj). destruct (Hctx y Hy) as [HyD Hyp].
    assert (y ∉ nodes l /\ y ∉ nodes r) as [Hyl Hyr].
    { split; intros Hin; destruct (Hch y) as (_ & _ & []); auto. }
    rewrite Hyj, Hg by (try done; left; auto). subst f4. rewrite Hyj.
    rewrite !fn_lookup_insert_ne by (eapply link_ne; try done; left; intros ->; set_solver).
    by rewrite fn_lookup_insert.
  - assert (q ∉ nodes l /\ q ∉ nodes r /\ q <> p) as (Hql & Hqr & Hqp) by set_solver.
    assert (Hqs : forall k, link k -> slot R c <> q + k)
      by (intros k Hk; apply slot_ne; [done|done|set_solver|done]).
    cbn [trep]. unfold tree_left, tree_right, tree_parent.
    rewrite !Hg by (try done; left; auto). subst f4. split_and!.
    + rewrite fn_lookup_insert_ne, fn_lookup_insert by lia. done.
    + by rewrite fn_lookup_insert.
    + rewrite !fn_lookup_insert_ne, fn_lookup_insert by lia. done.
    + eapply trep_reparent; [exact Nl|..|exact Tl].
      * intros a k Ha Hk Hr. destruct (Hch a) as (HaD & Hap & Han); [by left|].
        rewrite Hg, Hf4; try done; [set_solver|by apply not_eq_sym, slot_ne|].
        destruct Hr; [left|by right]. split; [by right|]. apply Hnotroot. by apply Hlr.
      * intros Hne. destruct (Hch (root_of l)) as (HaD & Hap & _); [left; by apply root_in|].
        rewrite clear_fun_ne by done. unfold replaced. rewrite set_parent_ne; try done.
        -- destruct l; [done|]. by apply fn_lookup_insert.
        -- destruct (Hnotroot (root_of l) r); [by apply Hlr, root_in|by left|by right; left].
    + eapply trep_reparent; [exact Nr|..|exact Tr].
      * intros a k Ha Hk Hr. destruct (Hch a) as (HaD & Hap & Han); [by right|].
        rewrite Hg, Hf4; try done; [set_solver|by apply not_eq_sym, slot_ne|].
        destruct Hr; [left|by right]. split; [|by right]. apply Hnotroot. intros Hal. by apply (Hlr a).
      * intros Hne. destruct (Hch (root_of r)) as (HaD & Hap & _); [right; by apply root_in|].
        rewrite clear_fun_ne by done. unfold replaced. destruct r; [done|]. by apply fn_lookup_insert.
Qed.

(** *** Any node *)

Lemma rightmost_run f h l a r q fuel :
  links D h0 f h -> trep f q (Node l a r) -> nodes (Node l a r) ⊆ D ->
  (length (nodes r) <= fuel)%nat ->
  rightmost fuel a h = Ok ((remove_max l a r).2, h).
Proof.
  intros Hl. revert l a q fuel. induction r as [|l' _ a' r' IH]; intros l a q fuel Ht Hin Hf;
    destruct Ht as (_ & E16 & _ & _ & Hr); simpl in Hin;
    pose proof (links_load D h0 HD f h a 16 Hl ltac:(apply Hin; set_solver) ltac:(unfold link; lia)) as Hld;
    change (f (tree_right a)) with (f (a + 16)) in E16; rewrite E16 in Hld.
  - destruct fuel; cbn [rightmost]; by rewrite (ebind_eq _ _ _ _ _ Hld).
  - cbn [root_of] in Hld. assert (Ha' : a' ∈ D) by (apply Hin; set_solver).
    pose proof (ns_ptr _ _ HD a' Ha') as Hp.
    destruct fuel as [|fuel]; [simpl in Hf; rewrite length_app in Hf; simpl in Hf; lia|].
    cbn [rightmost]. rewrite (ebind_eq _ _ _ _ _ Hld), (proj2 (Z.eqb_neq a' 0)) by lia.
    cbn [remove_max]. rewrite (IH l' a' a fuel Hr).
    + by destruct (remove_max l' a' r').
    + simpl. set_solver.
    + simpl in Hf. rewrite length_app in Hf. simpl in Hf. lia.
Qed.

Lemma remove_two f h c l1 a l2 p r1 b r2 d :
  links D h0 f h -> at_node f c (Node l1 a l2) p (Node r1 b r2) ->
  (length (nodes (Node l1 a l2)) <= heap_fuel h0)%nat ->
  exists h' f', remove_tree_node (S d) p h = Ok (tt, h') /\ links D h0 f' h' /\
    whole f' R (plug c (join (Node l1 a l2) (Node r1 b r2))).
Proof.
  intros Hl Hat Hf. set (r := Node r1 b r2) in *.
  pose proof (an_sub _ _ _ _ _ Hat) as HinD. pose proof (an_nodup _ _ _ _ _ Hat) as Hnd.
  destruct (at_rep _ _ _ _ _ Hat) as (_ & _ & _ & _ & _ & Tl & _).
  rewrite (remove_run f h c _ p r) by done. unfold remove_case. cbn [root_of pred_depth].
  rewrite (proj2 (Z.eqb_neq a 0)), (proj2 (Z.eqb_neq (root_of r) 0)).
  2:{ pose proof (ns_ptr _ _ HD b ltac:(apply HinD; subst r; simpl; set_solver)). simpl. lia. }
  2:{ pose proof (ns_ptr _ _ HD a ltac:(apply HinD; simpl; set_solver)). lia. }
  rewrite (ebind_eq (eget heap_fuel) _ h (heap_fuel h) h) by done.
  assert (heap_fuel h = heap_fuel h0) as -> by (destruct Hl as [[-> _ _] _]; done).
  rewrite (ebind_eq _ _ _ _ _ (rightmost_run f h l1 a l2 p (heap_fuel h0) Hl Tl ltac:(set_solver)
    ltac:(cbn [nodes] in Hf; rewrite length_app in Hf; cbn [length] in Hf; lia))).
  pose proof (nodes_remove_max l1 a l2) as Hn.
  destruct (remove_max_plug l1 a l2 (Down c true p r)) as (c2 & l0 & P1 & P2). cbn [plug mk_node] in P1, P2.
  unfold join. fold r. destruct (remove_max l1 a l2) as [l' q] eqn:Em. cbn [fst snd] in *.
  assert (Hat2 : at_node f c2 l0 q Leaf).
  { apply tree_in_at. rewrite <- P1. by apply tree_in_at. }
  destruct (remove_small f h c2 l0 q Leaf d Hl Hat2) as (h1 & f1 & E1 & L1 & W1 & _); [by right|].
  rewrite (ebind_eq _ _ _ _ _ E1).
  assert (join l0 Leaf = l0) as Hj by (by destruct l0). rewrite Hj, <- P2 in W1.
  assert (Hsplit : R :: p :: nodes (Node l1 a l2) ++ nodes r ++ cnodes c ≡ₚ
                   q :: R :: p :: nodes l' ++ nodes r ++ cnodes c).
  { rewrite <- Hn. solve_Permutation. }
  rewrite Hsplit in Hnd. apply NoDup_cons in Hnd as [Hq Hnd].
  assert (Hat1 : at_node f1 c l' p r).
  { split; [done..|]. intros x Hx. apply HinD. rewrite Hsplit. by apply list_elem_of_further. }
  assert (HqD : q ∈ D) by (apply HinD; rewrite Hsplit; set_solver).
  destruct (replace_run f1 h1 c l' p r q L1 Hat1 HqD) as (h2 & E2 & L2); [set_solver|].
  exists h2, (clear_fun (replaced f1 c l' p q r) p). split_and!; [done|done|].
  by apply replaced_fun.
Qed.

(** [remove_tree_node] takes [a] out of the tree. *)
Lemma remove_ok f h t a :
  links D h0 f h -> tree_in f t -> a ∈ nodes t -> (length (nodes t) <= heap_fuel h0)%nat ->
  exists h' f' t' pre post, remove_tree_node 2 a h = Ok (tt, h') /\ links D h0 f' h' /\
    tree_in f' t' /\ nodes t = (pre ++ a :: post)%list /\ nodes t' = (pre ++ post)%list.
Proof.
  intros Hl Ht Ha Hf. destruct (in_tree_plug t a Ha) as (c & l & r & ->).
  assert (Hn : nodes (plug c (Node l a r)) = ((before c ++ nodes l) ++ a :: nodes r ++ after c)%list).
  { rewrite nodes_plug. simpl. by rewrite <- !(assoc_L (++)). }
  assert (Hn' : nodes (plug c (join l r)) = ((before c ++ nodes l) ++ nodes r ++ after c)%list).
  { rewrite nodes_plug, nodes_join. by rewrite <- !(assoc_L (++)). }
  pose proof Ht as Hat. apply tree_in_at in Hat.
  assert (exists h' f', remove_tree_node 2 a h = Ok (tt, h') /\ links D h0 f' h' /\
            whole f' R (plug c (join l r))) as (h' & f' & E & L & W).
  { destruct l as [|l1 x l2].
    { destruct (remove_small f h c Leaf a r 2 Hl Hat) as (h' & f' & ? & ? & ? & _); [by left|eauto 10]. }
    destruct r as [|r1 y r2].
    { destruct (remove_small f h c (Node l1 x l2) a Leaf 2 Hl Hat) as (h' & f' & ? & ? & ? & _); [by right|eauto 10]. }
    eapply remove_two; [done|done|]. rewrite Hn, !length_app in Hf. lia. }
  exists h', f', (plug c (join l r)), (before c ++ nodes l)%list, (nodes r ++ after c)%list.
  split_and!; [done|done| |done|done]. destruct Ht as [_ Hnd Hs]. rewrite Hn in Hnd, Hs. split; [done|..]; rewrite Hn'.
  - apply NoDup_cons in Hnd as [HR Hnd]. apply NoDup_cons. split; [set_solver|].
    rewrite <- Permutation_middle in Hnd. by apply NoDup_cons in Hnd as [_ Hnd].
  - set_solver.
Qed.

End Remove.
