(* ===== verification/EmsFree.v ===== *)
(** * The free chunks

    The lists and the tree of free chunks of a heap: what they contain, and
    that [unlink_hmu] takes one chunk out and [gci_add_fc] puts one in,
    whichever of the two holds it, changing only link fields and the chunk
    that is added. *)

From stdpp Require Import functions sorting.
From S2P Require Import Prelude Instance Ems EmsHeader EmsTree.
#[local] Open Scope Z_scope.
#[local] Open Scope ems_scope.

(** ** Insertion and search in a tree *)

Definition sorted_by (sz : Z -> Z) (l : list Z) : Prop := StronglySorted (fun x y => sz x <= sz y) l.

(** Where [gci_add_fc] comes out of the tree. *)
Fixpoint leaf_ctx (sz : Z -> Z) (c : ctx) (t : tree) (size : Z) : ctx :=
  match t with
  | Leaf => c
  | Node l a r =>
      if sz a <? size then leaf_ctx sz (Down c false a l) r size
      else leaf_ctx sz (Down c true a r) l size
  end.

Lemma leaf_ctx_plug sz c t size : plug (leaf_ctx sz c t size) Leaf = plug c t.
Proof.
  revert c. induction t as [|l IHl a r IHr]; intros c; [done|]. cbn [leaf_ctx].
  destruct (sz a <? size); [by rewrite IHr|by rewrite IHl].
Qed.

Lemma leaf_ctx_bounds sz c t size :
  sorted_by sz (nodes t) ->
  (forall x, x ∈ before c -> sz x <= size) -> (forall x, x ∈ after c -> size <= sz x) ->
  (forall x, x ∈ before (leaf_ctx sz c t size) -> sz x <= size) /\
  (forall x, x ∈ after (leaf_ctx sz c t size) -> size <= sz x).
Proof.
  unfold sorted_by. revert c. induction t as [|l IHl a r IHr]; intros c Hs Hb Ha; [done|].
  cbn [nodes] in Hs. apply StronglySorted_app in Hs as (Hla & Hl & Hs).
  apply StronglySorted_cons in Hs as [Har Hr]. rewrite Forall_forall in Har.
  cbn [leaf_ctx]. destruct (Z.ltb_spec (sz a) size).
  - apply IHr; [done| |done]. cbn [before]. intros x. rewrite !elem_of_app, list_elem_of_singleton.
    intros [Hx|[Hx| ->]]; [auto| |lia]. specialize (Hla x a Hx (list_elem_of_here _ _)). simpl in Hla. lia.
  - apply IHl; [done|..]; cbn [before after].
    + intros x. rewrite app_nil_r. apply Hb.
    + intros x. rewrite elem_of_app, elem_of_cons. intros [[->|Hx]|Hx]; [done| |auto].
      specialize (Har x Hx). simpl in Har. lia.
Qed.

Lemma leaf_ctx_sorted sz t size node :
  sorted_by sz (nodes t) -> sz node = size ->
  sorted_by sz (nodes (plug (leaf_ctx sz Top t size) (Node Leaf node Leaf))).
Proof.
  intros Hs <-. destruct (leaf_ctx_bounds sz Top t (sz node) Hs) as [Hb Ha];
    [by intros x ?%elem_of_nil..|].
  rewrite <- (leaf_ctx_plug sz Top t (sz node) : _ = t), nodes_plug in Hs. rewrite nodes_plug.
  set (c := leaf_ctx _ _ _ _) in *. unfold sorted_by in *. simpl in *.
  apply StronglySorted_app in Hs as (Hba & Hsb & Hsa). apply StronglySorted_app. split_and!; [|done|].
  - intros x y Hx [->|Hy]%elem_of_cons; auto.
  - apply StronglySorted_cons. split; [by apply Forall_forall|done].
Qed.

Section Descend.
Context (D : list Z) (h0 : gc_heap) (R : Z) (sz : Z -> Z).
Hypothesis HD : node_set D h0.
Hypothesis Hsz : forall a, a ∈ D -> rd 4 (hp_mem h0) (a + 4) = sz a.

Lemma links_size f h a : links D h0 f h -> a ∈ D -> load32 (tree_size a) h = Ok (sz a, h).
Proof.
  intros [Hm _] Ha. unfold tree_size. rewrite load_eq.
  - rewrite (moves_rd _ _ _ 4 (a + 4) Hm); [by rewrite Hsz|]. intros k Hk (b & Hb & Hkb).
    change (Z.of_nat 4) with 4 in Hk.
    destruct (decide (a = b)) as [->|Hab]; [lia|]. pose proof (ns_apart _ _ HD a b Ha Hb Hab). lia.
  - eapply moves_inside; [exact Hm|]. pose proof (ns_inside _ _ HD a Ha) as Hi.
    unfold inside in *. change (Z.of_nat 4) with 4. lia.
Qed.

(** The loop of [gci_add_fc] from the node [a] down to the leaf. *)
Lemma insert_descend f h node size l a r c fuel :
  links D h0 f h -> tree_in D R f (plug c (Node l a r)) -> (length (nodes (Node l a r)) <= fuel)%nat ->
  let c' := leaf_ctx sz c (Node l a r) size in
  insert_tree_node fuel a node size h =
    (edo store_ptr (slot R c') node in store_ptr (tree_parent node) (par R c')) h.
Proof.
  intros Hl. revert l a r c fuel.
  enough (H : forall t l a r c fuel, t = Node l a r -> tree_in D R f (plug c t) ->
    (length (nodes t) <= fuel)%nat ->
    let c' := leaf_ctx sz c t size in
    insert_tree_node fuel a node size h =
      (edo store_ptr (slot R c') node in store_ptr (tree_parent node) (par R c')) h)
    by (intros l a r c fuel; by apply (H _ l a r c fuel eq_refl)).
  intros t. induction t as [|l IHl a r IHr]; intros l' a' r' c fuel; [done|].
  intros [= <- <- <-] Ht Hf. pose proof Ht as Hat. apply tree_in_at in Hat.
  pose proof (at_p _ _ HD _ _ _ _ _ _ Hat) as Ha. destruct (at_rep _ _ _ _ _ _ _ Hat) as (_ & _ & E8 & E16 & _).
  cbn [nodes] in Hf. rewrite length_app in Hf. cbn [length] in Hf.
  assert (HchD : forall x, x ∈ nodes l ++ nodes r -> x ∈ D)
    by (intros x Hx; by apply (at_child _ _ HD _ _ _ _ _ _ Hat)).
  assert (Hgo : forall (b : bool) (s o : tree), (if b then s = l /\ o = r else s = r /\ o = l) ->
     leaf_ctx sz c (Node l a r) size = leaf_ctx sz (Down c b a o) s size ->
     (if sz a <? size then tree_right a else tree_left a) = a + side b ->
     f (a + side b) = root_of s ->
     insert_tree_node fuel a node size h =
       (let c' := leaf_ctx sz c (Node l a r) size in
        edo store_ptr (slot R c') node in store_ptr (tree_parent node) (par R c')) h).
  { intros b s o Hso Hc Hslot Hs. rewrite Hc.
    assert (HsD : nodes s ⊆ D) by (intros x Hx; apply HchD; destruct b, Hso as [-> ->]; set_solver).
    assert (Hstep : insert_tree_node fuel a node size h =
       (if root_of s =? 0
        then edo store_ptr (a + side b) node in store_ptr (tree_parent node) a
        else match fuel with O => eundef | S f => insert_tree_node f (root_of s) node size end) h).
    { destruct fuel; cbn [insert_tree_node]; rewrite (ebind_eq _ _ _ _ _ (links_size f h a Hl Ha));
        rewrite Hslot, (ebind_eq _ _ _ _ _ (links_load D h0 HD f h a (side b) Hl Ha (link_side b))), Hs; done. }
    rewrite Hstep. destruct s as [|s1 x s2]; [done|]. cbn [root_of].
    assert (Hx : 0 < x) by (apply (ns_ptr _ _ HD), HsD; simpl; set_solver).
    rewrite (proj2 (Z.eqb_neq x 0)) by lia. destruct fuel as [|fuel]; [lia|].
    assert (Hpl : tree_in D R f (plug (Down c b a o) (Node s1 x s2))).
    { destruct b, Hso as [<- ->]; exact Ht. }
    destruct b, Hso as [<- ->]; [apply (IHl s1 x s2 _ fuel eq_refl Hpl)|apply (IHr s1 x s2 _ fuel eq_refl Hpl)];
      lia. }
  cbn [leaf_ctx] in Hgo |- *. destruct (sz a <? size).
  - by apply (Hgo false r l).
  - by apply (Hgo true l r).
Qed.

Lemma insert_run f h t node size fuel :
  links D h0 f h -> tree_in D R f t -> sz R < size -> (length (nodes t) < fuel)%nat ->
  let c := leaf_ctx sz Top t size in
  insert_tree_node fuel R node size h =
    (edo store_ptr (slot R c) node in store_ptr (tree_parent node) (par R c)) h.
Proof.
  intros Hl Ht HR Hf c. pose proof Ht as [[E16 _] _ Hs]. change (f (R + 16) = root_of t) in E16.
  assert (HRD : R ∈ D) by (apply Hs; set_solver).
  assert (Hstep : insert_tree_node fuel R node size h =
       (if root_of t =? 0
        then edo store_ptr (R + 16) node in store_ptr (tree_parent node) R
        else match fuel with O => eundef | S f => insert_tree_node f (root_of t) node size end) h).
  { destruct fuel; cbn [insert_tree_node]; rewrite (ebind_eq _ _ _ _ _ (links_size f h R Hl HRD));
      rewrite (proj2 (Z.ltb_lt _ _) HR);
      rewrite (ebind_eq _ _ _ _ _ (links_load D h0 HD f h R 16 Hl HRD ltac:(unfold link; lia))), E16; done. }
  rewrite Hstep. destruct t as [|l a r]; [done|]. cbn [root_of].
  assert (Ha : 0 < a) by (apply (ns_ptr _ _ HD), Hs; simpl; set_solver).
  rewrite (proj2 (Z.eqb_neq a 0)) by lia. destruct fuel as [|fuel]; [lia|].
  apply (insert_descend f h node size l a r Top fuel Hl Ht). lia.
Qed.

Lemma insert_ok f h t node fuel :
  links D h0 f h -> tree_in D R f t -> node ∈ D -> node ∉ R :: nodes t ->
  f (node + 8) = 0 -> f (node + 16) = 0 -> sorted_by sz (nodes t) -> sz R < sz node ->
  (length (nodes t) < fuel)%nat ->
  exists h' f' t', insert_tree_node fuel R node (sz node) h = Ok (tt, h') /\ links D h0 f' h' /\
    tree_in D R f' t' /\ nodes t' ≡ₚ node :: nodes t /\ sorted_by sz (nodes t').
Proof.
  intros Hl Ht Hn Hnt E8 E16 Hs HR Hf. rewrite (insert_run f h t node _ fuel Hl Ht HR Hf).
  set (c := leaf_ctx sz Top t (sz node)).
  assert (Hc : plug c Leaf = t) by apply leaf_ctx_plug.
  pose proof (nodes_plug_perm c Leaf) as Hp. rewrite Hc in Hp. simpl in Hp.
  assert (HcD : R :: cnodes c ⊆ D) by (intros x Hx; apply (ti_sub _ _ _ _ Ht); by rewrite Hp).
  assert (Hcn : NoDup (R :: cnodes c)) by (rewrite <- Hp; apply Ht).
  assert (Hnc : node ∉ R :: cnodes c) by (by rewrite <- Hp).
  destruct (slot_link R c) as (y & j & Hy & Hj & Hyj).
  assert (L24 : link 24) by (unfold link; lia).
  assert (Hsn : forall k, link k -> slot R c <> node + k) by (intros k Hk; by eapply slot_ne).
  destruct (links_store D h0 HD f h y j node Hl (HcD y Hy) Hj (ns_u64 _ _ HD node Hn)) as (h1 & E1 & L1).
  rewrite <- Hyj in E1, L1. rewrite (ebind_eq _ _ _ _ _ E1).
  destruct (links_store D h0 HD _ h1 node 24 (par R c) L1 Hn L24) as (h2 & E2 & L2);
    [by eapply (ns_u64 _ _ HD), HcD, par_in|].
  eexists h2, _, (plug c (Node Leaf node Leaf)).
  assert (Hn' : nodes (plug c (Node Leaf node Leaf)) ≡ₚ node :: nodes t)
    by (rewrite nodes_plug_perm, Hp; done).
  split_and!; [exact E2|exact L2| |done|by apply leaf_ctx_sorted]. split.
  - apply (splice f _ R c Leaf _ D); [apply HD|done|done|rewrite Hc; apply Ht|..].
    + intros a k Ha Hk Hne. rewrite !fn_lookup_insert_ne; [done|done|].
      eapply link_ne; try done; [by apply HcD|]. left. by intros ->.
    + rewrite fn_lookup_insert_ne, fn_lookup_insert; [done|]. by apply not_eq_sym, Hsn.
    + cbn [trep]. unfold tree_left, tree_right, tree_parent. split_and!; [| |by apply fn_lookup_insert|done..].
      * rewrite !fn_lookup_insert_ne, E8; [done|apply Hsn; unfold link; lia|lia].
      * rewrite !fn_lookup_insert_ne, E16; [done|apply Hsn; unfold link; lia|lia].
  - pose proof (ti_nodup _ _ _ _ Ht) as Hnd. apply NoDup_cons in Hnd as [HRt Hnd].
    apply not_elem_of_cons in Hnt as [HnR Hnt]. rewrite Hn'. rewrite !NoDup_cons, not_elem_of_cons. auto.
  - rewrite Hn'. pose proof (ti_sub _ _ _ _ Ht) as Hsub. intros x.
    rewrite !elem_of_cons. intros [->|[->|Hx]]; [apply Hsub|done|apply Hsub]; rewrite elem_of_cons; auto.
Qed.

Lemma filter_none {A} (P : A -> Prop) `{!forall x, Decision (P x)} (l : list A) :
  (forall x, x ∈ l -> ~ P x) -> filter P l = [].
Proof.
  intros HP. induction l as [|x l IH]; [done|]. rewrite filter_cons, decide_False by (apply HP; set_solver).
  apply IH. intros y Hy. apply HP. set_solver.
Qed.

(** The best fit: the first node in order that is large enough. *)
Lemma find_run f h t q size last fuel :
  links D h0 f h -> trep f q t -> nodes t ⊆ D -> sorted_by sz (nodes t) ->
  (length (nodes t) <= fuel)%nat ->
  find_tree fuel size (root_of t) last h =
    Ok (default last (head (filter (fun a => size <= sz a) (nodes t))), h).
Proof.
  intros Hl. revert q last fuel. induction t as [|l IHl a r IHr]; intros q last fuel Ht Hin Hs Hf;
    [by destruct fuel|]. destruct Ht as (E8 & E16 & _ & Tl & Tr).
  assert (Ha : a ∈ D) by (apply Hin; simpl; set_solver). pose proof (ns_ptr _ _ HD a Ha) as Hp.
  cbn [nodes] in *. rewrite length_app in Hf. cbn [length] in Hf.
  apply StronglySorted_app in Hs as (Hla & Hsl & Hs). apply StronglySorted_cons in Hs as [_ Hsr].
  destruct fuel as [|fuel]; [lia|]. cbn [find_tree root_of].
  rewrite (proj2 (Z.eqb_neq a 0)) by lia. rewrite (ebind_eq _ _ _ _ _ (links_size f h a Hl Ha)).
  rewrite filter_app, filter_cons. destruct (Z.ltb_spec (sz a) size).
  - rewrite (ebind_eq _ _ _ _ _ (links_load D h0 HD f h a 16 Hl Ha ltac:(unfold link; lia))).
    change (f (a + 16)) with (f (tree_right a)). rewrite E16, (IHr a) by (done || lia || set_solver).
    rewrite decide_False by lia. assert (filter (fun a => size <= sz a) (nodes l) = []) as ->; [|done].
    apply filter_none. intros x Hx. specialize (Hla x a Hx (list_elem_of_here _ _)). simpl in Hla. lia.
  - rewrite (ebind_eq _ _ _ _ _ (links_load D h0 HD f h a 8 Hl Ha ltac:(unfold link; lia))).
    change (f (a + 8)) with (f (tree_left a)). rewrite E8, (IHl a) by (done || lia || set_solver).
    rewrite decide_True by lia. by destruct (filter _ (nodes l)).
Qed.
End Descend.

(** ** Lists *)

(** [g] gives the successors, 0 at the end. *)
Fixpoint chain (g : Z -> Z) (a : Z) (l : list Z) : Prop :=
  match l with
  | [] => g a = 0
  | x :: l' => g a = x /\ chain g x l'
  end.

(** The last of [a :: l]. *)
Fixpoint last_from (a : Z) (l : list Z) : Z := match l with [] => a | x :: l' => last_from x l' end.
Lemma last_from_in a l : last_from a l ∈ a :: l.
Proof. revert a. induction l as [|x l IH]; intros a; cbn [last_from]; [set_solver|]. specialize (IH x). set_solver. Qed.

Lemma chain_ext g g' a l : (forall x, x ∈ a :: l -> g x = g' x) -> chain g a l -> chain g' a l.
Proof.
  revert a. induction l as [|x l IH]; intros a He; cbn [chain].
  - by rewrite <- He by set_solver.
  - intros [H1 H2]. rewrite <- He by set_solver. split; [done|]. apply IH; [|done].
    intros y Hy. apply He. set_solver.
Qed.
(** Another head. *)
Lemma chain_head g g' a b l :
  g' b = g a -> (forall x, x ∈ l -> g' x = g x) -> chain g a l -> chain g' b l.
Proof.
  intros Hb He. destruct l as [|x l]; cbn [chain]; [congruence|].
  intros [H1 H2]. split; [congruence|]. eapply chain_ext; [|exact H2]. intros y Hy. by rewrite He.
Qed.
Lemma chain_app g a pre x post :
  chain g a (pre ++ x :: post) -> g (last_from a pre) = x /\ chain g x post.
Proof.
  revert a. induction pre as [|y pre IH]; intros a; cbn [app chain]; [done|].
  intros [H1 H2]. by apply (IH y).
Qed.
Lemma chain_remove g a pre x post :
  NoDup (a :: pre ++ x :: post) -> chain g a (pre ++ x :: post) ->
  chain (<[last_from a pre := g x]> g) a (pre ++ post).
Proof.
  revert a. induction pre as [|y pre IH]; intros a Hnd; cbn [app chain].
  - intros [_ H2]. cbn [last_from]. eapply chain_head; [apply fn_lookup_insert| |exact H2].
    intros z Hz. apply fn_lookup_insert_ne. intros ->.
    apply NoDup_cons in Hnd as [Hn _]. cbn in Hn. set_solver.
  - intros [H1 H2]. apply NoDup_cons in Hnd as [Hn Hnd]. cbn in Hn.
    split; [|by apply IH]. rewrite fn_lookup_insert_ne; [done|].
    intros Hl. apply Hn. rewrite <- Hl. pose proof (last_from_in y pre). set_solver.
Qed.

(** The code's view of a successor. *)
Definition nxt (m : gmap Z Z) (node : Z) : Z :=
  let off := s32 (rd 4 m (node + 4)) in if off =? 0 then 0 else node + off.

Lemma next_run h node : inside h node 8 -> get_hmu_normal_node_next node h = Ok (nxt (hp_mem h) node, h).
Proof.
  intros [Ha Hb]. unfold get_hmu_normal_node_next.
  rewrite (ebind_eq _ _ _ _ _ (load_eq 4 (node + 4) h ltac:(unfold inside; lia))). done.
Qed.

Definition near (a b : Z) : Prop := b = 0 \/ b <> a /\ -2 ^ 31 <= b - a < 2 ^ 31.

Lemma set_next_run h node next :
  inside h node 8 -> near node next ->
  exists h', set_hmu_normal_node_next node next h = Ok (tt, h') /\
    moves (fun k => node + 4 <= k < node + 8) h h' /\ nxt (hp_mem h') node = next.
Proof.
  intros [Ha Hb] Hn. unfold set_hmu_normal_node_next, nxt. destruct (Z.eqb_spec next 0) as [->|Hne].
  - eexists. split; [apply (store_eq 4); unfold inside; lia|]. split; [apply moves_store; intros; lia|].
    simpl. by rewrite rd_wr_eq.
  - destruct Hn as [|[Hx Hr]]; [done|]. eexists.
    split; [apply (store_eq 4); unfold inside; lia|]. split; [apply moves_store; intros; lia|].
    simpl. rewrite rd_wr_eq. change (8 * Z.of_nat 4) with 32. rewrite uwrap_idemp by lia.
    rewrite swrap_uwrap, swrap_id by (try lia; unfold in_s; lia).
    rewrite (proj2 (Z.eqb_neq (next - node) 0)) by lia. lia.
Qed.

(** The walk of [unlink_hmu]. *)
Lemma unlink_normal_run h a pre x post fuel :
  (forall y, y ∈ a :: pre ++ x :: post -> inside h y 8) ->
  (forall y, y ∈ pre ++ x :: post -> y <> 0) -> x ∉ pre ->
  chain (nxt (hp_mem h)) a (pre ++ x :: post) -> (length pre < fuel)%nat ->
  unlink_normal fuel x a (nxt (hp_mem h) a) h =
    set_hmu_normal_node_next (last_from a pre) (nxt (hp_mem h) x) h.
Proof.
  revert a fuel. induction pre as [|y pre IH]; intros a fuel Hin Hz Hx; cbn [app chain] in *.
  - intros [-> _] Hf. destruct fuel as [|fuel]; [simpl in Hf; lia|]. cbn [unlink_normal].
    rewrite (proj2 (Z.eqb_neq x 0)) by (apply Hz; set_solver).
    rewrite (ebind_eq _ _ _ _ _ (next_run h x ltac:(apply Hin; set_solver))), Z.eqb_refl. done.
  - intros [-> Hc] Hf. destruct fuel as [|fuel]; [simpl in Hf; lia|]. cbn [unlink_normal].
    rewrite (proj2 (Z.eqb_neq y 0)) by (apply Hz; set_solver).
    rewrite (ebind_eq _ _ _ _ _ (next_run h y ltac:(apply Hin; set_solver))).
    rewrite (proj2 (Z.eqb_neq y x)) by set_solver.
    apply IH; [set_solver..|done|simpl in Hf; lia].
Qed.
