(* ===== verification/EmsChunks.v ===== *)
(** * The free chunks of a heap

    The set of free chunks as the lists and the tree hold it together:
    [unlink_hmu] takes a chunk out, [gci_add_fc] puts one in, whichever of
    the two is responsible for its size; both change only links of free
    chunks, and the chunk that is added. *)

From stdpp Require Import functions sorting.
From S2P Require Import Prelude Instance Ems EmsHeader EmsTree EmsFree.
#[local] Open Scope Z_scope.
#[local] Open Scope ems_scope.

Section Chunks.
Context `{HeapLayout}.

Abbreviation sent h i := (normal_list i h).
Abbreviation root h := (kfc_tree_root h).
Definition heap_end (h : gc_heap) : Z := base_addr h + current_size h.

(** Where things are: the heads and the root inside the structure, the
    chunks behind it, sizes and distances that fit their fields. *)
Record layout_ok (h : gc_heap) : Prop := {
  lo_list : 0 <= off_normal_list;
  lo_tree : off_normal_list + 256 <= off_tree_root;
  lo_struct : off_tree_root + 32 <= sizeof_gc_heap;
  lo_addr : 0 < hp_addr h;
  lo_base : hp_addr h + sizeof_gc_heap <= base_addr h;
  lo_cur : 0 <= current_size h < 2 ^ 30;
  lo_end : heap_end h <= hp_end h;
  lo_near : heap_end h - hp_addr h < 2 ^ 31;
  lo_top : heap_end h < 2 ^ 63
}.

(** A set of chunks, sizes by address. *)
Record placed (h : gc_heap) (F : gmap Z Z) : Prop := {
  pl_in : forall x s, F !! x = Some s ->
    base_addr h <= x /\ x + s <= heap_end h /\ 16 <= s /\ s mod 8 = 0;
  pl_disj : forall x y s s', F !! x = Some s -> F !! y = Some s' -> x <> y -> x + s <= y \/ y + s' <= x
}.

(** Everything with links: list heads, tree root, chunks. *)
Definition zone (h : gc_heap) (F : gmap Z Z) (a n : Z) : Prop :=
  (exists i, 0 <= i < 32 /\ a = sent h i /\ n = 8) \/ (a = root h /\ n = 32) \/ F !! a = Some n.

(** The bytes the lists and the tree live in. *)
Definition list_bytes (h : gc_heap) (F : gmap Z Z) (k : Z) : Prop :=
  (exists i, 0 <= i < 32 /\ sent h i + 4 <= k < sent h i + 8) \/
  (exists x s, F !! x = Some s /\ s < 248 /\ x + 4 <= k < x + 8).
Definition tree_bytes (h : gc_heap) (F : gmap Z Z) (k : Z) : Prop :=
  root h + 8 <= k < root h + 32 \/
  (exists x s, F !! x = Some s /\ 248 <= s /\ x + 8 <= k < x + 32).
Definition free_links (h : gc_heap) (F : gmap Z Z) (k : Z) : Prop :=
  list_bytes h F k \/ tree_bytes h F k.

Record list_part (h : gc_heap) (F : gmap Z Z) (L : Z -> list Z) : Prop := {
  lp_chain : forall i, 0 <= i < 32 -> chain (nxt (hp_mem h)) (sent h i) (L i);
  lp_in : forall i x, 0 <= i < 32 -> x ∈ L i <-> F !! x = Some (8 * i) /\ 8 * i < 248;
  lp_nodup : forall i, 0 <= i < 32 -> NoDup (L i)
}.
Record tree_part (h : gc_heap) (F : gmap Z Z) (t : tree) : Prop := {
  tp_whole : whole (rd 8 (hp_mem h)) (root h) t;
  tp_nodup : NoDup (nodes t);
  tp_in : forall x, x ∈ nodes t <-> exists s, F !! x = Some s /\ 248 <= s;
  tp_size : forall x s, F !! x = Some s -> 248 <= s -> rd 4 (hp_mem h) (x + 4) = s;
  tp_root : rd 4 (hp_mem h) (root h + 4) = 32;
  tp_sorted : sorted_by (fun x => F !!! x) (nodes t)
}.
Definition hdr_part (h : gc_heap) (F : gmap Z Z) : Prop :=
  forall x s, F !! x = Some s -> hdr_size (rd 4 (hp_mem h) x) = s.

(** The free chunks [F]. *)
Record free_chunks (h : gc_heap) (F : gmap Z Z) : Prop := {
  fc_layout : layout_ok h;
  fc_placed : placed h F;
  fc_bytes : bytes_ok (hp_mem h);
  fc_lists : exists L, list_part h F L;
  fc_tree : exists t, tree_part h F t;
  fc_hdr : hdr_part h F
}.

(** ** Zones do not overlap *)

Section Zones.
Context (h : gc_heap) (F : gmap Z Z).
Hypothesis HL : layout_ok h.
Hypothesis HF : placed h F.

Lemma zone_bounds a n : zone h F a n -> hp_addr h <= a /\ a + n <= hp_end h /\ 8 <= n /\ 0 < a < 2 ^ 63.
Proof.
  destruct HL as [H1 H2 H3 H4 H5 H6 H7 H8 H9].
  intros [(i & Hi & -> & ->)|[[-> ->]|Hx]]; unfold normal_list, kfc_tree_root, heap_end in *; try lia.
  destruct (pl_in _ _ HF _ _ Hx) as (? & ? & ? & ?). unfold heap_end in *. lia.
Qed.
Lemma zone_apart a n b n' :
  zone h F a n -> zone h F b n' -> a <> b -> a + n <= b \/ b + n' <= a.
Proof.
  destruct HL as [H1 H2 H3 H4 H5 H6 H7 H8 H9].
  intros [(i & Hi & -> & ->)|[[-> ->]|Hx]] [(j & Hj & -> & ->)|[[-> ->]|Hy]] Hne;
    unfold normal_list, kfc_tree_root in *; try lia;
    try (pose proof (pl_in _ _ HF _ _ Hx)); try (pose proof (pl_in _ _ HF _ _ Hy)); try lia.
  by apply (pl_disj _ _ HF a b).
Qed.
Lemma zone_same a n n' : zone h F a n -> zone h F a n' -> n = n'.
Proof.
  destruct HL as [H1 H2 H3 H4 H5 H6 H7 H8 H9].
  intros [(i & Hi & -> & ->)|[[-> ->]|Hx]] [(j & Hj & Hij & ->)|[[Hij ->]|Hy]];
    unfold normal_list, kfc_tree_root in *; try lia;
    try (pose proof (pl_in _ _ HF _ _ Hx)); try (pose proof (pl_in _ _ HF _ _ Hy)); try lia.
  congruence.
Qed.
Lemma zone_sent i : 0 <= i < 32 -> zone h F (sent h i) 8.
Proof. intros. left. eauto. Qed.
Lemma zone_root : zone h F (root h) 32.
Proof. right. by left. Qed.
Lemma zone_chunk x s : F !! x = Some s -> zone h F x s.
Proof. intros. by right; right. Qed.

(** Bytes [lo, hi) of [b] are not bytes [lo', hi') of [a]. *)
Lemma zone_bytes a n b n' lo hi lo' hi' k :
  zone h F a n -> zone h F b n' -> (a <> b \/ hi <= lo' \/ hi' <= lo) ->
  0 <= lo -> hi <= n' -> 0 <= lo' -> hi' <= n ->
  b + lo <= k < b + hi -> ~ (a + lo' <= k < a + hi').
Proof.
  intros Ha Hb Hne. destruct (decide (a = b)) as [->|Hab]; [lia|].
  pose proof (zone_apart _ _ _ _ Ha Hb Hab). lia.
Qed.
End Zones.

(** A state that only differs in memory has the same places. *)
Lemma layout_moves P h h' : moves P h h' -> layout_ok h -> layout_ok h'.
Proof. by intros [-> _ _] []. Qed.
Lemma placed_moves P h h' F : moves P h h' -> placed h F -> placed h' F.
Proof. by intros [-> _ _] []. Qed.

(** ** Frames *)

Section Frames.
Context (P : Z -> Prop) (h h' : gc_heap) (F : gmap Z Z).
Hypothesis Hm : moves P h h'.

Lemma nxt_frame a : (forall k, a + 4 <= k < a + 8 -> ~ P k) -> nxt (hp_mem h') a = nxt (hp_mem h) a.
Proof.
  intros Ha. unfold nxt. rewrite (moves_rd P h h' 4 (a + 4) Hm); [done|].
  intros k Hk. apply Ha. lia.
Qed.

Lemma list_frame L :
  (forall k, P k -> ~ list_bytes h F k) -> list_part h F L -> list_part h' F L.
Proof.
  intros HP [Hc Hi Hn]. split; [|done..]. intros i Hi32.
  assert (sent h' i = sent h i) as -> by (by rewrite (mv_heap _ _ _ Hm)).
  eapply chain_ext; [|apply Hc, Hi32]. intros x Hx. symmetry. apply nxt_frame. intros k Hk HPk.
  apply (HP k HPk). apply elem_of_cons in Hx as [->|Hx]; [left; eauto|].
  right. apply Hi in Hx as [Hx Hs]; [|done]. eauto.
Qed.

Lemma tree_frame t :
  (forall k, P k -> ~ (root h + 4 <= k < root h + 32)) ->
  (forall k x s, P k -> F !! x = Some s -> 248 <= s -> ~ (x + 4 <= k < x + 32)) ->
  tree_part h F t -> tree_part h' F t.
Proof.
  intros HR HP [Hw Hn Hi Hs Hr Ho].
  assert (root h' = root h) as HRe by (by rewrite (mv_heap _ _ _ Hm)).
  assert (Hk : forall x k, x = root h \/ x ∈ nodes t -> link k ->
            rd 8 (hp_mem h') (x + k) = rd 8 (hp_mem h) (x + k)).
  { intros x k Hx Hk. apply (moves_rd P h h' 8 (x + k) Hm). intros j Hj HPj.
    change (Z.of_nat 8) with 8 in Hj. unfold link in Hk. destruct Hx as [->|Hx].
    - apply (HR j HPj). lia.
    - apply Hi in Hx as (s & Hx & Hxs). apply (HP j x s HPj Hx Hxs). lia. }
  split; [|done|done| | |done]; rewrite ?HRe.
  - destruct Hw as [H1 H2]. split.
    + rewrite <- H1. apply Hk; [by left|unfold link; lia].
    + eapply trep_ext; [|exact H2]. intros a k Ha Hlk. symmetry. apply Hk; auto.
  - intros x s Hx Hxs. rewrite (moves_rd P h h' 4 (x + 4) Hm); [by apply Hs|].
    intros j Hj HPj. change (Z.of_nat 4) with 4 in Hj. apply (HP j x s HPj Hx Hxs). lia.
  - rewrite (moves_rd P h h' 4 (root h + 4) Hm); [done|]. intros j Hj HPj.
    change (Z.of_nat 4) with 4 in Hj. apply (HR j HPj). lia.
Qed.

Lemma hdr_frame :
  (forall k x s, P k -> F !! x = Some s -> ~ (x <= k < x + 4)) -> hdr_part h F -> hdr_part h' F.
Proof.
  intros HP Hh x s Hx. rewrite (moves_rd P h h' 4 x Hm); [by apply Hh|].
  intros k Hk HPk. change (Z.of_nat 4) with 4 in Hk. by apply (HP k x s HPk Hx).
Qed.
End Frames.

(** ** One chunk less or more, seen by the other structure *)

Lemma sorted_by_ext (sz sz' : Z -> Z) l :
  (forall x, x ∈ l -> sz x = sz' x) -> sorted_by sz l -> sorted_by sz' l.
Proof.
  unfold sorted_by. induction l as [|x l IH]; intros He; [intros _; constructor|].
  rewrite !StronglySorted_cons, !Forall_forall. intros [Hx Hl]. split.
  - intros y Hy. rewrite <- !He by set_solver. by apply Hx.
  - apply IH; [|done]. intros. apply He. set_solver.
Qed.

Section Other.
Context (h : gc_heap) (F F' : gmap Z Z).

(** [F] and [F'] agree on the large chunks. *)
Lemma tree_part_agree t :
  (forall y s, 248 <= s -> F !! y = Some s <-> F' !! y = Some s) ->
  tree_part h F t -> tree_part h F' t.
Proof.
  intros He [Hw Hn Hi Hs Hr Ho]. split; [done|done| | |done|].
  - intros y. rewrite Hi. split; intros (s & Hy & Hys); exists s; (split; [by apply He|done]).
  - intros y s Hy Hys. apply Hs; [by apply He|done].
  - eapply sorted_by_ext; [|exact Ho]. intros y Hy. apply Hi in Hy as (s & Hy & Hys).
    simpl. rewrite !lookup_total_alt, Hy. by rewrite (proj1 (He y s Hys) Hy).
Qed.
Lemma list_part_agree L :
  (forall y s, s < 248 -> F !! y = Some s <-> F' !! y = Some s) ->
  list_part h F L -> list_part h F' L.
Proof.
  intros He [Hc Hi Hn]. split; [done| |done]. intros i y Hi32. rewrite Hi by done.
  split; intros [Hy Hs]; (split; [by apply He|done]).
Qed.
Lemma hdr_part_sub : F' ⊆ F -> hdr_part h F -> hdr_part h F'.
Proof. intros Hs Hh y s Hy. apply Hh. by eapply lookup_weaken. Qed.
Lemma placed_sub : F' ⊆ F -> placed h F -> placed h F'.
Proof.
  intros Hs [Hi Hd]. split.
  - intros y s Hy. apply Hi. by eapply lookup_weaken.
  - intros x y s s' Hx Hy. apply Hd; by eapply lookup_weaken.
Qed.
End Other.

(** Distinct addresses in an interval are not more than its length. *)
Lemma count_le (l : list Z) lo n :
  NoDup l -> (forall x, x ∈ l -> lo <= x < lo + n) -> (length l <= Z.to_nat n)%nat.
Proof.
  intros Hnd Hin.
  assert (Hs : (fun x => Z.to_nat (x - lo)) <$> l ⊆+ seq 0 (Z.to_nat n)).
  { apply NoDup_submseteq.
    - apply NoDup_fmap_2_strong; [|done]. intros x y Hx Hy. pose proof (Hin x Hx). pose proof (Hin y Hy). lia.
    - intros k (x & -> & Hx)%list_elem_of_fmap. specialize (Hin x Hx). apply elem_of_seq. lia. }
  apply submseteq_length in Hs. by rewrite length_fmap, length_seq in Hs.
Qed.

(** ** Taking a chunk out *)

Section Unlink.
Context (h : gc_heap) (F : gmap Z Z).
Hypothesis HL : layout_ok h.
Hypothesis HF : placed h F.

Lemma zone_in_block a n : zone h F a n -> inside h a n.
Proof. intros Hz. destruct (zone_bounds h F HL HF a n Hz). unfold inside. lia. Qed.

Lemma zone_near a n b n' : zone h F a n -> zone h F b n' -> a <> b -> near a b.
Proof.
  intros Ha Hb Hne. right. split; [done|].
  destruct HL as [H1 H2 H3 H4 H5 H6 H7 H8 H9].
  assert (Hr : forall x m, zone h F x m -> hp_addr h <= x < heap_end h).
  { intros x m [(i & Hi & -> & ->)|[[-> ->]|Hx]]; unfold normal_list, kfc_tree_root, heap_end in *; try lia.
    destruct (pl_in _ _ HF _ _ Hx) as (? & ? & ? & ?). unfold heap_end in *. lia. }
  pose proof (Hr a n Ha). pose proof (Hr b n' Hb). lia.
Qed.

(** The zone of a list head or of a member. *)
Lemma list_zone L i y : list_part h F L -> 0 <= i < 32 -> y ∈ sent h i :: L i ->
  exists n, zone h F y n /\ (n = 8 \/ F !! y = Some n /\ n < 248) /\ 8 <= n.
Proof.
  intros HLp Hi Hy. apply elem_of_cons in Hy as [->|Hy].
  - exists 8. split; [by apply zone_sent|]. split; [by left|lia].
  - apply (lp_in _ _ _ HLp) in Hy as [Hy Hs]; [|done]. exists (8 * i).
    pose proof (pl_in _ _ HF _ _ Hy). split; [by apply zone_chunk|].
    split; [by right|lia].
Qed.
Lemma list_members_differ L i j y z :
  list_part h F L -> 0 <= i < 32 -> 0 <= j < 32 -> i <> j ->
  y ∈ sent h i :: L i -> z ∈ sent h j :: L j -> y <> z.
Proof.
  intros HLp Hi Hj Hij Hy Hz ->.
  destruct HL as [H1 H2 H3 H4 H5 H6 H7 H8 H9].
  apply elem_of_cons in Hy as [->|Hy]; apply elem_of_cons in Hz as [Hz|Hz].
  - unfold normal_list in Hz. lia.
  - apply (lp_in _ _ _ HLp) in Hz as [Hz _]; [|done].
    pose proof (pl_in _ _ HF _ _ Hz). unfold normal_list in *. lia.
  - subst. apply (lp_in _ _ _ HLp) in Hy as [Hy _]; [|done].
    pose proof (pl_in _ _ HF _ _ Hy). unfold normal_list in *. lia.
  - apply (lp_in _ _ _ HLp) in Hy as [Hy _]; [|done]. apply (lp_in _ _ _ HLp) in Hz as [Hz _]; [|done].
    rewrite Hy in Hz. injection Hz. lia.
Qed.
Lemma sent_not_member L i j : list_part h F L -> 0 <= i < 32 -> 0 <= j < 32 -> sent h i ∉ L j.
Proof.
  intros HLp Hi Hj Hin. destruct HL as [H1 H2 H3 H4 H5 H6 H7 H8 H9].
  apply (lp_in _ _ _ HLp) in Hin as [Hz _]; [|done].
  pose proof (pl_in _ _ HF _ _ Hz). unfold normal_list in *. lia.
Qed.

(** A successor changes: the bytes and what they are not. *)
Lemma next_bytes_frames y n h' :
  zone h F y n -> (n = 8 \/ F !! y = Some n /\ n < 248) ->
  moves (fun k => y + 4 <= k < y + 8) h h' ->
  moves (list_bytes h F) h h' /\
  (forall z m, zone h F z m -> z <> y -> nxt (hp_mem h') z = nxt (hp_mem h) z) /\
  (forall t, tree_part h F t -> tree_part h' F t) /\ (hdr_part h F -> hdr_part h' F).
Proof.
  intros Hz Hn Hm.
  assert (Hb : forall z m, zone h F z m -> 8 <= m) by (intros z m Hzm; by destruct (zone_bounds h F HL HF z m Hzm) as (_ & _ & ? & _)).
  assert (Hne : forall z m, zone h F z m -> z <> y -> z + m <= y \/ y + n <= z)
    by (intros z m Hzm Hzy; by apply (zone_apart h F HL HF)).
  assert (Hyr : y <> root h /\ forall z s, F !! z = Some s -> 248 <= s -> y <> z).
  { destruct Hn as [->|[Hy Hs]].
    - split; [intros ->|intros z s Hz' Hs ->].
      + pose proof (zone_same h F HL HF _ _ _ Hz (zone_root h F)). lia.
      + pose proof (zone_same h F HL HF _ _ _ Hz (zone_chunk h F _ _ Hz')). lia.
    - split; [intros ->|intros z s Hz' Hs' ->; rewrite Hy in Hz'; injection Hz'; lia].
      pose proof (zone_same h F HL HF _ _ _ Hz (zone_root h F)). subst.
      pose proof (pl_in _ _ HF _ _ Hy). pose proof HL as []. unfold kfc_tree_root in *. lia. }
  destruct Hyr as [Hyr Hyb]. split_and!.
  - eapply moves_weaken; [|exact Hm]. simpl. intros k Hk. destruct Hn as [->|[Hy Hs]].
    + left. destruct Hz as [(i & Hi & -> & _)|[[_ ?]|Hx]]; [eauto|done|].
      pose proof (pl_in _ _ HF _ _ Hx). lia.
    + right. eauto.
  - intros z m Hzm Hzy. eapply nxt_frame; [exact Hm|]. simpl. intros k Hk.
    specialize (Hne z m Hzm Hzy). pose proof (Hb z m Hzm). pose proof (Hb y n Hz). lia.
  - intros t. eapply tree_frame; [exact Hm|..]; simpl.
    + intros k Hk. pose proof (Hne _ _ (zone_root h F) (not_eq_sym Hyr)). pose proof (Hb y n Hz). lia.
    + intros k x s Hk Hx Hs. pose proof (Hne _ _ (zone_chunk h F _ _ Hx) (not_eq_sym (Hyb x s Hx Hs))).
      pose proof (Hb y n Hz). lia.
  - eapply hdr_frame; [exact Hm|]. simpl. intros k x s Hk Hx.
    destruct (decide (x = y)) as [->|Hxy]; [lia|].
    pose proof (Hne _ _ (zone_chunk h F _ _ Hx) Hxy). pose proof (Hb y n Hz).
    pose proof (Hb x s (zone_chunk h F _ _ Hx)). lia.
Qed.

Lemma chunk_in_list L x s :
  list_part h F L -> F !! x = Some s -> s < 248 ->
  exists i pre post, i = Z.shiftr s 3 /\ 0 <= i < 32 /\ s = 8 * i /\ L i = (pre ++ x :: post)%list.
Proof.
  intros HLp Hx Hs. destruct (pl_in _ _ HF _ _ Hx) as (_ & _ & H16 & Hm).
  assert (Hi : s = 8 * Z.shiftr s 3).
  { rewrite Z.shiftr_div_pow2 by lia. change (2 ^ 3) with 8. apply Z.div_exact; lia. }
  assert (HxL : x ∈ L (Z.shiftr s 3)) by (apply (lp_in _ _ _ HLp); [lia|]; rewrite <- Hi; split; [done|lia]).
  apply list_elem_of_split in HxL as (pre & post & HLi).
  exists (Z.shiftr s 3), pre, post. split_and!; [done|lia|lia|done|done].
Qed.

Lemma list_length L i : list_part h F L -> 0 <= i < 32 -> (length (L i) <= heap_fuel h)%nat.
Proof.
  intros HLp Hi. apply (count_le _ (base_addr h)); [by apply (lp_nodup _ _ _ HLp)|].
  intros x Hx. apply (lp_in _ _ _ HLp) in Hx as [Hx _]; [|done].
  pose proof (pl_in _ _ HF _ _ Hx). unfold heap_end in *. lia.
Qed.

(** Writing the successor of [y], a member of list [i] or its head, so that
    list [i] becomes [l]. *)
Lemma relink_list L i y v l h' :
  list_part h F L -> 0 <= i < 32 -> y ∈ sent h i :: L i ->
  moves (fun k => y + 4 <= k < y + 8) h h' -> nxt (hp_mem h') y = v ->
  chain (<[y := v]> (nxt (hp_mem h))) (sent h i) l -> l ⊆ L i ->
  forall j, 0 <= j < 32 -> chain (nxt (hp_mem h')) (sent h j) (if decide (j = i) then l else L j).
Proof.
  intros HLp Hi Hy Hm Hv Hc Hl j Hj.
  destruct (list_zone L i y HLp Hi Hy) as (n & Hz & Hn & _).
  destruct (next_bytes_frames y n h' Hz Hn Hm) as (_ & Hother & _).
  destruct (decide (j = i)) as [->|Hji].
  - eapply chain_ext; [|exact Hc]. intros z Hz'. destruct (decide (z = y)) as [->|Hzy].
    + by rewrite fn_lookup_insert.
    + rewrite fn_lookup_insert_ne by done. assert (Hz'' : z ∈ sent h i :: L i) by set_solver.
      destruct (list_zone L i z HLp Hi Hz'') as (m & Hm' & _). symmetry. by apply (Hother z m).
  - eapply chain_ext; [|by apply (lp_chain _ _ _ HLp)]. intros z Hz'.
    destruct (list_zone L j z HLp Hj Hz') as (m & Hm' & _). symmetry. apply (Hother z m Hm').
    by apply (list_members_differ L j i z y HLp).
Qed.

Lemma unlink_small x s :
  free_chunks h F -> F !! x = Some s -> s < 248 ->
  exists h', unlink_hmu x h = Ok (tt, h') /\ moves (free_links h F) h h' /\ free_chunks h' (delete x F).
Proof.
  intros [_ _ Hby [L HLp] [t Ht] Hh] Hx Hs.
  destruct (chunk_in_list L x s HLp Hx Hs) as (i & pre & post & Hi & Hi32 & Hsi & HLi).
  assert (Hnd : NoDup (sent h i :: pre ++ x :: post)).
  { rewrite <- HLi. apply NoDup_cons. split; [by apply sent_not_member|by apply (lp_nodup _ _ _ HLp)]. }
  assert (Hmem : forall y, y ∈ sent h i :: pre ++ x :: post -> y ∈ sent h i :: L i) by (by rewrite HLi).
  assert (Hzone : forall y, y ∈ sent h i :: pre ++ x :: post -> exists n, zone h F y n /\ (n = 8 \/ F !! y = Some n /\ n < 248) /\ 8 <= n)
    by (intros y Hy; by apply (list_zone L i), Hmem).
  pose proof (lp_chain _ _ _ HLp i Hi32) as Hc. rewrite HLi in Hc.
  unfold unlink_hmu.
  assert (Hins : forall y, y ∈ sent h i :: pre ++ x :: post -> inside h y 8).
  { intros y Hy. destruct (Hzone y Hy) as (n & Hz & _ & H8).
    pose proof (zone_in_block y n Hz) as Hin. unfold inside in *. lia. }
  assert (Hx4 : inside h x 4).
  { pose proof (zone_in_block x s (zone_chunk h F x s Hx)) as Hin.
    pose proof (pl_in _ _ HF x s Hx). unfold inside in *. lia. }
  rewrite (ebind_eq _ _ _ _ _ (hmu_get_eq x hdr_size h Hx4)), (Hh x s Hx).
  unfold HMU_IS_FC_NORMAL. change HMU_FC_NORMAL_MAX_SIZE with 248. rewrite (proj2 (Z.ltb_lt s 248) Hs), <- Hi.
  rewrite (ebind_eq (eget _) _ h (sent h i) h) by done.
  rewrite (ebind_eq _ _ _ _ _ (next_run h (sent h i) ltac:(apply Hins; set_solver))).
  rewrite (ebind_eq (eget heap_fuel) _ h (heap_fuel h) h) by done.
  pose proof Hnd as Hnd'. apply NoDup_cons in Hnd' as [_ Hnd']. apply NoDup_app in Hnd' as (_ & Hpx & Hxp).
  apply NoDup_cons in Hxp as [Hxpost _].
  assert (Hxpre : x ∉ pre) by (intros Hin; apply (Hpx x Hin); set_solver).
  set (y := last_from (sent h i) pre).
  assert (Hy : y ∈ sent h i :: pre) by apply last_from_in.
  assert (Hyin : y ∈ sent h i :: pre ++ x :: post) by set_solver.
  rewrite (unlink_normal_run h (sent h i) pre x post); [|done| |done|done|].
  2:{ intros z Hz. destruct (Hzone z) as (n & Hzn & _); [set_solver|].
      destruct (zone_bounds h F HL HF z n Hzn). lia. }
  2:{ pose proof (list_length L i HLp Hi32) as Hlen. rewrite HLi, length_app in Hlen. simpl in Hlen. lia. }
  destruct (chain_app _ _ _ _ _ Hc) as [_ Hcx].
  destruct (Hzone y Hyin) as (n & Hyz & Hyn & _).
  assert (Hnear : near y (nxt (hp_mem h) x)).
  { destruct post as [|z post]; [left; exact Hcx|]. destruct Hcx as [-> _].
    destruct (Hzone z) as (m & Hzm & _); [set_solver|]. apply (zone_near y n z m Hyz Hzm). intros ->.
    apply NoDup_cons in Hnd as [Hsn Hnd]. apply NoDup_app in Hnd as (_ & Hnd & _).
    apply elem_of_cons in Hy as [Hy|Hy]; [|apply (Hnd _ Hy); set_solver]. apply Hsn. rewrite <- Hy. set_solver. }
  destruct (set_next_run h y (nxt (hp_mem h) x) (Hins y Hyin) Hnear) as (h' & E & Hm & Hv).
  exists h'. destruct (next_bytes_frames y n h' Hyz Hyn Hm) as (Hml & _ & Htf & Hhf).
  split_and!; [exact E|eapply moves_weaken; [|exact Hml]; intros k Hk; by left|]. split.
  - by eapply layout_moves.
  - apply (placed_sub _ F); [apply delete_subseteq|]. by apply (placed_moves _ h h' F Hm).
  - by apply (mv_bytes _ _ _ Hm).
  - exists (fun j => if decide (j = i) then (pre ++ post)%list else L j). split.
    + assert (forall j, sent h' j = sent h j) as Hsent by (intros j; by rewrite (mv_heap _ _ _ Hm)).
      intros j Hj. rewrite Hsent. eapply relink_list; try done; [by apply Hmem| |rewrite HLi; set_solver].
      by apply chain_remove.
    + intros j z Hj. destruct (decide (j = i)) as [->|Hji].
      * destruct (decide (z = x)) as [->|Hzx].
        -- rewrite lookup_delete_eq. split; [|by intros [? _]].
           intros Hin. apply elem_of_app in Hin as [Hin|Hin]; done.
        -- rewrite lookup_delete_ne by done. rewrite <- (lp_in _ _ _ HLp i z Hi32), HLi. set_solver.
      * rewrite (lp_in _ _ _ HLp) by done. split; intros [Hz Hz8]; (split; [|done]).
        -- rewrite lookup_delete_ne; [done|]. intros ->. rewrite Hx in Hz. injection Hz. lia.
        -- by apply lookup_delete_Some in Hz as [_ Hz].
    + intros j Hj. destruct (decide (j = i)) as [->|]; [|by apply (lp_nodup _ _ _ HLp)].
      apply NoDup_cons in Hnd as [_ Hnd]. rewrite <- Permutation_middle in Hnd. by apply NoDup_cons in Hnd as [_ Hnd].
  - exists t. eapply tree_part_agree; [|by apply Htf]. intros z m Hm'. destruct (decide (z = x)) as [->|].
    + rewrite lookup_delete_eq, Hx. split; [|done]. intros [= ->]. lia.
    + by rewrite lookup_delete_ne.
  - eapply hdr_part_sub; [apply delete_subseteq|by apply Hhf].
Qed.

(** The nodes of the tree, with its root. *)
Lemma tree_node_set D :
  (forall a, a ∈ D -> a = root h \/ exists s, F !! a = Some s /\ 248 <= s) -> node_set D h.
Proof.
  intros HD.
  assert (Hz : forall a, a ∈ D -> exists n, zone h F a n /\ 32 <= n).
  { intros a Ha. destruct (HD a Ha) as [->|(s & Hs & H248)].
    - exists 32. split; [apply zone_root|lia].
    - exists s. split; [by apply zone_chunk|lia]. }
  split.
  - intros x y Hx Hy Hne. destruct (Hz x Hx) as (n & Hzx & Hn), (Hz y Hy) as (m & Hzy & Hm).
    pose proof (zone_apart h F HL HF _ _ _ _ Hzx Hzy Hne). lia.
  - intros a Ha. destruct (Hz a Ha) as (n & Hza & Hn). pose proof (zone_in_block _ _ Hza).
    unfold inside in *. lia.
  - intros a Ha. destruct (Hz a Ha) as (n & Hza & Hn). destruct (zone_bounds h F HL HF _ _ Hza). lia.
Qed.

Lemma tree_links_frames D f h' :
  (forall a, a ∈ D -> a = root h \/ exists s, F !! a = Some s /\ 248 <= s) -> links D h f h' ->
  moves (tree_bytes h F) h h' /\
  (forall L, list_part h F L -> list_part h' F L) /\ (hdr_part h F -> hdr_part h' F) /\
  (forall x s, F !! x = Some s -> 248 <= s -> rd 4 (hp_mem h') (x + 4) = rd 4 (hp_mem h) (x + 4)) /\
  rd 4 (hp_mem h') (root h + 4) = rd 4 (hp_mem h) (root h + 4).
Proof.
  intros HD [Hm _].
  assert (Hmt : moves (tree_bytes h F) h h').
  { eapply moves_weaken; [|exact Hm]. intros k (a & Ha & Hk). destruct (HD a Ha) as [->|(s & Hs & H248)];
      [left; lia|right; eauto]. }
  assert (Htz : forall k, tree_bytes h F k -> exists a n, zone h F a n /\ 32 <= n /\ a + 8 <= k < a + 32 /\
            (a = root h \/ exists s, F !! a = Some s /\ 248 <= s)).
  { intros k [Hk|(x & s & Hx & Hs & Hk)].
    - exists (root h), 32. split_and!; [apply zone_root|lia..|by left].
    - exists x, s. split_and!; [by apply zone_chunk|lia..|right; eauto]. }
  split; [done|]. split_and!.
  - intros L. eapply list_frame; [exact Hmt|]. intros k Hk Hl.
    destruct (Htz k Hk) as (a & n & Hz & Hn & Hka & Ha).
    assert (exists b m, zone h F b m /\ 8 <= m /\ b + 4 <= k < b + 8) as (b & m & Hb & Hm8 & Hkb).
    { destruct Hl as [(i & Hi & Hki)|(x & s & Hx & Hs & Hkx)].
      - exists (sent h i), 8. split; [by apply zone_sent|lia].
      - exists x, s. pose proof (pl_in _ _ HF _ _ Hx). split; [by apply zone_chunk|lia]. }
    destruct (decide (a = b)) as [->|Hab]; [lia|].
    pose proof (zone_apart h F HL HF _ _ _ _ Hz Hb Hab). lia.
  - eapply hdr_frame; [exact Hmt|]. intros k x s Hk Hx.
    destruct (Htz k Hk) as (a & n & Hz & Hn & Hka & Ha).
    destruct (decide (a = x)) as [->|Hab]; [lia|]. pose proof (pl_in _ _ HF _ _ Hx).
    pose proof (zone_apart h F HL HF _ _ _ _ Hz (zone_chunk h F _ _ Hx) Hab). lia.
  - intros x s Hx Hs. apply (moves_rd _ _ _ 4 (x + 4) Hmt). intros k Hkx Hk.
    change (Z.of_nat 4) with 4 in Hkx. destruct (Htz k Hk) as (a & n & Hz & Hn & Hka & Ha).
    destruct (decide (a = x)) as [->|Hab]; [lia|].
    pose proof (zone_apart h F HL HF _ _ _ _ Hz (zone_chunk h F _ _ Hx) Hab). lia.
  - apply (moves_rd _ _ _ 4 (root h + 4) Hmt). intros k Hkx Hk.
    change (Z.of_nat 4) with 4 in Hkx. destruct (Htz k Hk) as (a & n & Hz & Hn & Hka & Ha).
    destruct (decide (a = root h)) as [->|Hab]; [lia|].
    pose proof (zone_apart h F HL HF _ _ _ _ Hz (zone_root h F) Hab). lia.
Qed.

Lemma root_not_chunk s : F !! root h = Some s -> False.
Proof.
  intros Hr. pose proof (pl_in _ _ HF _ _ Hr). destruct HL as [H1 H2 H3 H4 H5 H6 H7 H8 H9].
  unfold kfc_tree_root in *. lia.
Qed.

Lemma tree_in_start t :
  tree_part h F t -> tree_in (root h :: nodes t) (root h) (rd 8 (hp_mem h)) t.
Proof.
  intros [Hw Hn Hi _ _ _]. split; [done| |done]. apply NoDup_cons. split; [|done].
  intros Hr. apply Hi in Hr as (s & Hs & _). by apply (root_not_chunk s).
Qed.
Lemma tree_length t : tree_part h F t -> (length (nodes t) <= Z.to_nat (current_size h - 16))%nat.
Proof.
  intros Ht. apply (count_le _ (base_addr h)); [apply Ht|]. intros x Hx.
  apply (tp_in _ _ _ Ht) in Hx as (s & Hx & Hs). pose proof (pl_in _ _ HF _ _ Hx). unfold heap_end in *. lia.
Qed.

(** The pointers in memory, once more. *)
Lemma whole_links D f h' t :
  links D h f h' -> tree_in D (root h) f t -> whole (rd 8 (hp_mem h')) (root h) t.
Proof.
  intros [_ Hrd] [[H1 H2] _ Hs]. split.
  - rewrite <- H1. apply Hrd; [apply Hs; set_solver|unfold link; lia].
  - eapply trep_ext; [|exact H2]. intros a k Ha Hk. symmetry. apply Hrd; [apply Hs; set_solver|done].
Qed.

Lemma unlink_large x s :
  free_chunks h F -> F !! x = Some s -> 248 <= s ->
  exists h', unlink_hmu x h = Ok (tt, h') /\ moves (free_links h F) h h' /\ free_chunks h' (delete x F).
Proof.
  intros [_ _ Hby [L HLp] [t Ht] Hh] Hx Hs.
  assert (Hx4 : inside h x 4).
  { pose proof (zone_in_block x s (zone_chunk h F x s Hx)) as Hin. unfold inside in *. lia. }
  unfold unlink_hmu. rewrite (ebind_eq _ _ _ _ _ (hmu_get_eq x hdr_size h Hx4)), (Hh x s Hx).
  unfold HMU_IS_FC_NORMAL. change HMU_FC_NORMAL_MAX_SIZE with 248. rewrite (proj2 (Z.ltb_ge s 248) Hs).
  set (D := root h :: nodes t).
  assert (HD : forall a, a ∈ D -> a = root h \/ exists s, F !! a = Some s /\ 248 <= s).
  { intros a [->|Ha]%elem_of_cons; [by left|right]. by apply (tp_in _ _ _ Ht). }
  destruct (remove_ok D h (tree_node_set D HD) (root h) _ h t x (links_start D h) (tree_in_start t Ht))
    as (h' & f' & t' & pre & post & E & Hl & Ht' & Hn & Hn').
  { apply (tp_in _ _ _ Ht). eauto. }
  { pose proof (tree_length t Ht). unfold heap_fuel. lia. }
  destruct (tree_links_frames D f' h' HD Hl) as (Hmt & Hlf & Hhf & Hsf & Hrf).
  pose proof (tp_nodup _ _ _ Ht) as Hnd. rewrite Hn in Hnd.
  exists h'. split_and!; [exact E|eapply moves_weaken; [|exact Hmt]; intros k Hk; by right|]. split.
  - by eapply layout_moves.
  - apply (placed_sub _ F); [apply delete_subseteq|]. by apply (placed_moves _ h h' F Hmt).
  - by apply (mv_bytes _ _ _ Hmt).
  - exists L. apply (list_part_agree h' F); [|by apply Hlf]. intros z m Hm'.
    destruct (decide (z = x)) as [->|]; [|by rewrite lookup_delete_ne].
    rewrite lookup_delete_eq, Hx. split; [|done]. intros [= ->]. lia.
  - exists t'. assert (root h' = root h) as Hr by (by rewrite (mv_heap _ _ _ Hmt)).
    assert (Hperm : nodes t ≡ₚ x :: nodes t') by (rewrite Hn, Hn'; symmetry; apply Permutation_middle).
    assert (Hxt : x ∉ nodes t').
    { rewrite Hn'. rewrite <- Permutation_middle in Hnd. by apply NoDup_cons in Hnd as [Hnd _]. }
    split; rewrite ?Hr.
    + by eapply whole_links.
    + rewrite Hn'. rewrite <- Permutation_middle in Hnd. by apply NoDup_cons in Hnd as [_ Hnd].
    + intros z. split.
      * intros Hz. assert (z ∈ nodes t) as Hzt by (rewrite Hperm; set_solver).
        apply (tp_in _ _ _ Ht) in Hzt as (m & Hm & Hm8). exists m. split; [|done].
        rewrite lookup_delete_ne; [done|]. by intros ->.
      * intros (m & Hm & Hm8). apply lookup_delete_Some in Hm as [Hzx Hm].
        assert (z ∈ nodes t) as Hzt by (apply (tp_in _ _ _ Ht); eauto). rewrite Hperm in Hzt.
        apply elem_of_cons in Hzt as [->|]; done.
    + intros z m Hm Hm8. apply lookup_delete_Some in Hm as [_ Hm]. rewrite (Hsf z m Hm Hm8).
      by apply (tp_size _ _ _ Ht).
    + rewrite Hrf. apply (tp_root _ _ _ Ht).
    + eapply (sorted_by_ext (fun x => F !!! x)).
      * intros z Hz. simpl. rewrite !lookup_total_alt, lookup_delete_ne; [done|]. by intros ->.
      * pose proof (tp_sorted _ _ _ Ht) as Hso. rewrite Hn in Hso. rewrite Hn'. unfold sorted_by in *.
        apply StronglySorted_app in Hso as (H1 & H2 & H3). apply StronglySorted_cons in H3 as [_ H3].
        apply StronglySorted_app. split_and!; [|done..]. intros u v Hu Hv. apply H1; [done|set_solver].
  - eapply hdr_part_sub; [apply delete_subseteq|by apply Hhf].
Qed.
End Unlink.

(** [unlink_hmu] takes a free chunk out. *)
Lemma unlink_ok h F x s :
  free_chunks h F -> F !! x = Some s ->
  exists h', unlink_hmu x h = Ok (tt, h') /\ moves (free_links h F) h h' /\ free_chunks h' (delete x F).
Proof.
  intros Hf Hx. destruct (Z.lt_ge_cases s 248).
  - eapply unlink_small; try done; apply Hf.
  - eapply unlink_large; try done; apply Hf.
Qed.

(** ** Putting a chunk in *)

(** The lists and the tree of [gci_add_fc], once the header is written. *)
Definition link_fc (hmu size : Z) : E unit :=
  if HMU_IS_FC_NORMAL size then
    elet head := eget (normal_list (Z.shiftr size 3)) in
    elet next := get_hmu_normal_node_next head in
    edo set_hmu_normal_node_next hmu next in
    set_hmu_normal_node_next head hmu
  else
    edo store32 (tree_size hmu) size in
    edo clear_links hmu in
    elet root := eget kfc_tree_root in
    elet fuel := eget heap_fuel in
    insert_tree_node fuel root hmu size.

Definition fc_header (v size : Z) : Z := hdr_set_size (hdr_set_ut v HMU_FC) size.

Lemma add_header h x s :
  inside h x s -> 16 <= s -> chunk_size s -> bytes_ok (hp_mem h) ->
  exists h1, gci_add_fc x s h = link_fc x s h1 /\
    moves (fun k => x <= k < x + 4 \/ x + s - 4 <= k < x + s) h h1 /\
    rd 4 (hp_mem h1) x = fc_header (rd 4 (hp_mem h) x) s /\ rd 4 (hp_mem h1) (x + s - 4) = s.
Proof.
  intros [Ha Hb] H16 Hs Hby. pose proof (rd_range 4 _ x Hby) as Hv.
  change (8 * Z.of_nat 4) with 32 in Hv. set (v := rd 4 (hp_mem h) x) in *.
  assert (Hut : in_u 32 (hdr_set_ut v HMU_FC)) by (apply in_u_set_ut; [done|unfold in_u, HMU_FC; lia]).
  assert (Hfc : in_u 32 (fc_header v s)) by (by apply in_u_set_size).
  unfold gci_add_fc, hmu_set_free_size.
  rewrite (ebind_eq _ _ _ _ _ (hmu_upd_eq x _ h ltac:(unfold inside; lia))). fold v.
  set (h1 := hp_set_mem _ h).
  rewrite (ebind_eq _ _ _ _ _ (hmu_upd_eq x _ h1 ltac:(unfold inside; subst h1; simpl; lia))).
  assert (rd 4 (hp_mem h1) x = hdr_set_ut v HMU_FC) as ->.
  { subst h1. simpl. rewrite rd_wr_eq. by apply uwrap_id. }
  fold (fc_header v s). set (h2 := hp_set_mem _ h1).
  assert (Hr2 : rd 4 (hp_mem h2) x = fc_header v s).
  { subst h2. simpl. rewrite rd_wr_eq. by apply uwrap_id. }
  set (h3 := hp_set_mem (wr 4 (hp_mem h2) (x + s - 4) s) h2).
  assert (E3 : (elet size := hmu_get x hdr_size in store32 (x + size - 4) size) h2 = Ok (tt, h3)).
  { rewrite (ebind_eq _ _ _ _ _ (hmu_get_eq x hdr_size h2 ltac:(unfold inside; subst h2 h1; simpl; lia))), Hr2.
    unfold fc_header. rewrite size_set_size by done. apply (store_eq 4). unfold inside. subst h2 h1. simpl. lia. }
  rewrite (ebind_eq _ _ _ _ _ E3). exists h3. split_and!; [done| | |].
  - eapply moves_trans; [|apply moves_store; intros; lia].
    eapply moves_trans; [|apply moves_store; intros; lia]. apply moves_store. intros. lia.
  - subst h3. simpl. rewrite rd_wr_ne by lia. exact Hr2.
  - subst h3. simpl. rewrite rd_wr_eq. apply uwrap_id. unfold in_u. destruct Hs. lia.
Qed.

Section Add.
Context (h : gc_heap) (F : gmap Z Z) (x s : Z).
Hypothesis Hfresh : F !! x = None.
Let F' := <[x := s]> F.
Hypothesis HL : layout_ok h.
Hypothesis HF' : placed h F'.
Hypothesis Hby : bytes_ok (hp_mem h).
(** The header is written. *)
Hypothesis Hh : hdr_part h F'.

Lemma sub_insert : F ⊆ F'.
Proof using Hfresh. by apply insert_subseteq. Qed.
Lemma new_chunk : F' !! x = Some s.
Proof using. apply lookup_insert_eq. Qed.
Lemma old_placed : placed h F.
Proof using Hfresh HF'. eapply placed_sub; [apply sub_insert|exact HF']. Qed.
Lemma new_bounds : base_addr h <= x /\ x + s <= heap_end h /\ 16 <= s /\ s mod 8 = 0.
Proof using HF'. apply (pl_in _ _ HF'), new_chunk. Qed.

(** The new chunk overlaps nothing of the others. *)
Lemma fresh_apart z m : zone h F z m -> z + m <= x \/ x + s <= z.
Proof using Hfresh HL HF'.
  intros Hz. pose proof (zone_chunk h F' x s new_chunk) as Hzx. assert (Hz' : zone h F' z m).
  { destruct Hz as [?|[?|Hz]]; [by left|by right; left|right; right]. by apply (lookup_weaken F), sub_insert. }
  destruct (decide (z = x)) as [->|Hne]; [|by apply (zone_apart h F' HL HF')].
  destruct Hz as [(j & Hj & Hzj & _)|[[Hz _]|Hz]]; [..|congruence].
  - pose proof (zone_sent h F' j Hj) as Hzs. rewrite <- Hzj in Hzs. pose proof new_bounds.
    pose proof (zone_same h F' HL HF' _ _ _ Hzs Hzx).
    destruct HL as [A1 A2 A3 A4 A5 A6 A7 A8 A9]. unfold normal_list in *. lia.
  - destruct (root_not_chunk h F' HL HF' s). rewrite <- Hz. exact new_chunk.
Qed.
Lemma fresh_links k : free_links h F k -> ~ (x <= k < x + s).
Proof using Hfresh HL HF'.
  pose proof new_bounds as (_ & _ & H16 & _).
  intros [[(j & Hj & Hk)|(y & m & Hy & Hm & Hk)]|[Hk|(y & m & Hy & Hm & Hk)]].
  - pose proof (fresh_apart _ _ (zone_sent h F j Hj)). lia.
  - pose proof (fresh_apart _ _ (zone_chunk h F y m Hy)). pose proof (pl_in _ _ old_placed _ _ Hy). lia.
  - pose proof (fresh_apart _ _ (zone_root h F)). lia.
  - pose proof (fresh_apart _ _ (zone_chunk h F y m Hy)). lia.
Qed.
(** Changes inside the new chunk. *)
Lemma fresh_frames P h1 :
  moves P h h1 -> (forall k, P k -> x <= k < x + s) ->
  (forall L, list_part h F L -> list_part h1 F L) /\ (forall t, tree_part h F t -> tree_part h1 F t) /\
  (hdr_part h F -> hdr_part h1 F).
Proof using Hfresh HL HF'.
  intros Hm HP. pose proof new_bounds as (_ & _ & H16 & _). split_and!.
  - intros L. eapply list_frame; [exact Hm|]. intros k Hk Hl. apply (fresh_links k); [by left|by apply HP].
  - intros t. eapply tree_frame; [exact Hm|..]; intros k.
    + intros Hk%HP. pose proof (fresh_apart _ _ (zone_root h F)). lia.
    + intros y m Hk%HP Hy Hm'. pose proof (fresh_apart _ _ (zone_chunk h F y m Hy)). lia.
  - eapply hdr_frame; [exact Hm|]. intros k y m Hk%HP Hy. pose proof (pl_in _ _ old_placed _ _ Hy).
    pose proof (fresh_apart _ _ (zone_chunk h F y m Hy)). lia.
Qed.

Lemma link_small L t :
  list_part h F L -> tree_part h F t -> s < 248 ->
  exists h', link_fc x s h = Ok (tt, h') /\
    moves (fun k => free_links h F k \/ x + 4 <= k < x + 8) h h' /\ free_chunks h' F'.
Proof using All.
  intros HLp Ht Hs. pose proof new_bounds as (Hx1 & Hx2 & H16 & Hm8).
  assert (Hsi : s = 8 * Z.shiftr s 3).
  { rewrite Z.shiftr_div_pow2 by lia. change (2 ^ 3) with 8. apply Z.div_exact; lia. }
  set (i := Z.shiftr s 3) in *. assert (Hi : 0 <= i < 32) by lia.
  unfold link_fc, HMU_IS_FC_NORMAL. change HMU_FC_NORMAL_MAX_SIZE with 248.
  rewrite (proj2 (Z.ltb_lt s 248) Hs). fold i.
  rewrite (ebind_eq (eget _) _ h (sent h i) h) by done.
  pose proof (zone_sent h F' i Hi) as Hzs. pose proof (zone_chunk h F' x s new_chunk) as Hzx.
  rewrite (ebind_eq _ _ _ _ _ (next_run h (sent h i) (zone_in_block h F' HL HF' _ _ Hzs))).
  assert (Hsx : sent h i <> x).
  { intros He. rewrite He in Hzs. pose proof (zone_same h F' HL HF' _ _ _ Hzs Hzx). lia. }
  set (first := nxt (hp_mem h) (sent h i)).
  pose proof (lp_chain _ _ _ HLp i Hi) as Hc.
  assert (HinF' : forall j y, 0 <= j < 32 -> y ∈ L j -> F' !! y = Some (8 * j) /\ 8 * j < 248 /\ y <> x).
  { intros j y Hj Hy. apply (lp_in _ _ _ HLp) in Hy as [Hy H8]; [|done]. split_and!; [|done|].
    - by apply (lookup_weaken F), sub_insert.
    - intros ->. congruence. }
  assert (Hfirst : near x first).
  { subst first. destruct (L i) as [|y l] eqn:ELi; [left; exact Hc|]. destruct Hc as [-> _].
    destruct (HinF' i y Hi) as (Hy & _ & Hyx); [rewrite ELi; set_solver|].
    by apply (zone_near h F' HL HF' x s y (8 * i)); [|apply zone_chunk|]. }
  assert (Hix : inside h x 8).
  { pose proof (zone_in_block h F' HL HF' _ _ Hzx) as [? ?]. unfold inside. lia. }
  destruct (set_next_run h x first Hix Hfirst) as (h1 & E1 & Hm1 & Hv1).
  rewrite (ebind_eq _ _ _ _ _ E1).
  destruct (next_bytes_frames h F' HL HF' x s h1 Hzx (or_intror (conj new_chunk Hs)) Hm1) as (_ & Ho1 & Ht1 & Hh1).
  pose proof (layout_moves _ _ _ Hm1 HL) as HL1. pose proof (placed_moves _ _ _ _ Hm1 HF') as HF1.
  assert (Hs1 : forall j, sent h1 j = sent h j) by (intros j; by rewrite (mv_heap _ _ _ Hm1)).
  assert (Hzs1 : zone h1 F' (sent h i) 8) by (rewrite <- Hs1; by apply zone_sent).
  destruct (set_next_run h1 (sent h i) x (zone_in_block h1 F' HL1 HF1 _ _ Hzs1)
              (zone_near h1 F' HL1 HF1 _ _ _ _ Hzs1 (zone_chunk h1 F' x s new_chunk) Hsx)) as (h2 & E2 & Hm2 & Hv2).
  destruct (next_bytes_frames h1 F' HL1 HF1 (sent h i) 8 h2 Hzs1 (or_introl eq_refl) Hm2) as (_ & Ho2 & Ht2 & Hh2).
  assert (Hs2 : forall j, sent h2 j = sent h j) by (intros j; rewrite (mv_heap _ _ _ Hm2); exact (Hs1 j)).
  (* the successor of everything but [x] and the head *)
  assert (Ho : forall z m, zone h F' z m -> z <> x -> z <> sent h i -> nxt (hp_mem h2) z = nxt (hp_mem h) z).
  { intros z m Hz Hzx' Hzs'. rewrite (Ho2 z m); [by apply (Ho1 z m)| |done].
    revert Hz. unfold zone. by rewrite (mv_heap _ _ _ Hm1). }
  assert (Hx2v : nxt (hp_mem h2) x = first).
  { rewrite (Ho2 x s); [done|by apply zone_chunk, new_chunk|done]. }
  exists h2. split_and!; [exact E2| |].
  { eapply moves_trans; (eapply moves_weaken; [|first [exact Hm1|exact Hm2]]); simpl; intros k Hk.
    - by right.
    - left. left. left. eauto. }
  split.
  - by eapply layout_moves.
  - by eapply placed_moves.
  - by apply (mv_bytes _ _ _ Hm2), (mv_bytes _ _ _ Hm1).
  - exists (fun j => if decide (j = i) then x :: L i else L j). split.
    + intros j Hj. rewrite Hs2. destruct (decide (j = i)) as [->|Hji].
      * cbn [chain]. split; [done|]. eapply chain_head; [exact Hx2v| |exact Hc].
        intros y Hy. destruct (HinF' i y Hi Hy) as (HyF & _ & Hyx).
        apply (Ho y (8 * i)); [by apply zone_chunk|done|]. intros ->.
        by apply (sent_not_member h F HL old_placed L i i HLp).
      * eapply chain_ext; [|by apply (lp_chain _ _ _ HLp)]. intros y Hy. symmetry.
        assert (exists m, zone h F' y m /\ y <> x) as (m & Hz & Hyx).
        { apply elem_of_cons in Hy as [->|Hy].
          - exists 8. split; [by apply zone_sent|]. intros He.
            pose proof (zone_sent h F' j Hj) as Hz. rewrite He in Hz.
            pose proof (zone_same h F' HL HF' _ _ _ Hz Hzx). lia.
          - destruct (HinF' j y Hj Hy) as (HyF & _ & Hyx). exists (8 * j). split; [by apply zone_chunk|done]. }
        apply (Ho y m Hz Hyx).
        apply (list_members_differ h F HL old_placed L j i y _ HLp); [done|done|done|done|set_solver].
    + intros j y Hj. subst F'. destruct (decide (j = i)) as [->|Hji]; destruct (decide (y = x)) as [->|Hyx].
      * rewrite lookup_insert_eq, Hsi. set_solver by lia.
      * rewrite lookup_insert_ne by done. rewrite <- (lp_in _ _ _ HLp i y Hi). set_solver.
      * rewrite lookup_insert_eq, (lp_in _ _ _ HLp j x Hj), Hfresh. split; intros [Hj' _]; [done|].
        injection Hj'. lia.
      * rewrite lookup_insert_ne by done. by apply (lp_in _ _ _ HLp).
    + intros j Hj. destruct (decide (j = i)) as [->|]; [|by apply (lp_nodup _ _ _ HLp)].
      apply NoDup_cons. split; [|by apply (lp_nodup _ _ _ HLp)]. intros Hin.
      by destruct (HinF' i x Hi Hin) as (_ & _ & []).
  - exists t. apply Ht2, Ht1. eapply tree_part_agree; [|exact Ht]. intros y m Hm'.
    subst F'. destruct (decide (y = x)) as [->|]; [|by rewrite lookup_insert_ne].
    rewrite lookup_insert_eq, Hfresh. split; [done|]. intros [= ->]. lia.
  - by apply Hh2, Hh1.
Qed.

Lemma link_large L t :
  list_part h F L -> tree_part h F t -> 248 <= s -> s < 2 ^ 32 ->
  exists h', link_fc x s h = Ok (tt, h') /\
    moves (fun k => free_links h F k \/ x + 4 <= k < x + 32) h h' /\ free_chunks h' F'.
Proof using All.
  intros HLp Ht Hs Hs32. pose proof new_bounds as (Hx1 & Hx2 & _ & _).
  unfold link_fc, HMU_IS_FC_NORMAL. change HMU_FC_NORMAL_MAX_SIZE with 248.
  rewrite (proj2 (Z.ltb_ge s 248) Hs). pose proof (zone_chunk h F' x s new_chunk) as Hzx.
  pose proof (zone_in_block h F' HL HF' _ _ Hzx) as [Hi1 Hi2].
  rewrite (ebind_eq _ _ _ _ _ (store_eq 4 (tree_size x) s h ltac:(unfold inside, tree_size; lia))).
  set (h1 := hp_set_mem _ h).
  assert (Hm1 : moves (fun k => x + 4 <= k < x + 8) h h1) by (apply moves_store; unfold tree_size; lia).
  pose proof (layout_moves _ _ _ Hm1 HL) as HL1. pose proof (placed_moves _ _ _ _ Hm1 HF') as HF1.
  assert (Hr1 : root h1 = root h) by done.
  destruct (fresh_frames _ h1 Hm1) as (HLp1 & Ht1 & _); [intros k Hk; cbn beta in Hk; lia|].
  specialize (HLp1 L HLp). specialize (Ht1 t Ht).
  assert (Hh1 : hdr_part h1 F').
  { eapply hdr_frame; [exact Hm1| |exact Hh]. intros k y m Hk Hy. cbn beta in Hk. pose proof (pl_in _ _ HF' _ _ Hy).
    destruct (decide (y = x)) as [->|Hne]; [lia|]. pose proof (zone_apart h F' HL HF' _ _ _ _ (zone_chunk h F' y m Hy) Hzx Hne). lia. }
  set (sz := fun a => rd 4 (hp_mem h1) (a + 4)). set (D := root h1 :: x :: nodes t).
  assert (Hszx : sz x = s).
  { subst sz h1. simpl. unfold tree_size. rewrite rd_wr_eq. apply uwrap_id. unfold in_u. lia. }
  assert (HD : forall a, a ∈ D -> a = root h1 \/ exists m, F' !! a = Some m /\ 248 <= m).
  { intros a. subst D. rewrite !elem_of_cons. intros [->|[->|Ha]]; [by left|right; exists s; split; [exact new_chunk|done]|right].
    apply (tp_in _ _ _ Ht) in Ha as (m & Ha & Hm). exists m. split; [by apply (lookup_weaken F), sub_insert|done]. }
  pose proof (tree_node_set h1 F' HL1 HF1 D HD) as Hns.
  assert (Hxt : x ∉ root h1 :: nodes t).
  { rewrite elem_of_cons. intros [He|Hin].
    - destruct (root_not_chunk h1 F' HL1 HF1 s). rewrite <- He. exact new_chunk.
    - apply (tp_in _ _ _ Ht) in Hin as (m & Hin & _). congruence. }
  assert (Hx : x ∈ D) by (subst D; set_solver). assert (HR : root h1 ∈ D) by (subst D; set_solver).
  destruct (clear_run D h1 Hns _ h1 x (links_start D h1) Hx) as (h2 & E2 & L2).
  rewrite (ebind_eq _ _ _ _ _ E2).
  rewrite (ebind_eq (eget kfc_tree_root) _ h2 (root h1) h2) by (destruct L2 as [[-> _ _] _]; done).
  rewrite (ebind_eq (eget heap_fuel) _ h2 (heap_fuel h1) h2) by (destruct L2 as [[-> _ _] _]; done).
  pose proof (tree_in_start h1 F HL1 (placed_moves _ _ _ _ Hm1 old_placed) t Ht1) as [[W1 W2] Hnd _].
  assert (Htin : tree_in D (root h1) (clear_fun (rd 8 (hp_mem h1)) x) t).
  { split; [|done|subst D; set_solver].
    assert (Hne : forall a k, a ∈ root h1 :: nodes t -> link k -> clear_fun (rd 8 (hp_mem h1)) x (a + k) = rd 8 (hp_mem h1) (a + k)).
    { intros a k Ha Hk. apply (clear_fun_ne D h1 Hns); [subst D; set_solver|done| |done]. intros ->. done. }
    split; [rewrite <- W1; apply Hne; [set_solver|unfold link; lia]|].
    eapply trep_ext; [|exact W2]. intros a k Ha Hk. symmetry. apply Hne; [set_solver|done]. }
  assert (Hsorted : sorted_by sz (nodes t)).
  { eapply sorted_by_ext; [|exact (tp_sorted _ _ _ Ht1)]. intros a Ha. apply (tp_in _ _ _ Ht1) in Ha as (m & Ha & Hm).
    simpl. rewrite lookup_total_alt, Ha. simpl. symmetry. by apply (tp_size _ _ _ Ht1). }
  destruct (insert_ok D h1 (root h1) sz Hns (fun a _ => eq_refl) _ h2 t x (heap_fuel h1) L2 Htin Hx Hxt)
    as (h3 & f3 & t' & E3 & L3 & Ht3 & Hp3 & Hs3).
  { unfold clear_fun. by rewrite fn_lookup_insert. }
  { unfold clear_fun. by rewrite fn_lookup_insert_ne, fn_lookup_insert by lia. }
  { exact Hsorted. }
  { rewrite Hszx. unfold sz. rewrite (tp_root _ _ _ Ht1). lia. }
  { pose proof (tree_length h F old_placed t Ht) as Hlen. unfold heap_fuel, heap_end in *.
    change (current_size h1) with (current_size h). lia. }
  rewrite Hszx in E3. exists h3. split; [exact E3|].
  destruct (tree_links_frames h1 F' HL1 HF1 D f3 h3 HD L3) as (Hmt & Hlf & Hhf & Hsf & Hrf).
  assert (Hr3 : root h3 = root h1) by (by rewrite (mv_heap _ _ _ Hmt)).
  split.
  { eapply moves_trans; (eapply moves_weaken; [|first [exact Hm1|exact Hmt]]); simpl; intros k Hk; [lia|].
    destruct Hk as [Hk|(y & m & Hy & Hm & Hk)]; [by left; right; left|].
    destruct (decide (y = x)) as [->|Hyx]; [right; lia|left; right; right]. exists y, m.
    subst F'. rewrite lookup_insert_ne in Hy by done. done. }
  split.
  - by eapply layout_moves.
  - by eapply placed_moves.
  - by apply (mv_bytes _ _ _ Hmt), (mv_bytes _ _ _ Hm1).
  - exists L. apply Hlf. apply (list_part_agree h1 F); [|done]. intros y m Hm.
    subst F'. destruct (decide (y = x)) as [->|]; [|by rewrite lookup_insert_ne].
    rewrite lookup_insert_eq, Hfresh. split; [done|]. intros [= ->]. lia.
  - exists t'. split; rewrite ?Hr3.
    + by eapply whole_links.
    + rewrite Hp3. apply NoDup_cons in Hnd as [_ Hnd]. apply NoDup_cons. split; [set_solver|done].
    + intros y. rewrite Hp3, elem_of_cons, (tp_in _ _ _ Ht1). subst F'. split.
      * intros [->|(m & Hy & Hm)]; [exists s; by rewrite lookup_insert_eq|]. exists m.
        rewrite lookup_insert_ne; [done|]. intros ->. congruence.
      * intros (m & Hy & Hm). destruct (decide (y = x)) as [->|Hyx]; [by left|right].
        rewrite lookup_insert_ne in Hy by done. eauto.
    + intros y m Hy Hm. rewrite (Hsf y m Hy Hm). destruct (decide (y = x)) as [->|Hyx].
      * rewrite new_chunk in Hy. injection Hy as <-. exact Hszx.
      * apply (tp_size _ _ _ Ht1); [|done]. subst F'. by rewrite lookup_insert_ne in Hy.
    + rewrite Hrf. apply (tp_root _ _ _ Ht1).
    + eapply sorted_by_ext; [|exact Hs3]. intros y Hy. rewrite Hp3 in Hy.
      rewrite lookup_total_alt. apply elem_of_cons in Hy as [->|Hy]; [by rewrite new_chunk, Hszx|].
      assert (Hyx : y <> x) by (intros ->; set_solver).
      apply (tp_in _ _ _ Ht1) in Hy as (m & Hy & Hm). subst F'.
      rewrite lookup_insert_ne, Hy by done. simpl. by apply (tp_size _ _ _ Ht1).
  - by apply Hhf.
Qed.
End Add.

(** [gci_add_fc] makes a chunk free. *)
Lemma add_ok h F x s :
  free_chunks h F -> F !! x = None -> placed h (<[x := s]> F) ->
  exists h', gci_add_fc x s h = Ok (tt, h') /\
    moves (fun k => free_links h F k \/ x <= k < x + s) h h' /\ free_chunks h' (<[x := s]> F) /\
    rd 4 (hp_mem h') x = fc_header (rd 4 (hp_mem h) x) s /\ rd 4 (hp_mem h') (x + s - 4) = s.
Proof.
  intros [HL HF Hby [L HLp] [t Ht] Hh] Hfresh HF'.
  destruct (pl_in _ _ HF' x s (lookup_insert_eq _ _ _)) as (Hx1 & Hx2 & H16 & Hm8).
  assert (Hcs : chunk_size s) by (destruct HL; unfold heap_end, chunk_size in *; lia).
  destruct (add_header h x s) as (h1 & E1 & Hm1 & Hr1 & Hf1); [destruct HL; unfold inside, heap_end in *; lia|done..|].
  pose proof (layout_moves _ _ _ Hm1 HL) as HL1. pose proof (placed_moves _ _ _ _ Hm1 HF') as HF1.
  destruct (fresh_frames h F x s Hfresh HL HF' _ h1 Hm1) as (HLp1 & Ht1 & Hh1);
    [intros k Hk; cbn beta in Hk; lia|].
  specialize (HLp1 L HLp). specialize (Ht1 t Ht).
  assert (Hh1' : hdr_part h1 (<[x := s]> F)).
  { intros y m. destruct (decide (y = x)) as [->|Hyx].
    - rewrite lookup_insert_eq. intros [= <-]. rewrite Hr1. unfold fc_header. by apply size_set_size.
    - rewrite lookup_insert_ne by done. apply Hh1, Hh. }
  pose proof (mv_bytes _ _ _ Hm1 Hby) as Hby1.
  assert (exists h' hi, link_fc x s h1 = Ok (tt, h') /\ x + 4 <= hi <= x + s - 4 /\
    moves (fun k => free_links h1 F k \/ x + 4 <= k < hi) h1 h' /\ free_chunks h' (<[x := s]> F))
    as (h' & hi & E2 & Hhi & Hm2 & Hf2).
  { destruct (Z.lt_ge_cases s 248).
    - destruct (link_small h1 F x s Hfresh HL1 HF1 Hby1 Hh1' L t HLp1 Ht1) as (h' & ? & ? & ?); [done|].
      exists h', (x + 8). split_and!; done || lia.
    - destruct (link_large h1 F x s Hfresh HL1 HF1 Hby1 Hh1' L t HLp1 Ht1) as (h' & ? & ? & ?);
        [done|destruct Hcs; lia|]. exists h', (x + 32). split_and!; done || lia. }
  assert (Hfl : forall k, free_links h1 F k -> free_links h F k)
    by (intros k; unfold free_links, list_bytes, tree_bytes; by rewrite (mv_heap _ _ _ Hm1)).
  assert (Hkeep : forall a, x <= a -> a + 4 <= x + s -> a + 4 <= x + 4 \/ hi <= a ->
            rd 4 (hp_mem h') a = rd 4 (hp_mem h1) a).
  { intros a Ha1 Ha2 Ha3. apply (moves_rd _ _ _ 4 a Hm2). intros k Hk [Hl|Hl]; change (Z.of_nat 4) with 4 in Hk; [|lia].
    apply (fresh_links h1 F x s Hfresh HL1 HF1 k Hl). lia. }
  exists h'. split_and!; [by rewrite E1| |exact Hf2|rewrite Hkeep; [exact Hr1|lia..]|rewrite Hkeep; [exact Hf1|lia..]].
  eapply moves_trans; (eapply moves_weaken; [|first [exact Hm1|exact Hm2]]); simpl; intros k Hk; [lia|].
  destruct Hk as [Hk|Hk]; [left; by apply Hfl|right; lia].
Qed.

(** Writing a header: of a free chunk, keeping its size, or of any other. *)
Lemma header_write h F a v :
  free_chunks h F -> base_addr h <= a ->
  (forall x s, F !! x = Some s -> x = a /\ hdr_size (u32 v) = s \/ a + 4 <= x \/ x + s <= a) ->
  free_chunks (hp_set_mem (wr 4 (hp_mem h) a v) h) F.
Proof.
  intros [HL HF Hby [L HLp] [t Ht] Hh] Ha Hx. set (h' := hp_set_mem _ h).
  assert (Hm : moves (fun k => a <= k < a + 4) h h') by (apply moves_store; intros; lia).
  assert (Hs : hp_addr h + sizeof_gc_heap <= a /\ off_tree_root + 32 <= sizeof_gc_heap /\
            off_normal_list + 256 <= off_tree_root) by (destruct HL; lia).
  split.
  - by eapply layout_moves.
  - by eapply placed_moves.
  - by apply (mv_bytes _ _ _ Hm).
  - exists L. eapply list_frame; [exact Hm| |exact HLp]. intros k Hk [(j & Hj & Hkj)|(y & m & Hy & Hm' & Hky)]; cbn beta in Hk.
    + unfold normal_list in Hkj. lia.
    + pose proof (pl_in _ _ HF _ _ Hy). specialize (Hx y m Hy). lia.
  - exists t. eapply tree_frame; [exact Hm|..|exact Ht].
    + intros k Hk. cbn beta in Hk. unfold kfc_tree_root. lia.
    + intros k y m Hk Hy Hm'. cbn beta in Hk. specialize (Hx y m Hy). lia.
  - intros y m Hy. destruct (Hx y m Hy) as [[-> Hv]|Hout].
    + subst h'. simpl. by rewrite rd_wr_eq.
    + rewrite (moves_rd _ _ _ 4 y Hm); [by apply Hh|]. intros k Hk HPk. change (Z.of_nat 4) with 4 in Hk.
      pose proof (pl_in _ _ HF _ _ Hy). lia.
Qed.

(** Changes outside the free chunks and the structure. *)
Lemma outside_frame P h h' F :
  free_chunks h F -> moves P h h' ->
  (forall k, P k -> base_addr h <= k /\ forall x s, F !! x = Some s -> ~ (x <= k < x + s)) ->
  free_chunks h' F.
Proof.
  intros [HL HF Hby [L HLp] [t Ht] Hh] Hm HP.
  assert (Hs : hp_addr h + sizeof_gc_heap <= base_addr h /\ off_tree_root + 32 <= sizeof_gc_heap /\
            off_normal_list + 256 <= off_tree_root) by (destruct HL; lia).
  split.
  - by eapply layout_moves.
  - by eapply placed_moves.
  - by apply (mv_bytes _ _ _ Hm).
  - exists L. eapply list_frame; [exact Hm| |exact HLp].
    intros k [Hk Hx]%HP [(j & Hj & Hkj)|(y & m & Hy & Hm' & Hky)].
    + unfold normal_list in Hkj. lia.
    + pose proof (pl_in _ _ HF _ _ Hy). apply (Hx y m Hy). lia.
  - exists t. eapply tree_frame; [exact Hm|..|exact Ht].
    + intros k [Hk _]%HP. unfold kfc_tree_root. lia.
    + intros k y m [_ Hx]%HP Hy Hm' Hky. apply (Hx y m Hy). lia.
  - eapply hdr_frame; [exact Hm| |exact Hh]. intros k y m [_ Hx]%HP Hy Hky.
    pose proof (pl_in _ _ HF _ _ Hy). apply (Hx y m Hy). lia.
Qed.
End Chunks.
