(* ===== verification/EmsHeap.v ===== *)
(** * Heaps as sequences of chunks

    The invariant of the allocator: chunks with correct headers and footers
    tile the heap, no two neighbours are free, and the free ones are those
    the lists and the tree hold. *)

From S2P Require Import Prelude Instance Ems EmsHeader EmsTree EmsFree EmsChunks.
#[local] Open Scope Z_scope.
#[local] Open Scope ems_scope.

Record chunk := Chunk { ck_addr : Z; ck_size : Z; ck_used : bool }.
#[export] Instance chunk_eq_dec : EqDecision chunk.
Proof. solve_decision. Defined.
Definition ck_end (c : chunk) : Z := ck_addr c + ck_size c.

(** ** Headers and footers *)

(** [pu]: the chunk before is in use; [lim]: where the heap ends - the footer of
    a free chunk there is never read, and [gc_init_with_pool] writes none. *)
Record chunk_ok (m : gmap Z Z) (lim : Z) (pu : bool) (c : chunk) : Prop := {
  co_min : 16 <= ck_size c;
  co_mod : ck_size c mod 8 = 0;
  co_size : hdr_size (rd 4 m (ck_addr c)) = ck_size c;
  co_ut : hdr_ut (rd 4 m (ck_addr c)) = if ck_used c then HMU_VO else HMU_FC;
  co_pinuse : hdr_pinuse (rd 4 m (ck_addr c)) = if pu then 1 else 0;
  co_used : ck_used c = true -> hdr_vo_freed (rd 4 m (ck_addr c)) = 0;
  co_free : ck_used c = false -> ck_end c <> lim -> rd 4 m (ck_end c - 4) = ck_size c;
  co_merged : pu || ck_used c = true
}.

(** Chunks from [a] to [e]. *)
Fixpoint tiles (m : gmap Z Z) (lim a : Z) (cs : list chunk) (e : Z) (pu : bool) : Prop :=
  match cs with
  | [] => a = e
  | c :: cs' => ck_addr c = a /\ chunk_ok m lim pu c /\ tiles m lim (a + ck_size c) cs' e (ck_used c)
  end.

Fixpoint end_of (a : Z) (cs : list chunk) : Z :=
  match cs with [] => a | c :: cs' => end_of (a + ck_size c) cs' end.
Fixpoint last_used (pu : bool) (cs : list chunk) : bool :=
  match cs with [] => pu | c :: cs' => last_used (ck_used c) cs' end.

Lemma tiles_app {lim} m a cs cs' e pu :
  tiles m lim a (cs ++ cs') e pu <->
  tiles m lim a cs (end_of a cs) pu /\ tiles m lim (end_of a cs) cs' e (last_used pu cs).
Proof.
  revert a pu. induction cs as [|c cs IH]; intros a pu; cbn [app tiles end_of last_used]; [tauto|].
  rewrite IH. tauto.
Qed.
Lemma end_of_app a cs cs' : end_of a (cs ++ cs') = end_of (end_of a cs) cs'.
Proof. revert a. induction cs as [|c cs IH]; intros a; cbn [app end_of]; [done|apply IH]. Qed.
Lemma last_used_app pu cs cs' : last_used pu (cs ++ cs') = last_used (last_used pu cs) cs'.
Proof. revert pu. induction cs as [|c cs IH]; intros a; cbn [app last_used]; [done|apply IH]. Qed.

Lemma tiles_bounds {lim} m a cs e pu c :
  tiles m lim a cs e pu -> c ∈ cs -> a <= ck_addr c /\ ck_end c <= e /\ 16 <= ck_size c /\ ck_size c mod 8 = 0.
Proof.
  revert a pu. induction cs as [|d cs IH]; intros a pu; [by intros _ ?%elem_of_nil|].
  assert (Hle : forall cs a pu, tiles m lim a cs e pu -> a <= e).
  { clear. induction cs as [|d cs IH]; intros a pu; cbn [tiles]; [lia|].
    intros (_ & Hd & Ht). apply IH in Ht. destruct Hd. lia. }
  cbn [tiles]. intros (Ha & Hd & Ht) [->|Hc]%elem_of_cons.
  - apply Hle in Ht. destruct Hd. unfold ck_end. split_and!; [lia..|done].
  - apply (IH _ _ Ht) in Hc. destruct Hd. lia.
Qed.
Lemma tiles_apart {lim} m a cs e pu c d :
  tiles m lim a cs e pu -> c ∈ cs -> d ∈ cs -> c = d \/ ck_end c <= ck_addr d \/ ck_end d <= ck_addr c.
Proof.
  revert a pu. induction cs as [|x cs IH]; intros a pu; [by intros _ ?%elem_of_nil|].
  cbn [tiles]. intros (Ha & Hx & Ht) [->|Hc]%elem_of_cons [->|Hd]%elem_of_cons.
  - by left.
  - right. left. apply (tiles_bounds _ _ _ _ _ _ Ht) in Hd. unfold ck_end. lia.
  - right. right. apply (tiles_bounds _ _ _ _ _ _ Ht) in Hc. unfold ck_end. lia.
  - by apply (IH _ _ Ht).
Qed.
Lemma tiles_addr_inj {lim} m a cs e pu c d :
  tiles m lim a cs e pu -> c ∈ cs -> d ∈ cs -> ck_addr c = ck_addr d -> c = d.
Proof.
  intros Ht Hc Hd He. destruct (tiles_apart _ _ _ _ _ _ _ Ht Hc Hd) as [|Hcd]; [done|].
  apply (tiles_bounds _ _ _ _ _ _ Ht) in Hc. apply (tiles_bounds _ _ _ _ _ _ Ht) in Hd.
  unfold ck_end in *. lia.
Qed.

Lemma end_of_tiles {lim} m a cs e pu : tiles m lim a cs e pu -> end_of a cs = e.
Proof. revert a pu. induction cs as [|c cs IH]; intros a pu; cbn [tiles end_of]; [done|]. intros (_ & _ & Ht). by eapply IH. Qed.
(** What lies on either side of a chunk. *)
Lemma tiles_around {lim} m a pre c post e pu :
  tiles m lim a (pre ++ c :: post) e pu ->
  end_of a pre = ck_addr c /\ (forall d, d ∈ pre -> ck_end d <= ck_addr c) /\
  (forall d, d ∈ post -> ck_end c <= ck_addr d).
Proof.
  intros Ht. apply tiles_app in Ht as [H1 (H2 & H3 & H4)]. split_and!; [done|..].
  - intros d Hd. pose proof (tiles_bounds _ _ _ _ _ _ H1 Hd). lia.
  - intros d Hd. pose proof (tiles_bounds _ _ _ _ _ _ H4 Hd). unfold ck_end. lia.
Qed.

(** Memory is only read at headers and at footers of free chunks. *)
Definition same_tags (m m' : gmap Z Z) (c : chunk) : Prop :=
  rd 4 m' (ck_addr c) = rd 4 m (ck_addr c) /\
  (ck_used c = false -> rd 4 m' (ck_end c - 4) = rd 4 m (ck_end c - 4)).

Lemma chunk_ok_frame {lim} m m' pu c : same_tags m m' c -> chunk_ok m lim pu c -> chunk_ok m' lim pu c.
Proof.
  intros [Hh Hf] []. split; rewrite ?Hh; try done. intros Hc. rewrite Hf by done. auto.
Qed.
Lemma tiles_frame {lim} m m' a cs e pu :
  (forall c, c ∈ cs -> same_tags m m' c) -> tiles m lim a cs e pu -> tiles m' lim a cs e pu.
Proof.
  revert a pu. induction cs as [|c cs IH]; intros a pu He; [done|]. cbn [tiles].
  intros (Ha & Hc & Ht). split_and!; [done| |].
  - eapply chunk_ok_frame; [|exact Hc]. apply He. set_solver.
  - apply IH; [|done]. intros d Hd. apply He. set_solver.
Qed.

(** The first chunk learns that its predecessor is in use, or is not. *)
Lemma tiles_first {lim} m m' a c cs e pu pu' :
  rd 4 m' (ck_addr c) = (if pu' : bool then hdr_mark_pinuse else hdr_unmark_pinuse) (rd 4 m (ck_addr c)) ->
  ck_used c = true -> (forall d, d ∈ cs -> same_tags m m' d) ->
  tiles m lim a (c :: cs) e pu -> tiles m' lim a (c :: cs) e pu'.
Proof.
  intros Hh Hu Hs. cbn [tiles]. intros (Ha & Hc & Ht). split_and!; [done| |by apply (tiles_frame m)].
  destruct Hc as [H1 H2 H3 H4 H5 H6 H7 H8]. split; rewrite ?Hh; try done.
  - rewrite <- H3. destruct pu'; [apply size_mark|apply size_unmark].
  - rewrite <- H4. destruct pu'; [apply ut_mark|apply ut_unmark].
  - destruct pu'; [apply pinuse_mark|apply pinuse_unmark].
  - intros _. rewrite <- (H6 Hu). destruct pu'; [apply freed_mark|apply freed_unmark].
  - rewrite Hu. discriminate.
  - rewrite Hu. apply orb_true_r.
Qed.

(** ** The invariant *)

(** The free chunks of a sequence. *)
Definition frees (cs : list chunk) (F : gmap Z Z) : Prop :=
  forall x s, F !! x = Some s <-> Chunk x s false ∈ cs.
Definition free_total (cs : list chunk) : Z :=
  foldr (fun c n => (if ck_used c then 0 else ck_size c) + n) 0 cs.

Record heap_ok `{HeapLayout} (h : gc_heap) (cs : list chunk) : Prop := {
  ok_tiles : tiles (hp_mem h) (heap_end h) (base_addr h) cs (heap_end h) true;
  ok_free : exists F, free_chunks h F /\ frees cs F;
  ok_total : total_free_size h = free_total cs;
  ok_high : current_size h - total_free_size h <= highmark_size h <= current_size h;
  ok_align : base_addr h mod 8 = 4
}.

(** The heap stays where it is. *)
Definition same_place (h h' : gc_heap) : Prop :=
  hp_addr h' = hp_addr h /\ hp_end h' = hp_end h /\ base_addr h' = base_addr h /\
  current_size h' = current_size h.
Lemma same_place_moves P hi fr h h' : moves P h h' -> same_place h (hp_set_sizes hi fr h').
Proof. intros Hm. unfold same_place. by rewrite (mv_heap _ _ _ Hm). Qed.

Lemma free_total_app cs cs' : free_total (cs ++ cs') = free_total cs + free_total cs'.
Proof. unfold free_total. induction cs as [|c cs IH]; cbn [app foldr]; [done|]. lia. Qed.

Lemma free_total_bounds {lim} m a cs e pu :
  tiles m lim a cs e pu -> 0 <= free_total cs <= e - a.
Proof.
  revert a pu. induction cs as [|c cs IH]; intros a pu; cbn [tiles free_total foldr]; [lia|].
  intros (_ & Hc & Ht). apply IH in Ht. unfold free_total in *. destruct Hc, (ck_used c); lia.
Qed.

Lemma tiles_align {lim} m a cs e pu c :
  a mod 8 = 4 -> tiles m lim a cs e pu -> c ∈ cs -> ck_addr c mod 8 = 4.
Proof.
  revert a pu. induction cs as [|d cs IH]; intros a pu Ha; [by intros _ ?%elem_of_nil|].
  cbn [tiles]. intros (Hd & Hok & Ht) [->|Hc]%elem_of_cons; [by rewrite Hd|].
  eapply IH; [|exact Ht|exact Hc]. destruct Hok as [_ Hm _ _ _ _ _ _].
  rewrite Z.add_mod, Ha, Hm by lia. done.
Qed.

(** A free chunk is put to use, or a new free chunk appears. *)
Lemma frees_use {lim} m a e pre p s s' post F :
  tiles m lim a (pre ++ Chunk p s false :: post) e true ->
  frees (pre ++ Chunk p s false :: post) F -> frees (pre ++ Chunk p s' true :: post) (delete p F).
Proof.
  intros Ht HF x n. destruct (tiles_around _ _ _ _ _ _ _ Ht) as (_ & Hpre & Hpost). unfold ck_end in *. simpl in *.
  assert (Hne : forall c, c ∈ pre \/ c ∈ post -> ck_addr c <> p).
  { intros c [Hc|Hc].
    - specialize (Hpre c Hc). assert (c ∈ (pre ++ Chunk p s false :: post)%list) as Hin by set_solver.
      pose proof (tiles_bounds _ _ _ _ _ _ Ht Hin). lia.
    - specialize (Hpost c Hc). assert (Chunk p s false ∈ (pre ++ Chunk p s false :: post)%list) as Hin by set_solver.
      pose proof (tiles_bounds _ _ _ _ _ _ Ht Hin). simpl in *. lia. }
  rewrite lookup_delete_Some, (HF x n), !elem_of_app, !elem_of_cons. split.
  - intros [Hx [?|[[= ? ?]|?]]]; [by left|congruence|by right; right].
  - intros [Hc|[[=]|Hc]]; (split; [intros He; by apply (Hne _ ltac:(eauto))|]); auto.
Qed.
Lemma frees_new cs cs' x n F :
  (forall n', Chunk x n' false ∉ cs) -> cs' ≡ₚ Chunk x n false :: cs -> frees cs F -> frees cs' (<[x := n]> F).
Proof.
  intros Hx Hp HF y k. rewrite Hp, elem_of_cons, <- (HF y k). destruct (decide (y = x)) as [->|Hy].
  - rewrite lookup_insert_eq. split; [intros [= ->]; by left|]. intros [[= ->]|Hk]; [done|].
    apply HF in Hk. by destruct (Hx k).
  - rewrite lookup_insert_ne by done. split; [by right|]. intros [[= -> _]|]; done.
Qed.

(** The size counters are no part of the chunks. *)
Lemma free_chunks_sizes `{HeapLayout} hi fr h F : free_chunks (hp_set_sizes hi fr h) F <-> free_chunks h F.
Proof.
  split; intros [[] [] Hb [L []] [t []] Hh]; (split; [by split|by split|done|exists L; by split|exists t; by split|done]).
Qed.

(** Fewer chunks have fewer links. *)
Lemma free_links_sub `{HeapLayout} P h h1 F F' k :
  moves P h h1 -> F' ⊆ F -> free_links h1 F' k -> free_links h F k.
Proof.
  intros Hm Hs. unfold free_links, list_bytes, tree_bytes. rewrite (mv_heap _ _ _ Hm). simpl.
  intros [[?|(y & m & Hy & ?)]|[?|(y & m & Hy & ?)]];
    [by left; left|left; right|by right; left|right; right];
    exists y, m; (split; [by eapply lookup_weaken|done]).
Qed.

Section Links.
Context `{HeapLayout} (h : gc_heap) (cs : list chunk) (F : gmap Z Z).
Hypothesis Ht : tiles (hp_mem h) (heap_end h) (base_addr h) cs (heap_end h) true.
Hypothesis HL : layout_ok h.
Hypothesis HF : frees cs F.

(** Links lie behind the header and in front of the footer of free chunks,
    or in the heap structure. *)
Lemma free_links_where k :
  free_links h F k -> k < base_addr h \/ exists c, c ∈ cs /\ ck_used c = false /\
    ck_addr c + 4 <= k < ck_end c - 4.
Proof.
  destruct HL as [A1 A2 A3 A4 A5 A6 A7 A8 A9].
  intros [[(j & Hj & Hk)|(y & m & Hy & Hm & Hk)]|[Hk|(y & m & Hy & Hm & Hk)]];
    unfold normal_list, kfc_tree_root in *; [left; lia| |left; lia|];
    apply HF in Hy; right; exists (Chunk y m false); pose proof (tiles_bounds _ _ _ _ _ _ Ht Hy) as Hb;
    unfold ck_end in *; simpl in *; (split_and!; [done|done|lia..]).
Qed.
Lemma free_links_tags c k :
  c ∈ cs -> free_links h F k -> ~ (ck_addr c <= k < ck_addr c + 4) /\ ~ (ck_end c - 4 <= k < ck_end c).
Proof.
  intros Hc Hk. pose proof (tiles_bounds _ _ _ _ _ _ Ht Hc) as Hb.
  destruct (free_links_where k Hk) as [|(d & Hd & _ & Hkd)]; [unfold ck_end in *; lia|].
  destruct (tiles_apart _ _ _ _ _ _ _ Ht Hc Hd) as [->|]; unfold ck_end in *; lia.
Qed.
Lemma free_links_used c k :
  c ∈ cs -> ck_used c = true -> free_links h F k -> ~ (ck_addr c <= k < ck_end c).
Proof.
  intros Hc Hu Hk. pose proof (tiles_bounds _ _ _ _ _ _ Ht Hc) as Hb.
  destruct (free_links_where k Hk) as [|(d & Hd & Hdu & Hkd)]; [unfold ck_end in *; lia|].
  destruct (tiles_apart _ _ _ _ _ _ _ Ht Hc Hd) as [->|]; [congruence|unfold ck_end in *; lia].
Qed.

(** Chunks away from what changes keep their tags. *)
Lemma tags_frame P h' c :
  moves P h h' -> c ∈ cs ->
  (forall k, P k -> free_links h F k \/ ~ (ck_addr c <= k < ck_end c)) -> same_tags (hp_mem h) (hp_mem h') c.
Proof.
  intros Hm Hc HP. pose proof (tiles_bounds _ _ _ _ _ _ Ht Hc) as Hb. unfold ck_end in *.
  split; [|intros _]; apply (moves_rd P h h' 4 _ Hm); change (Z.of_nat 4) with 4; intros k Hk HPk;
    (destruct (HP k HPk) as [Hl|Hl]; [destruct (free_links_tags c k Hc Hl)|]; unfold ck_end in *; lia).
Qed.
(** The contents of a block in use. *)
Lemma data_frame P h' c :
  moves P h h' -> c ∈ cs -> ck_used c = true ->
  (forall k, P k -> free_links h F k \/ ~ (ck_addr c + 4 <= k < ck_end c)) ->
  forall k, ck_addr c + 4 <= k < ck_end c -> mem_byte (hp_mem h') k = mem_byte (hp_mem h) k.
Proof.
  intros Hm Hc Hu HP k Hk. destruct (mv_same _ _ _ Hm k) as [HPk|]; [|done].
  destruct (HP k HPk) as [Hl|Hl]; [|lia]. destruct (free_links_used c k Hc Hu Hl). lia.
Qed.
End Links.
