(* ===== verification/EmsAlloc.v ===== *)
(** * Allocation

    [gc_alloc_vo] of [core/shared/mem-alloc/ems/ems_alloc.c]: best fit over
    the lists and the tree, the cut of a chunk that is too large, and what
    the heap is afterwards. *)

From S2P Require Import Prelude Instance Ems EmsHeader EmsTree EmsFree EmsChunks EmsHeap.
#[local] Open Scope Z_scope.
#[local] Open Scope ems_scope.

Section Alloc.
Context `{HeapLayout}.
Abbreviation sent h i := (normal_list i h).

(** ** Finding a chunk *)

Lemma find_normal_run h F L idx fuel :
  layout_ok h -> placed h F -> list_part h F L -> 0 <= idx <= 32 -> 32 - idx <= Z.of_nat fuel ->
  (exists i, find_normal fuel idx h = Ok (Some i, h) /\ idx <= i < 32 /\ L i <> [] /\
     forall j, idx <= j < i -> L j = []) \/
  (find_normal fuel idx h = Ok (None, h) /\ forall j, idx <= j < 32 -> L j = []).
Proof.
  intros HL HF HLp. revert idx. induction fuel as [|fuel IH]; intros idx Hi Hf.
  - right. assert (idx = 32) as -> by lia. split; [done|lia].
  - cbn [find_normal]. change HMU_NORMAL_NODE_CNT with 32. destruct (Z.ltb_spec idx 32); [|right; split; [done|lia]].
    rewrite (ebind_eq (eget _) _ h (sent h idx) h) by done.
    rewrite (ebind_eq _ _ _ _ _ (next_run h _ (zone_in_block h F HL HF _ _ (zone_sent h F idx ltac:(lia))))).
    pose proof (lp_chain _ _ _ HLp idx ltac:(lia)) as Hc. destruct (L idx) as [|x l] eqn:EL; cbn [chain] in Hc.
    + rewrite Hc. cbn [Z.eqb negb]. destruct (IH (idx + 1)) as [(i & E & Hr & Hn & Hj)|[E Hj]]; [lia..| |].
      * left. exists i. split_and!; [done|lia|lia|done|]. intros j Hj'. destruct (decide (j = idx)) as [->|]; [done|].
        apply Hj. lia.
      * right. split; [done|]. intros j Hj'. destruct (decide (j = idx)) as [->|]; [done|]. apply Hj. lia.
    + destruct Hc as [-> _]. assert (Hx : 0 < x).
      { assert (x ∈ L idx) as Hx by (rewrite EL; set_solver). apply (lp_in _ _ _ HLp) in Hx as [Hx _]; [|lia].
        pose proof (zone_bounds h F HL HF _ _ (zone_chunk h F _ _ Hx)). lia. }
      rewrite (proj2 (Z.eqb_neq x 0)) by lia. left. exists idx. split_and!; [done|lia|lia|by rewrite EL|lia].
Qed.

(** The head of a list is unlinked as [unlink_hmu] does it. *)
Lemma unlink_head h F L i x l :
  free_chunks h F -> list_part h F L -> 0 <= i < 32 -> L i = x :: l ->
  unlink_hmu x h = set_hmu_normal_node_next (sent h i) (nxt (hp_mem h) x) h /\
  F !! x = Some (8 * i) /\ nxt (hp_mem h) (sent h i) = x.
Proof.
  intros HFC HLp Hi HLi. pose proof HFC as [HL HF _ _ _ Hh].
  assert (Hx : F !! x = Some (8 * i) /\ 8 * i < 248) by (apply (lp_in _ _ _ HLp); [done|rewrite HLi; set_solver]).
  destruct Hx as [Hx Hs]. pose proof (lp_chain _ _ _ HLp i Hi) as Hc. rewrite HLi in Hc. destruct Hc as [Hc _].
  split; [|done]. pose proof (zone_chunk h F _ _ Hx) as Hzx. pose proof (zone_in_block h F HL HF _ _ Hzx) as [Hi1 Hi2].
  pose proof (pl_in _ _ HF _ _ Hx) as Hb.
  unfold unlink_hmu. rewrite (ebind_eq _ _ _ _ _ (hmu_get_eq x hdr_size h ltac:(unfold inside; lia))), (Hh x _ Hx).
  unfold HMU_IS_FC_NORMAL. change HMU_FC_NORMAL_MAX_SIZE with 248. rewrite (proj2 (Z.ltb_lt _ 248) Hs).
  assert (Z.shiftr (8 * i) 3 = i) as -> by (rewrite Z.shiftr_div_pow2 by lia; change (2 ^ 3) with 8; rewrite Z.mul_comm; apply Z.div_mul; lia).
  rewrite (ebind_eq (eget _) _ h (sent h i) h) by done.
  rewrite (ebind_eq _ _ _ _ _ (next_run h _ (zone_in_block h F HL HF _ _ (zone_sent h F i Hi)))), Hc.
  rewrite (ebind_eq (eget heap_fuel) _ h (heap_fuel h) h) by done.
  assert (exists n, heap_fuel h = S n) as [n ->].
  { unfold heap_fuel, heap_end in *. exists (Nat.pred (Z.to_nat (current_size h))). lia. }
  cbn [unlink_normal]. rewrite (proj2 (Z.eqb_neq x 0)).
  2:{ pose proof (zone_bounds h F HL HF _ _ Hzx). lia. }
  rewrite (ebind_eq _ _ _ _ _ (next_run h x ltac:(unfold inside; lia))), Z.eqb_refl. done.
Qed.

(** The tree: best fit, and the node it removes. *)
Lemma find_best h F t size :
  free_chunks h F -> tree_part h F t ->
  exists r, (elet root := eget kfc_tree_root in
     elet tp := load_ptr (tree_right root) in
     elet fuel := eget heap_fuel in find_tree fuel size tp 0) h = Ok (r, h) /\
    ((r = 0 /\ forall x s, F !! x = Some s -> 248 <= s -> s < size) \/
     (exists s, F !! r = Some s /\ 248 <= s /\ size <= s /\
        forall x s', F !! x = Some s' -> 248 <= s' -> size <= s' -> s <= s')).
Proof.
  intros HFC Ht. pose proof HFC as [HL HF _ _ _ _].
  set (D := kfc_tree_root h :: nodes t).
  assert (HD : forall a, a ∈ D -> a = kfc_tree_root h \/ exists s, F !! a = Some s /\ 248 <= s).
  { intros a [->|Ha]%elem_of_cons; [by left|right]. by apply (tp_in _ _ _ Ht). }
  pose proof (tree_node_set h F HL HF D HD) as Hns.
  pose proof (tree_in_start h F HL HF t Ht) as [[W1 W2] _ _].
  set (sz := fun a => rd 4 (hp_mem h) (a + 4)).
  assert (Hsz : forall x s, F !! x = Some s -> 248 <= s -> sz x = s) by (intros; by apply (tp_size _ _ _ Ht)).
  assert (Hso : sorted_by sz (nodes t)).
  { eapply sorted_by_ext; [|exact (tp_sorted _ _ _ Ht)]. intros a Ha.
    apply (tp_in _ _ _ Ht) in Ha as (m & Ha & Hm). simpl. rewrite lookup_total_alt, Ha. symmetry. by apply Hsz. }
  exists (default 0 (head (filter (fun a => size <= sz a) (nodes t)))). split.
  - rewrite (ebind_eq (eget _) _ h (kfc_tree_root h) h) by done.
    rewrite (ebind_eq _ _ _ _ _ (links_load D h Hns _ h (kfc_tree_root h) 16 (links_start D h) (list_elem_of_here _ _) ltac:(unfold link; lia))).
    change (kfc_tree_root h + 16) with (tree_right (kfc_tree_root h)). rewrite W1.
    rewrite (ebind_eq (eget heap_fuel) _ h (heap_fuel h) h) by done.
    apply (find_run D h sz Hns (fun a _ => eq_refl) _ h t _ size 0 _ (links_start D h) W2); [subst D; set_solver|done|].
    pose proof (tree_length h F HF t Ht). unfold heap_fuel. lia.
  - destruct (filter (fun a => size <= sz a) (nodes t)) as [|r l] eqn:Ef; simpl.
    + left. split; [done|]. intros x s Hx Hs. destruct (Z.lt_ge_cases s size) as [|Hge]; [done|].
      exfalso. eapply (filter_nil_not_elem_of (fun a => size <= sz a)); [exact Ef| |].
      * simpl. rewrite (Hsz x s Hx Hs). exact Hge.
      * apply (tp_in _ _ _ Ht). eauto.
    + right. assert (Hr : r ∈ filter (fun a => size <= sz a) (nodes t)) by (rewrite Ef; set_solver).
      apply list_elem_of_filter in Hr as [Hr1 Hr2]. apply (tp_in _ _ _ Ht) in Hr2 as (s & Hr & Hs).
      exists s. rewrite (Hsz r s Hr Hs) in Hr1. split_and!; [done|done|done|]. intros x s' Hx Hs' Hge.
      assert (Hxf : x ∈ filter (fun a => size <= sz a) (nodes t)).
      { apply list_elem_of_filter. rewrite (Hsz x s' Hx Hs'). split; [done|]. apply (tp_in _ _ _ Ht). eauto. }
      rewrite Ef in Hxf. apply elem_of_cons in Hxf as [->|Hxl]; [rewrite Hr in Hx; injection Hx; lia|].
      assert (Hsf : sorted_by sz (r :: l)).
      { rewrite <- Ef. clear -Hso. unfold sorted_by in *. induction Hso as [|y ys Hys IH Hy]; [constructor|].
        rewrite filter_cons. destruct (decide _); [|done]. apply stdpp.sorting.StronglySorted_cons. split; [|done].
        apply Forall_forall. intros z Hz. apply list_elem_of_filter in Hz as [_ Hz].
        rewrite Forall_forall in Hy. by apply Hy. }
      apply stdpp.sorting.StronglySorted_cons in Hsf as [Hsf _]. rewrite Forall_forall in Hsf. specialize (Hsf x Hxl).
      simpl in Hsf. by rewrite (Hsz r s Hr Hs), (Hsz x s' Hx Hs') in Hsf.
Qed.

(** The tree's size field is not one of the links. *)
Lemma free_links_size h F x s k :
  layout_ok h -> placed h F -> F !! x = Some s -> 248 <= s -> free_links h F k -> ~ (x + 4 <= k < x + 8).
Proof.
  intros HL HF Hx Hs Hk. pose proof (zone_chunk h F x s Hx) as Hz.
  assert (exists b n, zone h F b n /\ 8 <= n /\ b <= k < b + n /\ (b = x -> x + 8 <= k)) as (b & n & Hb & Hn & Hkb & Hbx).
  { destruct Hk as [[(j & Hj & Hk)|(y & m & Hy & Hm & Hk)]|[Hk|(y & m & Hy & Hm & Hk)]].
    - exists (sent h j), 8. split_and!; [by apply zone_sent|lia..|]. intros He.
      pose proof (zone_sent h F j Hj) as Hzs. rewrite He in Hzs. pose proof (zone_same h F HL HF _ _ _ Hzs Hz). lia.
    - exists y, m. pose proof (pl_in _ _ HF _ _ Hy). split_and!; [by apply zone_chunk|lia..|].
      intros ->. rewrite Hx in Hy. injection Hy. lia.
    - exists (kfc_tree_root h), 32. split_and!; [apply zone_root|lia..|]. intros He.
      destruct (root_not_chunk h F HL HF s). by rewrite He.
    - exists y, m. split_and!; [by apply zone_chunk|lia..]. }
  destruct (decide (b = x)) as [->|Hne]; [lia|]. pose proof (zone_apart h F HL HF _ _ _ _ Hb Hz Hne). lia.
Qed.

(** ** The chunk [alloc_hmu] takes *)

Definition wanted (size : Z) : Prop := 16 <= size < 2 ^ 32 /\ size mod 8 = 0.

(** A best fit, taken out of the free chunks. *)
Record picked (h : gc_heap) (F : gmap Z Z) (size p s : Z) (h1 : gc_heap) : Prop := {
  pk_chunk : F !! p = Some s;
  pk_fits : size <= s;
  pk_best : forall x s', F !! x = Some s' -> size <= s' -> s <= s';
  pk_moves : moves (free_links h F) h h1;
  pk_free : free_chunks h1 (delete p F)
}.

Lemma pick_ok h F size :
  free_chunks h F -> wanted size ->
  (alloc_hmu size h = Ok (0, h) /\ forall x s, F !! x = Some s -> s < size) \/
  (exists p s h1, alloc_hmu size h = take_chunk p s size (size + 16 <=? s) h1 /\ picked h F size p s h1).
Proof.
  intros HFC [Hsz Hsm]. pose proof HFC as [HL HF _ [L HLp] [t Ht] _].
  assert (Hcap : forall x s, F !! x = Some s -> s < 2 ^ 30).
  { intros x s Hx. pose proof (pl_in _ _ HF _ _ Hx). destruct HL. unfold heap_end in *. lia. }
  assert (Hi : size = 8 * Z.shiftr size 3).
  { rewrite Z.shiftr_div_pow2 by lia. change (2 ^ 3) with 8. apply Z.div_exact; lia. }
  set (init := Z.shiftr size 3) in *.
  assert (Hw : forall s, s < 2 ^ 30 -> size <= s -> u32 (size + GC_SMALLEST_SIZE) = size + 16).
  { intros s Hs1 Hs2. change GC_SMALLEST_SIZE with 16. apply uwrap_id. unfold in_u. lia. }
  (* the tree, when the lists have nothing *)
  assert (Htree : (forall x s, F !! x = Some s -> s < 248 -> s < size) ->
    alloc_hmu size h = (elet root := eget kfc_tree_root in
      elet tp := load_ptr (tree_right root) in
      elet fuel := eget heap_fuel in
      elet last_tp := find_tree fuel size tp 0 in
      if last_tp =? 0 then eret 0 else
      edo remove_tree_node 2 last_tp in
      elet tsize := load32 (tree_size last_tp) in
      take_chunk last_tp tsize size (u32 (size + GC_SMALLEST_SIZE) <=? tsize)) h ->
    (alloc_hmu size h = Ok (0, h) /\ forall x s, F !! x = Some s -> s < size) \/
    (exists p s h1, alloc_hmu size h = take_chunk p s size (size + 16 <=? s) h1 /\ picked h F size p s h1)).
  { intros Hlists ->. destruct (find_best h F t size HFC Ht) as (r & Ef & Hr).
    assert (Hgo : forall k : Z -> E Z, (elet root := eget kfc_tree_root in
        elet tp := load_ptr (tree_right root) in
        elet fuel := eget heap_fuel in elet last_tp := find_tree fuel size tp 0 in k last_tp) h = k r h).
    { intros k. revert Ef. unfold ebind, eget. destruct (load_ptr _ h) as [[tp h']| |]; [|done..].
      intros Ef. by rewrite Ef. }
    rewrite Hgo. destruct Hr as [[-> Hno]|(s & Hr & Hs & Hfit & Hbest)].
    - left. split; [done|]. intros x s Hx. destruct (Z.lt_ge_cases s 248); [by eapply Hlists|by eapply Hno].
    - right. pose proof (zone_bounds h F HL HF _ _ (zone_chunk h F r s Hr)) as Hb.
      rewrite (proj2 (Z.eqb_neq r 0)) by lia.
      assert (Hin : inside h r s) by (by apply (zone_in_block h F HL HF), zone_chunk).
      destruct (unlink_ok h F r s HFC Hr) as (h1 & E1 & Hm1 & Hf1). unfold unlink_hmu in E1.
      rewrite (ebind_eq _ _ _ _ _ (hmu_get_eq r hdr_size h ltac:(unfold inside in *; lia))), (fc_hdr _ _ HFC r s Hr) in E1.
      unfold HMU_IS_FC_NORMAL in E1. change HMU_FC_NORMAL_MAX_SIZE with 248 in E1.
      rewrite (proj2 (Z.ltb_ge s 248) Hs) in E1. rewrite (ebind_eq _ _ _ _ _ E1).
      assert (Es : rd 4 (hp_mem h1) (tree_size r) = s).
      { rewrite (moves_rd _ _ _ 4 _ Hm1); [by apply (tp_size _ _ _ Ht)|]. intros k Hk Hlk.
        apply (free_links_size h F r s k HL HF Hr Hs Hlk). unfold tree_size in *. lia. }
      rewrite (ebind_eq _ _ _ _ _ (load_eq 4 (tree_size r) h1 ltac:(eapply moves_inside; [exact Hm1|]; unfold inside, tree_size in *; lia))), Es.
      exists r, s, h1. rewrite (Hw s) by (by eapply Hcap || done). split; [done|]. split; try done.
      intros x s' Hx Hs'. destruct (Z.lt_ge_cases s' 248); [|by eapply Hbest].
      pose proof (Hlists x s' Hx ltac:(done)). lia. }
  unfold alloc_hmu in *. change GC_SMALLEST_SIZE with 16 in *.
  rewrite (proj2 (Z.ltb_ge size 16)) in * by lia. fold init in Htree |- *.
  unfold HMU_IS_FC_NORMAL in *. change HMU_FC_NORMAL_MAX_SIZE with 248 in *.
  destruct (Z.ltb_spec size 248) as [Hlt|Hge].
  2:{ apply Htree; [intros; lia|]. done. }
  assert (Hinit : 0 <= init <= 32) by lia.
  destruct (find_normal_run h F L init 32 HL HF HLp Hinit) as [(i & E & Hir & Hne & Hempty)|[E Hempty]]; [lia| |].
  - right. rewrite (ebind_eq _ _ _ _ _ E). destruct (L i) as [|p l] eqn:ELi; [done|].
    destruct (unlink_head h F L i p l HFC HLp ltac:(lia) ELi) as (Eu & Hp & Hn).
    destruct (unlink_ok h F p _ HFC Hp) as (h1 & E1 & Hm1 & Hf1). rewrite E1 in Eu.
    rewrite (ebind_eq (eget _) _ h (sent h i) h) by done.
    rewrite (ebind_eq _ _ _ _ _ (next_run h _ (zone_in_block h F HL HF _ _ (zone_sent h F i ltac:(lia))))), Hn.
    rewrite (ebind_eq _ _ _ _ _ (next_run h p ltac:(pose proof (zone_in_block h F HL HF _ _ (zone_chunk h F _ _ Hp)); unfold inside in *; lia))).
    rewrite (ebind_eq _ _ _ _ _ (eq_sym Eu)).
    assert (Z.shiftl i 3 = 8 * i) as -> by (rewrite Z.shiftl_mul_pow2 by lia; lia).
    exists p, (8 * i), h1. split.
    + f_equal. pose proof (Hw (8 * i) (Hcap p _ Hp) ltac:(lia)) as Hw'. rewrite Hw'.
      destruct (Z.eqb_spec i init) as [->|]; [|done]. cbn [negb andb]. symmetry. apply Z.leb_gt. lia.
    + split; try done; [lia|]. intros x s' Hx Hs'. destruct (Z.lt_ge_cases s' 248) as [Hs248|]; [|].
      * pose proof (pl_in _ _ HF _ _ Hx) as (_ & _ & _ & Hm8).
        assert (Hs8 : s' = 8 * (s' / 8)) by (apply Z.div_exact; lia). destruct (Z.lt_ge_cases (s' / 8) i) as [Hlt'|]; [|lia].
        assert (x ∈ L (s' / 8)) as Hin by (apply (lp_in _ _ _ HLp); [lia|]; rewrite <- Hs8; done).
        rewrite Hempty in Hin by lia. by apply elem_of_nil in Hin.
      * assert (8 * i < 248) by (apply (lp_in _ _ _ HLp i p); [lia|rewrite ELi; apply list_elem_of_here]). lia.
  - apply Htree.
    + intros x s Hx Hs. pose proof (pl_in _ _ HF _ _ Hx) as (_ & _ & _ & Hm8).
      assert (Hs8 : s = 8 * (s / 8)) by (apply Z.div_exact; lia). destruct (Z.lt_ge_cases s size) as [|Hge]; [done|].
      assert (x ∈ L (s / 8)) as Hin by (apply (lp_in _ _ _ HLp); [lia|]; rewrite <- Hs8; done).
      rewrite Hempty in Hin by lia. by apply elem_of_nil in Hin.
    + by rewrite (ebind_eq _ _ _ _ _ E).
Qed.

(** ** Cutting it *)

Lemma account_alloc_eq size h :
  0 <= size <= total_free_size h -> total_free_size h <= current_size h -> current_size h < 2 ^ 32 ->
  account_alloc size h =
    Ok (tt, hp_set_sizes (Z.max (highmark_size h) (current_size h - (total_free_size h - size)))
              (total_free_size h - size) h).
Proof.
  intros H1 H2 H3. unfold account_alloc, emod.
  assert (u32 (total_free_size h - size) = total_free_size h - size) as -> by (apply uwrap_id; unfold in_u; lia).
  assert (u32 (current_size h - (total_free_size h - size)) = current_size h - (total_free_size h - size)) as ->
    by (apply uwrap_id; unfold in_u; lia).
  do 3 f_equal. destruct (Z.ltb_spec (highmark_size h) (current_size h - (total_free_size h - size))); lia.
Qed.

Section Take.
Context (h : gc_heap) (F : gmap Z Z) (size p s : Z) (h1 : gc_heap) (pre post : list chunk).
Hypothesis Hok : heap_ok h (pre ++ Chunk p s false :: post).
Hypothesis HFC : free_chunks h F.
Hypothesis HF : frees (pre ++ Chunk p s false :: post) F.
Hypothesis Hpk : picked h F size p s h1.
Hypothesis Hw : wanted size.

(** What a cut changes: links, the chunk, the header behind it. *)
Definition taken (k : Z) : Prop := free_links h F k \/ p <= k < p + s \/ (p + s <= k < p + s + 4 /\ post <> []).

Lemma take_facts :
  tiles (hp_mem h) (heap_end h) (base_addr h) (pre ++ Chunk p s false :: post) (heap_end h) true /\
  chunk_ok (hp_mem h) (heap_end h) (last_used true pre) (Chunk p s false) /\
  tiles (hp_mem h) (heap_end h) (p + s) post (heap_end h) false /\ last_used true pre = true /\
  base_addr h <= p /\ p + s <= heap_end h /\ 16 <= s /\ s < 2 ^ 30 /\ s mod 8 = 0.
Proof using All.
  pose proof (ok_tiles _ _ Hok) as Ht. pose proof Ht as Ht'. apply tiles_app in Ht' as [_ (Ha & Hc & Hp)].
  simpl in Ha. cbn [ck_size ck_used] in Hp. rewrite <- Ha in Hp.
  assert (Chunk p s false ∈ (pre ++ Chunk p s false :: post)%list) as Hin by set_solver.
  pose proof (tiles_bounds _ _ _ _ _ _ Ht Hin) as Hb. unfold ck_end in Hb. simpl in Hb.
  pose proof (fc_layout _ _ HFC) as []. unfold heap_end in *.
  pose proof (co_merged _ _ _ _ Hc) as Hm. simpl in Hm. rewrite orb_false_r in Hm.
  split_and!; try done; lia.
Qed.

Lemma take_split :
  size + 16 <= s ->
  exists h3, (edo gci_add_fc (p + size) (u32 (s - size)) in
      edo hmu_upd (p + size) hdr_mark_pinuse in eret size) h1 = Ok (size, h3) /\
    moves taken h h3 /\ rd 4 (hp_mem h3) p = rd 4 (hp_mem h) p /\
    tiles (hp_mem h3) (heap_end h) (p + size) (Chunk (p + size) (s - size) false :: post) (heap_end h) true /\
    free_chunks h3 (<[p + size := s - size]> (delete p F)).
Proof using All.
  intros Hs. destruct take_facts as (Ht & Hc & Htp & Hpu & Hb1 & Hb2 & _ & Hs30 & Hsm).
  destruct Hpk as [Hp _ _ Hm1 Hf1]. destruct Hw as [Hw1 Hw2].
  assert (u32 (s - size) = s - size) as -> by (apply uwrap_id; unfold in_u; lia).
  assert (Hcut : (s - size) mod 8 = 0) by (rewrite Zminus_mod, Hsm, Hw2; done).
  pose proof (fc_placed _ _ HFC) as HFp. pose proof (fc_placed _ _ Hf1) as HFp1.
  assert (Hend : forall g, moves (free_links h F) h g -> base_addr g = base_addr h /\ heap_end g = heap_end h)
    by (intros g Hg; by rewrite (mv_heap _ _ _ Hg)).
  destruct (Hend h1 Hm1) as [Hbase1 Hend1].
  assert (Hfar : forall y m, delete p F !! y = Some m -> y + m <= p \/ p + s <= y).
  { intros y m Hy. apply lookup_delete_Some in Hy as [Hne Hy].
    by apply (pl_disj _ _ HFp y p m s Hy Hp). }
  assert (Hfresh : delete p F !! (p + size) = None).
  { destruct (delete p F !! (p + size)) as [m|] eqn:Ey; [|done]. pose proof (pl_in _ _ HFp1 _ _ Ey). specialize (Hfar _ _ Ey). lia. }
  assert (Hpl : placed h1 (<[p + size := s - size]> (delete p F))).
  { split.
    - intros y m. destruct (decide (y = p + size)) as [->|Hne].
      + rewrite lookup_insert_eq. intros [= <-]. split_and!; [lia..|done].
      + rewrite lookup_insert_ne by done. apply (pl_in _ _ HFp1).
    - intros y z m m'. destruct (decide (y = p + size)) as [->|Hy], (decide (z = p + size)) as [->|Hz];
        rewrite ?lookup_insert_eq, ?lookup_insert_ne by done; [done|..].
      + intros [= <-] Hz'%Hfar _. lia.
      + intros Hy'%Hfar [= <-] _. lia.
      + by apply (pl_disj _ _ HFp1). }
  destruct (add_ok h1 _ _ _ Hf1 Hfresh Hpl) as (h2 & E2 & Hm2 & Hf2 & Hh2 & Hft2).
  rewrite (ebind_eq _ _ _ _ _ E2).
  assert (Hin2 : inside h2 (p + size) 4).
  { eapply moves_inside; [exact Hm2|]. eapply moves_inside; [exact Hm1|].
    pose proof (zone_in_block h F (fc_layout _ _ HFC) HFp _ _ (zone_chunk h F _ _ Hp)). unfold inside in *. lia. }
  rewrite (ebind_eq _ _ _ _ _ (hmu_upd_eq _ _ _ Hin2)).
  set (h3 := hp_set_mem _ h2). exists h3.
  assert (Hm3 : moves (fun k => p + size <= k < p + size + 4) h2 h3) by (apply moves_store; intros; lia).
  assert (Hm13 : moves taken h h3).
  { eapply moves_trans; [eapply moves_weaken; [|exact Hm1]; intros k Hk; by left|].
    eapply moves_trans; [eapply moves_weaken; [|exact Hm2]|eapply moves_weaken; [|exact Hm3]].
    - intros k [Hk|Hk]; [left|right; left; lia]. eapply free_links_sub; [exact Hm1|apply delete_subseteq|exact Hk].
    - intros k Hk. cbn beta in Hk. right. left. lia. }
  split_and!; [done|done|..].
  - rewrite (moves_rd _ _ _ 4 p Hm3) by lia. rewrite (moves_rd _ _ _ 4 p Hm2).
    + apply (moves_rd _ _ _ 4 p Hm1). intros k Hk Hl.
      destruct (free_links_tags h _ F Ht (fc_layout _ _ HFC) HF (Chunk p s false) k); [set_solver|done|]. simpl in *. lia.
    + intros k Hk [Hl|Hl]; [|lia].
      pose proof (free_links_sub _ _ _ _ _ _ Hm1 (delete_subseteq _ _) Hl) as Hl'.
      destruct (free_links_tags h _ F Ht (fc_layout _ _ HFC) HF (Chunk p s false) k); [set_solver|done|]. simpl in *. lia.
  - assert (Hrh : rd 4 (hp_mem h3) (p + size) = hdr_mark_pinuse (fc_header (rd 4 (hp_mem h1) (p + size)) (s - size))).
    { subst h3. simpl. rewrite rd_wr_eq, Hh2. apply uwrap_id.
      apply in_u_mark. rewrite <- Hh2. apply (rd_range 4), (fc_bytes _ _ Hf2). }
    assert (Hcs : chunk_size (s - size)) by (unfold chunk_size; split; [lia|done]).
    cbn [tiles ck_addr ck_size ck_used]. split_and!; [done| |].
    + split; cbn [ck_addr ck_size ck_used]; rewrite ?Hrh; [lia|done|..]; unfold fc_header.
      * rewrite size_mark. by apply size_set_size.
      * rewrite ut_mark, ut_set_size by done. by apply ut_set_ut.
      * apply pinuse_mark.
      * done.
      * intros _ _. unfold ck_end. cbn [ck_addr ck_size]. rewrite (moves_rd _ _ _ 4 _ Hm3); [exact Hft2|].
        change (Z.of_nat 4) with 4. intros k Hk. lia.
      * done.
    + replace (p + size + (s - size)) with (p + s) by lia. eapply tiles_frame; [|exact Htp].
      intros c Hc'. assert (c ∈ (pre ++ Chunk p s false :: post)%list) as Hin by set_solver.
      apply (tags_frame h _ F Ht (fc_layout _ _ HFC) HF (fun k => free_links h F k \/ p <= k < p + s) h3); [|done|].
      * eapply moves_trans; [eapply moves_weaken; [|exact Hm1]; intros k Hk; by left|].
        eapply moves_trans; [eapply moves_weaken; [|exact Hm2]|eapply moves_weaken; [|exact Hm3]].
        -- intros k [Hk|Hk]; [left|right; lia]. eapply free_links_sub; [exact Hm1|apply delete_subseteq|exact Hk].
        -- intros k Hk. cbn beta in Hk. right. lia.
      * intros k [Hk|Hk]; [by left|right]. pose proof (tiles_bounds _ _ _ _ _ _ Htp Hc'). lia.
  - assert (Hcs : chunk_size (s - size)) by (unfold chunk_size; split; [lia|done]).
    apply header_write; [done| |].
    + assert (base_addr h2 = base_addr h) as -> by (rewrite (mv_heap _ _ _ Hm2); exact Hbase1). lia.
    + intros y m. rewrite Hh2. destruct (decide (y = p + size)) as [->|Hne].
      * rewrite lookup_insert_eq. intros [= <-]. left. split; [done|].
        rewrite uwrap_id.
        -- rewrite size_mark. by apply size_set_size.
        -- apply in_u_mark. rewrite <- Hh2. apply (rd_range 4), (fc_bytes _ _ Hf2).
      * rewrite lookup_insert_ne by done. intros Hy%Hfar. right. lia.
Qed.

Lemma is_in_heap_eq g a : hmu_is_in_heap a g = Ok ((base_addr g <=? a) && (a <? heap_end g), g).
Proof. done. Qed.

Lemma pick_keeps_header : rd 4 (hp_mem h1) p = rd 4 (hp_mem h) p.
Proof using All.
  destruct take_facts as (Ht & _). destruct Hpk as [_ _ _ Hm1 _].
  apply (moves_rd _ _ _ 4 p Hm1). intros k Hk Hl.
  destruct (free_links_tags h _ F Ht (fc_layout _ _ HFC) HF (Chunk p s false) k); [set_solver|done|]. simpl in *. lia.
Qed.
(** The chunks behind, after a change of links. *)
Lemma pick_keeps_post : forall d, d ∈ post -> same_tags (hp_mem h) (hp_mem h1) d.
Proof using All.
  destruct take_facts as (Ht & _). destruct Hpk as [_ _ _ Hm1 _]. intros d Hd.
  apply (tags_frame h _ F Ht (fc_layout _ _ HFC) HF _ _ _ Hm1); [set_solver|]. intros k Hk. by left.
Qed.

Lemma take_whole :
  exists h3, (elet b := hmu_is_in_heap (p + s) in
      edo (if b then hmu_upd (p + s) hdr_mark_pinuse else eret tt) in eret s) h1 = Ok (s, h3) /\
    moves taken h h3 /\ rd 4 (hp_mem h3) p = rd 4 (hp_mem h) p /\
    tiles (hp_mem h3) (heap_end h) (p + s) post (heap_end h) true /\ free_chunks h3 (delete p F).
Proof using All.
  destruct take_facts as (Ht & Hc & Htp & Hpu & Hb1 & Hb2 & H16 & Hs30 & Hsm).
  pose proof pick_keeps_header as Hkh. pose proof pick_keeps_post as Hkp.
  destruct Hpk as [Hp _ _ Hm1 Hf1]. pose proof (fc_placed _ _ HFC) as HFp.
  assert (base_addr h1 = base_addr h /\ heap_end h1 = heap_end h) as [Hbase Hend]
    by (by rewrite (mv_heap _ _ _ Hm1)).
  rewrite (ebind_eq _ _ _ _ _ (is_in_heap_eq h1 (p + s))), Hbase, Hend.
  rewrite (proj2 (Z.leb_le _ _)) by lia. cbn [andb].
  assert (Hm1' : moves taken h h1) by (eapply moves_weaken; [|exact Hm1]; intros k Hk; by left).
  destruct post as [|d post'] eqn:Epost.
  - cbn [tiles] in Htp. rewrite (proj2 (Z.ltb_ge _ _)) by lia.
    exists h1. split_and!; done.
  - pose proof Htp as (Hda & Hdok & _).
    pose proof (tiles_bounds _ _ _ _ _ d Htp ltac:(set_solver)) as Hdb. unfold ck_end in Hdb.
    pose proof (co_merged _ _ _ _ Hdok) as Hdu. simpl in Hdu.
    rewrite (proj2 (Z.ltb_lt _ _)) by lia.
    assert (Hin : inside h1 (p + s) 4).
    { eapply moves_inside; [exact Hm1|]. destruct (fc_layout _ _ HFC). unfold inside, heap_end in *. lia. }
    rewrite (ebind_eq _ _ _ _ _ (hmu_upd_eq _ _ _ Hin)). set (h3 := hp_set_mem _ h1). exists h3.
    assert (Hm3 : moves (fun k => p + s <= k < p + s + 4) h1 h3) by (apply moves_store; intros; lia).
    assert (Hv : in_u 32 (hdr_mark_pinuse (rd 4 (hp_mem h1) (p + s))))
      by (apply in_u_mark, (rd_range 4), (fc_bytes _ _ Hf1)).
    assert (Hd1 : rd 4 (hp_mem h1) (ck_addr d) = rd 4 (hp_mem h) (ck_addr d)) by (apply Hkp; set_solver).
    split_and!; [done| | | |].
    + eapply moves_trans; [exact Hm1'|]. eapply moves_weaken; [|exact Hm3]. intros k Hk. cbn beta in Hk. unfold taken.
      rewrite Epost. right. right. done.
    + rewrite (moves_rd _ _ _ 4 p Hm3); [done|]. change (Z.of_nat 4) with 4. intros k Hk. lia.
    + eapply (tiles_first (hp_mem h)); [..|exact Htp].
      * rewrite Hda. subst h3. simpl. rewrite rd_wr_eq.
        change (8 * Z.of_nat 4) with 32. rewrite (uwrap_id _ _ Hv), <- Hda. by rewrite Hd1.
      * done.
      * intros c Hc'. destruct (Hkp c) as [Hk1 Hk2]; [set_solver|].
        destruct Htp as (_ & _ & Htp'). pose proof (tiles_bounds _ _ _ _ _ _ Htp' Hc') as Hcb. unfold ck_end in *.
        split; [rewrite <- Hk1|intros Hcu; unfold ck_end; rewrite <- Hk2 by done];
          apply (moves_rd _ _ _ 4 _ Hm3); change (Z.of_nat 4) with 4; intros k Hk; unfold ck_end in *; lia.
    + apply header_write; [done|lia|]. intros y m Hy. right. apply lookup_delete_Some in Hy as [_ Hy].
      pose proof Hy as Hy'. apply HF in Hy'.
      assert (Hdin : d ∈ (pre ++ Chunk p s false :: d :: post')%list) by set_solver.
      destruct (tiles_apart _ _ _ _ _ _ _ Ht Hy' Hdin) as [He|Hapart].
      * rewrite <- He in Hdu. done.
      * unfold ck_end in Hapart. simpl in Hapart. lia.
Qed.

(** Both together: [take_chunk]. *)
Lemma take_ok :
  exists size' rest F' h3,
    take_chunk p s size (size + 16 <=? s) h1 =
      Ok (p, hp_set_sizes (Z.max (highmark_size h) (current_size h - (total_free_size h - size')))
               (total_free_size h - size') h3) /\
    (size + 16 <= s /\ size' = size /\ rest = [Chunk (p + size) (s - size) false] \/
     s < size + 16 /\ size' = s /\ rest = []) /\
    size <= size' <= s /\ size' mod 8 = 0 /\
    moves taken h h3 /\ rd 4 (hp_mem h3) p = hdr_set_size (rd 4 (hp_mem h) p) size' /\
    tiles (hp_mem h3) (heap_end h) (p + size') (rest ++ post) (heap_end h) true /\
    free_chunks h3 F' /\ frees (pre ++ Chunk p size' true :: rest ++ post) F'.
Proof using All.
  destruct take_facts as (Ht & Hc & Htp & Hpu & Hb1 & Hb2 & H16 & Hs30 & Hsm).
  pose proof Hw as [Hw1 Hw2]. pose proof (pk_fits _ _ _ _ _ _ Hpk) as Hfit.
  assert (exists size' rest F' h2,
    (if size + 16 <=? s then
       let rest := p + size in
       edo gci_add_fc rest (u32 (s - size)) in edo hmu_upd rest hdr_mark_pinuse in eret size
     else
       let next := p + s in
       elet b := hmu_is_in_heap next in
       edo (if b then hmu_upd next hdr_mark_pinuse else eret tt) in eret s) h1 = Ok (size', h2) /\
    (size + 16 <= s /\ size' = size /\ rest = [Chunk (p + size) (s - size) false] \/
     s < size + 16 /\ size' = s /\ rest = []) /\
    size <= size' <= s /\ size' mod 8 = 0 /\
    moves taken h h2 /\ rd 4 (hp_mem h2) p = rd 4 (hp_mem h) p /\
    tiles (hp_mem h2) (heap_end h) (p + size') (rest ++ post) (heap_end h) true /\
    free_chunks h2 F' /\ frees (pre ++ Chunk p size' true :: rest ++ post) F')
    as (size' & rest & F' & h2 & E & Hcase & Hsz & Hsz8 & Hm & Hr & Htl & Hf & Hfr).
  { destruct (Z.leb_spec (size + 16) s) as [Hle|Hgt].
    - destruct (take_split Hle) as (h2 & E & Hm & Hr & Htl & Hf).
      exists size, [Chunk (p + size) (s - size) false], (<[p + size := s - size]> (delete p F)), h2.
      split_and!; try done; [by left; split_and!|lia..|]. eapply (frees_new (pre ++ Chunk p size true :: post)); [|clear; solve_Permutation|eapply (frees_use _ _ _ _ p s size), HF; exact Ht].
      intros n' Hin. assert (Hin' : Chunk (p + size) n' false ∈ (pre ++ Chunk p s false :: post)%list).
      { rewrite elem_of_app, elem_of_cons in Hin |- *. destruct Hin as [?|[[=]|?]]; auto. }
      assert (Hpin : Chunk p s false ∈ (pre ++ Chunk p s false :: post)%list) by (clear; set_solver).
      destruct (tiles_apart _ _ _ _ _ _ _ Ht Hin' Hpin) as [He|Ha].
      + injection He. lia.
      + pose proof (tiles_bounds _ _ _ _ _ _ Ht Hin') as Hbn. unfold ck_end in *. simpl in *. lia.
    - destruct take_whole as (h2 & E & Hm & Hr & Htl & Hf). exists s, [], (delete p F), h2.
      split_and!; try done; [right; split_and!; [lia|done..]|lia..|]. eapply frees_use; [exact Ht|exact HF]. }
  unfold take_chunk. rewrite (ebind_eq _ _ _ _ _ E).
  pose proof (ok_total _ _ Hok) as Htot. rewrite free_total_app in Htot. cbn [free_total foldr ck_used ck_size] in Htot.
  pose proof Ht as Ht'. apply tiles_app in Ht' as [Htpre _].
  pose proof (free_total_bounds _ _ _ _ _ Htpre) as Hfp. pose proof (free_total_bounds _ _ _ _ _ Htp) as Hfq.
  fold (free_total post) in Htot.
  destruct (tiles_around _ _ _ _ _ _ _ Ht) as (Hpe & _). simpl in Hpe.
  assert (Hcs : current_size h2 = current_size h /\ total_free_size h2 = total_free_size h /\
            highmark_size h2 = highmark_size h) by (by rewrite (mv_heap _ _ _ Hm)).
  destruct Hcs as (Hcs1 & Hcs2 & Hcs3). pose proof (lo_cur _ (fc_layout _ _ HFC)) as Hcur.
  rewrite (ebind_eq _ _ _ _ _ (account_alloc_eq size' h2 ltac:(unfold heap_end in *; lia)
     ltac:(unfold heap_end in *; lia) ltac:(lia))), Hcs1, Hcs2, Hcs3.
  set (hi := Z.max _ _). set (fr := total_free_size h - size').
  assert (Hin : inside (hp_set_sizes hi fr h2) p 4).
  { assert (Hi : inside h2 p 4); [|exact Hi]. eapply moves_inside; [exact Hm|].
    destruct (fc_layout _ _ HFC). unfold inside, heap_end in *. lia. }
  rewrite (ebind_eq _ _ _ _ _ (hmu_upd_eq _ _ _ Hin)).
  set (h3 := hp_set_mem (wr 4 (hp_mem h2) p (hdr_set_size (rd 4 (hp_mem h2) p) size')) h2).
  assert (Hm3 : moves (fun k => p <= k < p + 4) h2 h3) by (apply moves_store; intros; lia).
  exists size', rest, F', h3. split_and!; [done|done|lia|lia|done| | | |..].
  - eapply moves_trans; [exact Hm|]. eapply moves_weaken; [|exact Hm3]. intros k Hk. cbn beta in Hk.
    right. left. lia.
  - subst h3. simpl. rewrite rd_wr_eq, Hr. apply uwrap_id. apply in_u_set_size; [apply (rd_range 4), HFC|].
    unfold chunk_size. split; [lia|done].
  - eapply tiles_frame; [|exact Htl]. intros c Hc'. pose proof (tiles_bounds _ _ _ _ _ _ Htl Hc') as Hcb. unfold ck_end in *.
    split; [|intros _]; apply (moves_rd _ _ _ 4 _ Hm3); change (Z.of_nat 4) with 4; intros k Hk; unfold ck_end in *; lia.
  - apply header_write; [done| |].
    + assert (base_addr h2 = base_addr h) as -> by (by rewrite (mv_heap _ _ _ Hm)). lia.
    + intros y m Hy. right. apply Hfr in Hy.
      rewrite elem_of_app, elem_of_cons in Hy. destruct Hy as [Hy|[[=]|Hy]].
      * destruct (tiles_around _ _ _ _ _ _ _ Ht) as (_ & Hpre & _). specialize (Hpre _ Hy). unfold ck_end in Hpre. simpl in Hpre. lia.
      * pose proof (tiles_bounds _ _ _ _ _ _ Htl Hy) as Hyb. simpl in Hyb. lia.
  - done.
Qed.
End Take.

(** ** The whole allocation *)

(** Bytes a block for [n] takes, header included. *)
Definition request (n : Z) : Z := Z.max 16 (8 * ((n + 11) / 8)).

Lemma GC_ALIGN_8_eq s : GC_ALIGN_8 s = 8 * (u32 (s + 7) / 8).
Proof.
  unfold GC_ALIGN_8. set (v := u32 (s + 7)). assert (Hv : in_u 32 v) by (apply uwrap_range; lia).
  replace (8 * (v / 8)) with (Z.shiftl (Z.shiftr v 3) 3)
    by (rewrite Z.shiftl_mul_pow2, Z.shiftr_div_pow2 by lia; change (2 ^ 3) with 8; lia).
  apply Z_bits_eq. intros i Hi. rewrite Z.land_spec, uwrap_testbit by lia.
  rewrite Z.shiftl_spec by lia. rewrite Z.lnot_spec by lia. change 7 with (Z.ones 3).
  destruct (Z.lt_ge_cases i 3).
  - rewrite Z.ones_spec_low by lia. rewrite (Z.testbit_neg_r _ (i - 3)) by lia. by rewrite !andb_false_r.
  - rewrite Z.ones_spec_high, Z.shiftr_spec by lia. cbn [negb]. rewrite andb_true_r.
    replace (i - 3 + 3) with i by lia. zcmp; [by rewrite andb_true_r|].
    by rewrite (in_u_testbit 32 v i) by (done || lia).
Qed.

(** The total size [gc_alloc_vo] computes: too large a request wraps. *)
Lemma tot_size_cases n :
  0 <= n < 2 ^ 32 ->
  let t := GC_ALIGN_8 (u32 (HMU_SIZE + n)) in
  (t < n /\ 2 ^ 32 - 16 <= n) \/
  (n + 4 <= t < n + 12 /\ u32 (HMU_SIZE + n) = n + 4 /\ t mod 8 = 0 /\ t < 2 ^ 32 /\ request n = Z.max 16 t /\
     t = 8 * ((n + 11) / 8)).
Proof.
  intros Hn. cbn zeta. rewrite GC_ALIGN_8_eq. change HMU_SIZE with 4.
  destruct (Z.lt_ge_cases (n + 11) (2 ^ 32)) as [Hlt|Hge].
  - right. rewrite (uwrap_id 32 (4 + n)) by (unfold in_u; lia).
    rewrite (uwrap_id 32 (4 + n + 7)) by (unfold in_u; lia).
    replace (4 + n + 7) with (n + 11) by lia.
    pose proof (Z.div_mod (n + 11) 8 ltac:(lia)). pose proof (Z.mod_pos_bound (n + 11) 8 ltac:(lia)).
    split_and!; [lia|lia|lia| |lia|done|done]. rewrite Z.mul_comm. apply Z.mod_mul. lia.
  - left. split; [|lia].
    assert (Hu : 0 <= u32 (u32 (4 + n) + 7) < 16).
    { rewrite uwrap_add_l. unfold uwrap. replace (4 + n + 7) with ((n + 11 - 2 ^ 32) + 1 * 2 ^ 32) by lia.
      rewrite Z.mod_add, Z.mod_small by lia. lia. }
    assert (u32 (u32 (4 + n) + 7) / 8 < 2) by (apply Z.div_lt_upper_bound; lia). lia.
Qed.

(** What one allocation may do to a sequence of chunks. *)
Definition best_fit (cs : list chunk) (size s : Z) : Prop :=
  size <= s /\ forall c, c ∈ cs -> ck_used c = false -> size <= ck_size c -> s <= ck_size c.
Inductive alloc_step (cs : list chunk) (n : Z) : list chunk -> Z -> Prop :=
| alloc_none :
    (forall c, c ∈ cs -> ck_used c = false -> ck_size c < request n) -> alloc_step cs n cs 0
| alloc_cut pre p s post :
    cs = (pre ++ Chunk p s false :: post)%list -> best_fit cs (request n) s -> request n + 16 <= s ->
    alloc_step cs n (pre ++ Chunk p (request n) true :: Chunk (p + request n) (s - request n) false :: post)
      (p + 4)
| alloc_whole pre p s post :
    cs = (pre ++ Chunk p s false :: post)%list -> best_fit cs (request n) s -> s < request n + 16 ->
    alloc_step cs n (pre ++ Chunk p s true :: post) (p + 4).

(** The contents of the blocks in use. *)
Definition same_contents (cs : list chunk) (m m' : gmap Z Z) : Prop :=
  forall c k, c ∈ cs -> ck_used c = true -> ck_addr c + 4 <= k < ck_end c -> mem_byte m' k = mem_byte m k.

Section Finish.
Context (h : gc_heap) (F : gmap Z Z) (n p s : Z) (pre post : list chunk).
Hypothesis Hok : heap_ok h (pre ++ Chunk p s false :: post).
Hypothesis HFC : free_chunks h F.
Hypothesis HF : frees (pre ++ Chunk p s false :: post) F.

(** [taken] leaves the blocks in use alone. *)
Lemma taken_contents h' :
  moves (taken h F p s post) h h' -> same_contents (pre ++ Chunk p s false :: post) (hp_mem h) (hp_mem h').
Proof using All.
  intros Hm c k Hc Hu. pose proof (ok_tiles _ _ Hok) as Ht.
  assert (Hp : Chunk p s false ∈ (pre ++ Chunk p s false :: post)%list) by set_solver.
  apply (data_frame h _ F Ht (fc_layout _ _ HFC) HF _ _ _ Hm Hc Hu).
  intros j [Hj|[Hj|[Hj Hpost]]]; [by left|right..].
  - destruct (tiles_apart _ _ _ _ _ _ _ Ht Hc Hp) as [->|]; [done|]. unfold ck_end in *. simpl in *. lia.
  - destruct (tiles_apart _ _ _ _ _ _ _ Ht Hc Hp) as [->|]; [done|].
    destruct post as [|d post']; [done|]. pose proof Ht as Ht'. apply tiles_app in Ht' as [_ (Hpa & _ & Hda & _)].
    simpl in Hpa, Hda. assert (Hd : d ∈ (pre ++ Chunk p s false :: d :: post')%list) by set_solver.
    pose proof (tiles_bounds _ _ _ _ _ _ Ht Hd). unfold ck_end in *.
    destruct (tiles_apart _ _ _ _ _ _ _ Ht Hc Hd) as [->|]; unfold ck_end in *; simpl in *; lia.
Qed.

(** Turning the chunk taken into a block: header, and the bytes the
    alignment added. *)
Lemma finish_block hi fr h3 size' rest F' t :
  moves (taken h F p s post) h h3 -> rd 4 (hp_mem h3) p = hdr_set_size (rd 4 (hp_mem h) p) size' ->
  tiles (hp_mem h3) (heap_end h) (p + size') (rest ++ post) (heap_end h) true ->
  free_chunks h3 F' -> frees (pre ++ Chunk p size' true :: rest ++ post) F' ->
  16 <= size' <= s -> size' mod 8 = 0 -> n + 4 <= t <= size' -> 0 <= n ->
  hi = Z.max (highmark_size h) (current_size h - (total_free_size h - size')) ->
  fr = total_free_size h - size' ->
  (size' = s /\ rest = [] \/ exists x, rest = [Chunk x (s - size') false]) ->
  exists h', (edo hmu_upd p (fun v => hdr_set_ut v HMU_VO) in
      edo hmu_upd p hdr_unfree_vo in
      edo (if n + 4 <? t then clear (p + 4 + n) (t - (n + 4)) else eret tt) in
      eret (p + 4)) (hp_set_sizes hi fr h3) = Ok (p + 4, h') /\
    heap_ok h' (pre ++ Chunk p size' true :: rest ++ post) /\
    same_contents (pre ++ Chunk p s false :: post) (hp_mem h) (hp_mem h') /\
    (forall k, p + 4 + n <= k < p + t -> mem_byte (hp_mem h') k = 0) /\ same_place h h'.
Proof using All.
  intros Hm Hr Htl Hf Hfr Hs1 Hs2 Ht1 Hn Hhi Hfre Hrest.
  pose proof (ok_tiles _ _ Hok) as Ht. pose proof Ht as Ht'. apply tiles_app in Ht' as [Htpre (Hpa & Hc & _)].
  simpl in Hpa. assert (Hpin : Chunk p s false ∈ (pre ++ Chunk p s false :: post)%list) by set_solver.
  pose proof (tiles_bounds _ _ _ _ _ _ Ht Hpin) as Hb. unfold ck_end in Hb. simpl in Hb.
  pose proof (fc_layout _ _ HFC) as HL.
  assert (Hin3 : forall a k, p <= a -> a + k <= p + size' -> inside h3 a k).
  { intros a k Ha Hk. eapply moves_inside; [exact Hm|]. destruct HL. unfold inside, heap_end in *. lia. }
  set (v := rd 4 (hp_mem h) p) in *.
  assert (Hv3 : in_u 32 (rd 4 (hp_mem h3) p)) by (apply (rd_range 4), Hf).
  set (v3 := rd 4 (hp_mem h3) p) in *.
  assert (Hv4 : in_u 32 (hdr_set_ut v3 HMU_VO)) by (apply in_u_set_ut; [done|by unfold in_u, HMU_VO]).
  assert (Hv5 : in_u 32 (hdr_unfree_vo (hdr_set_ut v3 HMU_VO))) by (by apply in_u_CLRBIT).
  rewrite (ebind_eq _ _ _ _ _ (hmu_upd_eq p _ (hp_set_sizes hi fr h3) (Hin3 p 4 ltac:(lia) ltac:(lia)))).
  change (hp_mem (hp_set_sizes hi fr h3)) with (hp_mem h3). fold v3.
  set (h4 := hp_set_mem (wr 4 (hp_mem h3) p (hdr_set_ut v3 HMU_VO)) h3).
  change (hp_set_mem _ (hp_set_sizes hi fr h3)) with (hp_set_sizes hi fr h4).
  rewrite (ebind_eq _ _ _ _ _ (hmu_upd_eq p _ (hp_set_sizes hi fr h4) (Hin3 p 4 ltac:(lia) ltac:(lia)))).
  change (hp_mem (hp_set_sizes hi fr h4)) with (hp_mem h4).
  assert (rd 4 (hp_mem h4) p = hdr_set_ut v3 HMU_VO) as -> by (subst h4; simpl; rewrite rd_wr_eq; by apply uwrap_id).
  set (h5 := hp_set_mem (wr 4 (hp_mem h4) p (hdr_unfree_vo (hdr_set_ut v3 HMU_VO))) h4).
  change (hp_set_mem _ (hp_set_sizes hi fr h4)) with (hp_set_sizes hi fr h5).
  assert (Hr5 : rd 4 (hp_mem h5) p = hdr_unfree_vo (hdr_set_ut v3 HMU_VO))
    by (subst h5; simpl; rewrite rd_wr_eq; by apply uwrap_id).
  assert (Hm5 : moves (fun k => p <= k < p + size') h3 h5).
  { eapply moves_trans; apply moves_store; intros; lia. }
  assert (exists h6, (if n + 4 <? t then clear (p + 4 + n) (t - (n + 4)) else eret tt) (hp_set_sizes hi fr h5) =
            Ok (tt, hp_set_sizes hi fr h6) /\ moves (fun k => p + 4 + n <= k < p + size') h5 h6 /\
            forall k, p + 4 + n <= k < p + t -> mem_byte (hp_mem h6) k = 0) as (h6 & E6 & Hm6 & Hz6).
  { destruct (Z.ltb_spec (n + 4) t).
    - exists (hp_set_mem (zero_bytes (hp_mem h5) (p + 4 + n) (p + 4 + n + (t - (n + 4)))) h5).
      split; [exact (clear_eq _ _ (hp_set_sizes hi fr h5) (Hin3 (p + 4 + n) (t - (n + 4)) ltac:(lia) ltac:(lia)))|].
      split.
      + split; [done| |].
        * intros Hby. by apply bytes_ok_zero.
        * intros k. simpl. rewrite mem_byte_zero_bytes. zcmp; cbn [andb]; [left; lia|by right..].
      + intros k Hk. simpl. rewrite mem_byte_zero_bytes. zcmp; cbn [andb]; lia || done.
    - exists h5. split; [done|]. split; [apply moves_refl|lia]. }
  rewrite (ebind_eq _ _ _ _ _ E6). exists (hp_set_sizes hi fr h6). split; [done|].
  assert (Hm36 : moves (fun k => p <= k < p + size') h3 h6).
  { eapply moves_trans; [exact Hm5|]. eapply moves_weaken; [|exact Hm6]. intros k Hk. cbn beta in Hk. lia. }
  assert (Hm06 : moves (taken h F p s post) h h6).
  { eapply moves_trans; [exact Hm|]. eapply moves_weaken; [|exact Hm36]. intros k Hk. cbn beta in Hk. right. left. lia. }
  assert (Hr6 : rd 4 (hp_mem h6) p = hdr_unfree_vo (hdr_set_ut v3 HMU_VO)).
  { rewrite <- Hr5. apply (moves_rd _ _ _ 4 p Hm6). change (Z.of_nat 4) with 4. intros k Hk. lia. }
  split; [|split; [exact (taken_contents h6 Hm06)|split; [exact Hz6|by eapply same_place_moves]]].
  assert (Hcs : chunk_size size') by (unfold chunk_size; destruct HL; unfold heap_end in *; split; [lia|done]).
  assert (Hbase6 : base_addr h6 = base_addr h /\ heap_end h6 = heap_end h /\ current_size h6 = current_size h)
    by (by rewrite (mv_heap _ _ _ Hm06)).
  destruct Hbase6 as (Hb6 & He6 & Hc6). split.
  - change (tiles (hp_mem h6) (heap_end h6) (base_addr h6) (pre ++ Chunk p size' true :: rest ++ post) (heap_end h6) true).
    rewrite Hb6, He6. apply tiles_app. split.
    + eapply tiles_frame; [|exact Htpre]. intros c Hcin.
      apply (tags_frame h _ F Ht HL HF _ _ _ Hm06); [set_solver|]. intros k [Hk|Hk]; [by left|right].
      pose proof (tiles_bounds _ _ _ _ _ _ Htpre Hcin). unfold ck_end in *. lia.
    + cbn [tiles ck_addr ck_size ck_used]. split_and!; [done| |].
      * destruct Hc as [_ _ _ _ Hpu _ _ Hmg]. simpl in Hpu. simpl in Hmg. rewrite orb_false_r in Hmg. rewrite Hmg in *.
        split; cbn [ck_addr ck_size ck_used]; rewrite ?Hr6; [lia|done|..].
        -- rewrite size_unfree, size_set_ut by done. rewrite Hr. by apply size_set_size.
        -- rewrite ut_unfree. by apply ut_set_ut.
        -- rewrite pinuse_unfree, pinuse_set_ut by done. rewrite Hr, pinuse_set_size by done. exact Hpu.
        -- intros _. apply freed_unfree.
        -- done.
        -- done.
      * rewrite <- Hpa. eapply tiles_frame; [|exact Htl]. intros c Hcin.
        pose proof (tiles_bounds _ _ _ _ _ _ Htl Hcin).
        split; [|intros _]; apply (moves_rd _ _ _ 4 _ Hm36); change (Z.of_nat 4) with 4; intros k Hk;
          unfold ck_end in *; lia.
  - exists F'. split; [|done]. apply free_chunks_sizes. eapply outside_frame; [exact Hf|exact Hm36|].
    assert (base_addr h3 = base_addr h) as Hb3 by (by rewrite (mv_heap _ _ _ Hm)). rewrite Hb3.
    intros k Hk. split; [lia|]. intros x m Hx. apply Hfr in Hx. rewrite elem_of_app, elem_of_cons in Hx.
    destruct Hx as [Hx|[[=]|Hx]].
    + pose proof (tiles_bounds _ _ _ _ _ _ Htpre Hx). unfold ck_end in *. simpl in *. lia.
    + pose proof (tiles_bounds _ _ _ _ _ _ Htl Hx). simpl in *. lia.
  - change (fr = free_total (pre ++ Chunk p size' true :: rest ++ post)). rewrite Hfre, (ok_total _ _ Hok), !free_total_app.
    cbn [free_total foldr ck_used ck_size]. change (foldr _ 0 ?l) with (free_total l). rewrite free_total_app.
    destruct Hrest as [[-> ->]|[x ->]]; cbn [free_total foldr ck_used ck_size]; lia.
  - change (current_size h6 - fr <= hi <= current_size h6). rewrite Hc6.
    pose proof (ok_high _ _ Hok). pose proof (ok_total _ _ Hok) as Htot. rewrite free_total_app in Htot.
    cbn [free_total foldr ck_used ck_size] in Htot. change (foldr _ 0 ?l) with (free_total l) in Htot.
    pose proof (free_total_bounds _ _ _ _ _ Htpre) as Hfp.
    apply tiles_app in Ht as [_ (_ & _ & Htp)]. pose proof (free_total_bounds _ _ _ _ _ Htp). cbn [ck_size] in *.
    unfold heap_end in *. lia.
  - change (base_addr h6 mod 8 = 4). rewrite Hb6. apply (ok_align _ _ Hok).
Qed.
End Finish.

Lemma alloc_run h cs n :
  heap_ok h cs -> 0 <= n < 2 ^ 32 ->
  exists r h' cs', gc_alloc_vo n h = Ok (r, h') /\ alloc_step cs n cs' r /\ heap_ok h' cs' /\
    same_contents cs (hp_mem h) (hp_mem h') /\ (r = 0 -> h' = h) /\
    (r <> 0 -> forall k, r + n <= k < r - 4 + 8 * ((n + 11) / 8) -> mem_byte (hp_mem h') k = 0) /\
    same_place h h'.
Proof.
  intros Hok Hn. pose proof Hok as [Ht (F & HFC & HF) Htot _ _].
  assert (Hcap : forall c, c ∈ cs -> ck_size c < 2 ^ 30).
  { intros c Hc. pose proof (tiles_bounds _ _ _ _ _ _ Ht Hc). destruct (fc_layout _ _ HFC).
    unfold ck_end, heap_end in *. lia. }
  unfold gc_alloc_vo. destruct (tot_size_cases n Hn) as [[Hlt Hbig]|(Ht1 & Hu & Htm & Ht2 & Hreq & Hteq)]; cbn zeta.
  { rewrite (proj2 (Z.ltb_lt _ _) Hlt). exists 0, h, cs. split_and!; try done.
    apply alloc_none. intros c Hc _. specialize (Hcap c Hc).
    assert (2 ^ 32 - 16 <= request n); [|lia]. unfold request.
    pose proof (Z.div_mod (n + 11) 8 ltac:(lia)). pose proof (Z.mod_pos_bound (n + 11) 8 ltac:(lia)). lia. }
  set (t := GC_ALIGN_8 (u32 (HMU_SIZE + n))) in *. rewrite (proj2 (Z.ltb_ge t n)) by lia. rewrite Hu.
  assert (Halloc : alloc_hmu t = alloc_hmu (request n)).
  { unfold alloc_hmu. change GC_SMALLEST_SIZE with 16. rewrite Hreq.
    destruct (Z.ltb_spec t 16); [rewrite Z.max_l by lia; done|].
    rewrite Z.max_r by lia. rewrite (proj2 (Z.ltb_ge t 16)) by lia. done. }
  assert (Hw : wanted (request n)).
  { unfold wanted. rewrite Hreq. split; [lia|]. destruct (Z.max_spec 16 t) as [[_ ->]|[_ ->]]; done. }
  rewrite Halloc. unfold ebind at 1.
  destruct (pick_ok h F (request n) HFC Hw) as [[E Hnone]|(p & s & h1 & E & Hpk)]; rewrite E.
  { cbn [Z.eqb]. exists 0, h, cs. split_and!; try done. apply alloc_none. intros c Hc Hcu.
    apply (Hnone (ck_addr c)), HF. by destruct c; simpl in *; subst. }
  pose proof (pk_chunk _ _ _ _ _ _ Hpk) as Hp. pose proof (pk_fits _ _ _ _ _ _ Hpk) as Hfit.
  assert (Hp0 : 0 < p).
  { pose proof (zone_bounds h F (fc_layout _ _ HFC) (fc_placed _ _ HFC) _ _ (zone_chunk h F _ _ Hp)). lia. }
  assert (Hbest : best_fit cs (request n) s).
  { split; [done|]. intros c Hc Hcu Hsz. apply (pk_best _ _ _ _ _ _ Hpk (ck_addr c)); [|done].
    apply HF. by destruct c; simpl in *; subst. }
  pose proof Hp as Hpin. apply HF in Hpin. apply list_elem_of_split in Hpin as (pre & post & ->).
  destruct (take_ok h F (request n) p s h1 pre post Hok HFC HF Hpk Hw)
    as (size' & rest & F' & h3 & E3 & Hcase & Hsz & Hsz8 & Hm & Hr & Htl & Hf & Hfr).
  rewrite E3. rewrite (proj2 (Z.eqb_neq p 0)) by lia. unfold hmu_to_obj.
  destruct (finish_block h F n p s pre post Hok HFC HF _ _ h3 size' rest F' t Hm Hr Htl Hf Hfr
    ltac:(lia) Hsz8 ltac:(lia) ltac:(lia) eq_refl eq_refl) as (h' & E4 & Hok' & Hsame & Hzero & Hplace).
  { destruct Hcase as [(_ & -> & ->)|(_ & -> & ->)]; [right; eauto|by left]. }
  exists (p + 4), h', (pre ++ Chunk p size' true :: rest ++ post)%list.
  split; [exact E4|]. split; [|split; [done|split; [done|split; [intros ?; exfalso; lia|split; [|done]]]]].
  - destruct Hcase as [(Hge & -> & ->)|(Hlt & -> & ->)]; cbn [app].
    + by eapply alloc_cut.
    + by eapply alloc_whole.
  - intros _ k Hk. apply Hzero. lia.
Qed.
End Alloc.
