(* ===== verification/EmsRelease.v ===== *)
(** * Release

    [gc_free_vo]: a block in use becomes free and is joined with the free
    neighbours it has; the other blocks keep their contents. *)

From S2P Require Import Prelude Instance Ems EmsHeader EmsTree EmsFree EmsChunks EmsHeap EmsAlloc.
#[local] Open Scope Z_scope.
#[local] Open Scope ems_scope.

(** ** Bookkeeping on sequences *)

(** Nothing, or one free chunk: what is joined on either side. *)
Definition lone_free (l : list chunk) : Prop := l = [] \/ exists a s, l = [Chunk a s false].
Definition starts_used (l : list chunk) : Prop := forall d l', l = d :: l' -> ck_used d = true.

(** What one release may do to a sequence of chunks. *)
Inductive free_step (cs : list chunk) (p : Z) : list chunk -> Prop :=
| free_join pre before s after post :
    cs = (pre ++ before ++ Chunk p s true :: after ++ post)%list ->
    lone_free before -> lone_free after -> last_used true pre = true -> starts_used post ->
    free_step cs p
      (pre ++ Chunk (p - free_total before) (free_total before + s + free_total after) false :: post).

Lemma frees_drop_used pre p s post F :
  frees (pre ++ Chunk p s true :: post) F <-> frees (pre ++ post) F.
Proof.
  assert (forall x n, Chunk x n false ∈ (pre ++ Chunk p s true :: post)%list <-> Chunk x n false ∈ (pre ++ post)%list) as He.
  { intros x n. rewrite !elem_of_app, elem_of_cons. intuition congruence. }
  unfold frees. by setoid_rewrite He.
Qed.
Lemma frees_drop_free {lim} m a e pre p s post F :
  tiles m lim a (pre ++ Chunk p s false :: post) e true ->
  frees (pre ++ Chunk p s false :: post) F -> frees (pre ++ post) (delete p F).
Proof. intros Ht HF. apply (frees_drop_used pre p s post). by eapply frees_use. Qed.

(** A sub-sequence has its chunks among the others. *)
Lemma tiles_split {lim} m a pre p s u post e :
  tiles m lim a (pre ++ Chunk p s u :: post) e true ->
  p = end_of a pre /\ chunk_ok m lim (last_used true pre) (Chunk p s u) /\
  tiles m lim a pre p true /\ tiles m lim (p + s) post e u /\ a <= p /\ p + s <= e.
Proof.
  intros Ht. assert (Hin : Chunk p s u ∈ (pre ++ Chunk p s u :: post)%list)
    by (apply elem_of_app; right; apply list_elem_of_here).
  pose proof (tiles_bounds _ _ _ _ _ _ Ht Hin) as Hb. unfold ck_end in Hb. simpl in Hb.
  apply tiles_app in Ht as [H1 (H2 & H3 & H4)]. cbn [ck_addr ck_size ck_used] in *. rewrite <- H2 in H1, H4.
  split_and!; done || lia.
Qed.

Lemma last_used_false pu cs :
  last_used pu cs = false -> pu = true -> exists cs' a k, cs = (cs' ++ [Chunk a k false])%list.
Proof.
  intros Hl ->. destruct cs as [|c cs] using rev_ind; [done|]. rewrite last_used_app in Hl.
  destruct c as [a k u]. simpl in Hl. subst u. eauto.
Qed.

(** ** Joining with the chunk before *)

Section Free.
Context `{HeapLayout} (h : gc_heap) (F : gmap Z Z) (p s : Z) (pre post : list chunk).
Hypothesis Ht : tiles (hp_mem h) (heap_end h) (base_addr h) (pre ++ Chunk p s true :: post) (heap_end h) true.
Hypothesis HFC : free_chunks h F.
Hypothesis HF : frees (pre ++ Chunk p s true :: post) F.

Lemma in_chunk_inside a k : base_addr h <= a -> a + k <= heap_end h -> inside h a k.
Proof using HFC. intros. destruct (fc_layout _ _ HFC). unfold inside, heap_end in *. lia. Qed.

(** Sizes and footers below [2^31] are read as they are. *)
Lemma s32_small v : 0 <= v < 2 ^ 30 -> s32 v = v.
Proof. intros. apply swrap_id; unfold in_s; lia. Qed.

Lemma merge_prev_ok :
  exists pre' before a F' h',
    merge_prev p s h = Ok ((a, s + free_total before), h') /\
    pre = (pre' ++ before)%list /\ lone_free before /\ a = p - free_total before /\ a = end_of (base_addr h) pre' /\
    last_used true pre' = true /\ hdr_pinuse (rd 4 (hp_mem h) a) = 1 /\
    moves (free_links h F) h h' /\ free_chunks h' F' /\ F' ⊆ F /\ frees (pre' ++ post) F'.
Proof using All.
  destruct (tiles_split _ _ _ _ _ _ _ _ Ht) as (Hpe & Hc & Htpre & Htpost & Hb1 & Hb2).
  pose proof (frees_drop_used pre p s post F) as [HFd _]. specialize (HFd HF).
  pose proof (co_min _ _ _ _ Hc) as H16. simpl in H16.
  unfold merge_prev. rewrite (ebind_eq _ _ _ _ _ (hmu_get_eq p hdr_pinuse h (in_chunk_inside p 4 Hb1 ltac:(lia)))).
  pose proof (co_pinuse _ _ _ _ Hc) as Hpi. cbn [ck_addr] in Hpi.
  destruct (last_used true pre) eqn:Elast.
  { rewrite Hpi. cbn [Z.eqb negb]. exists pre, [], p, F, h. rewrite app_nil_r. cbn [free_total foldr].
    rewrite Z.add_0_r, Z.sub_0_r. split_and!; try done; [by left|apply moves_refl]. }
  rewrite Hpi. cbn [Z.eqb negb].
  destruct (last_used_false _ _ Elast eq_refl) as (pre' & a & k & ->).
  (* the footer leads to the chunk before *)
  pose proof Ht as Ht2. rewrite <- app_assoc in Ht2. cbn [app] in Ht2.
  destruct (tiles_split _ _ _ _ _ _ _ _ Ht2) as (Hae & Hca & Htpre' & Hta & Hba1 & Hba2).
  cbn [tiles ck_addr] in Hta. destruct Hta as (Hpa & _).
  pose proof (co_min _ _ _ _ Hca) as Hk16. simpl in Hk16.
  pose proof (co_merged _ _ _ _ Hca) as Hmg. cbn [ck_used] in Hmg. rewrite orb_false_r in Hmg.
  pose proof (co_free _ _ _ _ Hca eq_refl) as Hft. unfold ck_end in Hft. cbn [ck_addr ck_size] in Hft. specialize (Hft ltac:(lia)).
  pose proof (lo_cur _ (fc_layout _ _ HFC)) as Hcur. unfold heap_end in Hb2.
  pose proof (HF a k) as [_ HFa]. specialize (HFa ltac:(rewrite <- app_assoc, elem_of_app; right; apply list_elem_of_here)).
  rewrite (ebind_eq _ _ _ _ _ (load_eq 4 (p - 4) h (in_chunk_inside (p - 4) 4 ltac:(lia) ltac:(unfold heap_end; lia)))).
  replace (p - 4) with (a + k - 4) by lia. rewrite Hft, s32_small by lia.
  replace (p - k) with a by lia. rewrite (ebind_eq _ _ _ _ _ (is_in_heap_eq h a)).
  rewrite (proj2 (Z.leb_le _ _)), (proj2 (Z.ltb_lt _ _)) by (unfold heap_end; lia). cbn [andb negb].
  assert (Hia : inside h a 4) by (apply in_chunk_inside; unfold heap_end; lia).
  rewrite (ebind_eq _ _ _ _ _ (hmu_get_eq a hdr_ut h Hia)).
  pose proof (co_ut _ _ _ _ Hca) as Hua. cbn [ck_addr ck_used] in Hua. rewrite Hua, Z.eqb_refl. cbn [negb].
  rewrite (ebind_eq _ _ _ _ _ (hmu_get_eq a hdr_size h Hia)).
  pose proof (co_size _ _ _ _ Hca) as Hsa. cbn [ck_addr ck_size] in Hsa. rewrite Hsa.
  destruct (unlink_ok h F a k HFC HFa) as (h' & E & Hm & Hf).
  rewrite (ebind_eq _ _ _ _ _ E), (uwrap_id 32) by (unfold in_u; lia).
  exists pre', [Chunk a k false], a, (delete a F), h'. cbn [free_total foldr ck_used ck_size]. rewrite Z.add_0_r.
  pose proof (co_pinuse _ _ _ _ Hca) as Hpia. cbn [ck_addr] in Hpia. rewrite Hmg in Hpia.
  split_and!; try done; [by right; eauto|lia|apply delete_subseteq|].
  apply (frees_drop_used pre' p s post). eapply frees_drop_free; [exact Ht2|].
  rewrite <- app_assoc in HF. exact HF.
Qed.

(** ** Joining with the chunk behind *)

(** The tags are still those of [h] after links were changed. *)
Lemma links_tags h1 c :
  moves (free_links h F) h h1 -> c ∈ (pre ++ Chunk p s true :: post)%list -> same_tags (hp_mem h) (hp_mem h1) c.
Proof using All.
  intros Hm Hc. apply (tags_frame h _ F Ht (fc_layout _ _ HFC) HF _ _ _ Hm Hc). intros k Hk. by left.
Qed.

Lemma merge_next_ok h1 F1 pre' a n :
  moves (free_links h F) h h1 -> free_chunks h1 F1 -> F1 ⊆ F -> frees (pre' ++ post) F1 ->
  a + n = p + s -> base_addr h <= a -> 0 <= n -> (forall c, c ∈ pre' -> c ∈ pre) ->
  exists after post' F2 h2,
    merge_next a n h1 = Ok (n + free_total after, h2) /\
    post = (after ++ post')%list /\ lone_free after /\ starts_used post' /\
    moves (free_links h F) h h2 /\ free_chunks h2 F2 /\ F2 ⊆ F /\ frees (pre' ++ post') F2 /\
    exists pu, tiles (hp_mem h) (heap_end h) (a + (n + free_total after)) post' (heap_end h) pu.
Proof using All.
  intros Hm Hf Hsub HF1 Han Ha Hn Hpre'. pose proof (fun c => links_tags h1 c Hm) as Htags.
  destruct (tiles_split _ _ _ _ _ _ _ _ Ht) as (Hpe & Hc & Htpre & Htpost & Hb1 & Hb2).
  assert (Hbe : base_addr h1 = base_addr h /\ heap_end h1 = heap_end h) by (by rewrite (mv_heap _ _ _ Hm)).
  destruct Hbe as [Hb He]. pose proof (lo_cur _ (fc_layout _ _ HFC)) as Hcur. unfold heap_end in Hb2.
  pose proof (co_min _ _ _ _ Hc) as H16. simpl in H16.
  unfold merge_next. rewrite Han, (ebind_eq _ _ _ _ _ (is_in_heap_eq h1 (p + s))), Hb, He.
  rewrite (proj2 (Z.leb_le _ _)) by lia. cbn [andb].
  destruct post as [|d post''] eqn:Epost.
  { cbn [tiles] in Htpost. rewrite (proj2 (Z.ltb_ge _ _)) by lia. cbn [negb].
    exists [], [], F1, h1. cbn [free_total foldr app]. rewrite Z.add_0_r.
    split_and!; try done; [by left|]. exists true. cbn [tiles]. lia. }
  pose proof Htpost as Htp2. cbn [tiles] in Htp2. destruct Htp2 as (Hda & Hdok & Htd).
  pose proof (co_min _ _ _ _ Hdok) as Hd16.
  pose proof (tiles_bounds _ _ _ _ _ d Htpost ltac:(apply list_elem_of_here)) as Hdb. unfold ck_end in Hdb.
  rewrite (proj2 (Z.ltb_lt _ _)) by lia. cbn [negb].
  assert (Hin : inside h1 (p + s) 4).
  { eapply moves_inside; [exact Hm|]. apply in_chunk_inside; lia. }
  assert (Hdin : d ∈ (pre ++ Chunk p s true :: d :: post'')%list)
    by (rewrite elem_of_app, !elem_of_cons; auto).
  destruct (Htags d Hdin) as [Hhd _]. rewrite Hda in Hhd.
  rewrite (ebind_eq _ _ _ _ _ (hmu_get_eq (p + s) hdr_ut h1 Hin)), Hhd, <- Hda, (co_ut _ _ _ _ Hdok).
  destruct (ck_used d) eqn:Eused.
  - change (HMU_VO =? HMU_FC) with false. cbn [negb].
    exists [], (d :: post''), F1, h1. cbn [free_total foldr app]. rewrite Z.add_0_r, Han.
    split_and!; try done; [by left|intros ? ? [= <- <-]; done|]. exists true. exact Htpost.
  - rewrite Z.eqb_refl. cbn [negb]. rewrite Hda, (ebind_eq _ _ _ _ _ (hmu_get_eq (p + s) hdr_size h1 Hin)), Hhd, <- Hda, (co_size _ _ _ _ Hdok).
    destruct d as [x k u]. cbn [ck_addr ck_size ck_used] in *. subst u.
    assert (HFx : F1 !! x = Some k).
    { apply HF1. rewrite elem_of_app, elem_of_cons. auto. }
    destruct (unlink_ok h1 F1 x k Hf HFx) as (h2 & E & Hm2 & Hf2).
    rewrite (ebind_eq _ _ _ _ _ E), (uwrap_id 32) by (unfold in_u, heap_end in *; lia).
    assert (Hm12 : moves (free_links h F) h h2).
    { eapply moves_trans; [exact Hm|]. eapply moves_weaken; [|exact Hm2]. intros j Hj.
      by eapply free_links_sub. }
    exists [Chunk x k false], post'', (delete x F1), h2. cbn [free_total foldr ck_used ck_size app]. rewrite Z.add_0_r.
    split_and!; try done; [by right; eauto| | | |].
    + intros d' l' Hd'. rewrite Hd' in Htd. cbn [tiles] in Htd. destruct Htd as (_ & Hok' & _). pose proof (co_merged _ _ _ _ Hok') as Hmg. exact Hmg.
    + etransitivity; [apply delete_subseteq|done].
    + intros y m. rewrite lookup_delete_Some, (HF1 y m), !elem_of_app, elem_of_cons.
      assert (Hnx : forall m', Chunk x m' false ∈ post'' -> False).
      { intros m' Hm'. pose proof (tiles_bounds _ _ _ _ _ _ Htd Hm'). simpl in *. lia. }
      assert (Hnp : forall m', Chunk x m' false ∈ pre' -> False).
      { intros m' Hm'%Hpre'. pose proof (tiles_bounds _ _ _ _ _ _ Htpre Hm'). unfold ck_end in *. simpl in *. lia. }
      split; [intuition congruence|]. intros Hy. split; [intros <-; destruct Hy; eauto|tauto].
    + exists false. replace (a + (n + k)) with (p + s + k) by lia. exact Htd.
Qed.
(** ** The chunk goes into the lists *)

Lemma finish_free h2 F2 pre' a n post' pu :
  moves (free_links h F) h h2 -> free_chunks h2 F2 -> F2 ⊆ F -> frees (pre' ++ post') F2 ->
  tiles (hp_mem h) (heap_end h) (base_addr h) pre' a true -> last_used true pre' = true ->
  tiles (hp_mem h) (heap_end h) (a + n) post' (heap_end h) pu -> starts_used post' ->
  rd 4 (hp_mem h2) a = rd 4 (hp_mem h) a -> hdr_pinuse (rd 4 (hp_mem h) a) = 1 ->
  16 <= n -> n mod 8 = 0 -> base_addr h <= a -> a + n <= heap_end h ->
  (forall c, c ∈ (pre' ++ post')%list -> c ∈ (pre ++ Chunk p s true :: post)%list) ->
  exists h', (edo gci_add_fc a n in
      elet b := hmu_is_in_heap (a + n) in
      edo (if b then hmu_upd (a + n) hdr_unmark_pinuse else eret tt) in
      eret GC_SUCCESS) h2 = Ok (GC_SUCCESS, h') /\
    moves (fun k => free_links h F k \/ a <= k < a + n \/ (a + n <= k < a + n + 4 /\ post' <> [])) h h' /\
    tiles (hp_mem h') (heap_end h) (base_addr h) (pre' ++ Chunk a n false :: post') (heap_end h) true /\
    exists F', free_chunks h' F' /\ frees (pre' ++ Chunk a n false :: post') F'.
Proof using All.
  intros Hm Hf Hsub Hfr Htpre Hlast Htpost Hstart Hra Hpia Hn16 Hn8 Hba Hbe Hin.
  pose proof (lo_cur _ (fc_layout _ _ HFC)) as Hcur.
  assert (Hb2 : base_addr h2 = base_addr h /\ heap_end h2 = heap_end h) by (by rewrite (mv_heap _ _ _ Hm)).
  destruct Hb2 as [Hb2 He2].
  assert (Hbef : forall c, c ∈ pre' -> ck_end c <= a) by (intros c Hc; apply (tiles_bounds _ _ _ _ _ _ Htpre Hc)).
  assert (Haft : forall c, c ∈ post' -> a + n <= ck_addr c) by (intros c Hc; apply (tiles_bounds _ _ _ _ _ _ Htpost Hc)).
  assert (Haway : forall x m, F2 !! x = Some m -> x + m <= a \/ a + n <= x).
  { intros x m Hx. apply Hfr, elem_of_app in Hx as [Hx|Hx]; [left; by apply (Hbef _ Hx)|right; by apply (Haft _ Hx)]. }
  assert (Hfresh : F2 !! a = None).
  { destruct (F2 !! a) as [m|] eqn:Ea; [|done]. pose proof (pl_in _ _ (fc_placed _ _ Hf) _ _ Ea). specialize (Haway a m Ea). lia. }
  assert (Hpl : placed h2 (<[a := n]> F2)).
  { split.
    - intros x m. destruct (decide (x = a)) as [->|Hx].
      + rewrite lookup_insert_eq, Hb2, He2. intros [= <-]. done.
      + rewrite lookup_insert_ne by done. apply (pl_in _ _ (fc_placed _ _ Hf)).
    - intros x y m m'. destruct (decide (x = a)) as [->|Hx], (decide (y = a)) as [->|Hy];
        rewrite ?lookup_insert_eq, ?lookup_insert_ne by done; [done|..].
      + intros [= <-] Hy'%Haway _. lia.
      + intros Hx'%Haway [= <-] _. lia.
      + apply (pl_disj _ _ (fc_placed _ _ Hf)). }
  destruct (add_ok h2 F2 a n Hf Hfresh Hpl) as (h3 & E3 & Hm3 & Hf3 & Hh3 & Hft3).
  rewrite (ebind_eq _ _ _ _ _ E3), (ebind_eq _ _ _ _ _ (is_in_heap_eq h3 (a + n))).
  assert (Hb3 : base_addr h3 = base_addr h /\ heap_end h3 = heap_end h) by (rewrite (mv_heap _ _ _ Hm3); done).
  destruct Hb3 as [Hb3 He3]. rewrite Hb3, He3, (proj2 (Z.leb_le _ _)) by lia. cbn [andb].
  assert (Hm03 : moves (fun k => free_links h F k \/ a <= k < a + n) h h3).
  { eapply moves_trans; [eapply moves_weaken; [|exact Hm]; intros k Hk; by left|].
    eapply moves_weaken; [|exact Hm3]. intros k [Hk|Hk]; [left; by eapply free_links_sub|by right]. }
  (* chunks away from the new one *)
  assert (Htags : forall c, c ∈ (pre' ++ post')%list -> same_tags (hp_mem h) (hp_mem h3) c).
  { intros c Hc. apply (tags_frame h _ F Ht (fc_layout _ _ HFC) HF _ _ _ Hm03 (Hin c Hc)).
    intros k [Hk|Hk]; [by left|right]. apply elem_of_app in Hc as [Hc|Hc];
      [specialize (Hbef c Hc)|specialize (Haft c Hc)]; unfold ck_end in *; lia. }
  assert (Hfr3 : frees (pre' ++ Chunk a n false :: post') (<[a := n]> F2)).
  { eapply (frees_new (pre' ++ post')); [|clear; solve_Permutation|done]. intros n' Hin'.
    apply Hfr in Hin'. congruence. }
  assert (Hcs : chunk_size n) by (unfold chunk_size, heap_end in *; split; [lia|done]).
  assert (Hnew : forall m, rd 4 m a = fc_header (rd 4 (hp_mem h) a) n -> rd 4 m (a + n - 4) = n ->
            chunk_ok m (heap_end h) (last_used true pre') (Chunk a n false)).
  { intros m Hma Hmf. rewrite Hlast. split; unfold ck_end; cbn [ck_addr ck_size ck_used]; rewrite ?Hma; try done; unfold fc_header.
    - by apply size_set_size.
    - rewrite ut_set_size by done. by apply ut_set_ut.
    - by rewrite pinuse_set_size, pinuse_set_ut by done. }
  destruct post' as [|d post''] eqn:Epost.
  - cbn [tiles] in Htpost. rewrite (proj2 (Z.ltb_ge _ _)) by lia. exists h3. split_and!; [done| | |].
    + eapply moves_weaken; [|exact Hm03]. intros k Hk. cbn beta in Hk. tauto.
    + apply tiles_app. rewrite (end_of_tiles _ _ _ _ _ Htpre). split.
      * eapply tiles_frame; [|exact Htpre]. intros c Hc. apply Htags. by rewrite app_nil_r.
      * cbn [tiles ck_addr ck_size ck_used]. split_and!; [done| |done]. apply Hnew; [by rewrite Hh3, Hra|done].
    + eauto.
  - pose proof Htpost as Htd. cbn [tiles] in Htd. destruct Htd as (Hda & Hdok & Htd).
    pose proof (tiles_bounds _ _ _ _ _ d Htpost ltac:(apply list_elem_of_here)) as Hdb. unfold ck_end in Hdb.
    rewrite (proj2 (Z.ltb_lt _ _)) by lia.
    assert (Hi3 : inside h3 (a + n) 4) by (eapply moves_inside; [exact Hm03|]; apply in_chunk_inside; lia).
    rewrite (ebind_eq _ _ _ _ _ (hmu_upd_eq (a + n) hdr_unmark_pinuse h3 Hi3)). set (h4 := hp_set_mem _ h3).
    assert (Hm4 : moves (fun k => a + n <= k < a + n + 4) h3 h4) by (apply moves_store; intros; lia).
    assert (Hv : in_u 32 (hdr_unmark_pinuse (rd 4 (hp_mem h3) (a + n))))
      by (apply in_u_CLRBIT; [apply (rd_range 4), Hf3|done]).
    assert (Hkeep : forall c, c ∈ (pre' ++ post'')%list -> same_tags (hp_mem h) (hp_mem h4) c).
    { intros c Hc. assert (Hc' : c ∈ (pre' ++ d :: post'')%list) by (rewrite elem_of_app, elem_of_cons in *; tauto).
      destruct (Htags c Hc') as [Hk1 Hk2].
      assert (ck_end c <= a \/ a + n + 16 <= ck_addr c) as Hout.
      { apply elem_of_app in Hc as [Hc|Hc]; [left; by apply Hbef|right].
        pose proof (tiles_bounds _ _ _ _ _ _ Htd Hc). lia. }
      pose proof (Hin c Hc') as Hcin. pose proof (tiles_bounds _ _ _ _ _ _ Ht Hcin) as Hcb. unfold ck_end in *.
      split; [rewrite <- Hk1|intros Hcu; unfold ck_end; rewrite <- Hk2 by done];
        apply (moves_rd _ _ _ 4 _ Hm4); change (Z.of_nat 4) with 4; intros k Hk; cbn beta; lia. }
    exists h4. split_and!; [done| | |].
    + eapply moves_trans; (eapply moves_weaken; [|first [exact Hm03|exact Hm4]]); intros k Hk; cbn beta in Hk; [tauto|].
      right. right. done.
    + apply tiles_app. rewrite (end_of_tiles _ _ _ _ _ Htpre). split.
      { eapply tiles_frame; [|exact Htpre]. intros c Hc. apply Hkeep, elem_of_app. by left. }
      cbn [tiles ck_addr ck_size ck_used]. change (_ /\ _ /\ _) with
        (a = a /\ chunk_ok (hp_mem h4) (heap_end h) (last_used true pre') (Chunk a n false) /\
         tiles (hp_mem h4) (heap_end h) (a + n) (d :: post'') (heap_end h) false).
      split_and!; [done| |].
      * apply Hnew; [rewrite (moves_rd _ _ _ 4 a Hm4), Hh3; [by rewrite Hra|]
                    |rewrite (moves_rd _ _ _ 4 (a + n - 4) Hm4); [done|]]; change (Z.of_nat 4) with 4; intros k Hk; lia.
      * eapply (tiles_first (hp_mem h)); [..|exact Htpost].
        -- rewrite Hda. subst h4. simpl. rewrite rd_wr_eq. change (8 * Z.of_nat 4) with 32.
           rewrite (uwrap_id _ _ Hv). f_equal. rewrite <- Hda. apply Htags, elem_of_app. right. apply list_elem_of_here.
        -- by eapply Hstart.
        -- intros c Hc. apply Hkeep, elem_of_app. by right.
    + exists (<[a := n]> F2). split; [|done]. apply header_write; [done|lia|]. intros x m Hx. right.
      destruct (decide (x = a)) as [->|Hxa]; [rewrite lookup_insert_eq in Hx; injection Hx as <-; lia|].
      rewrite lookup_insert_ne in Hx by done. apply Hfr, elem_of_app in Hx as [Hx|Hx]; [right; specialize (Hbef _ Hx); unfold ck_end in Hbef; simpl in Hbef; lia|].
      apply elem_of_cons in Hx as [Hx|Hx].
      * specialize (Hstart _ _ eq_refl). by rewrite <- Hx in Hstart.
      * pose proof (tiles_bounds _ _ _ _ _ _ Htd Hx). simpl in *. lia.
Qed.
End Free.

(** ** The whole release *)

Lemma lone_free_bounds {lim} m a l e pu : lone_free l -> tiles m lim a l e pu -> e = a + free_total l.
Proof. intros [->|(x & k & ->)]; cbn [tiles free_total foldr ck_used ck_size]; lia. Qed.
Lemma lone_free_total {lim} m a l e pu : lone_free l -> tiles m lim a l e pu -> 0 <= free_total l /\ free_total l mod 8 = 0.
Proof.
  intros [->|(x & k & ->)]; cbn [tiles free_total foldr ck_used ck_size]; [done|].
  rewrite Z.add_0_r. intros (_ & [] & _). simpl in *. split; [lia|done].
Qed.

Section Release.
Context `{HeapLayout} (h : gc_heap) (pre : list chunk) (p s : Z) (post : list chunk).
Hypothesis Hok : heap_ok h (pre ++ Chunk p s true :: post).

(** Reading the header of the block. *)
Lemma free_enter F :
  free_chunks h F ->
  gc_free_vo (p + 4) h =
    (elet hs := merge_prev p s in
     let '(hmu, size) := hs in
     elet size := merge_next hmu size in
     edo gci_add_fc hmu size in
     let next := hmu + size in
     elet b := hmu_is_in_heap next in
     edo (if b then hmu_upd next hdr_unmark_pinuse else eret tt) in
     eret GC_SUCCESS) (hp_set_sizes (highmark_size h) (total_free_size h + s) h).
Proof using All.
  intros HFC. destruct (tiles_split _ _ _ _ _ _ _ _ (ok_tiles _ _ Hok)) as (Hpe & Hc & Htpre & Htpost & Hb1 & Hb2).
  destruct Hc as [H16 Hm8 Hsz Hut _ Hfd _ _]. simpl in H16, Hsz, Hut, Hfd.
  pose proof (fc_layout _ _ HFC) as HL. pose proof (lo_addr _ HL). pose proof (lo_base _ HL).
  pose proof (lo_struct _ HL). pose proof (lo_tree _ HL). pose proof (lo_list _ HL).
  assert (Hi : inside h p 4) by (eapply in_chunk_inside; [done|lia|lia]).
  unfold gc_free_vo, obj_to_hmu. rewrite (proj2 (Z.eqb_neq (p + 4) 0)) by lia.
  replace (p + 4 - 4) with p by lia. rewrite (ebind_eq _ _ _ _ _ (is_in_heap_eq h p)).
  rewrite (proj2 (Z.leb_le _ _)), (proj2 (Z.ltb_lt _ _)) by lia. cbn [andb negb].
  rewrite (ebind_eq _ _ _ _ _ (hmu_get_eq p hdr_ut h Hi)), Hut, Z.eqb_refl. cbn [negb].
  rewrite (ebind_eq _ _ _ _ _ (hmu_get_eq p hdr_vo_freed h Hi)), (Hfd eq_refl), Z.eqb_refl. cbn [negb].
  rewrite (ebind_eq _ _ _ _ _ (hmu_get_eq p hdr_size h Hi)), Hsz.
  assert (account_free s h = Ok (tt, hp_set_sizes (highmark_size h) (total_free_size h + s) h)) as Ea; [|by rewrite (ebind_eq _ _ _ _ _ Ea)].
  unfold account_free, emod. do 3 f_equal. apply uwrap_id. rewrite (ok_total _ _ Hok), free_total_app.
  cbn [free_total foldr ck_used ck_size]. change (foldr _ 0 post) with (free_total post).
  pose proof (free_total_bounds _ _ _ _ _ Htpre). pose proof (free_total_bounds _ _ _ _ _ Htpost).
  pose proof (lo_cur _ HL). unfold in_u, heap_end in *. lia.
Qed.

Lemma free_run_at :
  exists h' cs', gc_free_vo (p + 4) h = Ok (GC_SUCCESS, h') /\
    free_step (pre ++ Chunk p s true :: post) p cs' /\ heap_ok h' cs' /\
    same_contents cs' (hp_mem h) (hp_mem h') /\ same_place h h'.
Proof using All.
  pose proof Hok as [Ht (F & HFC & HF) Htot Hhigh Hal].
  set (g := hp_set_sizes (highmark_size h) (total_free_size h + s) h).
  assert (HFC' : free_chunks g F) by (by apply free_chunks_sizes).
  destruct (merge_prev_ok g F p s pre post Ht HFC' HF)
    as (pre' & before & a & F1 & h1 & E1 & Hpre & Hlb & Ha & Hae & Hlast & Hpia & Hm1 & Hf1 & Hsub1 & Hfr1).
  destruct (tiles_split _ _ _ _ _ _ _ _ Ht) as (Hpe & Hc & Htpre & Htpost & Hb1 & Hb2).
  pose proof (co_min _ _ _ _ Hc) as H16. pose proof (co_mod _ _ _ _ Hc) as Hm8. simpl in H16, Hm8.
  pose proof Htpre as Htpre2. rewrite Hpre in Htpre2. apply tiles_app in Htpre2 as [Htpre' Htb].
  change (base_addr g) with (base_addr h) in *. change (hp_mem g) with (hp_mem h) in *.
  rewrite <- Hae in Htpre', Htb. destruct (lone_free_total _ _ _ _ _ Hlb Htb) as [Hb0 Hbm].
  assert (Hle : base_addr h <= a).
  { destruct pre' as [|c l] eqn:El; [simpl in Hae; lia|].
    pose proof (tiles_bounds _ _ _ _ _ c Htpre' ltac:(apply list_elem_of_here)). unfold ck_end in *. lia. }
  destruct (merge_next_ok g F p s pre post Ht HFC' HF h1 F1 pre' a (s + free_total before) Hm1 Hf1 Hsub1 Hfr1
    ltac:(lia) Hle ltac:(lia)) as (after & post' & F2 & h2 & E2 & Hpost & Hla & Hstart & Hm2 & Hf2 & Hsub2 & Hfr2 & pu & Htpost').
  { intros c Hc'. rewrite Hpre. apply elem_of_app. by left. }
  change (hp_mem g) with (hp_mem h) in *. change (heap_end g) with (heap_end h) in *.
  set (n := s + free_total before + free_total after) in *.
  pose proof Htpost as Htpost2. rewrite Hpost in Htpost2. apply tiles_app in Htpost2 as [Hta _].
  destruct (lone_free_total _ _ _ _ _ Hla Hta) as [Ha0 Ham].
  assert (Hne : a + n <= heap_end h).
  { destruct post' as [|d l] eqn:El; [simpl in Htpost'; lia|].
    pose proof (tiles_bounds _ _ _ _ _ d Htpost' ltac:(apply list_elem_of_here)) as Hd.
    cbn [tiles] in Htpost'. unfold ck_end in *. lia. }
  assert (Hsubset : forall c, c ∈ (pre' ++ post')%list -> c ∈ (pre ++ Chunk p s true :: post)%list).
  { intros c. rewrite Hpre, Hpost, !elem_of_app, elem_of_cons, !elem_of_app. tauto. }
  assert (Hra : rd 4 (hp_mem h2) a = rd 4 (hp_mem h) a).
  { assert (exists c, c ∈ (pre ++ Chunk p s true :: post)%list /\ ck_addr c = a) as (c & Hc' & <-).
    { destruct Hlb as [->|(x & k & ->)]; cbn [tiles free_total foldr ck_used ck_size ck_addr] in *.
      - exists (Chunk p s true). split; [apply elem_of_app; right; apply list_elem_of_here|simpl; lia].
      - exists (Chunk x k false). rewrite Hpre, <- app_assoc. split; [apply elem_of_app; right; apply list_elem_of_here|simpl; lia]. }
    apply (links_tags g F p s pre post Ht HFC' HF h2 c Hm2 Hc'). }
  destruct (finish_free g F p s pre post Ht HFC' HF h2 F2 pre' a n post' pu Hm2 Hf2 Hsub2 Hfr2 Htpre' Hlast Htpost' Hstart
    Hra Hpia ltac:(lia)) as (h' & E3 & Hm3 & Ht3 & F3 & Hf3 & Hfr3); [|done|done|done|].
  { subst n. rewrite (Z.add_mod (s + _)), (Z.add_mod s), Hm8, Hbm, Ham by lia. done. }
  exists h', (pre' ++ Chunk a n false :: post')%list. rewrite (free_enter F HFC). fold g.
  rewrite (ebind_eq _ _ _ _ _ E1), (ebind_eq _ _ _ _ _ E2).
  assert (Hsame : same_place h h') by (unfold same_place; by rewrite (mv_heap _ _ _ Hm3)).
  split_and!; [exact E3| | | |exact Hsame].
  - replace (Chunk a n false) with (Chunk (p - free_total before) (free_total before + s + free_total after) false)
      by (f_equal; lia).
    apply free_join; [|done..]. by rewrite Hpre, Hpost, <- app_assoc.
  - destruct Hsame as (S1 & S2 & S3 & S4).
    assert (Hsz : total_free_size h' = total_free_size h + s /\ highmark_size h' = highmark_size h)
      by (by rewrite (mv_heap _ _ _ Hm3)).
    destruct Hsz as [Hfree Hhi].
    assert (Htot' : total_free_size h' = free_total (pre' ++ Chunk a n false :: post')).
    { rewrite Hfree, Htot, Hpre, Hpost, !free_total_app. cbn [free_total foldr ck_used ck_size].
      repeat change (foldr _ 0 ?l) with (free_total l). rewrite !free_total_app. lia. }
    split; rewrite ?S3, ?S4; [by unfold heap_end; rewrite S3, S4|eauto|exact Htot'| |done].
    rewrite Hhi, Hfree. lia.
  - intros c k Hc' Hu Hk. assert (Hc2 : c ∈ (pre' ++ post')%list).
    { rewrite elem_of_app, elem_of_cons in *. destruct Hc' as [?|[->|?]]; [auto|done|auto]. }
    change (hp_mem h) with (hp_mem g).
    apply (data_frame g _ F Ht (fc_layout _ _ HFC') HF _ _ c Hm3 (Hsubset c Hc2) Hu); [|done].
    intros j [Hj|Hj]; [by left|right]. apply elem_of_app in Hc2 as [Hc2|Hc2].
    + pose proof (tiles_bounds _ _ _ _ _ _ Htpre' Hc2). unfold ck_end in *. lia.
    + pose proof (tiles_bounds _ _ _ _ _ _ Htpost' Hc2) as Hcb.
      destruct Hj as [Hj|[Hj _]]; [lia|]. destruct post' as [|d l]; [by apply elem_of_nil in Hc2|].
      cbn [tiles] in Htpost'. destruct Htpost' as (Hda & Hdok & Htl). apply elem_of_cons in Hc2 as [->|Hc2]; [lia|].
      pose proof (tiles_bounds _ _ _ _ _ _ Htl Hc2). destruct Hdok. lia.
Qed.
End Release.

Lemma free_run `{HeapLayout} h cs p s :
  heap_ok h cs -> Chunk p s true ∈ cs ->
  exists h' cs', gc_free_vo (p + 4) h = Ok (GC_SUCCESS, h') /\ free_step cs p cs' /\ heap_ok h' cs' /\
    same_contents cs' (hp_mem h) (hp_mem h') /\ same_place h h'.
Proof. intros Hok Hp. apply list_elem_of_split in Hp as (pre & post & ->). by eapply free_run_at. Qed.
