(* ===== verification/EmsInit.v ===== *)
(** * Creation

    [gc_init_with_pool] leaves one free chunk, as large as the pool allows. *)

From S2P Require Import Prelude Instance Ems EmsHeader EmsTree EmsFree EmsChunks EmsHeap EmsAlloc EmsRelease.
#[local] Open Scope Z_scope.
#[local] Open Scope ems_scope.

(** ** Rounding *)

Lemma land_not7 w v : 3 <= w -> in_u w v -> Z.land v (uwrap w (Z.lnot 7)) = 8 * (v / 8).
Proof.
  intros Hw Hv. replace (8 * (v / 8)) with (Z.shiftl (Z.shiftr v 3) 3)
    by (rewrite Z.shiftl_mul_pow2, Z.shiftr_div_pow2 by lia; change (2 ^ 3) with 8; lia).
  apply Z_bits_eq. intros i Hi. rewrite Z.land_spec, uwrap_testbit by lia.
  rewrite Z.shiftl_spec by lia. rewrite Z.lnot_spec by lia. change 7 with (Z.ones 3).
  destruct (Z.lt_ge_cases i 3).
  - rewrite Z.ones_spec_low by lia. rewrite (Z.testbit_neg_r _ (i - 3)) by lia. by rewrite !andb_false_r.
  - rewrite Z.ones_spec_high, Z.shiftr_spec by lia. cbn [negb]. rewrite andb_true_r.
    replace (i - 3 + 3) with i by lia. zcmp; [by rewrite andb_true_r|].
    by rewrite (in_u_testbit w v i) by (done || lia).
Qed.

Lemma align_8_eq a : 0 <= a -> a + 7 < 2 ^ 64 -> align_8 a = 8 * ((a + 7) / 8).
Proof.
  intros. unfold align_8. rewrite (uwrap_id 64 (a + 7)) by (unfold in_u; lia).
  apply land_not7; [lia|unfold in_u; lia].
Qed.

(** ** List heads *)

(** Two header fields, one write. *)
Lemma hmu_upd_two p f g (k : E unit) h :
  inside h p 4 -> (forall v, in_u 32 v -> in_u 32 (f v)) -> bytes_ok (hp_mem h) ->
  (edo hmu_upd p f in edo hmu_upd p g in k) h =
    k (hp_set_mem (wr 4 (wr 4 (hp_mem h) p (f (rd 4 (hp_mem h) p))) p (g (f (rd 4 (hp_mem h) p)))) h).
Proof.
  intros Hi Hf Hb. rewrite (ebind_eq _ _ _ _ _ (hmu_upd_eq p f h Hi)).
  set (h1 := hp_set_mem _ h). assert (Hi1 : inside h1 p 4) by exact Hi.
  rewrite (ebind_eq _ _ _ _ _ (hmu_upd_eq p g h1 Hi1)). subst h1. cbn [hp_mem hp_set_mem].
  rewrite rd_wr_eq. change (8 * Z.of_nat 4) with 32.
  rewrite (uwrap_id 32 (f _)) by (apply Hf, (rd_range 4); done). done.
Qed.

Lemma rd_zero n m a : (forall k, a <= k < a + Z.of_nat n -> mem_byte m k = 0) -> rd n m a = 0.
Proof.
  intros Hz. rewrite (rd_ext n m ∅) by (intros k Hk; rewrite Hz by lia; done).
  unfold rd. assert (read_bytes ∅ a n = replicate n 0) as ->.
  { clear. revert a. induction n as [|n IH]; intros a; [done|]. cbn [read_bytes replicate]. by rewrite IH. }
  clear. induction n as [|n IH]; [done|]. cbn [replicate le_val]. by rewrite IH.
Qed.

Section Init.
Context `{HeapLayout}.

Lemma init_lists_ok n i h :
  0 <= i -> i + Z.of_nat n <= 32 -> bytes_ok (hp_mem h) ->
  (forall j, 0 <= j < 32 -> inside h (normal_list j h) 8) ->
  exists h', init_normal_list n i h = Ok (tt, h') /\
    moves (fun k => normal_list i h <= k < normal_list (i + Z.of_nat n) h) h h' /\
    forall j, i <= j < i + Z.of_nat n -> nxt (hp_mem h') (normal_list j h) = 0.
Proof.
  revert i h. induction n as [|n IH]; intros i h Hi Hn Hb Hin.
  { exists h. split_and!; [done|apply moves_refl|lia]. }
  cbn [init_normal_list]. unfold ebind at 1. cbn [eget].
  destruct (Hin i ltac:(lia)) as [Hi1 Hi2].
  rewrite (ebind_eq _ _ _ _ _ (clear_eq (normal_list i h) 8 h (conj Hi1 Hi2))).
  set (h1 := hp_set_mem (zero_bytes _ _ _) h).
  assert (Hb1 : bytes_ok (hp_mem h1)) by exact (bytes_ok_zero _ _ _ Hb).
  rewrite hmu_upd_two; [|change (inside h (normal_list i h) 4); unfold inside; lia|intros v Hv; by apply in_u_set_ut|done].
  set (v := hdr_set_ut _ _). set (m2 := wr 4 (hp_mem h1) _ v). set (h2 := hp_set_mem (wr 4 m2 _ _) h1).
  assert (Hm02 : moves (fun k => normal_list i h <= k < normal_list i h + 8) h h2).
  { split; [done|intros; by repeat apply bytes_ok_wr|]. intros k.
    destruct (decide (normal_list i h <= k < normal_list i h + 8)); [by left|right].
    subst h2 m2 h1. cbn [hp_mem hp_set_mem]. rewrite !mem_byte_wr by lia.
    rewrite mem_byte_zero_bytes. zcmp; cbn [andb]; lia || done. }
  assert (Hz : rd 4 (hp_mem h2) (normal_list i h + 4) = 0).
  { subst h2 m2. cbn [hp_mem hp_set_mem]. rewrite !(rd_wr_ne 4 4) by lia. apply rd_zero. intros k Hk.
    subst h1. cbn [hp_mem hp_set_mem]. rewrite mem_byte_zero_bytes. zcmp; cbn [andb]; lia. }
  destruct (IH (i + 1) h2 ltac:(lia) ltac:(lia)) as (h' & E & Hm & Hnx).
  { by apply (mv_bytes _ _ _ Hm02). }
  { intros j Hj. apply (Hin j Hj). }
  exists h'. split_and!; [done| |].
  - eapply moves_trans; (eapply moves_weaken; [|first [exact Hm02|exact Hm]]); intros k Hk; cbn beta in Hk;
      unfold normal_list in *; simpl in *; lia.
  - intros j Hj. destruct (decide (j = i)) as [->|Hne]; [|apply Hnx; lia].
    unfold nxt.
    rewrite (moves_rd _ _ _ 4 _ Hm), Hz; [done|]. intros k Hk. unfold normal_list in *. simpl in *. lia.
Qed.
End Init.
